(* ===== verification/_CoqProject ===== *)
-Q . S2P
Prelude.v
CString.v
UsbDefines.v
UsbState.v
UsbCdrom.v
UsbModes.v
UsbEvents.v
UsbUevent.v
UsbMain.v
UsbInv.v
UsbThms.v
UsbParse.v
UsbModeThms.v
UsbCdromThms.v
Alarm.v
ComHardware.v
ComEvents.v
ComMain.v
ComThms.v
ComAlarmThms.v
Edid.v
BootMode.v
Power.v
AplogState.v
AplogUtil.v
AplogBuf.v
AplogIo.v
AplogMain.v
AplogInv.v
AplogThms.v
AplogFd.v
AplogStorage.v
AplogWitness.v
HdmiHal.v
HdmiThms.v
AudioCond.v
AudioWrap.v
AudioWrapThms.v
AudioMute.v
MotoBox.v
MotoThms.v
TestCmd.v
TestThms.v
TestExpr.v
Motorild.v
MotorildThms.v
Wrigleyd.v
Modemlog.v
ModemThms.v
ModemDir.v
Filtertool.v
Gps.v
Cp.v
CpThms.v
CpTruth.v
Md5.v
Md5Thms.v
Draw.v
DrawThms.v
DrawTegra.v
DrawTegraThms.v
PcmInterval.v
PcmIntervalThms.v
PcmMask.v
PcmMaskThms.v
PcmParams.v
PcmParamsThms.v
PcmSet.v
PcmSetThms.v
PcmCodec.v
PcmCodecThms.v
