(* ===== verification/Prelude.v ===== *)
(** * The device daemons of the Motorola OMAP4 common tree

    ** The program

    The repository is the part of an Android build that the Motorola OMAP4
    phones share.  Its own C code is a set of small programs that talk to the
    kernel, to Android properties and to each other through files and sockets:
    - [usbd] ([src/usbd/usb_app.c]) decides in which USB mode the phone
      enumerates.  It watches the USB driver, the kernel's uevents and the USB
      service of the framework, and writes the mode to the driver.
    - [charge_only_mode] draws the charging picture of a phone that is switched
      off; a queue of alarms and the input events drive it.
    - [mot_boot_mode] reads why the phone was started and sets the property that
      selects normal start, charging or recovery.
    - [libpower] is the power HAL; the framework calls it from many threads.
    - [audio/hdmi_audio_utils.c] reads the audio capabilities of a display out of
      its EDID.
    - [audio/hdmi_audio_hw.c] is the HAL that plays sound on that display.
    - [audio/wrapper.c] wraps the vendor's audio HAL of the previous Android
      release: it converts the devices of the new one, counts the streams in
      use, and mutes the vendor's route while a stream is opened.  [gps/wrapper.c]
      does the like for the GPS HAL.
    - [aplogd] collects the Android and kernel logs in buffers, writes them to
      /data or to a memory card, rotates and archives them.  Beside it, [modemlog]
      reports kernel panics and watchdog resets of the last run, and [logfilter-get]
      and [logfilter-set] ([filtertool.c]) handle the properties that filter the log.
    - [motobox] is a set of commands: it reads and sets the configuration of the
      phone ([getconfig], [setconfig]), asks for a wipe ([masterclear]), computes
      digests ([md5sum]), prepares swap devices, evaluates conditions ([test]), copies
      files and trees ([cp]).
    - [motorild] sets routes and raises the processor speed for the radio process,
      which asks for it through [motorilc]; [wrigleyd] keeps a routing rule alive.
    - [alsa-lib] is a copy of the ALSA library for the audio HAL.  Of it the core of
      the PCM interface is modelled: the space of hardware parameters that a client
      narrows until one configuration remains, and the telephone codecs.

    ** How C is modelled

    A C function is a program [prog C S A] of this file: [S] is the record of
    the static and global variables of its process, [C] the type of the calls it
    makes to the kernel and to libraries, [A] its result.  A run threads the
    variables and a trace of the calls with their answers.  The answers come
    from an environment, an arbitrary function of the position in the trace and
    of the call, so that a theorem about all environments covers every behaviour
    of the outside.  Integers are [Z] with the wrap-around or the saturation of
    their C type written out where the code can reach it; buffers and strings
    are [string] (file CString), with NUL bytes, truncation by [snprintf] and
    bytes that were not written made explicit.  Log output is not modelled.

    Reasoning is by weakest preconditions ([wp], tactics [wp_step] and [wp_go],
    hint database [wpdb]) and by three classes of facts that a tactic proves by
    walking over a program: [Logs] (the trace only grows), [Framed] (how the
    variables may change), [Keeps] (a property of variables and trace is kept).
    [FdCalls] and [fd_balance] count the opens and closes of a descriptor.

    ** Files

    - Prelude: assignments, programs, [wp], the classes above, shared lemmas.
    - CString: strings and the functions of the C library on them.
    - usbd: UsbDefines (enumerations, strings and the table of modes of
      [usb_defines.h] and [usb_app.c]); UsbState (variables and calls); UsbCdrom
      (loop device, CD-ROM image, hooks of the modes); UsbModes (choice and
      setting of a mode); UsbEvents (messages of the service, events of the
      driver); UsbUevent (cable state and uevents); UsbMain ([main] and one
      iteration of its loop, [main_init] and [main_iter]).
      UsbInv proves the invariant of the loop.  UsbThms: with a factory cable
      only factory modes are set, the select set is complete, the cable
      variables agree.  UsbModeThms: a request of the service is acknowledged
      and carried out, the alternate modes have the functions they promise, only
      authentic uevents change the cable state.  UsbParse: the event of the
      driver and the port of a disk are read back.  UsbCdromThms: the loop
      device is the first free one, no descriptor is leaked, the device number
      decodes, the version key stays in its buffer.
    - charge_only_mode: Alarm ([alarm.c]: the list of alarms, the interface
      [AlarmQueue] with its laws [AlarmQueueLaws], and the list as its
      instance); ComHardware ([hardware.c], blanking of [screen.c]); ComEvents
      ([events.c]); ComMain ([main.c], over any alarm queue).  ComThms is proved
      against the interface: at most one timer of a kind is pending and none
      while the display is off; what a power event shows and when it powers off.
      ComAlarmThms: the list refines an unordered collection served by deadline,
      the poll timeout is exact to a millisecond, the alarm loop returns, the
      backdoor opens exactly when failed attempts are followed by its key sequence.
      Draw ([draw.c], and the framebuffer of [screen.c]) and DrawThms: with each of
      the three sets of pictures drawing stays on the surface and inside the pictures,
      an update writes the other page than that of [yoffset] and, unless the display is
      blanked, makes the kernel display it, the start picture decodes, all pictures are
      loaded or none.
      DrawTegra ([draw_tegra.c], [screen_tegra.c]: rows that are farther apart than the
      display is wide, drawing to the mapped memory itself, over the pictures and row
      loops of Draw) and DrawTegraThms: the stride does not change the picture, an
      update leaves the displayed page alone, and the start picture, which is decoded
      without the stride, is skewed.
    - Edid: the parser of the E-EDID; it inverts the encoding of the standard
      and stays in bounds when the CEA block is the first extension.
    - HdmiHal ([hdmi_audio_hw.c]: streams on the heap of the HAL, its operations,
      the client as a step relation [hdmi_step]) and HdmiThms: PCM handles are
      neither leaked nor closed twice, what a write answers, a stream plays again
      after errors, and the layouts on offer are those of the E-EDID.
    - AudioWrap ([wrapper.c]: its arrays of streams, transfers, the functions that
      hold its mutex, the opening and closing of streams and of the device; its
      threads as a step relation [wrap_step]).  AudioWrapThms: the counter of a
      stream is the number of transfers inside the vendor's HAL, and a stream that is
      opened while another transfers can reach freed memory.  AudioCond takes the wait
      for a stream, a guard of AudioWrap, apart into the operations of its macros on
      mutexes and conditions: no wake-up is lost and every call ends.  AudioMute: a mute is always undone, the vendor's
      streams are opened and closed in pairs, and the functions as written are
      simulated by the steps.
    - Gps ([gps/wrapper.c]): tables of functions with replaced entries; the vendor
      creates its threads through the wrapper.
    - BootMode: [mot_boot_mode.c]; the property it sets is the one a decision
      table calls for.
    - Power: [power.c] and its critical sections as steps of concurrent threads;
      in every interleaving no descriptor is leaked, and the steps implement the
      function.
    - aplogd: AplogState (data, variables, calls; the outcomes of loops);
      AplogUtil ([aplogd_util.c]); AplogBuf ([rambuf.c] and the output files of
      [log_io.c]); AplogIo (the inputs and the storages of [log_io.c]); AplogMain
      ([aplogd.c], the main loop, the daemon as a step relation [apl_step]).
      AplogInv and AplogThms: no buffer overflows in any state of the daemon, a
      buffer reaches its file, output terminates, and what a short write does.
      AplogFd: the log files are neither leaked nor closed twice.  AplogStorage:
      the daemon leaves a storage that is removed, matches messages by the whole
      path, keeps the newest backups, and drops root before it opens a file.
      AplogWitness: these theorems on concrete runs.
    - Modemlog ([modemlog.c]: streams, the ring of lines, the linked list of files on
      a heap, [main]), ModemThms (what the report of a panic contains, the kernel log
      that is appended to the report of a reset, and what unusual logs do), ModemDir
      (the linked list refines a list, the directory is pruned oldest first, a panic
      is reported once).  Filtertool ([filtertool.c]): what is listed and set.
    - motobox: MotoBox (dispatch, [getconfig.c], [setconfig.c], [masterclear.c],
      [ptf.c], the swap tools) and MotoThms: the config-ids that are accepted,
      [setconfig] as a transaction, the answer of [masterclear], the bounds of
      [getconfig -list], dispatch ends.  Md5 ([md5sum.c]) and Md5Thms: the digest
      is that of RFC 1321, written as a reference definition of its own, for
      every way of cutting the message in pieces, and no access leaves an array.  TestCmd ([test.c], an evaluator
      over the array of arguments), TestThms (it ends on every command line, inside
      the array) and TestExpr (the grammar as trees with a meaning of their own;
      the evaluator gives the words of a tree that meaning).  Cp ([cp.c], the two global
      paths as the bytes of their arrays), CpThms (cp ends on every tree of finite files and
      stays in its arrays but for three cases) and CpTruth (what an exit status of 0 means, and what it does not).
    - motorild: Motorild ([motorild.c] one connection at a time, [motorilc.c], the
      struct on the socket as its bytes) and MotorildThms: a request is carried out
      whatever the pieces it arrives in, descriptors are closed, the client returns,
      and what a request without an end does.  Wrigleyd ([wrigleyd.c]): when the
      routing rule is added again.
    - alsa-lib: PcmInterval ([interval.c], [interval_inline.h]: intervals of rational
      numbers with open and closed bounds in 32-bit words) and PcmIntervalThms:
      refining is intersecting, the arithmetic contains all results, and where the
      functions differ from their meaning.  PcmMask and PcmMaskThms
      ([mask_inline.h]): masks as the words of their memory; the bits of the mask
      behind are within reach.  PcmParams ([pcm_params.c] and the widths of
      [pcm_misc.c]: the rules between the parameters and [snd_pcm_hw_refine_soft])
      and PcmParamsThms: the loop over the rules ends and no configuration that
      satisfies the relations is lost.  PcmSet (the functions that read and narrow
      one parameter; the refinement of the device is their parameter) and PcmSetThms:
      on every device that keeps a configuration (class [KeepsConfig], with a device
      without and one with restrictions as instances) setting one of its values keeps
      it and removes the other values, a test changes nothing, a try is undone when it
      fails.  PcmCodec ([pcm_mulaw.c], [pcm_alaw.c],
      [pcm_adpcm.c]: one sample) and PcmCodecThms: code words come back, the error is
      bounded and monotonic, the ADPCM decoder stays in the state of the encoder.

    ** Fuel

    Loops that the outside can prolong take fuel and answer [NoFuel] without
    enough of it.  One unit per byte of a buffer is enough for the output of
    [aplogd] when [write] does not answer 0 (AplogThms); the alarm loop of
    [charge_only_mode] needs one unit per alarm that is due (ComAlarmThms); the
    block scan of the EDID cannot run longer than the block (Edid).  Twelve
    iterations of [dispatch] cover the six poll entries, each of which is removed
    at most once ([dispatch_enough] of AplogThms).  The read loop of
    [md5sum] needs one unit per piece the file arrives in and one for its end
    ([md5_file]); [motobox] calls itself at most once per argument
    ([motobox_main_total]); [test] needs four units per word and four more
    ([test_returns]); reading a request takes at most one unit per byte of the
    struct ([read_call_total]); [checkdir] needs more units than the directory has
    entries, the loops over a stream more than it has lines or bytes; the recursion of
    [cp] is no deeper than MAXPATHLEN, the length of its paths.  The rule loop of
    [snd_pcm_hw_refine_soft] needs more units than the parameter space has values
    ([space]), for each of its turns but the last removes one.  The infinite loops of
    the daemons are step relations or are run one iteration at a time.

    ** What is not modelled

    The decoding of log entries by liblog and the kernel (calls); [getopt_long]
    (a parameter of AplogMain); zlib (the unpacked pictures are data of Draw);
    tinyalsa, the parameter strings of cutils and the bootloader message of the
    recovery system (calls of HdmiHal and MotoBox); the constants of the Android
    audio headers (the class [AudioPlatform]).  In ComMain the framebuffer
    functions are calls; Draw models them.  In DrawTegra loading a picture, which is
    the code of [draw.c], is a call.  Of [alsa-lib], which is vendored, the files and
    functions that are not named above are left out: of [pcm_params.c] the refinement
    of a slave, the final choice of [snd_pcm_hw_params] and the disabled strategies; of
    the codecs the plugins around them; the configuration files, the control, mixer and
    sequencer interfaces.  [evtest] only prints.  Left out too: C++ and Java code,
    headers without logic, policies and build files. *)

From Stdlib Require Export ZifyBool.
From stdpp Require Export base list list_numbers strings gmap numbers pretty.

#[global] Open Scope Z_scope.

(** ** Assignment to one variable of a record

    A C assignment [x = v] is [s <| x := v |>] on the record of the program's
    variables.  The setter of a projection is computed from the record's eta
    expansion, which each record declares once as an instance of [Eta]. *)

Class Eta (R : Type) := eta : R -> R.

Class Setter {R T : Type} (proj : R -> T) := set_field : (T -> T) -> R -> R.
#[global] Arguments set_field {R T} proj {_} _ _.

Ltac solve_setter :=
  match goal with
  | |- @Setter ?R ?T ?proj =>
      let e := eval hnf in (@eta R _) in
      match eval pattern proj in e with
      | ?upd _ =>
          let u := eval cbv beta in (fun (f : T -> T) => upd (fun r => f (proj r))) in
          exact u
      end
  end.

#[global] Hint Extern 1 (Setter _) => solve_setter : typeclass_instances.

Declare Scope assign_scope.
Notation "s <| f := v |>" := (set_field f (fun _ => v) s)
  (at level 1, f constr at level 0, left associativity,
   format "s  <|  f  :=  v  |>") : assign_scope.
#[global] Open Scope assign_scope.

(** ** System calls, environments and effectful programs

    Every daemon of the tree is a C program whose state is its static and
    global variables and whose effects are system and library calls.  A
    component declares its calls as an inductive type [C] and its variables as
    a record [S]; a C function is a [prog C S A]: it reads the answers of the
    outside world from an environment, changes the variables, and appends every
    call it makes with its answer to a trace.  The environment is an arbitrary
    function of the position in the trace and of the call, so a theorem that
    quantifies over it covers every behaviour of the kernel and of libc. *)

(** The answer to a call: the C return value, [errno], the bytes it delivered
    (a buffer, a property value, a line) and further out-parameters. *)
Record resp := Resp {
  r_ret : Z;
  r_errno : Z;
  r_data : string;
  r_aux : list Z }.

(** The answer of a call that succeeds and returns [n]. *)
Definition answer (n : Z) : resp := Resp n 0 "" [].

Record sys {C S : Type} := Sys { st : S; tr : list (C * resp) }.
Arguments sys : clear implicits.

Definition env (C : Type) : Type := nat -> C -> resp.

Definition prog (C S A : Type) : Type := env C -> sys C S -> A * sys C S.

Section Programs.
Context {C S : Type}.

#[global] Instance prog_ret : MRet (prog C S) := fun _ a _ s => (a, s).

#[global] Instance prog_bind : MBind (prog C S) :=
  fun _ _ k m e s => let '(a, s') := m e s in k a e s'.

(** Read the program's variables. *)
Definition gets {A} (f : S -> A) : prog C S A := fun _ s => (f (st s), s).

(** Assign the program's variables. *)
Definition modify (f : S -> S) : prog C S unit :=
  fun _ s => (tt, Sys _ _ (f (st s)) (tr s)).

(** Make a call: ask the environment, log the call and its answer. *)
Definition call (c : C) : prog C S resp := fun e s =>
  let r := e (length (tr s)) c in (r, Sys _ _ (st s) (tr s ++ [(c, r)])).

(** [if (b) m;] *)
Definition when (b : bool) (m : prog C S unit) : prog C S unit :=
  if b then m else mret tt.

(** [for (x in l) f(x);] *)
Fixpoint for_each {X} (l : list X) (f : X -> prog C S unit) : prog C S unit :=
  match l with
  | [] => mret tt
  | x :: l => f x ;; for_each l f
  end.

(** The calls made so far, without their answers. *)
Definition calls (s : sys C S) : list C := (tr s).*1.
End Programs.

(** Run a program from given variables with an empty trace. *)
Definition exec {C S A} (m : prog C S A) (e : env C) (x : S) : A * sys C S :=
  m e (Sys _ _ x []).

(** ** Weakest preconditions *)

Definition wp {C S A} (m : prog C S A) (e : env C) (s : sys C S)
    (Q : A -> sys C S -> Prop) : Prop := Q (m e s).1 (m e s).2.

Section WP.
Context {C S : Type}.
Implicit Types (e : env C) (s : sys C S).

Lemma wp_ret {A} (a : A) e s (Q : A -> sys C S -> Prop) :
  Q a s -> wp (mret a) e s Q.
Proof. done. Qed.

Lemma wp_bind {A B} (m : prog C S A) (k : A -> prog C S B) e s Q :
  wp m e s (fun a s' => wp (k a) e s' Q) -> wp (mbind k m) e s Q.
Proof.
  unfold wp, mbind, prog_bind. by destruct (m e s).
Qed.

Lemma wp_gets {A} (f : S -> A) e s (Q : A -> sys C S -> Prop) :
  Q (f (st s)) s -> wp (gets f) e s Q.
Proof. done. Qed.

Lemma wp_modify (f : S -> S) e s (Q : unit -> sys C S -> Prop) :
  Q tt (Sys _ _ (f (st s)) (tr s)) -> wp (modify f) e s Q.
Proof. done. Qed.

Lemma wp_call c e s (Q : resp -> sys C S -> Prop) :
  (forall r, r = e (length (tr s)) c -> Q r (Sys _ _ (st s) (tr s ++ [(c, r)]))) ->
  wp (call c) e s Q.
Proof. intros H. by apply H. Qed.

Lemma wp_when b m e s (Q : unit -> sys C S -> Prop) :
  (b = true -> wp m e s Q) -> (b = false -> Q tt s) -> wp (when b m) e s Q.
Proof. destruct b; intros H1 H2; [by apply H1 | by apply H2]. Qed.

Lemma wp_wand {A} (m : prog C S A) e s (Q1 Q2 : A -> sys C S -> Prop) :
  wp m e s Q1 -> (forall a s', Q1 a s' -> Q2 a s') -> wp m e s Q2.
Proof. unfold wp. eauto. Qed.

(** What holds of every result. *)
Lemma wp_always {A} (m : prog C S A) e s (Q : A -> sys C S -> Prop) :
  (forall a s', Q a s') -> wp m e s Q.
Proof. intros H. apply H. Qed.

Lemma wp_and {A} (m : prog C S A) e s (Q1 Q2 : A -> sys C S -> Prop) :
  wp m e s Q1 -> wp m e s Q2 -> wp m e s (fun a s' => Q1 a s' /\ Q2 a s').
Proof. unfold wp. eauto. Qed.

(** A program computes its own result. *)
Lemma wp_self {A} (m : prog C S A) e s :
  wp m e s (fun a s' => a = (m e s).1 /\ s' = (m e s).2).
Proof. done. Qed.

(** A loop over a list preserves what its body preserves. *)
Lemma wp_for_each {X} (l : list X) (f : X -> prog C S unit) e s
    (I : sys C S -> Prop) :
  I s -> (forall x s, x ∈ l -> I s -> wp (f x) e s (fun _ s' => I s')) ->
  wp (for_each l f) e s (fun _ s' => I s').
Proof.
  intros HI Hf. revert s HI.
  induction l as [|x l IH]; intros s HI; [done|]. cbn.
  apply wp_bind. eapply wp_wand; [apply Hf; [left | done] |].
  intros [] s' HI'. apply IH; [|done]. intros; apply Hf; [by right | done].
Qed.
End WP.

(** ** Generic lemmas *)

Lemma Forall_filter {A} (P Q : A -> Prop) `{!forall x, Decision (Q x)} l :
  Forall P l -> Forall P (filter Q l).
Proof.
  intros Hl. apply Forall_forall. intros x [_ Hx]%list_elem_of_filter.
  revert x Hx. by apply Forall_forall.
Qed.

Lemma length_filter_filter {A} (P Q : A -> Prop)
    `{!forall x, Decision (P x)} `{!forall x, Decision (Q x)} l :
  (length (filter P (filter Q l)) <= length (filter P l))%nat.
Proof.
  induction l as [|x l IH]; [done|]. rewrite (filter_cons Q), (filter_cons P x).
  repeat case_decide; rewrite ?filter_cons; repeat case_decide; cbn; try done; lia.
Qed.

Lemma calls_snoc {C S} (x : S) (t : list (C * resp)) c r :
  calls (Sys _ _ x (t ++ [(c, r)])) = t.*1 ++ [c].
Proof. unfold calls. cbn [tr]. by rewrite fmap_app. Qed.

(** The number of calls of a trace that satisfy [p]. *)
Definition count_calls {C} (p : C -> bool) (t : list (C * resp)) : Z :=
  foldr (fun x n => (if p x.1 then 1 else 0) + n) 0 t.

Lemma count_calls_app {C} (p : C -> bool) t1 t2 :
  count_calls p (t1 ++ t2) = count_calls p t1 + count_calls p t2.
Proof. unfold count_calls. induction t1 as [|x t1 IH]; cbn; [done|]. rewrite IH. lia. Qed.

Lemma count_calls_snoc {C} (p : C -> bool) t c r :
  count_calls p (t ++ [(c, r)]) = count_calls p t + (if p c then 1 else 0).
Proof. rewrite count_calls_app. unfold count_calls. cbn. lia. Qed.

(** ** File descriptors in a trace *)

(** How a call and its answer change the number of times [fd] is open. *)
Class FdCalls (C : Type) := fd_delta : Z -> C * resp -> Z.

(** Opens minus closes of [fd] in a trace. *)
Definition fd_balance {C} `{!FdCalls C} (fd : Z) (t : list (C * resp)) : Z :=
  foldr Z.add 0 (fd_delta fd <$> t).

Section FdBalance.
  Context {C : Type} `{!FdCalls C}.

Lemma fd_balance_app fd (t1 t2 : list (C * resp)) :
  fd_balance fd (t1 ++ t2) = fd_balance fd t1 + fd_balance fd t2.
Proof.
  unfold fd_balance. induction t1 as [|x t1 IH]; cbn; [done|].
  rewrite IH. lia.
Qed.

Lemma fd_balance_nil fd : fd_balance fd (@nil (C * resp)) = 0.
Proof. done. Qed.

Lemma fd_balance_one fd (x : C * resp) : fd_balance fd [x] = fd_delta fd x.
Proof. unfold fd_balance. cbn. lia. Qed.
End FdBalance.

#[global] Arguments fd_balance : simpl never.

Create Rewrite HintDb fdbal.
#[export] Hint Rewrite @fd_balance_app @fd_balance_nil @fd_balance_one : fdbal.

(** Solve an equation on balances after the trace has been computed. *)
Ltac fd_solve :=
  cbn [st tr]; autorewrite with fdbal;
  repeat match goal with |- context [fd_delta ?fd ?x] =>
    let d := eval cbn in (fd_delta fd x) in change (fd_delta fd x) with d end;
  repeat case_match; lia.

(** ** Automation: symbolic execution of a program in a [wp] goal

    [wp_step] executes the head command; a call of a function is executed
    through its specification when the hint database [wpdb] holds one. *)

Create HintDb wpdb.

(** [lia] with division and remainder by constants. *)
Ltac dlia := Z.to_euclidean_division_equations; lia.

Ltac wp_case x :=
  let E := fresh "E" in destruct x eqn:E.

Ltac wp_step :=
  lazymatch goal with
  | |- wp (mbind _ _) _ _ _ => apply wp_bind
  | |- wp (mret _) _ _ _ => apply wp_ret
  | |- wp (gets _) _ _ _ => apply wp_gets; cbn [st tr]
  | |- wp (modify _) _ _ _ => apply wp_modify; cbn [st tr]
  | |- wp (call _) _ _ _ =>
      let r := fresh "r" in let Hr := fresh "Hr" in
      apply wp_call; intros r Hr; cbn [st tr] in Hr |- *
  | |- wp (when _ _) _ _ _ => apply wp_when; [intros ?E | intros ?E]
  | |- wp (if ?b then _ else _) _ _ _ => wp_case b
  | |- wp (match ?x with _ => _ end) _ _ _ => wp_case x
  | |- wp _ _ _ _ =>
      eapply wp_wand; [solve [eauto with wpdb nocore] | cbn beta; intros ? ? ?]
  end.

Ltac wp_go := repeat wp_step.

(** ** Traces only grow

    [Logs m] holds of every program built from the commands above; the tactic
    [logs] proves it by walking over the program. *)

Class Logs {C S A} (m : prog C S A) : Prop :=
  logs_prefix : forall e s, tr s `prefix_of` tr (m e s).2.

Section Logs.
Context {C S : Type}.

#[global] Instance logs_ret {A} (a : A) : Logs (C := C) (S := S) (mret a).
Proof. intros e s. done. Qed.

#[global] Instance logs_bind {A B} (m : prog C S A) (k : A -> prog C S B) :
  Logs m -> (forall a, Logs (k a)) -> Logs (mbind k m).
Proof.
  intros Hm Hk e s. unfold mbind, prog_bind. specialize (Hm e s).
  destruct (m e s) as [a s']. by etrans; [|apply Hk].
Qed.

#[global] Instance logs_gets {A} (f : S -> A) : Logs (C := C) (gets f).
Proof. intros e s. done. Qed.

#[global] Instance logs_modify (f : S -> S) : Logs (C := C) (modify f).
Proof. intros e s. done. Qed.

#[global] Instance logs_call (c : C) : Logs (S := S) (call c).
Proof. intros e s. by eexists. Qed.

#[global] Instance logs_when b (m : prog C S unit) : Logs m -> Logs (when b m).
Proof. destruct b; [done | intros _; apply _]. Qed.

#[global] Instance logs_for_each {X} (l : list X) (f : X -> prog C S unit) :
  (forall x, Logs (f x)) -> Logs (for_each l f).
Proof. intros Hf. induction l; cbn; apply _. Qed.

Lemma wp_logs {A} (m : prog C S A) `{!Logs m} e s (Q : A -> sys C S -> Prop) :
  wp m e s Q -> wp m e s (fun a s' => Q a s' /\ tr s `prefix_of` tr s').
Proof. intros H. split; [exact H | apply logs_prefix]. Qed.
End Logs.

Ltac logs :=
  repeat first
    [ apply _
    | apply logs_bind; [|intros ?]
    | apply logs_when
    | match goal with
      | |- Logs (if ?b then _ else _) => destruct b
      | |- Logs (match ?x with _ => _ end) => destruct x
      end ].

(** ** What a program may change

    [Framed R m]: whatever the environment answers, the variables before and
    after [m] are related by the preorder [R].  The tactic [framed] walks over
    the program and checks the assignments by computation. *)

Class Framed {C S A} (R : relation S) (m : prog C S A) : Prop :=
  framed_rel : forall e s, R (st s) (st (m e s).2).

Section Framed.
Context {C S : Type} (R : relation S) `{!PreOrder R}.

#[global] Instance framed_ret {A} (a : A) : Framed (C := C) R (mret a).
Proof. intros e s. cbn. reflexivity. Qed.

#[global] Instance framed_bind {A B} (m : prog C S A) (k : A -> prog C S B) :
  Framed R m -> (forall a, Framed R (k a)) -> Framed R (mbind k m).
Proof.
  intros Hm Hk e s. unfold mbind, prog_bind. specialize (Hm e s).
  destruct (m e s) as [a s']. etrans; [exact Hm|apply Hk].
Qed.

#[global] Instance framed_gets {A} (f : S -> A) : Framed (C := C) R (gets f).
Proof. intros e s. cbn. reflexivity. Qed.

#[global] Instance framed_call (c : C) : Framed R (call c).
Proof. intros e s. cbn. reflexivity. Qed.

#[global] Instance framed_when b (m : prog C S unit) :
  Framed R m -> Framed R (when b m).
Proof. destruct b; [done | intros _; apply _]. Qed.

#[global] Instance framed_for_each {X} (l : list X) (f : X -> prog C S unit) :
  (forall x, Framed R (f x)) -> Framed R (for_each l f).
Proof. intros Hf. induction l; cbn; apply _. Qed.

Lemma wp_framed {A} (m : prog C S A) `{!Framed R m} e s :
  wp m e s (fun _ s' => R (st s) (st s')).
Proof. exact (framed_rel (R := R) (m := m) e s). Qed.

Lemma wp_frame {A} (m : prog C S A) `{!Framed R m} e s (Q : A -> sys C S -> Prop) :
  (forall a s', R (st s) (st s') -> Q a s') -> wp m e s Q.
Proof. intros H. apply H, framed_rel. Qed.

Lemma framed_modify (f : S -> S) : (forall v, R v (f v)) -> Framed (C := C) R (modify f).
Proof. intros Hf e s. apply Hf. Qed.
End Framed.

Ltac framed :=
  repeat first
    [ apply _
    | apply framed_bind; [apply _| |intros ?]
    | apply framed_when; [apply _|]
    | apply framed_modify; intros ?; solve [done | cbn; auto]
    | match goal with
      | |- Framed _ (if ?b then _ else _) => destruct b
      | |- Framed _ (match ?x with _ => _ end) => destruct x
      end ].

(** ** What a program keeps

    [Keeps e I m]: with the answers of [e], the property [I] of variables and
    trace holds after [m] when it held before.  The tactic [keeps] walks over the
    program; what remains are the calls and assignments [I] speaks about. *)

Class Keeps {C S A} (e : env C) (I : sys C S -> Prop) (m : prog C S A) : Prop :=
  keeps_inv : forall s, I s -> I (m e s).2.

Section Keeps.
  Context {C S : Type} (e : env C) (I : sys C S -> Prop).

#[global] Instance keeps_ret {A} (a : A) : Keeps e I (mret a).
Proof. intros s. done. Qed.

#[global] Instance keeps_bind {A B} (m : prog C S A) (k : A -> prog C S B) :
  Keeps e I m -> (forall a, Keeps e I (k a)) -> Keeps e I (mbind k m).
Proof.
  intros Hm Hk s Hs. unfold mbind, prog_bind. specialize (Hm s Hs).
  destruct (m e s) as [a s']. by apply Hk.
Qed.

#[global] Instance keeps_gets {A} (f : S -> A) : Keeps e I (gets f).
Proof. intros s. done. Qed.

#[global] Instance keeps_when b (m : prog C S unit) :
  Keeps e I m -> Keeps e I (when b m).
Proof. destruct b; [done | intros _; apply _]. Qed.

#[global] Instance keeps_for_each {X} (l : list X) (f : X -> prog C S unit) :
  (forall x, Keeps e I (f x)) -> Keeps e I (for_each l f).
Proof. intros Hf. induction l; cbn; apply _. Qed.

Lemma keeps_modify (f : S -> S) :
  (forall s, I s -> I (Sys _ _ (f (st s)) (tr s))) -> Keeps e I (modify f).
Proof. intros Hf s. apply Hf. Qed.

Lemma keeps_call (c : C) :
  (forall s r, I s -> I (Sys _ _ (st s) (tr s ++ [(c, r)]))) -> Keeps e I (call c).
Proof. intros Hc s. apply Hc. Qed.

Lemma wp_keeps {A} (m : prog C S A) `{!Keeps e I m} s :
  I s -> wp m e s (fun _ s' => I s').
Proof. intros Hs. by apply keeps_inv. Qed.
End Keeps.

Ltac keeps :=
  repeat first
    [ apply _
    | apply keeps_bind; [|intros ?]
    | apply keeps_when
    | apply keeps_call; intros ? ? ?;
      solve [done | cbn; auto | cbn [tr st] in *; rewrite count_calls_snoc; cbn; lia]
    | apply keeps_modify; intros ?; solve [done | cbn; auto]
    | match goal with
      | |- Keeps _ _ (if ?b then _ else _) => destruct b
      | |- Keeps _ _ (match ?x with _ => _ end) => destruct x
      end ].
