(* ===== verification/CString.v ===== *)
(** * The parts of the C library the daemons use on strings

    C strings and buffers are [string]s.  A buffer that the code zero-fills
    before a [read] is the string of the bytes read; [c_str] is the C string it
    holds (the bytes before the first NUL), and reading past the bytes read
    gives the zero filling, i.e. the empty C string. *)

From S2P Require Import Prelude.
From Stdlib Require Import Ascii.

#[global] Arguments Ascii.eqb : simpl never.
#[global] Arguments String.append !_ _ : simpl nomatch.

(** ** Definitions *)

Fixpoint str_take (n : nat) (s : string) : string :=
  match n, s with
  | S n, String c s => String c (str_take n s)
  | _, _ => ""
  end.

Fixpoint str_drop (n : nat) (s : string) : string :=
  match n, s with
  | O, _ => s
  | S n, String _ s => str_drop n s
  | S _, "" => ""
  end.

(** The longest prefix without the character [d]: what [sscanf("%[^d]")]
    stores, and, for NUL, the C string in a buffer. *)
Fixpoint take_until (d : ascii) (s : string) : string :=
  match s with
  | "" => ""
  | String c s => if (c =? d)%char then "" else String c (take_until d s)
  end.

Definition NUL : ascii := "000"%char.

Definition c_str (s : string) : string := take_until NUL s.

Definition strlen (s : string) : Z := Z.of_nat (String.length s).

(** [strcmp(a,b) == 0] *)
Definition str_eq (a b : string) : bool := (a =? b)%string.

(** [strncmp(a,b,n) == 0] *)
Definition strn_eq (n : nat) (a b : string) : bool :=
  str_eq (str_take n a) (str_take n b).

(** [strstr(hay,needle)] as an offset *)
Definition strstr (hay needle : string) : option nat :=
  String.index 0 needle hay.

Definition contains (hay needle : string) : bool :=
  match strstr hay needle with Some _ => true | None => false end.

Definition lower (c : ascii) : ascii :=
  let n := N_of_ascii c in
  if ((65 <=? n) && (n <=? 90))%N then ascii_of_N (n + 32) else c.

Fixpoint str_lower (s : string) : string :=
  match s with "" => "" | String c s => String (lower c) (str_lower s) end.

(** [strcasestr(hay,needle) != NULL] *)
Definition contains_nocase (hay needle : string) : bool :=
  contains (str_lower hay) (str_lower needle).

Definition isdigit (c : ascii) : bool :=
  let n := N_of_ascii c in ((48 <=? n) && (n <=? 57))%N.

Definition isspace (c : ascii) : bool :=
  let n := N_of_ascii c in ((n =? 32) || ((9 <=? n) && (n <=? 13)))%N.

Definition digit_val (c : ascii) : Z := Z.of_N (N_of_ascii c) - 48.

Fixpoint skip_space (s : string) : string :=
  match s with
  | String c s' => if isspace c then skip_space s' else s
  | "" => ""
  end.

(** What follows the leading digits *)
Fixpoint skip_digits (s : string) : string :=
  match s with
  | String c r => if isdigit c then skip_digits r else s
  | "" => ""
  end.

(** The value of the leading digits of [s] after the value [acc]. *)
Fixpoint digits_val (acc : Z) (s : string) : Z :=
  match s with
  | String c s => if isdigit c then digits_val (10 * acc + digit_val c) s else acc
  | "" => acc
  end.

Definition INT_MAX : Z := 2147483647.
Definition INT_MIN : Z := -2147483648.
Definition LONG_MAX : Z := 2147483647.

(** A value of an unsigned 32-bit type *)
Definition u32 (x : Z) : Z := x mod 4294967296.

(** An [int] that wraps around. *)
Definition wrap32 (x : Z) : Z := (x + 2147483648) mod 4294967296 - 2147483648.

Definition newline : string := String "010" "".

Definition clamp (lo hi x : Z) : Z := Z.max lo (Z.min hi x).

(** [strtol(s, NULL, 10)] with a 32-bit [long], which saturates; [atoi] is
    [strtol] on this platform, where [long] and [int] have the same width. *)
Definition strtol (s : string) : Z :=
  clamp INT_MIN LONG_MAX
    match skip_space s with
    | String c r =>
        if (c =? "-")%char then - digits_val 0 r
        else if (c =? "+")%char then digits_val 0 r
        else digits_val 0 (String c r)
    | "" => 0
    end.

Definition atoi (s : string) : Z := strtol s.

(** The bytes that a [read] of at most [len] bytes stored. *)
Definition received (len : Z) (r : resp) : string :=
  str_take (Z.to_nat (Z.min len (r_ret r))) (r_data r).

(** [sscanf(src, "%[^:]", old)] into a buffer of [size] bytes: an empty field
    assigns nothing and the buffer keeps its old contents; [None] is a write
    past the end of the buffer. *)
Definition scan_field (size : nat) (src old : string) : option string :=
  match take_until ":" src with
  | "" => Some old
  | f => if (String.length f <? size)%nat then Some f else None
  end.

(** The pieces of [s] between occurrences of [d]. *)
Fixpoint split_on (d : ascii) (s : string) : list string :=
  match s with
  | "" => [""]
  | String c s =>
      if (c =? d)%char then "" :: split_on d s
      else match split_on d s with
           | p :: ps => String c p :: ps
           | [] => [String c ""]
           end
  end.

(** The entries of a directory as [readdir] delivers them: the answer of an
    [opendir] carries them separated by slashes, which no name contains. *)
Definition dir_entries (r : resp) : list string := split_on "/" (r_data r).

Definition char_at (s : string) (i : nat) : ascii :=
  match String.get i s with Some c => c | None => NUL end.

(** Out-parameter number [i] of a call. *)
Definition aux (i : nat) (r : resp) : Z := default 0 (r_aux r !! i).

(** Exactly [n] bytes of a buffer (zero where the answer gives none). *)
Fixpoint buf_bytes (n : nat) (s : string) : string :=
  match n, s with
  | O, _ => ""
  | S n, String c s => String c (buf_bytes n s)
  | S n, "" => String NUL (buf_bytes n "")
  end.

(** Bytes written over the start of a buffer. *)
Definition overlay (bytes buf : string) : string :=
  bytes +:+ str_drop (String.length bytes) buf.

(** Bytes written into memory at an offset *)
Definition put_at (off : nat) (bytes mem : string) : string :=
  str_take off mem +:+ bytes +:+ str_drop (off + String.length bytes) mem.

(** The bytes of a string as numbers. *)
Fixpoint byte_list (s : string) : list Z :=
  match s with
  | "" => []
  | String c s => Z.of_N (N_of_ascii c) :: byte_list s
  end.

(** ** Lemmas *)

Definition lacks (d : ascii) (s : string) : Prop := take_until d s = s.

#[export] Instance lacks_dec d s : Decision (lacks d s).
Proof. unfold lacks. apply _. Defined.

Lemma str_eq_true a b : str_eq a b = true <-> a = b.
Proof. apply String.eqb_eq. Qed.

Lemma str_eq_false a b : str_eq a b = false <-> a <> b.
Proof. apply String.eqb_neq. Qed.

Lemma str_eq_refl a : str_eq a a = true.
Proof. by apply str_eq_true. Qed.

Lemma take_until_app d a b :
  lacks d a -> take_until d (a +:+ String d b) = a.
Proof.
  unfold lacks. induction a as [|c a IH]; cbn.
  - by rewrite Ascii.eqb_refl.
  - destruct (c =? d)%char; [done|]. intros [= H]. by rewrite IH.
Qed.

Lemma str_drop_app a b n :
  n = String.length a -> str_drop n (a +:+ b) = b.
Proof. intros ->. by induction a; cbn. Qed.

Lemma str_take_all n s : (String.length s <= n)%nat -> str_take n s = s.
Proof.
  revert n. induction s as [|c s IH]; intros [|n] H; cbn in *; try done; [lia|].
  rewrite IH; [done|lia].
Qed.

Lemma str_length_app a b :
  String.length (a +:+ b) = (String.length a + String.length b)%nat.
Proof. induction a; cbn; auto. Qed.

Lemma str_app_assoc (a b c : string) : a +:+ (b +:+ c) = (a +:+ b) +:+ c.
Proof. induction a; cbn; congruence. Qed.

Lemma lacks_app d a b : lacks d a -> lacks d b -> lacks d (a +:+ b).
Proof.
  unfold lacks. intros Ha Hb. induction a as [|c a IH]; cbn in *; [done|].
  destruct (c =? d)%char; [done|]. injection Ha as Ha. by rewrite IH.
Qed.

Lemma lacks_cons d c s : c <> d -> lacks d s -> lacks d (String c s).
Proof.
  unfold lacks. cbn. intros Hc Hs.
  rewrite (proj2 (Ascii.eqb_neq c d) Hc). by rewrite Hs.
Qed.

Lemma take_until_length d s :
  (String.length (take_until d s) <= String.length s)%nat.
Proof. induction s as [|c s IH]; cbn; [lia|]. destruct (c =? d)%char; cbn; lia. Qed.

Lemma take_until_lacks d s : lacks d (take_until d s).
Proof.
  unfold lacks. induction s as [|c s IH]; cbn; [done|].
  destruct (c =? d)%char eqn:E; cbn; [done|]. by rewrite E, IH.
Qed.

Lemma scan_field_full size f rest old :
  f <> "" -> lacks ":" f -> (String.length f < size)%nat ->
  scan_field size (f +:+ String ":" rest) old = Some f.
Proof.
  intros Hne Hl Hlen. unfold scan_field. rewrite take_until_app by done.
  destruct f as [|c f]; [done|].
  rewrite (proj2 (Nat.ltb_lt _ _) Hlen). done.
Qed.

Lemma clamp_bounds lo hi x : lo <= hi -> lo <= clamp lo hi x <= hi.
Proof. unfold clamp. lia. Qed.

Lemma strtol_bounds s : INT_MIN <= strtol s <= INT_MAX.
Proof. apply clamp_bounds. done. Qed.

Lemma digits_val_nonneg s acc : 0 <= acc -> 0 <= digits_val acc s.
Proof.
  revert acc. induction s as [|c s IH]; intros acc H; cbn; [done|].
  destruct (isdigit c) eqn:E; [|done]. apply IH.
  apply andb_prop in E as [E _]. apply N.leb_le in E. unfold digit_val. lia.
Qed.

Lemma buf_bytes_length n s : String.length (buf_bytes n s) = n.
Proof. revert s. induction n as [|n IH]; intros [|c s]; cbn; auto. Qed.

Lemma byte_list_length s : length (byte_list s) = String.length s.
Proof. induction s; cbn; congruence. Qed.

Lemma str_app_nil s : s +:+ "" = s.
Proof. induction s; cbn; congruence. Qed.

Lemma wrap32_id x : INT_MIN <= x <= INT_MAX -> wrap32 x = x.
Proof. unfold wrap32, INT_MIN, INT_MAX. intros. dlia. Qed.

Lemma str_take_drop n s : str_take n s +:+ str_drop n s = s.
Proof. revert s. induction n as [|n IH]; intros [|c s]; cbn; [done..|]. f_equal. apply IH. Qed.

Lemma str_take_length n s : String.length (str_take n s) = Nat.min n (String.length s).
Proof. revert s. induction n as [|n IH]; intros [|c s]; cbn; [done..|]. f_equal. apply IH. Qed.

Lemma str_drop_length n s : String.length (str_drop n s) = (String.length s - n)%nat.
Proof. revert s. induction n as [|n IH]; intros [|c s]; cbn; auto. Qed.

Lemma str_drop_drop n m s : str_drop n (str_drop m s) = str_drop (m + n) s.
Proof.
  revert s. induction m as [|m IH]; intros [|c s]; cbn; auto. by destruct n.
Qed.

Lemma str_drop_all n s : (String.length s <= n)%nat -> str_drop n s = "".
Proof.
  revert n. induction s as [|c s IH]; intros [|n] H; cbn in *; [done..|lia|]. apply IH. lia.
Qed.

Lemma str_take_app_le n a b : (n <= String.length a)%nat -> str_take n (a +:+ b) = str_take n a.
Proof.
  revert a. induction n as [|n IH]; intros [|c a] H; cbn in *; [done..|lia|].
  f_equal. apply IH. lia.
Qed.

Lemma str_drop_app_len a b : str_drop (String.length a) (a +:+ b) = b.
Proof. induction a as [|c a IH]; [done|]. exact IH. Qed.

Lemma buf_bytes_exact s : buf_bytes (String.length s) s = s.
Proof. induction s as [|c s IH]; [done|]. cbn. by rewrite IH. Qed.

(** A string in a larger field of zeros is read back. *)
Lemma c_str_field n x rest : lacks NUL x -> (String.length x < n)%nat ->
  c_str (buf_bytes n x +:+ rest) = x.
Proof.
  unfold c_str. revert x. induction n as [|n IH]; intros [|c x] Hx Hn; cbn in Hn; try lia.
  - done.
  - unfold lacks in Hx. cbn in Hx |- *. destruct (c =? NUL)%char; [done|].
    injection Hx as Hx. f_equal. apply IH; [done | lia].
Qed.

Lemma lacks_take n x : lacks NUL x -> lacks NUL (str_take n x).
Proof.
  unfold lacks. revert x. induction n as [|n IH]; intros [|c x] Hx; cbn in *; [done..|].
  destruct (c =? NUL)%char; [done|]. injection Hx as Hx. f_equal. by apply IH.
Qed.

Lemma lacks_drop n x : lacks NUL x -> lacks NUL (str_drop n x).
Proof.
  unfold lacks. revert x. induction n as [|n IH]; intros [|c x] Hx; cbn in *; [done..|].
  apply IH. destruct (c =? NUL)%char; [done|]. by injection Hx.
Qed.

Lemma str_drop_app_le n a b : (n <= String.length a)%nat ->
  str_drop n (a +:+ b) = str_drop n a +:+ b.
Proof.
  revert a. induction n as [|n IH]; intros [|c a] Hn; cbn in *; [done..|lia|]. apply IH. lia.
Qed.

Lemma str_drop_put off bytes mem : (off <= String.length mem)%nat ->
  str_drop off (put_at off bytes mem) = bytes +:+ str_drop (off + String.length bytes) mem.
Proof.
  intros H. unfold put_at. apply str_drop_app. rewrite str_take_length. lia.
Qed.

Lemma put_at_length off bytes mem : (off + String.length bytes <= String.length mem)%nat ->
  String.length (put_at off bytes mem) = String.length mem.
Proof.
  intros H. unfold put_at. rewrite !str_length_app, str_take_length, str_drop_length. lia.
Qed.

Lemma str_take_split n m x : (n <= m)%nat ->
  str_take m x = str_take n x +:+ str_take (m - n) (str_drop n x).
Proof.
  revert m x. induction n as [|n IH]; intros [|m] [|c x] H; cbn; try done; try lia.
  - by destruct (m - n)%nat.
  - f_equal. apply IH. lia.
Qed.

Lemma str_take_app_ge n a b : (String.length a <= n)%nat ->
  str_take n (a +:+ b) = a +:+ str_take (n - String.length a) b.
Proof.
  revert n. induction a as [|c a IH]; intros [|n] H; cbn in *; try done; try lia.
  f_equal. apply IH. lia.
Qed.

Lemma lacks_prefix d a b : lacks d (a +:+ b) -> lacks d a /\ lacks d b.
Proof.
  unfold lacks. induction a as [|c a IH]; cbn; [done|].
  destruct (c =? d)%char; [done|]. intros [= H]. destruct (IH H) as [Ha Hb].
  by rewrite Ha.
Qed.

Lemma char_at_app a c b : char_at (a +:+ String c b) (String.length a) = c.
Proof. unfold char_at. induction a as [|x a IH]; cbn in *; auto. Qed.

Lemma char_at_app_r a b i : char_at (a +:+ b) (String.length a + i) = char_at b i.
Proof. unfold char_at. induction a as [|x a IH]; cbn in *; auto. Qed.

Lemma char_at_lacks d f b i :
  lacks d f -> (i < String.length f)%nat -> char_at (f +:+ b) i <> d.
Proof.
  unfold lacks, char_at. revert i. induction f as [|x f IH]; cbn; [lia|].
  destruct (x =? d)%char eqn:E; [done|]. intros [|i] [= H] Hi; cbn.
  - by apply Ascii.eqb_neq.
  - apply IH; [done|lia].
Qed.

Lemma char_at_prefix a b n : (n < String.length a)%nat -> char_at (a +:+ b) n = char_at a n.
Proof.
  unfold char_at. revert n. induction a as [|d a IH]; intros [|n] H; cbn in *; try lia; [done|].
  apply IH. lia.
Qed.

(** ** Decimal numerals *)

Lemma pretty_char_digit n : (n < 10)%N ->
  isdigit (pretty_N_char n) = true /\ digit_val (pretty_N_char n) = Z.of_N n.
Proof.
  intros Hn. rewrite <- (N2Nat.id n) in *. set (k := N.to_nat n) in *.
  assert (k < 10)%nat as Hk by lia. clearbody k. do 10 (destruct k as [|k]; [done|]). lia.
Qed.

(** Reading the digits of a number gives the number. *)
Lemma digits_val_go x : forall s,
  digits_val 0 (pretty_N_go x s) = digits_val (Z.of_N x) s.
Proof.
  induction x as [x IH] using (well_founded_induction N.lt_wf_0). intros s.
  destruct (decide (x = 0%N)) as [-> | Hx]; [by rewrite pretty_N_go_0|].
  rewrite pretty_N_go_step by lia.
  rewrite IH by (apply N.div_lt; lia). cbn [digits_val].
  destruct (pretty_char_digit (x mod 10)) as [-> ->]; [by apply N.mod_lt|].
  f_equal. rewrite N2Z.inj_div, N2Z.inj_mod. dlia.
Qed.

(** A positive number starts with a digit other than 0. *)
Lemma pretty_go_head x : (0 < x)%N -> forall s, exists c t,
  pretty_N_go x s = String c t /\ isdigit c = true /\ digit_val c <> 0.
Proof.
  induction x as [x IH] using (well_founded_induction N.lt_wf_0). intros Hx s.
  rewrite pretty_N_go_step by lia. destruct (decide (x / 10 = 0)%N) as [E|E].
  - rewrite E, pretty_N_go_0. do 2 eexists. split; [done|].
    destruct (pretty_char_digit (x mod 10)) as [-> ->]; [by apply N.mod_lt|].
    split; [done|]. rewrite N2Z.inj_mod. apply (f_equal Z.of_N) in E.
    rewrite N2Z.inj_div in E. dlia.
  - apply IH; [apply N.div_lt; lia | by apply N.neq_0_lt_0].
Qed.

Lemma digit_plain c : isdigit c = true ->
  isspace c = false /\ (c =? "-")%char = false /\ (c =? "+")%char = false.
Proof. destruct c as [[] [] [] [] [] [] [] []]; done. Qed.

(** The numeral of a positive number *)
Lemma pretty_positive v : 0 < v -> exists c t,
  (pretty v : string) = String c t /\ isdigit c = true /\ digit_val c <> 0
  /\ digits_val 0 (String c t) = v.
Proof.
  intros Hv. destruct v as [|p|p]; try lia.
  change (pretty (Z.pos p) : string) with (pretty_N_go (Npos p) "").
  destruct (pretty_go_head (Npos p) ltac:(lia) "") as (c & t & E & Hc & Hz).
  exists c, t. split_and!; [done..|]. rewrite <- E, digits_val_go. done.
Qed.
