(* ===== verification/UsbDefines.v ===== *)
(** * usbd: data of the USB daemon ([src/usbd/usb_defines.h] and the tables of
    [src/usbd/usb_app.c])

    The enumerations, the strings exchanged with the application and the
    driver, the table of USB modes, the variables of the daemon and the system
    calls it makes. *)

From S2P Require Import Prelude.
From S2P Require Import CString.

(** ** Build configuration

    The macros that [usbd/Android.mk] sets from the board configuration. *)
Record config := Config {
  MSD_CDROM_ENABLED : bool;
  AT_RELAY : bool;
  USBD_TABLET_MODE : bool;
  CDROMIO_DEVNODE : string;
  CDROM_BLOCK_DEVICE : string }.

(** ** Enumerations *)

Inductive MOTO_ACCY_TYPE_T :=
  | MOTO_ACCY_TYPE_EMU_CABLE_USB
  | MOTO_ACCY_TYPE_EMU_CABLE_FACTORY
  | MOTO_ACCY_TYPE_EMU_UNKNOWN.

Inductive MOTO_MODE_TYPE_T :=
  | MOTO_MODE_TYPE_NORMAL
  | MOTO_MODE_TYPE_DEBUG
  | MOTO_MODE_TYPE_BPTOOLS
  | MOTO_MODE_TYPE_TABLET
  | MOTO_MODE_TYPE_UNKNOWN.

Inductive USBD_STATE_T :=
  | USBD_STATE_CABLE_DEFAULT
  | USBD_STATE_CABLE_DETACHED
  | USBD_STATE_CABLE_ATTACHED
  | USBD_STATE_ENUM_IN_PROGRESS
  | USBD_STATE_ENUMERATED.

Inductive USB_MODE_T :=
  | USB_MODE_MIN
  | USB_MODE_NGP
  | USB_MODE_CDROM
  | USB_MODE_MTP
  | USB_MODE_MSC
  | USB_MODE_MSC_ONLY
  | USB_MODE_HID
  | USB_MODE_NGP_ADB
  | USB_MODE_MTP_ADB
  | USB_MODE_MSC_ADB
  | USB_MODE_ADB
  | USB_MODE_NETWORK
  | USB_MODE_MODEM
  | USB_MODE_MODEM_ADB
  | USB_MODE_NETWORK_ADB
  | USB_MODE_CHARGE_ONLY
  | USB_MODE_CHARGE_ADB
  | USB_MODE_RNDIS
  | USB_MODE_RNDIS_ADB
  | USB_MODE_CDROM2
  | USB_MODE_BPTOOLS_ETH
  | USB_MODE_BPTOOLS_ETH_ADB
  | USB_MODE_RNDIS_BPTOOLS_ETH
  | USB_MODE_RNDIS_BPTOOLS_ETH_ADB
  | USB_MODE_TABLET_NETWORK_MTP
  | USB_MODE_TABLET_NETWORK_MTP_ADB
  | USB_MODE_MAX.

#[export] Instance MOTO_ACCY_TYPE_eq_dec : EqDecision MOTO_ACCY_TYPE_T.
Proof. solve_decision. Defined.
#[export] Instance MOTO_MODE_TYPE_eq_dec : EqDecision MOTO_MODE_TYPE_T.
Proof. solve_decision. Defined.
#[export] Instance USBD_STATE_eq_dec : EqDecision USBD_STATE_T.
Proof. solve_decision. Defined.
#[export] Instance USB_MODE_eq_dec : EqDecision USB_MODE_T.
Proof. solve_decision. Defined.

(** The enumerators below [USB_MODE_MAX] in order: the range of the loops
    [for (i = USB_MODE_MIN; i < USB_MODE_MAX; i++)]. *)
Definition usb_modes : list USB_MODE_T :=
  [ USB_MODE_MIN;
    USB_MODE_NGP;
    USB_MODE_CDROM;
    USB_MODE_MTP;
    USB_MODE_MSC;
    USB_MODE_MSC_ONLY;
    USB_MODE_HID;
    USB_MODE_NGP_ADB;
    USB_MODE_MTP_ADB;
    USB_MODE_MSC_ADB;
    USB_MODE_ADB;
    USB_MODE_NETWORK;
    USB_MODE_MODEM;
    USB_MODE_MODEM_ADB;
    USB_MODE_NETWORK_ADB;
    USB_MODE_CHARGE_ONLY;
    USB_MODE_CHARGE_ADB;
    USB_MODE_RNDIS;
    USB_MODE_RNDIS_ADB;
    USB_MODE_CDROM2;
    USB_MODE_BPTOOLS_ETH;
    USB_MODE_BPTOOLS_ETH_ADB;
    USB_MODE_RNDIS_BPTOOLS_ETH;
    USB_MODE_RNDIS_BPTOOLS_ETH_ADB;
    USB_MODE_TABLET_NETWORK_MTP;
    USB_MODE_TABLET_NETWORK_MTP_ADB ].

(** The integer value of an enumerator of [USB_MODE_T]. *)
Definition usb_mode_val (m : USB_MODE_T) : nat :=
  match m with
  | USB_MODE_MIN => 0
  | USB_MODE_NGP => 1
  | USB_MODE_CDROM => 2
  | USB_MODE_MTP => 3
  | USB_MODE_MSC => 4
  | USB_MODE_MSC_ONLY => 5
  | USB_MODE_HID => 6
  | USB_MODE_NGP_ADB => 7
  | USB_MODE_MTP_ADB => 8
  | USB_MODE_MSC_ADB => 9
  | USB_MODE_ADB => 10
  | USB_MODE_NETWORK => 11
  | USB_MODE_MODEM => 12
  | USB_MODE_MODEM_ADB => 13
  | USB_MODE_NETWORK_ADB => 14
  | USB_MODE_CHARGE_ONLY => 15
  | USB_MODE_CHARGE_ADB => 16
  | USB_MODE_RNDIS => 17
  | USB_MODE_RNDIS_ADB => 18
  | USB_MODE_CDROM2 => 19
  | USB_MODE_BPTOOLS_ETH => 20
  | USB_MODE_BPTOOLS_ETH_ADB => 21
  | USB_MODE_RNDIS_BPTOOLS_ETH => 22
  | USB_MODE_RNDIS_BPTOOLS_ETH_ADB => 23
  | USB_MODE_TABLET_NETWORK_MTP => 24
  | USB_MODE_TABLET_NETWORK_MTP_ADB => 25
  | USB_MODE_MAX => 26
  end.

(** ** Strings *)

Definition USBD_CABLE_ATTACHED := "cable_connected".
Definition USBD_CABLE_DETACHED := "cable_disconnected".
Definition USBD_GET_DESCRIPTOR := "get_descriptor".
Definition USBD_ENUMERATED := "usb_enumerated".
Definition USBD_EVENT_ADB_ON := "usbd_adb_status_on".
Definition USBD_EVENT_ADB_OFF := "usbd_adb_status_off".
Definition USBD_EVENT_TETHERING_ON := "usbd_tethering_status_on".
Definition USBD_EVENT_TETHERING_OFF := "usbd_tethering_status_off".
Definition USBD_REQ_SWITCH_NGP := "usbd_req_switch_ngp".
Definition USBD_REQ_SWITCH_MTP := "usbd_req_switch_mtp".
Definition USBD_REQ_SWITCH_MSC := "usbd_req_switch_msc".
Definition USBD_REQ_SWITCH_HID := "usbd_req_switch_hid".
Definition USBD_REQ_SWITCH_MODEM := "usbd_req_switch_modem".
Definition USBD_REQ_SWITCH_CHARGE_ONLY := "usbd_req_switch_none".
Definition USBD_REQ_SWITCH_RNDIS := "usbd_req_switch_rndis".
Definition USBD_REQ_SWITCH_BPTOOLS := "usbd_req_switch_bptools".
Definition USBD_START_NGP := "usbd_start_ngp".
Definition USBD_START_MTP := "usbd_start_mtp".
Definition USBD_START_MSC_MOUNT := "usbd_start_msc_mount".
Definition USBD_DISK_ATTACH := "usb_disk_plugin".
Definition USBD_DISK_DETACH := "usb_disk_plugout".

(** ** The table of USB modes *)

(** The functions the table points to. *)
Inductive hook :=
  | mtp_enable_done | adb_pre_enable | adb_pre_disable 
  | ngp_pre_enable | ngp_enable_done | ngp_pre_disable 
  | ngp_adb_pre_enable | ngp_adb_enable_done | ngp_adb_pre_disable 
  | mtp_adb_pre_enable | mtp_adb_enable_done | mtp_adb_pre_disable 
  | modem_enable_done | modem_pre_disable | modem_adb_pre_enable 
  | modem_adb_enable_done | modem_adb_pre_disable | cdrom_pre_enable 
  | cdrom_disable_done | cdrom_enable_done | cdrom_pre_disable 
  | msc_pre_enable | msc_enable_done | msc_pre_disable 
  | msc_disable_done | msc_only_enable_done | msc_only_pre_disable 
  | msc_adb_enable_done | msc_adb_pre_disable | network_enable_done 
  | network_pre_disable.

Record usb_mode_data := {
  mode : USB_MODE_T;
  name : string;
  pre_enable : option hook;
  enable_done : option hook;
  pre_disable : option hook;
  disable_done : option hook;
  mode_req : option string;
  mode_done : option string;
  switch_req : option string;
  resp_ok : option string;
  resp_fail : option string }.

Section Table.
  Context (cfg : config).

Definition usb_mode_list_phone : list usb_mode_data :=
  [
    {| mode := USB_MODE_MIN; name := "unuse";
       pre_enable := None; enable_done := None;
       pre_disable := None; disable_done := None;
       mode_req := Some "usb_unload_driver"; mode_done := None;
       switch_req := None;
       resp_ok := None; resp_fail := None |};
    {| mode := USB_MODE_NGP; name := "acm_eth_mtp";
       pre_enable := Some ngp_pre_enable; enable_done := Some ngp_enable_done;
       pre_disable := Some ngp_pre_disable; disable_done := None;
       mode_req := None; mode_done := Some USBD_START_NGP;
       switch_req := Some USBD_REQ_SWITCH_NGP;
       resp_ok := None; resp_fail := Some "usb_mode_ngp:fail" |};
    {| mode := USB_MODE_CDROM; name := "cdrom";
       pre_enable := Some cdrom_pre_enable; enable_done := Some cdrom_enable_done;
       pre_disable := Some cdrom_pre_disable; disable_done := Some cdrom_disable_done;
       mode_req := Some "usb_mode_ngp"; mode_done := None;
       switch_req := None;
       resp_ok := Some "usb_mode_ngp:ok"; resp_fail := Some "usb_mode_ngp:fail" |};
    {| mode := USB_MODE_MTP; name := "mtp";
       pre_enable := None; enable_done := Some mtp_enable_done;
       pre_disable := None; disable_done := None;
       mode_req := Some "usb_mode_mtp"; mode_done := Some USBD_START_MTP;
       switch_req := Some USBD_REQ_SWITCH_MTP;
       resp_ok := Some "usb_mode_mtp:ok"; resp_fail := Some "usb_mode_mtp:fail" |};
    {| mode := USB_MODE_MSC; name := "msc";
       pre_enable := Some msc_pre_enable; enable_done := Some msc_enable_done;
       pre_disable := Some msc_pre_disable; disable_done := Some msc_disable_done;
       mode_req := Some "usb_mode_msc"; mode_done := Some USBD_START_MSC_MOUNT;
       switch_req := Some USBD_REQ_SWITCH_MSC;
       resp_ok := Some "usb_mode_msc:ok"; resp_fail := Some "usb_mode_msc:fail" |};
    {| mode := USB_MODE_MSC_ONLY; name := "msc_only";
       pre_enable := None; enable_done := Some msc_only_enable_done;
       pre_disable := Some msc_only_pre_disable; disable_done := None;
       mode_req := Some "usb_mode_msc_only"; mode_done := Some USBD_START_MSC_MOUNT;
       switch_req := None;
       resp_ok := Some "usb_mode_msc:ok"; resp_fail := Some "usb_mode_msc:fail" |};
    {| mode := USB_MODE_HID; name := "hid";
       pre_enable := None; enable_done := None;
       pre_disable := None; disable_done := None;
       mode_req := Some "usb_mode_hid"; mode_done := None;
       switch_req := Some USBD_REQ_SWITCH_HID;
       resp_ok := Some "usb_mode_hid:ok"; resp_fail := Some "usb_mode_hid:fail" |} ].

Definition usb_mode_list_adb : list usb_mode_data :=
  [
    {| mode := USB_MODE_NGP_ADB; name := (if AT_RELAY cfg then "acm_acm1_eth_mtp_adb" else "acm_eth_mtp_adb");
       pre_enable := Some ngp_adb_pre_enable; enable_done := Some ngp_adb_enable_done;
       pre_disable := Some ngp_adb_pre_disable; disable_done := None;
       mode_req := Some "usb_mode_ngp_adb"; mode_done := Some USBD_START_NGP;
       switch_req := Some USBD_REQ_SWITCH_NGP;
       resp_ok := Some "usb_mode_ngp:ok"; resp_fail := Some "usb_mode_ngp:fail" |};
    {| mode := USB_MODE_MTP_ADB; name := "mtp_adb";
       pre_enable := Some mtp_adb_pre_enable; enable_done := Some mtp_adb_enable_done;
       pre_disable := Some mtp_adb_pre_disable; disable_done := None;
       mode_req := Some "usb_mode_mtp_adb"; mode_done := Some USBD_START_MTP;
       switch_req := Some USBD_REQ_SWITCH_MTP;
       resp_ok := Some "usb_mode_mtp:ok"; resp_fail := Some "usb_mode_mtp:fail" |};
    {| mode := USB_MODE_MSC_ADB; name := "msc_adb";
       pre_enable := None; enable_done := Some msc_adb_enable_done;
       pre_disable := Some msc_adb_pre_disable; disable_done := None;
       mode_req := Some "usb_mode_msc_adb"; mode_done := Some USBD_START_MSC_MOUNT;
       switch_req := Some USBD_REQ_SWITCH_MSC;
       resp_ok := Some "usb_mode_msc:ok"; resp_fail := Some "usb_mode_msc:fail" |};
    {| mode := USB_MODE_ADB; name := "android_adb_only";
       pre_enable := Some adb_pre_enable; enable_done := None;
       pre_disable := Some adb_pre_disable; disable_done := None;
       mode_req := Some "usb_mode_adb"; mode_done := None;
       switch_req := Some USBD_REQ_SWITCH_HID;
       resp_ok := Some "usb_mode_hid:ok"; resp_fail := Some "usb_mode_hid:fail" |};
    {| mode := USB_MODE_NETWORK; name := "eth";
       pre_enable := None; enable_done := Some network_enable_done;
       pre_disable := Some network_pre_disable; disable_done := None;
       mode_req := None; mode_done := None;
       switch_req := None;
       resp_ok := None; resp_fail := None |};
    {| mode := USB_MODE_MODEM; name := "acm";
       pre_enable := None; enable_done := Some modem_enable_done;
       pre_disable := Some modem_pre_disable; disable_done := None;
       mode_req := Some "usb_mode_modem"; mode_done := None;
       switch_req := Some USBD_REQ_SWITCH_MODEM;
       resp_ok := Some "usb_mode_modem:ok"; resp_fail := Some "usb_mode_modem:fail" |};
    {| mode := USB_MODE_MODEM_ADB; name := "modem_adb";
       pre_enable := Some modem_adb_pre_enable; enable_done := Some modem_adb_enable_done;
       pre_disable := Some modem_adb_pre_disable; disable_done := None;
       mode_req := Some "usb_mode_modem_adb"; mode_done := None;
       switch_req := Some USBD_REQ_SWITCH_MODEM;
       resp_ok := Some "usb_mode_modem:ok"; resp_fail := Some "usb_mode_modem:fail" |};
    {| mode := USB_MODE_NETWORK_ADB; name := (if AT_RELAY cfg then "acm1_eth_adb" else "eth_adb");
       pre_enable := None; enable_done := Some network_enable_done;
       pre_disable := Some network_pre_disable; disable_done := None;
       mode_req := None; mode_done := None;
       switch_req := None;
       resp_ok := None; resp_fail := None |} ].

Definition usb_mode_list_tether : list usb_mode_data :=
  [
    {| mode := USB_MODE_CHARGE_ONLY; name := "charge_only";
       pre_enable := None; enable_done := None;
       pre_disable := None; disable_done := None;
       mode_req := Some "usb_mode_charge_only"; mode_done := None;
       switch_req := Some USBD_REQ_SWITCH_CHARGE_ONLY;
       resp_ok := Some "usb_mode_msc:ok"; resp_fail := Some "usb_mode_msc:fail" |};
    {| mode := USB_MODE_CHARGE_ADB; name := "charge_adb";
       pre_enable := None; enable_done := None;
       pre_disable := None; disable_done := None;
       mode_req := Some "usb_mode_charge_adb"; mode_done := None;
       switch_req := Some USBD_REQ_SWITCH_CHARGE_ONLY;
       resp_ok := Some "usb_mode_msc:ok"; resp_fail := Some "usb_mode_msc:fail" |};
    {| mode := USB_MODE_RNDIS; name := "rndis";
       pre_enable := None; enable_done := None;
       pre_disable := None; disable_done := None;
       mode_req := Some "usb_mode_rndis"; mode_done := None;
       switch_req := Some USBD_REQ_SWITCH_RNDIS;
       resp_ok := Some "usb_mode_rndis:ok"; resp_fail := Some "usb_mode_rndis:fail" |};
    {| mode := USB_MODE_RNDIS_ADB; name := "rndis_adb";
       pre_enable := None; enable_done := None;
       pre_disable := None; disable_done := None;
       mode_req := Some "usb_mode_rndis_adb"; mode_done := None;
       switch_req := Some USBD_REQ_SWITCH_RNDIS;
       resp_ok := Some "usb_mode_rndis:ok"; resp_fail := Some "usb_mode_rndis:fail" |};
    {| mode := USB_MODE_CDROM2; name := "cdrom2";
       pre_enable := Some cdrom_pre_enable; enable_done := Some cdrom_enable_done;
       pre_disable := Some cdrom_pre_disable; disable_done := Some cdrom_disable_done;
       mode_req := None; mode_done := None;
       switch_req := None;
       resp_ok := None; resp_fail := None |};
    {| mode := USB_MODE_BPTOOLS_ETH; name := "acm_acm1_acm2_acm3_eth";
       pre_enable := None; enable_done := None;
       pre_disable := None; disable_done := None;
       mode_req := Some "usb_mode_acm_acm1_acm2_acm3_eth"; mode_done := None;
       switch_req := Some USBD_REQ_SWITCH_BPTOOLS;
       resp_ok := Some "usb_mode_bptools:ok"; resp_fail := Some "usb_mode_bptools:fail" |};
    {| mode := USB_MODE_BPTOOLS_ETH_ADB; name := "acm_acm1_acm2_acm3_eth_adb";
       pre_enable := None; enable_done := None;
       pre_disable := None; disable_done := None;
       mode_req := Some "usb_mode_acm_acm1_acm2_acm3_eth_adb"; mode_done := None;
       switch_req := Some USBD_REQ_SWITCH_BPTOOLS;
       resp_ok := Some "usb_mode_bptools:ok"; resp_fail := Some "usb_mode_bptools:fail" |};
    {| mode := USB_MODE_RNDIS_BPTOOLS_ETH; name := "rndis_acm_acm1_acm2_acm3_eth";
       pre_enable := None; enable_done := None;
       pre_disable := None; disable_done := None;
       mode_req := Some "usb_mode_rndis_acm_acm1_acm2_acm3_eth"; mode_done := None;
       switch_req := Some USBD_REQ_SWITCH_BPTOOLS;
       resp_ok := Some "usb_mode_bptools:ok"; resp_fail := Some "usb_mode_bptools:fail" |};
    {| mode := USB_MODE_RNDIS_BPTOOLS_ETH_ADB; name := "rndis_acm_acm1_acm2_acm3_eth_adb";
       pre_enable := None; enable_done := None;
       pre_disable := None; disable_done := None;
       mode_req := Some "usb_mode_rndis_acm_acm1_acm2_acm3_eth_adb"; mode_done := None;
       switch_req := Some USBD_REQ_SWITCH_BPTOOLS;
       resp_ok := Some "usb_mode_bptools:ok"; resp_fail := Some "usb_mode_bptools:fail" |};
    {| mode := USB_MODE_TABLET_NETWORK_MTP; name := "eth_mtp";
       pre_enable := None; enable_done := None;
       pre_disable := None; disable_done := None;
       mode_req := None; mode_done := None;
       switch_req := None;
       resp_ok := None; resp_fail := None |};
    {| mode := USB_MODE_TABLET_NETWORK_MTP_ADB; name := "eth_mtp_adb";
       pre_enable := None; enable_done := None;
       pre_disable := None; disable_done := None;
       mode_req := None; mode_done := None;
       switch_req := None;
       resp_ok := None; resp_fail := None |};
    {| mode := USB_MODE_MAX; name := "unuse";
       pre_enable := None; enable_done := None;
       pre_disable := None; disable_done := None;
       mode_req := None; mode_done := None;
       switch_req := None;
       resp_ok := None; resp_fail := None |} ].

(** [usb_mode_list[USB_MODE_MAX + 1]] *)
Definition usb_mode_list : list usb_mode_data :=
  usb_mode_list_phone ++ usb_mode_list_adb ++ usb_mode_list_tether.

(** [usb_mode_list[m]] *)
Definition usb_mode_entry (m : USB_MODE_T) : usb_mode_data :=
  default (Build_usb_mode_data USB_MODE_MAX "unuse" None None None None None
             None None None None)
    (usb_mode_list !! usb_mode_val m).

End Table.

(** [usb_alt_mode_tlb[mode - MOTO_MODE_TYPE_BPTOOLS][adb][tether]]; the code
    indexes it only for the two rows it has. *)
Definition usb_alt_mode_tlb (tablet adb tether : bool) : USB_MODE_T :=
  match tablet, adb, tether with
  | false, false, false => USB_MODE_BPTOOLS_ETH
  | false, false, true => USB_MODE_RNDIS_BPTOOLS_ETH
  | false, true, false => USB_MODE_BPTOOLS_ETH_ADB
  | false, true, true => USB_MODE_RNDIS_BPTOOLS_ETH_ADB
  | true, false, _ => USB_MODE_CDROM
  | true, true, false => USB_MODE_TABLET_NETWORK_MTP_ADB
  | true, true, true => USB_MODE_RNDIS_ADB
  end.
