(* ===== verification/UsbState.v ===== *)
(** * usbd: variables and system calls of the daemon ([src/usbd/usb_app.c])

    The globals and statics of [usb_app.c] as one record, the calls the daemon
    makes, and the programs over them.  Logging ([DEBUG], [ALOGx], [printf]) is
    not a call of the model. *)

From S2P Require Import Prelude.
From S2P Require Import CString.
From S2P Require Import UsbDefines.

(** ** System calls *)

Inductive open_flags := O_RDONLY | O_WRONLY | O_RDWR.

Inductive ioctl_req :=
  | LOOP_CLR_FD
  | LOOP_GET_STATUS
  | LOOP_SET_FD (file_fd : Z).

(** A [FILE] or [DIR] pointer is the integer its constructor returned; NULL
    is 0.  [Write] carries the bytes written. *)
Inductive usb_call :=
  | Open (path : string) (flags : open_flags)
  | Read (fd len : Z)
  | Write (fd : Z) (bytes : string)
  | Close (fd : Z)
  | Ioctl (fd : Z) (req : ioctl_req)
  | Access (path : string)
  | Mknod (path : string) (fmode dev : Z)
  | Mount (source target fstype : string)
  | Umount (target : string)
  | System (command : string)
  | Fopen (path fmode : string)
  | Fsize (file : Z)               (* fseek to the end, ftell, fseek back *)
  | Fread (file len : Z)
  | Fgets (file len : Z)
  | Fprintf (file : Z) (text : string)
  | Fclose (file : Z)
  | Opendir (path : string)
  | Property_get (key dflt : string)
  | Uevent_socket                  (* socket(PF_NETLINK, ...) *)
  | Setsockopt (fd : Z) (option : string)
  | Bind (fd : Z)
  | Socket_local_server (name : string)
  | Chown (path : string)
  | Chmod (path : string)
  | Select (nfds : Z) (rset : gset Z)
  | Accept (fd : Z)
  | Recvmsg (fd : Z).

(** [errno] values the code compares with. *)
Definition EEXIST : Z := 17.
Definition ENXIO : Z := 6.
Definition ENOSPC : Z := 28.
Definition ECONNRESET : Z := 104.

(** [s] with its terminating NUL: what [write(fd, s, strlen(s)+1)] sends. *)
Definition zstr (s : string) : string := s +:+ String NUL "".

(** ** Variables *)

(** [pcSwitchbuf], [adbEnablebuf] and [tetheringEnablebuf] are locals of [main]
    that live across the iterations of its loop; [cdrom_mounted] is a static of
    [cdrom_partition_mount].  [undefined] is set where the code would write
    outside one of those buffers. *)
Record usbd_vars := UsbdVars {
  usbd_curr_usb_mode : USB_MODE_T;
  usbd_current_state : USBD_STATE_T;
  connected_apps_fd : gset Z;
  usbd_server_fd : Z;
  usb_device_fd : Z;
  uevent_sock : Z;
  usbd_app_fd : Z;
  max_fd : Z;
  usb_get_des_count : Z;
  current_usb_online : bool;
  usbd_mode : MOTO_MODE_TYPE_T;
  usb_alt_mode : bool;
  tethering_enabled : bool;
  usbd_curr_cable_status : MOTO_ACCY_TYPE_T;
  curr_loop_dev : string;
  cdrom_mounted : bool;
  pcSwitchbuf : string;
  adbEnablebuf : string;
  tetheringEnablebuf : string;
  undefined : bool }.

#[export] Instance eta_usbd_vars : Eta usbd_vars := fun v =>
  UsbdVars (usbd_curr_usb_mode v) (usbd_current_state v) (connected_apps_fd v)
    (usbd_server_fd v) (usb_device_fd v) (uevent_sock v) (usbd_app_fd v)
    (max_fd v) (usb_get_des_count v) (current_usb_online v) (usbd_mode v)
    (usb_alt_mode v) (tethering_enabled v) (usbd_curr_cable_status v)
    (curr_loop_dev v) (cdrom_mounted v) (pcSwitchbuf v) (adbEnablebuf v)
    (tetheringEnablebuf v) (undefined v).

(** The values the variables have when [main] starts; the three buffers are not
    initialised. *)
Definition usbd_start (pc adb tether : string) : usbd_vars :=
  UsbdVars USB_MODE_MIN USBD_STATE_CABLE_DEFAULT ∅ (-1) (-1) (-1) 0 (-1) 0 false
    MOTO_MODE_TYPE_NORMAL false false MOTO_ACCY_TYPE_EMU_UNKNOWN "" false
    pc adb tether false.

Abbreviation usb A := (prog usb_call usbd_vars A).

(** ** File descriptors in a trace *)

(** How a call and its answer change the number of times [fd] is open. *)
#[export] Instance usb_fd_calls : FdCalls usb_call := fun fd x =>
  match x with
  | (Open _ _, r) => if (0 <=? r_ret r) && (r_ret r =? fd) then 1 else 0
  | (Close f, _) => if f =? fd then -1 else 0
  | _ => 0
  end.

Lemma usb_fd_open fd path fl r :
  fd_delta fd (Open path fl, r) =
  if (0 <=? r_ret r) && (r_ret r =? fd) then 1 else 0.
Proof. done. Qed.

Lemma usb_fd_close fd f r :
  fd_delta fd (Close f, r) = if f =? fd then -1 else 0.
Proof. done. Qed.

#[export] Hint Rewrite usb_fd_open usb_fd_close : fdbal.
