(* ===== verification/UsbCdrom.v ===== *)
(** * usbd: the CD-ROM image, its loop device, and the hooks of the mode table
    ([loop_create], [cdrom_*], [msc_*] and the other hooks of
    [src/usbd/usb_app.c]) *)

From S2P Require Import Prelude.
From S2P Require Import CString.
From S2P Require Import UsbDefines.
From S2P Require Import UsbState.

Section Cdrom.
  Context (cfg : config).

(** ** Loop devices *)

Definition LOOP_MAX : nat := 4096.

(** [0660 | S_IFBLK] *)
Definition loop_node_mode : Z := Z.lor 432 24576.

(** The device number given to [mknod]: [unsigned int] arithmetic. *)
Definition loop_dev (i : Z) : Z :=
  Z.lor (Z.lor (Z.land 255 i)
               (Z.land (Z.land (Z.shiftl i 12) 4294967295) 4293918720))
        (Z.shiftl 7 8).

(** [sprintf(filename, "/dev/block/loop%d", i)] *)
Definition loop_path (i : Z) : string := "/dev/block/loop" +:+ pretty i.

Inductive loop_search_result :=
  | loop_free (i fd : Z)      (* the loop broke out at [i] with [fd] open *)
  | loop_error                (* the function returned -1 *)
  | loop_exhausted.           (* i == LOOP_MAX *)

(** The [for] loop of [loop_create] from [i] with [k] iterations left. *)
Fixpoint loop_search (k : nat) (i : Z) : usb loop_search_result :=
  match k with
  | O => mret loop_exhausted
  | S k =>
      r ← call (Mknod (loop_path i) loop_node_mode (loop_dev i));
      if (r_ret r <? 0) && negb (r_errno r =? EEXIST) then mret loop_error else
      o ← call (Open (loop_path i) O_RDWR);
      let fd := r_ret o in
      if fd <? 0 then mret loop_error else
      r ← call (Ioctl fd LOOP_GET_STATUS);
      if (r_ret r <? 0) && (r_errno r =? ENXIO) then mret (loop_free i fd) else
      call (Close fd) ;;
      if r_ret r <? 0 then mret loop_error else
      loop_search k (i + 1)
  end.

(** Both callers pass [curr_loop_dev] as the result buffer. *)
Definition loop_create (loopFile : string) : usb Z :=
  res ← loop_search LOOP_MAX 0;
  match res with
  | loop_error | loop_exhausted => mret (-1)
  | loop_free i fd =>
      modify (fun v => v <| curr_loop_dev := loop_path i |>) ;;
      o ← call (Open loopFile O_RDWR);
      let file_fd := r_ret o in
      if file_fd <? 0 then call (Close fd) ;; mret (-1) else
      r ← call (Ioctl fd (LOOP_SET_FD file_fd));
      if r_ret r <? 0 then
        call (Close file_fd) ;; call (Close fd) ;; mret (-1)
      else
        call (Close fd) ;; call (Close file_fd) ;; mret 0
  end.

(** ** The CD-ROM image *)

Definition cdrom_image : string := "/cdrom/cdrom_vfat.bin".

Definition MAX_VERSION_SIZE : Z := 255.

Definition version_prefix : string := "pc_mot_drv_vers_query:".

(** The length of the version file as [unsigned long], clipped. *)
Definition version_len (ftell : Z) : Z :=
  Z.min (ftell mod 4294967296) (MAX_VERSION_SIZE - strlen version_prefix - 1).

Definition cdrom_read_version_key : usb Z :=
  f ← call (Fopen "/cdrom/cdinfo" "rb");
  let file := r_ret f in
  if file =? 0 then mret 0 else
  t ← call (Fsize file);
  let file_len := version_len (r_ret t) in
  d ← call (Fread file file_len);
  call (Fclose file) ;;
  dev ← gets usb_device_fd;
  if dev <? 0 then mret 0 else
  w ← call (Write dev
        (version_prefix +:+ buf_bytes (Z.to_nat file_len) (r_data d)
          +:+ String NUL ""));
  mret (r_ret w).

(** One NUL byte, which tells the driver to drop its backing file. *)
Definition one_nul : string := String NUL "".

(** The early returns of the loop-device branch leave [fd] open. *)
Definition cdrom_partition_mount (mount : bool) : usb unit :=
  o ← call (Open (CDROMIO_DEVNODE cfg) O_WRONLY);
  let fd := r_ret o in
  if fd <? 0 then mret tt else
  a ← call (Access (CDROM_BLOCK_DEVICE cfg));
  if r_ret a =? 0 then
    (if mount then call (Write fd (CDROM_BLOCK_DEVICE cfg))
     else call (Write fd one_nul)) ;;
    call (Close fd) ;; mret tt
  else
  mounted ← gets cdrom_mounted;
  cleared ←
    (if mounted : bool then
       call (Write fd one_nul) ;;
       dev ← gets curr_loop_dev;
       d ← call (Open dev O_RDONLY);
       let device_fd := r_ret d in
       if device_fd <? 0 then mret false else
       c ← call (Ioctl device_fd LOOP_CLR_FD);
       if r_ret c <? 0 then call (Close device_fd) ;; mret false else
       modify (fun v => v <| cdrom_mounted := false |>) ;;
       call (Close device_fd) ;; mret true
     else mret true);
  if negb cleared then mret tt else
  bound ←
    (if mount then
       rc ← loop_create cdrom_image;
       if negb (rc =? 0) then mret false else
       modify (fun v => v <| cdrom_mounted := true |>) ;;
       dev ← gets curr_loop_dev;
       call (Write fd dev) ;; mret true
     else mret true);
  if negb bound then mret tt else
  call (Close fd) ;; mret tt.

(** Mounts the image at /cdrom, or unmounts it; the unmount branch without a
    block device leaves [device_fd] open when LOOP_CLR_FD fails. *)
Definition cdrom_smart_version_mount (imount : bool) : usb unit :=
  a ← call (Access (CDROM_BLOCK_DEVICE cfg));
  if r_ret a =? 0 then
    (if imount then call (Mount (CDROM_BLOCK_DEVICE cfg) "/cdrom" "iso9660")
     else call (Umount "/cdrom")) ;; mret tt
  else if imount then
    rc ← loop_create cdrom_image;
    if negb (rc =? 0) then mret tt else
    dev ← gets curr_loop_dev;
    call (Mount dev "/cdrom" "iso9660") ;; mret tt
  else
    call (Umount "/cdrom") ;;
    dev ← gets curr_loop_dev;
    d ← call (Open dev O_RDONLY);
    let device_fd := r_ret d in
    if device_fd <? 0 then mret tt else
    c ← call (Ioctl device_fd LOOP_CLR_FD);
    if r_ret c <? 0 then mret tt else
    call (Close device_fd) ;; mret tt.

(** ** The hooks of the mode table *)

Definition sh (command : string) : usb unit := call (System command) ;; mret tt.

Definition ums_enable (v : string) : string :=
  "echo " +:+ v +:+ " > /sys/devices/virtual/usb_composite/usb_mass_storage/enable".
Definition cdrom_param (v : string) : string :=
  "echo " +:+ v +:+ " > /sys/module/g_mot_android/parameters/cdrom".
Definition allow_eject (v : string) : string :=
  "echo " +:+ v +:+ " > /sys/module/g_mot_android/parameters/allow_eject".

(** The [cdrom_*] hooks. *)
Definition run_cdrom_hook (h : hook) : usb unit :=
  match h with
  | cdrom_pre_enable => sh (cdrom_param "1")
  | cdrom_disable_done => sh (cdrom_param "0")
  | cdrom_enable_done => cdrom_partition_mount true
  | cdrom_pre_disable => cdrom_partition_mount false
  | _ => mret tt
  end.

(** The [msc_*], [msc_only_*] and [msc_adb_*] hooks. *)
Definition run_msc_hook (h : hook) : usb unit :=
  match h with
  | msc_pre_enable =>
      when (MSD_CDROM_ENABLED cfg) (sh (cdrom_param "1") ;; sh (allow_eject "0"))
  | msc_enable_done =>
      when (MSD_CDROM_ENABLED cfg) (cdrom_partition_mount true) ;;
      sh (ums_enable "1")
  | msc_pre_disable =>
      when (MSD_CDROM_ENABLED cfg) (cdrom_partition_mount false) ;;
      sh (ums_enable "0")
  | msc_disable_done =>
      when (MSD_CDROM_ENABLED cfg) (sh (cdrom_param "0") ;; sh (allow_eject "1"))
  | msc_only_enable_done | msc_adb_enable_done => sh (ums_enable "1")
  | msc_only_pre_disable | msc_adb_pre_disable => sh (ums_enable "0")
  | _ => mret tt
  end.

(** A call through a function pointer of the table; the hooks of the ADB,
    NGP, MTP, modem and network modes have empty bodies. *)
Definition run_hook (h : hook) : usb unit :=
  match h with
  | cdrom_pre_enable | cdrom_disable_done | cdrom_enable_done
  | cdrom_pre_disable => run_cdrom_hook h
  | msc_pre_enable | msc_enable_done | msc_pre_disable | msc_disable_done
  | msc_only_enable_done | msc_only_pre_disable
  | msc_adb_enable_done | msc_adb_pre_disable => run_msc_hook h
  | _ => mret tt
  end.

(** [if (p) p();] *)
Definition run_ptr (p : option hook) : usb unit :=
  match p with Some h => run_hook h | None => mret tt end.

(** ** Properties *)

(** The kernel's decoding of a 32-bit device number. *)
Definition dev_major (dev : Z) : Z := Z.land (Z.shiftr dev 8) 4095.
Definition dev_minor (dev : Z) : Z :=
  Z.lor (Z.land dev 255) (Z.land (Z.shiftr dev 12) 1048320).

Lemma loop_dev_all :
  forallb (fun i => (dev_major (loop_dev i) =? 7) && (dev_minor (loop_dev i) =? i))
    (seqZ 0 4096) = true.
Proof. vm_compute. done. Qed.

(** The hooks and the mount functions change only [curr_loop_dev] and
    [cdrom_mounted]. *)
Definition cdrom_frame (v v' : usbd_vars) : Prop :=
  v' = v <| curr_loop_dev := curr_loop_dev v' |>
         <| cdrom_mounted := cdrom_mounted v' |>.

#[local] Instance cdrom_frame_refl : Reflexive cdrom_frame.
Proof. intros []. done. Qed.

#[local] Instance cdrom_frame_trans : Transitive cdrom_frame.
Proof. unfold cdrom_frame. intros v1 v2 v3 -> ->. by destruct v1. Qed.

Lemma cdrom_frame_loop_dev v d : cdrom_frame v (v <| curr_loop_dev := d |>).
Proof. by destruct v. Qed.

Lemma cdrom_frame_mounted v b : cdrom_frame v (v <| cdrom_mounted := b |>).
Proof. by destruct v. Qed.

(** Close a frame goal: the final variables are the first ones with the two
    variables of the frame assigned, in some order. *)
Ltac frame_solve :=
  unfold cdrom_frame in *;
  repeat match goal with H : st _ = _ |- _ => rewrite H in *; clear H end;
  by repeat match goal with v : usbd_vars |- _ => destruct v | s : sys _ usbd_vars |- _ => destruct s end.

#[local] Hint Resolve cdrom_frame_refl cdrom_frame_loop_dev cdrom_frame_mounted : core.

Definition res_fd (res : loop_search_result) (fd : Z) : Z :=
  match res with
  | loop_free _ f => if f =? fd then 1 else 0
  | _ => 0
  end.

(** The search keeps the variables and leaves open exactly the descriptor of
    the free device it returns. *)
Lemma loop_search_spec k i e s :
  wp (loop_search k i) e s (fun res s' =>
    st s' = st s /\
    forall fd, fd_balance fd (tr s') = fd_balance fd (tr s) + res_fd res fd).
Proof.
  revert i s. induction k as [|k IH]; intros i s; cbn [loop_search].
  { apply wp_ret. split; [done|]. intros fd. cbn. lia. }
  wp_go.
  1-4: split; [done|]; intros fd; cbn [res_fd]; fd_solve.
  destruct H as [-> Hb]. split; [done|]. intros fd. rewrite Hb. fd_solve.
Qed.

#[local] Hint Resolve loop_search_spec : wpdb.

Lemma loop_create_frame f e s :
  wp (loop_create f) e s (fun _ s' => cdrom_frame (st s) (st s')).
Proof.
  unfold loop_create. wp_go; destruct_and!; cbn [st] in *; frame_solve.
Qed.

#[local] Hint Resolve loop_create_frame : wpdb.

Lemma cdrom_partition_mount_frame b e s :
  wp (cdrom_partition_mount b) e s (fun _ s' => cdrom_frame (st s) (st s')).
Proof. unfold cdrom_partition_mount. wp_go; cbn [st] in *; frame_solve. Qed.

#[local] Hint Resolve cdrom_partition_mount_frame : wpdb.

Lemma run_ptr_frame p e s :
  wp (run_ptr p) e s (fun _ s' => cdrom_frame (st s) (st s')).
Proof.
  destruct p as [h|]; [|by apply wp_ret].
  destruct h; cbn [run_ptr run_hook run_cdrom_hook run_msc_hook]; unfold sh;
    wp_go; cbn [st] in *; frame_solve.
Qed.

Lemma cdrom_smart_version_mount_frame b e s :
  wp (cdrom_smart_version_mount b) e s (fun _ s' => cdrom_frame (st s) (st s')).
Proof. unfold cdrom_smart_version_mount. wp_go; cbn [st] in *; frame_solve. Qed.

Lemma cdrom_read_version_key_frame e s :
  wp cdrom_read_version_key e s (fun _ s' => cdrom_frame (st s) (st s')).
Proof. unfold cdrom_read_version_key. wp_go; cbn [st] in *; frame_solve. Qed.

(** ** Traces *)

#[global] Instance loop_search_logs k i : Logs (loop_search k i).
Proof. revert i. induction k as [|k IH]; intros i; cbn [loop_search]; logs. Qed.

#[global] Instance loop_create_logs f : Logs (loop_create f).
Proof. unfold loop_create. logs. Qed.

#[global] Instance cdrom_partition_mount_logs b : Logs (cdrom_partition_mount b).
Proof. unfold cdrom_partition_mount. logs. Qed.

#[global] Instance run_ptr_logs p : Logs (run_ptr p).
Proof.
  destruct p as [h|]; cbn [run_ptr]; [|apply _].
  destruct h; cbn [run_hook run_cdrom_hook run_msc_hook]; unfold sh; logs.
Qed.

End Cdrom.

#[export] Hint Resolve run_ptr_frame cdrom_smart_version_mount_frame
  cdrom_read_version_key_frame : wpdb.
