(* ===== verification/UsbModes.v ===== *)
(** * usbd: selecting and setting the USB mode
    ([usbd_set_usb_mode], [usbd_alt_mode_set], [usbd_enumerate_default_mode] and
    the property queries of [src/usbd/usb_app.c]) *)

From S2P Require Import Prelude.
From S2P Require Import CString.
From S2P Require Import UsbDefines.
From S2P Require Import UsbState.
From S2P Require Import UsbCdrom.

Section Modes.
  Context (cfg : config).

(** ** Android properties *)

Definition property_get (key dflt : string) : usb (Z * string) :=
  r ← call (Property_get key dflt);
  mret (r_ret r, c_str (r_data r)).

(** -1 when the property cannot be read, else 1 or 0. *)
Definition usbd_get_adb_property : usb Z :=
  '(rc, buf) ← property_get "persist.service.adb.enable" "0";
  if rc =? 0 then mret (-1)
  else mret (if str_eq buf "1" then 1 else 0).

Definition usbd_get_startup_mode : usb MOTO_MODE_TYPE_T :=
  '(_, buf) ← property_get "ro.usb_mode" "normal";
  if str_eq buf "debug" then mret MOTO_MODE_TYPE_DEBUG else
  '(_, buf) ← property_get "persist.usb.android_config" "0";
  if str_eq buf "1" then mret MOTO_MODE_TYPE_DEBUG else
  '(_, buf) ← property_get "ro.bootmode" "normal";
  if str_eq buf "bp-tools" then mret MOTO_MODE_TYPE_BPTOOLS else
  mret (if USBD_TABLET_MODE cfg then MOTO_MODE_TYPE_TABLET
        else MOTO_MODE_TYPE_NORMAL).

Definition usbd_factorycable_adb_enabled : usb bool :=
  '(_, buf) ← property_get "persist.factory.allow_adb" "0";
  mret (str_eq buf "1").

(** ** Setting the mode *)

Definition usbd_set_usb_mode (new_mode : USB_MODE_T) : usb Z :=
  cur ← gets usbd_curr_usb_mode;
  run_ptr cfg (pre_disable (usb_mode_entry cfg cur)) ;;
  run_ptr cfg (disable_done (usb_mode_entry cfg cur)) ;;
  modify (fun v => v <| usbd_curr_usb_mode := new_mode |>) ;;
  if decide (new_mode = USB_MODE_MIN) then mret 0 else
  run_ptr cfg (pre_enable (usb_mode_entry cfg new_mode)) ;;
  dev ← gets usb_device_fd;
  call (Write dev (zstr (name (usb_mode_entry cfg new_mode)))) ;;
  mret 0.

(** [adb_en] and [tether_en] of [usbd_alt_mode_set]; [None] is -1. *)
Definition flag_of (buf on off : string) : option bool :=
  if str_eq buf on then Some true
  else if str_eq buf off then Some false
  else None.

Definition usbd_alt_mode_set (m : MOTO_MODE_TYPE_T) (adb_buf tether_buf : string)
    : usb Z :=
  let adb_en := flag_of adb_buf "adb_enable" "adb_disable" in
  let tether_en := flag_of tether_buf "tethering_enable" "tethering_disable" in
  match adb_en, tether_en with
  | None, None => mret 0
  | _, _ =>
      match tether_en with
      | Some t => modify (fun v => v <| tethering_enabled := t |>)
      | None => mret tt
      end ;;
      match m with
      | MOTO_MODE_TYPE_DEBUG =>
          usbd_set_usb_mode
            (if bool_decide (adb_en = Some true \/ tether_en = Some true)
             then USB_MODE_MSC_ADB else USB_MODE_MSC) ;; mret 0
      | MOTO_MODE_TYPE_BPTOOLS | MOTO_MODE_TYPE_TABLET =>
          en ← match adb_en with
               | Some b => mret (if b : bool then 1 else 0)
               | None => usbd_get_adb_property
               end;
          if en <? 0 then mret (-1) else
          tether ← gets tethering_enabled;
          usbd_set_usb_mode
            (usb_alt_mode_tlb (bool_decide (m = MOTO_MODE_TYPE_TABLET))
               (en =? 1) tether) ;; mret 0
      | _ => mret (-1)
      end
  end.

(** [if (usbd_get_adb_property()) ...]: -1 counts as enabled. *)
Definition usbd_enumerate_default_mode : usb Z :=
  m ← gets usbd_mode;
  match m with
  | MOTO_MODE_TYPE_DEBUG =>
      en ← usbd_get_adb_property;
      usbd_set_usb_mode (if en =? 0 then USB_MODE_MSC else USB_MODE_MSC_ADB)
  | MOTO_MODE_TYPE_BPTOOLS =>
      en ← usbd_get_adb_property;
      usbd_set_usb_mode
        (if en =? 0 then USB_MODE_BPTOOLS_ETH else USB_MODE_BPTOOLS_ETH_ADB)
  | MOTO_MODE_TYPE_TABLET =>
      en ← usbd_get_adb_property;
      usbd_set_usb_mode
        (if en =? 0 then USB_MODE_CDROM else USB_MODE_TABLET_NETWORK_MTP_ADB)
  | _ => mret 0
  end.

#[global] Instance usbd_set_usb_mode_logs m : Logs (usbd_set_usb_mode m).
Proof. unfold usbd_set_usb_mode. logs. Qed.

End Modes.
