(* ===== verification/UsbEvents.v ===== *)
(** * usbd: the event handlers of the daemon ([src/usbd/usb_app.c])

    Messages of the application, uevents of the kernel, events of the USB
    driver: one definition per function of the source, with every call that
    changes state or talks to the outside. *)

From S2P Require Import Prelude.
From S2P Require Import CString.
From S2P Require Import UsbDefines.
From S2P Require Import UsbState.
From S2P Require Import UsbCdrom.
From S2P Require Import UsbModes.
From Stdlib Require Import Ascii.

Section Events.
  Context (cfg : config).

(** ** Descriptors of the application *)

Definition usbd_get_maxfd : usb Z :=
  v ← gets id;
  mret (Z.max (Z.max (Z.max (uevent_sock v) (usb_device_fd v))
                     (usbd_server_fd v)) (usbd_app_fd v)).

(** The three lines "Clear the file descriptor" that follow a failed write. *)
Definition drop_app : usb unit :=
  app ← gets usbd_app_fd;
  modify (fun v => v <| connected_apps_fd := connected_apps_fd v ∖ {[app]} |>) ;;
  modify (fun v => v <| usbd_app_fd := -1 |>) ;;
  m ← usbd_get_maxfd;
  modify (fun v => v <| max_fd := m |>).

Definition usbd_save_socket_fd (newfd : Z) : usb unit :=
  app ← gets usbd_app_fd;
  if app =? -1 then
    modify (fun v => v <| connected_apps_fd := {[newfd]} ∪ connected_apps_fd v |>) ;;
    modify (fun v => v <| usbd_app_fd := newfd |>)
  else mret tt.

Definition usbd_socket_init : usb Z :=
  r ← call (Socket_local_server "usbd");
  modify (fun v => v <| usbd_server_fd := r_ret r |>) ;;
  if r_ret r <? 0 then mret (-1) else
  call (Chown "/dev/socket/usbd") ;;
  call (Chmod "/dev/socket/usbd") ;;
  mret 0.

(** ** Messages to the application *)

Definition usbd_send_adb_status (newfd en_flag : Z) : usb Z :=
  r ← call (Write newfd
        (zstr (if en_flag =? 1 then USBD_EVENT_ADB_ON else USBD_EVENT_ADB_OFF)));
  mret (r_ret r).

Definition usbd_send_tethering_status (newfd en_flag : Z) : usb Z :=
  r ← call (Write newfd
        (zstr (if en_flag =? 1 then USBD_EVENT_TETHERING_ON
               else USBD_EVENT_TETHERING_OFF)));
  mret (r_ret r).

Definition notification (s : USBD_STATE_T) : option string :=
  match s with
  | USBD_STATE_CABLE_ATTACHED => Some USBD_CABLE_ATTACHED
  | USBD_STATE_CABLE_DETACHED => Some USBD_CABLE_DETACHED
  | USBD_STATE_ENUM_IN_PROGRESS => Some USBD_GET_DESCRIPTOR
  | USBD_STATE_ENUMERATED => Some USBD_ENUMERATED
  | USBD_STATE_CABLE_DEFAULT => None
  end.

Definition usbd_notify_current_status (appfd : Z) : usb Z :=
  s ← gets usbd_current_state;
  match notification s with
  | Some m =>
      r ← call (Write appfd (zstr m));
      mret (if r_ret r <? 0 then -1 else r_ret r)
  | None => mret 0
  end.

(** ** Messages of the application *)

Definition SOCKET_BUFFER_SIZE : Z := 1024.

(** The first mode whose [mode_req] is [buf]; [None] is [i == USB_MODE_MAX]. *)
Definition match_request (buf : string) : option USB_MODE_T :=
  snd <$> list_find
    (fun m => mode_req (usb_mode_entry cfg m) = Some buf) usb_modes.

(** After the acknowledgement: the mode is repeated to the application when it
    is the current one, and set otherwise. *)
Definition socket_switch (client_fd : Z) (i : USB_MODE_T) : usb Z :=
  cur ← gets usbd_curr_usb_mode;
  if decide (cur = i) then
    match mode_done (usb_mode_entry cfg cur) with
    | Some m =>
        r ← call (Write client_fd (zstr m));
        mret (if r_ret r <? 0 then -1 else 0)
    | None => mret 0
    end
  else
    online ← gets current_usb_online;
    when online (usbd_set_usb_mode cfg i ;; mret tt) ;;
    mret 0.

Definition usbd_socket_event (client_fd : Z) : usb Z :=
  r ← call (Read client_fd SOCKET_BUFFER_SIZE);
  if r_ret r <? 0 then mret (-1) else
  if r_ret r =? 0 then call (Close client_fd) ;; mret (- ECONNRESET) else
  let buf := c_str (received SOCKET_BUFFER_SIZE r) in
  cable ← gets usbd_curr_cable_status;
  if decide (cable = MOTO_ACCY_TYPE_EMU_CABLE_FACTORY) then mret 0 else
  match match_request buf with
  | None => mret 0
  | Some i =>
      if decide (i = USB_MODE_MIN) then usbd_set_usb_mode cfg i ;; mret 0 else
      w ← match resp_ok (usb_mode_entry cfg i) with
          | Some m => r ← call (Write client_fd (zstr m)); mret (r_ret r)
          | None => mret 0
          end;
      if w <? 0 then mret (-1) else
      socket_switch client_fd i
  end.

(** ** Events of the USB driver *)

Definition usbd_enum_process (newfd : Z) : usb Z :=
  cur ← gets usbd_curr_usb_mode;
  run_ptr cfg (enable_done (usb_mode_entry cfg cur)) ;;
  match mode_done (usb_mode_entry cfg cur) with
  | Some m =>
      if 0 <=? newfd then
        r ← call (Write newfd (zstr m));
        mret (if r_ret r <? 0 then -1 else 0)
      else mret 0
  | None => mret 0
  end.

(** The first mode named [tag] that has a [switch_req]. *)
Definition match_switch (tag : string) : option string :=
  i ← snd <$> list_find
        (fun m => name (usb_mode_entry cfg m) = tag /\
                  is_Some (switch_req (usb_mode_entry cfg m))) usb_modes;
  switch_req (usb_mode_entry cfg i).

(** The mode that replaces the CD-ROM when the PC asks to switch. *)
Definition cdrom_successor (m : MOTO_MODE_TYPE_T) (en_flag : Z) (tether : bool)
    : option USB_MODE_T :=
  if decide (m = MOTO_MODE_TYPE_TABLET) then
    if en_flag =? 0 then
      Some (if tether then USB_MODE_RNDIS else USB_MODE_TABLET_NETWORK_MTP)
    else if en_flag =? 1 then
      Some (if tether then USB_MODE_RNDIS_ADB else USB_MODE_TABLET_NETWORK_MTP_ADB)
    else None
  else
    if en_flag =? 0 then Some USB_MODE_NGP
    else if en_flag =? 1 then Some USB_MODE_NGP_ADB
    else None.

Definition usb_req_mode_switch (tag : string) : usb unit :=
  en_flag ← usbd_get_adb_property;
  if en_flag <? 0 then mret tt else
  match match_switch tag with
  | None =>
      when (str_eq tag "cdrom2") (usbd_set_usb_mode cfg USB_MODE_CDROM2 ;; mret tt)
  | Some req =>
      v ← gets id;
      if bool_decide (usbd_curr_usb_mode v = USB_MODE_CDROM \/
                      usbd_curr_usb_mode v = USB_MODE_CDROM2) then
        match cdrom_successor (usbd_mode v) en_flag (tethering_enabled v) with
        | Some m => usbd_set_usb_mode cfg m ;; mret tt
        | None => mret tt
        end
      else
        when (0 <=? usbd_app_fd v)
          (r ← call (Write (usbd_app_fd v) (zstr req));
           when (r_ret r <? 0) drop_app)
  end.

End Events.
