(* ===== verification/UsbUevent.v ===== *)
(** * usbd: cable state and kernel uevents ([src/usbd/usb_app.c])

    [readUsbSwitchState], [process_usb_uevent_message],
    [usbd_get_initial_cable_status], [usbd_handle_cable_status_change] and the
    functions they use. *)

From S2P Require Import Prelude.
From S2P Require Import CString.
From S2P Require Import UsbDefines.
From S2P Require Import UsbState.
From S2P Require Import UsbCdrom.
From S2P Require Import UsbModes.
From S2P Require Import UsbEvents.
From Stdlib Require Import Ascii.

Section Uevent.
  Context (cfg : config).

Definition USB_SWITCH_STATE_PATH : string := "/sys/class/switch/usb_connected/state".

(** [CABLE_USB], [CABLE_FACTORY], and anything else. *)
Definition cable_of_char (c : ascii) : MOTO_ACCY_TYPE_T :=
  if (c =? "1")%char then MOTO_ACCY_TYPE_EMU_CABLE_USB
  else if (c =? "2")%char then MOTO_ACCY_TYPE_EMU_CABLE_FACTORY
  else MOTO_ACCY_TYPE_EMU_UNKNOWN.

(** [None] is the return value -1. *)
Definition readUsbSwitchState : usb (option MOTO_ACCY_TYPE_T) :=
  f ← call (Fopen USB_SWITCH_STATE_PATH "r");
  let fp := r_ret f in
  if fp =? 0 then mret None else
  g ← call (Fgets fp 255);
  call (Fclose fp) ;;
  if r_ret g =? 0 then mret None
  else mret (Some (cable_of_char (char_at (r_data g) 0))).

(** The return value, and the C string in [result] when it was written. *)
Definition copy_string_from_file (filename : string) (size : Z)
    : usb (option string) :=
  o ← call (Open filename O_RDONLY);
  let fd := r_ret o in
  if fd =? -1 then mret None else
  r ← call (Read fd size);
  call (Close fd) ;;
  if r_ret r <? 0 then mret None
  else mret (Some (c_str (str_take (Z.to_nat (r_ret r - 1)) (received size r)))).

(** ** SCSI disks behind the dock *)

(** The loop that looks backwards from position [p] of [path] for the dash of
    the <device> component: [paren] slashes still to pass, [tmp] the last slash
    passed; [None] is [p == s]. *)
Fixpoint port_scan (path : string) (p paren tmp : nat) : option string :=
  match p with
  | O => None
  | S q =>
      let c := char_at path p in
      match paren with
      | S paren' =>
          if (c =? "/")%char then port_scan path q paren' p
          else port_scan path q paren tmp
      | O =>
          if (c =? "-")%char
          then Some (str_take (tmp - p - 1) (str_drop (p + 1) path))
          else port_scan path q 0 tmp
      end
  end.

(** The text that "%s" prints for [dev_path] after that loop; the code sets the
    pointer to NULL when no dash is found. *)
Definition port_name (dev_path : string) : string :=
  default "(null)" (port_scan dev_path (String.length dev_path) 6 0).

(** The value of the last record of the message that starts with [key]. *)
Definition uevent_field (key : string) (records : list string) : option string :=
  foldl (fun acc s => if String.prefix key s then Some (str_drop (String.length key) s)
                      else acc) None records.

(** What follows the first '@' of the message; [None] when there is none and
    the scan runs out of the message. *)
Fixpoint after_at (s : string) : option string :=
  match s with
  | "" => None
  | String c s => if (c =? "@")%char then Some (c_str s) else after_at s
  end.

(** [filename] has 255 bytes: a longer path is written outside it. *)
Definition scsi_event (action dev_path : string) : usb unit :=
  let filename f := "/sys" +:+ dev_path +:+ f in
  if 255 <=? strlen (filename "/device/type") then
    modify (fun v => v <| undefined := true |>)
  else
  type ← copy_string_from_file (filename "/device/type") 128;
  match type with
  | Some "0" =>
      if 255 <=? strlen (filename "/device/model") then
        modify (fun v => v <| undefined := true |>)
      else
      model ← copy_string_from_file (filename "/device/model") 128;
      let prodname := default "NONAME" model in
      let event_string := str_take 254
        ((if str_eq action "add" then USBD_DISK_ATTACH else USBD_DISK_DETACH)
         +:+ ":" +:+ prodname +:+ ":/mnt/usbdisk_" +:+ port_name dev_path) in
      app ← gets usbd_app_fd;
      call (Write app (zstr event_string)) ;; mret tt
  | _ => mret tt
  end.

(** ** The uevent handler *)

Definition USBD_UEVENT_MSG_LEN : Z := 65536.

(** [recvmsg] answers with the message and, as out-parameters, [nl_groups],
    [nl_pid], whether the control message carries SCM_CREDENTIALS (1) or is
    missing or of another type (0), and the sender's uid. *)
Definition uevent_trusted (r : resp) : bool :=
  (0 <? r_ret r) && (aux 0 r =? 1) && (aux 1 r =? 0) && (aux 2 r =? 1)
  && (aux 3 r =? 0) && (r_ret r <? USBD_UEVENT_MSG_LEN - 1).

(** The assignments for a new cable state, which return 1. *)
Definition cable_changed (c : MOTO_ACCY_TYPE_T) : usb bool :=
  modify (fun v => v <| usbd_curr_cable_status := c |>) ;;
  if decide (c <> MOTO_ACCY_TYPE_EMU_UNKNOWN) then
    modify (fun v => v <| current_usb_online := true |>) ;;
    modify (fun v => v <| usbd_current_state := USBD_STATE_CABLE_ATTACHED |>) ;;
    mret true
  else
    modify (fun v => v <| current_usb_online := false |>) ;;
    modify (fun v => v <| usbd_current_state := USBD_STATE_CABLE_DETACHED |>) ;;
    modify (fun v => v <| usb_get_des_count := 0 |>) ;;
    dev ← gets usb_device_fd;
    call (Write dev (zstr "usb_cable_detach")) ;;
    mret true.

Definition process_usb_uevent_message (socket : Z) : usb bool :=
  r ← call (Recvmsg socket);
  if negb (uevent_trusted r) then mret false else
  let bytes := received USBD_UEVENT_MSG_LEN r in
  let buffer := c_str bytes in
  if contains_nocase buffer "usb_connected" && contains_nocase buffer "switch" then
    c ← readUsbSwitchState;
    match c with
    | None => mret false
    | Some c => cable_changed c
    end
  else if contains_nocase buffer "scsi_device" then
    match after_at bytes with
    | None => modify (fun v => v <| undefined := true |>) ;; mret false
    | Some dev_path =>
        let records := split_on NUL bytes in
        match uevent_field "SUBSYSTEM=" records, uevent_field "ACTION=" records with
        | Some "scsi_device", Some a =>
            when (str_eq a "add" || str_eq a "remove") (scsi_event a dev_path) ;;
            mret false
        | _, _ => mret false
        end
    end
  else mret false.

Definition uevent_socket_init : usb Z :=
  r ← call Uevent_socket;
  modify (fun v => v <| uevent_sock := r_ret r |>) ;;
  let s := r_ret r in
  if s <? 0 then mret (-1) else
  r ← call (Setsockopt s "SO_RCVBUFFORCE");
  if r_ret r <? 0 then mret (-1) else
  r ← call (Setsockopt s "SO_PASSCRED");
  if r_ret r <? 0 then mret (-1) else
  r ← call (Bind s);
  if r_ret r <? 0 then mret (-1) else mret 0.

Definition SCSI_DEVICE_PATH : string := "/sys/bus/scsi/devices".

(** [strncmp("host", d_name, 5)] compares the terminating NUL too. *)
Definition usbd_get_flashdrive_status : usb Z :=
  d ← call (Opendir SCSI_DEVICE_PATH);
  if r_ret d =? 0 then mret (-1) else
  match list_find (fun n => strn_eq 5 "host" n = true) (dir_entries d) with
  | Some (_, n) =>
      f ← call (Fopen (SCSI_DEVICE_PATH +:+ "/" +:+ n +:+ "/uevent") "w");
      if r_ret f =? 0 then mret 0 else
      call (Fprintf (r_ret f) "add") ;; call (Fclose (r_ret f)) ;; mret 0
  | None => mret 0
  end.

Definition usbd_get_initial_cable_status : usb Z :=
  modify (fun v => v <| current_usb_online := false |>) ;;
  modify (fun v => v <| usbd_current_state := USBD_STATE_CABLE_DEFAULT |>) ;;
  c ← readUsbSwitchState;
  match c with
  | None => mret (-1)
  | Some c =>
      modify (fun v => v <| usbd_curr_cable_status := c |>) ;;
      (if decide (c <> MOTO_ACCY_TYPE_EMU_UNKNOWN) then
         modify (fun v => v <| current_usb_online := true |>) ;;
         modify (fun v => v <| usbd_current_state := USBD_STATE_CABLE_ATTACHED |>)
       else mret tt) ;;
      mret 0
  end.

(** The factory mode, set as soon as a factory cable is seen. *)
Definition set_factory_mode : usb unit :=
  adb ← usbd_factorycable_adb_enabled;
  usbd_set_usb_mode cfg (if adb : bool then USB_MODE_NETWORK_ADB else USB_MODE_NETWORK) ;;
  mret tt.

Definition usbd_handle_cable_status_change : usb unit :=
  v ← gets id;
  match usbd_curr_cable_status v, usb_alt_mode v with
  | MOTO_ACCY_TYPE_EMU_CABLE_FACTORY, _ => set_factory_mode
  | _, false =>
      when (0 <=? usbd_app_fd v)
        (rc ← usbd_notify_current_status (usbd_app_fd v);
         when (rc <? 0) drop_app)
  | MOTO_ACCY_TYPE_EMU_CABLE_USB, true =>
      modify (fun v => v <| tethering_enabled := false |>) ;;
      usbd_enumerate_default_mode cfg ;; mret tt
  | _, true => mret tt
  end.

End Uevent.
