(* ===== verification/UsbMain.v ===== *)
(** * usbd: [main] ([src/usbd/usb_app.c])

    The start-up sequence, the event the driver sends and its parser, and one
    iteration of the [select] loop. *)

From S2P Require Import Prelude.
From S2P Require Import CString.
From S2P Require Import UsbDefines.
From S2P Require Import UsbState.
From S2P Require Import UsbCdrom.
From S2P Require Import UsbModes.
From S2P Require Import UsbEvents.
From S2P Require Import UsbUevent.
From Stdlib Require Import Ascii.

Section Main.
  Context (cfg : config).

(** ** Start-up

    [None] is entering the loop; [Some n] is [main] returning [n]. *)

(** The uevent socket, the driver and, in normal mode, the server socket. *)
Definition main_open : usb (option Z) :=
  modify (fun v => v <| usbd_app_fd := -1 |>) ;;
  r ← uevent_socket_init;
  if r <? 0 then mret (Some (-1)) else
  o ← call (Open "/dev/usb_device_mode" O_RDWR);
  modify (fun v => v <| usb_device_fd := r_ret o |>) ;;
  if r_ret o <? 0 then mret (Some (- r_errno o)) else
  m ← usbd_get_startup_mode cfg;
  modify (fun v => v <| usbd_mode := m |>) ;;
  when (bool_decide (m <> MOTO_MODE_TYPE_NORMAL))
    (modify (fun v => v <| usb_alt_mode := true |>)) ;;
  alt ← gets usb_alt_mode;
  sock ← (if alt : bool then mret 0 else usbd_socket_init);
  if sock <? 0 then
    c ← call (Close (r_ret o)); mret (Some (- r_errno c))
  else mret None.

(** The initial cable state and the descriptors to watch. *)
Definition main_watch : usb (option Z) :=
  c ← usbd_get_initial_cable_status;
  if c <? 0 then mret (Some (-1)) else
  modify (fun v => v <| connected_apps_fd :=
    {[uevent_sock v]} ∪ (if usb_alt_mode v then ∅ else {[usbd_server_fd v]})
      ∪ {[usb_device_fd v]} |>) ;;
  mx ← usbd_get_maxfd;
  modify (fun v => v <| max_fd := mx |>) ;;
  mret None.

(** The version of the CD-ROM image, and the mode of a cable that was plugged
    in before the daemon started. *)
Definition main_first_mode : usb unit :=
  cdrom_smart_version_mount cfg true ;;
  cdrom_read_version_key ;;
  cdrom_smart_version_mount cfg false ;;
  v ← gets id;
  when (current_usb_online v)
    (match usbd_curr_cable_status v with
     | MOTO_ACCY_TYPE_EMU_CABLE_FACTORY => set_factory_mode cfg
     | MOTO_ACCY_TYPE_EMU_CABLE_USB =>
         when (usb_alt_mode v) (usbd_enumerate_default_mode cfg ;; mret tt)
     | MOTO_ACCY_TYPE_EMU_UNKNOWN => mret tt
     end).

Definition main_init : usb (option Z) :=
  r ← main_open;
  match r with
  | Some n => mret (Some n)
  | None =>
      r ← main_watch;
      match r with
      | Some n => mret (Some n)
      | None => main_first_mode ;; mret None
      end
  end.

(** ** The event of the driver

    "<pc switch>:<adb>:<tethering>:<enumeration>", read into [devbuf[90]]. *)

Record dev_event := DevEvent {
  de_pc : string;
  de_adb : string;
  de_tether : string;
  de_enum : string }.

(** [sscanf] of the first two fields. *)
Definition parse_dev_head (devbuf pc_old adb_old : string)
    : option (string * string) :=
  pc ← scan_field 50 (c_str devbuf) pc_old;
  let tmp := (String.length pc + 1)%nat in
  adb ← scan_field 20 (c_str (str_drop tmp devbuf)) adb_old;
  Some (pc, adb).

(** The third field and the rest of the buffer. *)
Definition parse_dev_tail (devbuf pc adb tether_old : string)
    : option (string * string) :=
  let tmp := (String.length pc + String.length adb + 2)%nat in
  tether ← scan_field 20 (c_str (str_drop tmp devbuf)) tether_old;
  let tmp := (tmp + String.length tether + 1)%nat in
  let len := strlen (c_str devbuf) - strlen pc - strlen adb - strlen tether - 2 in
  Some (tether,
        if 0 <? len then c_str (str_take (Z.to_nat len) (str_drop tmp devbuf)) else "").

(** The writes to the application for the ADB and tethering fields. *)
Definition forward_flags (app : Z) (adb tether : string) : usb unit :=
  match flag_of adb "adb_enable" "adb_disable" with
  | Some b => usbd_send_adb_status app (if b then 1 else 0) ;; mret tt
  | None => mret tt
  end ;;
  match flag_of tether "tethering_enable" "tethering_disable" with
  | Some b => usbd_send_tethering_status app (if b then 1 else 0) ;; mret tt
  | None => mret tt
  end.

(** The part of the handler for a plain USB cable that is online. *)
Definition enum_event (pc enum : string) : usb unit :=
  when (negb (str_eq pc "none")) (usb_req_mode_switch cfg pc) ;;
  if strn_eq 8 enum "get_desc" then
    modify (fun v => v <| usb_get_des_count := usb_get_des_count v + 1 |>) ;;
    n ← gets usb_get_des_count;
    when (n =? 1)
      (modify (fun v => v <| usbd_current_state := USBD_STATE_ENUM_IN_PROGRESS |>) ;;
       app ← gets usbd_app_fd;
       when (0 <=? app)
         (r ← call (Write app (zstr USBD_GET_DESCRIPTOR));
          when (r_ret r <? 0) drop_app))
  else when (strn_eq 10 enum "enumerated")
    (modify (fun v => v <| usbd_current_state := USBD_STATE_ENUMERATED |>) ;;
     app ← gets usbd_app_fd;
     rc ← usbd_enum_process cfg app;
     when (rc <? 0) drop_app).

(** The branch of the handler for cables other than the factory cable. *)
Definition device_event_usb (devbuf : string) : usb unit :=
  v ← gets id;
  match parse_dev_tail devbuf (pcSwitchbuf v) (adbEnablebuf v)
          (tetheringEnablebuf v) with
  | None => modify (fun v => v <| undefined := true |>)
  | Some (tether, enum) =>
      modify (fun v => v <| tetheringEnablebuf := tether |>) ;;
      (if usb_alt_mode v && current_usb_online v then
         usbd_alt_mode_set cfg (usbd_mode v) (adbEnablebuf v) tether ;; mret tt
       else when (0 <=? usbd_app_fd v)
         (forward_flags (usbd_app_fd v) (adbEnablebuf v) tether)) ;;
      v ← gets id;
      when (bool_decide (usbd_curr_cable_status v = MOTO_ACCY_TYPE_EMU_CABLE_USB)
            && current_usb_online v)
        (enum_event (pcSwitchbuf v) enum)
  end.

(** [if (FD_ISSET(usb_device_fd, &rset))] *)
Definition device_event : usb unit :=
  dev ← gets usb_device_fd;
  r ← call (Read dev 89);
  if r_ret r <=? 0 then mret tt else
  let devbuf := received 89 r in
  v ← gets id;
  match parse_dev_head devbuf (pcSwitchbuf v) (adbEnablebuf v) with
  | None => modify (fun v => v <| undefined := true |>)
  | Some (pc, adb) =>
      modify (fun v => v <| pcSwitchbuf := pc |>) ;;
      modify (fun v => v <| adbEnablebuf := adb |>) ;;
      if decide (usbd_curr_cable_status v = MOTO_ACCY_TYPE_EMU_CABLE_FACTORY) then
        allow ← usbd_factorycable_adb_enabled;
        if allow && str_eq adb "adb_enable" then
          usbd_set_usb_mode cfg USB_MODE_NETWORK_ADB ;; mret tt
        else when (str_eq adb "adb_disable")
          (usbd_set_usb_mode cfg USB_MODE_NETWORK ;; mret tt)
      else device_event_usb devbuf
  end.

(** ** One iteration of the loop *)

(** A connection on the daemon's socket. *)
Definition server_event : usb unit :=
  srv ← gets usbd_server_fd;
  a ← call (Accept srv);
  let newfd := r_ret a in
  when (0 <=? newfd)
    (usbd_save_socket_fd newfd ;;
     mx ← usbd_get_maxfd;
     modify (fun v => v <| max_fd := mx |>) ;;
     en ← usbd_get_adb_property;
     usbd_send_adb_status newfd en ;;
     cable ← gets usbd_curr_cable_status;
     when (bool_decide (cable <> MOTO_ACCY_TYPE_EMU_CABLE_FACTORY))
       (usbd_notify_current_status newfd ;; mret tt) ;;
     usbd_get_flashdrive_status ;; mret tt).

(** A message of the application. *)
Definition app_event : usb unit :=
  app ← gets usbd_app_fd;
  rc ← usbd_socket_event cfg app;
  when (rc <? 0) drop_app.

(** The descriptors that [select] leaves in [rset]: an error leaves the set as
    it was. *)
Definition ready_set (r : resp) (set : gset Z) : gset Z :=
  if r_ret r <? 0 then set else set ∩ list_to_set (r_aux r).

Definition main_iter : usb unit :=
  v ← gets id;
  r ← call (Select (max_fd v + 1) (connected_apps_fd v));
  let rset := ready_set r (connected_apps_fd v) in
  when (bool_decide (uevent_sock v ∈ rset))
    (changed ← process_usb_uevent_message (uevent_sock v);
     when changed (usbd_handle_cable_status_change cfg)) ;;
  v ← gets id;
  when (bool_decide (usb_device_fd v ∈ rset)) device_event ;;
  v ← gets id;
  when (negb (usb_alt_mode v) && bool_decide (usbd_server_fd v ∈ rset)) server_event ;;
  v ← gets id;
  when (negb (usb_alt_mode v) && (0 <=? usbd_app_fd v)
        && bool_decide (usbd_app_fd v ∈ rset)) app_event.

(** The states at the head of the loop, as long as the code has kept inside
    its buffers; they may hold anything at the start. *)
Inductive reachable (e : env usb_call) : sys usb_call usbd_vars -> Prop :=
  | reach_init pc adb tether s :
      exec main_init e (usbd_start pc adb tether) = (None, s) -> reachable e s
  | reach_iter s u s' :
      reachable e s -> main_iter e s = (u, s') -> undefined (st s') = false ->
      reachable e s'.

End Main.
