(* ===== verification/UsbInv.v ===== *)
(** * usbd: the invariant of the daemon's loop

    What the variables of [usb_app.c] satisfy every time the loop of [main]
    calls [select], whatever the application, the driver, the kernel and the
    properties answer. *)

From S2P Require Import Prelude.
From S2P Require Import CString.
From S2P Require Import UsbDefines.
From S2P Require Import UsbState.
From S2P Require Import UsbCdrom.
From S2P Require Import UsbModes.
From S2P Require Import UsbEvents.
From S2P Require Import UsbUevent.
From S2P Require Import UsbMain.

(** ** The invariant *)

Definition factory_modes : list USB_MODE_T := [USB_MODE_NETWORK; USB_MODE_NETWORK_ADB].

(** The descriptors the loop watches. *)
Definition watched (v : usbd_vars) : gset Z :=
  {[uevent_sock v]} ∪ (if usb_alt_mode v then ∅ else {[usbd_server_fd v]})
    ∪ {[usb_device_fd v]} ∪ (if 0 <=? usbd_app_fd v then {[usbd_app_fd v]} else ∅).

Definition top_fd (v : usbd_vars) : Z :=
  Z.max (Z.max (Z.max (uevent_sock v) (usb_device_fd v)) (usbd_server_fd v))
    (usbd_app_fd v).

(** The application's descriptor is none of the daemon's own. *)
Definition app_distinct (v : usbd_vars) (fd : Z) : Prop :=
  fd <> uevent_sock v /\ fd <> usb_device_fd v /\ fd <> usbd_server_fd v.

(** [accept] answers, when it answers, with a descriptor that is not one of the
    daemon's own.  This holds of every run in which the kernel does not hand out
    a descriptor that is open; see [accept_fresh] below. *)
Definition accepts_fresh (e : env usb_call) (v : usbd_vars) : Prop :=
  forall n f, 0 <= r_ret (e n (Accept f)) ->
    app_distinct v (r_ret (e n (Accept f))).

Record usbd_inv (e : env usb_call) (v : usbd_vars) : Prop := {
  inv_factory : usbd_curr_cable_status v = MOTO_ACCY_TYPE_EMU_CABLE_FACTORY ->
    usbd_curr_usb_mode v ∈ factory_modes;
  inv_online : current_usb_online v = true <->
    usbd_curr_cable_status v <> MOTO_ACCY_TYPE_EMU_UNKNOWN;
  inv_state_on : current_usb_online v = true ->
    usbd_current_state v ∈ [USBD_STATE_CABLE_ATTACHED; USBD_STATE_ENUM_IN_PROGRESS;
                            USBD_STATE_ENUMERATED];
  inv_state_off : current_usb_online v = false ->
    usbd_current_state v ∈ [USBD_STATE_CABLE_DEFAULT; USBD_STATE_CABLE_DETACHED] /\
    usb_get_des_count v = 0;
  inv_count : 0 <= usb_get_des_count v;
  inv_watch : connected_apps_fd v = watched v;
  inv_max : max_fd v = top_fd v;
  inv_app : 0 <= usbd_app_fd v -> app_distinct v (usbd_app_fd v);
  inv_none : usbd_app_fd v < 0 -> usbd_app_fd v = -1;
  inv_alt : usb_alt_mode v = true -> usbd_app_fd v = -1;
  inv_fresh : accepts_fresh e v }.

(** ** What setting a mode changes *)

Definition mode_frame (v v' : usbd_vars) : Prop :=
  v' = v <| usbd_curr_usb_mode := usbd_curr_usb_mode v' |>
         <| tethering_enabled := tethering_enabled v' |>
         <| curr_loop_dev := curr_loop_dev v' |>
         <| cdrom_mounted := cdrom_mounted v' |>.

Section Frames.
  Context (cfg : config).

#[local] Hint Resolve run_ptr_frame : wpdb.

(** Take states apart and compare them variable by variable. *)
Ltac vars_solve :=
  unfold mode_frame, cdrom_frame in *; cbn [st] in *;
  repeat match goal with H : st _ = _ |- _ => rewrite H in *; clear H end;
  repeat match goal with s : sys _ usbd_vars |- _ => destruct s end;
  cbn [st] in *;
  repeat match goal with v : usbd_vars |- _ => destruct v end;
  cbn in *; simplify_eq; done.

Lemma usbd_set_usb_mode_spec m e s :
  wp (usbd_set_usb_mode cfg m) e s (fun r s' =>
    r = 0 /\ usbd_curr_usb_mode (st s') = m /\ mode_frame (st s) (st s')).
Proof. unfold usbd_set_usb_mode. wp_go; (split_and!; [done|..]); vars_solve. Qed.

#[local] Hint Resolve usbd_set_usb_mode_spec : wpdb.

Lemma usbd_get_adb_property_spec e s :
  wp usbd_get_adb_property e s (fun r s' => st s' = st s /\ r ∈ [-1; 0; 1]).
Proof.
  unfold usbd_get_adb_property, property_get. wp_go; (split; [done|]);
    try case_match; set_solver.
Qed.

Lemma usbd_factorycable_adb_enabled_spec e s :
  wp usbd_factorycable_adb_enabled e s (fun _ s' => st s' = st s).
Proof. unfold usbd_factorycable_adb_enabled, property_get. by wp_go. Qed.

#[local] Hint Resolve usbd_get_adb_property_spec
  usbd_factorycable_adb_enabled_spec : wpdb.

Lemma set_factory_mode_spec e s :
  wp (set_factory_mode cfg) e s (fun _ s' =>
    usbd_curr_usb_mode (st s') ∈ factory_modes /\ mode_frame (st s) (st s')).
Proof.
  unfold set_factory_mode. wp_go. destruct H0 as (_ & -> & Hf).
  split; [destruct a; set_solver|]. vars_solve.
Qed.

Lemma usbd_alt_mode_set_frame m a t e s :
  wp (usbd_alt_mode_set cfg m a t) e s (fun _ s' => mode_frame (st s) (st s')).
Proof.
  unfold usbd_alt_mode_set. wp_go; destruct_and?; vars_solve.
Qed.

Lemma usbd_enumerate_default_mode_frame e s :
  wp (usbd_enumerate_default_mode cfg) e s (fun _ s' => mode_frame (st s) (st s')).
Proof.
  unfold usbd_enumerate_default_mode. wp_go; destruct_and?; vars_solve.
Qed.

Lemma usbd_enum_process_frame fd e s :
  wp (usbd_enum_process cfg fd) e s (fun _ s' => mode_frame (st s) (st s') /\
    usbd_curr_usb_mode (st s') = usbd_curr_usb_mode (st s)).
Proof. unfold usbd_enum_process. wp_go; destruct_and?; split; vars_solve. Qed.

(** A factory cable makes the daemon ignore the application. *)
Lemma usbd_socket_event_frame fd e s :
  wp (usbd_socket_event cfg fd) e s (fun _ s' => mode_frame (st s) (st s') /\
    (usbd_curr_cable_status (st s) = MOTO_ACCY_TYPE_EMU_CABLE_FACTORY -> st s' = st s)).
Proof.
  unfold usbd_socket_event, socket_switch. wp_go; destruct_and?; (split; [vars_solve|]);
    cbn [st] in *; intros; solve [congruence | done].
Qed.

Lemma usbd_notify_current_status_st fd e s :
  wp (usbd_notify_current_status fd) e s (fun _ s' => st s' = st s).
Proof. unfold usbd_notify_current_status. by wp_go. Qed.

Lemma forward_flags_st fd a t e s :
  wp (forward_flags fd a t) e s (fun _ s' => st s' = st s).
Proof.
  unfold forward_flags, usbd_send_adb_status, usbd_send_tethering_status.
  by wp_go.
Qed.

Lemma usbd_get_flashdrive_status_st e s :
  wp usbd_get_flashdrive_status e s (fun _ s' => st s' = st s).
Proof. unfold usbd_get_flashdrive_status. by wp_go. Qed.

Lemma readUsbSwitchState_st e s :
  wp readUsbSwitchState e s (fun _ s' => st s' = st s).
Proof. unfold readUsbSwitchState. by wp_go. Qed.

Lemma copy_string_from_file_st f n e s :
  wp (copy_string_from_file f n) e s (fun _ s' => st s' = st s).
Proof. unfold copy_string_from_file. by wp_go. Qed.

(** ** What [drop_app] does *)

Lemma drop_app_spec e s :
  wp drop_app e s (fun _ s' =>
    st s' = (st s) <| connected_apps_fd := connected_apps_fd (st s) ∖ {[usbd_app_fd (st s)]} |>
                 <| usbd_app_fd := -1 |>
                 <| max_fd := top_fd ((st s) <| usbd_app_fd := -1 |>) |>).
Proof. unfold drop_app, usbd_get_maxfd. by wp_go. Qed.

(** ** Preservation *)

(** The variables the invariant reads, apart from the mode. *)
Lemma inv_mode_frame e v v' :
  usbd_inv e v -> mode_frame v v' ->
  (usbd_curr_cable_status v = MOTO_ACCY_TYPE_EMU_CABLE_FACTORY ->
   usbd_curr_usb_mode v' ∈ factory_modes) ->
  usbd_inv e v'.
Proof. intros [] -> Hf. by split. Qed.

Lemma inv_set_app_none e v :
  usbd_inv e v -> 0 <= usbd_app_fd v ->
  usbd_inv e (v <| connected_apps_fd := connected_apps_fd v ∖ {[usbd_app_fd v]} |>
              <| usbd_app_fd := -1 |>
              <| max_fd := top_fd (v <| usbd_app_fd := -1 |>) |>).
Proof.
  intros [] Hpos. split; try done. cbn. rewrite inv_watch0. unfold watched. cbn.
  rewrite (proj2 (Z.leb_le _ _) Hpos). destruct (inv_app0 Hpos) as (? & ? & ?).
  clear - H H0 H1. destruct (usb_alt_mode v); set_solver.
Qed.

Lemma drop_app_inv e s :
  usbd_inv e (st s) -> 0 <= usbd_app_fd (st s) ->
  wp drop_app e s (fun _ s' => usbd_inv e (st s') /\
    usbd_curr_cable_status (st s') = usbd_curr_cable_status (st s)).
Proof.
  intros HI Hpos. eapply wp_wand; [apply drop_app_spec|]. intros _ s' ->.
  split; [by apply inv_set_app_none | done].
Qed.

(** The invariant while a plain USB cable is attached. *)
Definition inv_usb (e : env usb_call) (v : usbd_vars) : Prop :=
  usbd_inv e v /\ usbd_curr_cable_status v = MOTO_ACCY_TYPE_EMU_CABLE_USB.

Lemma inv_usb_mode_frame e v v' : inv_usb e v -> mode_frame v v' -> inv_usb e v'.
Proof.
  intros [HI Hc] Hf. split; [|by rewrite Hf].
  eapply inv_mode_frame; [done | done |]. congruence.
Qed.

Lemma drop_app_inv_usb e s :
  inv_usb e (st s) -> 0 <= usbd_app_fd (st s) ->
  wp drop_app e s (fun _ s' => inv_usb e (st s')).
Proof.
  intros [HI Hc] Hpos. eapply wp_wand; [by apply drop_app_inv|].
  intros _ s' [? Hs]. split; [done|congruence].
Qed.

Lemma inv_usb_state e v x :
  inv_usb e v -> x ∈ [USBD_STATE_ENUM_IN_PROGRESS; USBD_STATE_ENUMERATED] ->
  inv_usb e (v <| usbd_current_state := x |>).
Proof.
  intros [[] Hc] Hx. split; [|done]. split; try done; cbn.
  - set_solver.
  - rewrite Hc in inv_online0. destruct (current_usb_online v); [done|].
    destruct inv_online0 as [_ Ho]. by specialize (Ho ltac:(done)).
Qed.

Lemma inv_usb_count e v :
  inv_usb e v -> inv_usb e (v <| usb_get_des_count := usb_get_des_count v + 1 |>).
Proof.
  intros [[] Hc]. split; [|done]. split; try done; cbn; [|lia].
  rewrite Hc in inv_online0. intros Hoff. rewrite Hoff in inv_online0.
  destruct inv_online0 as [_ Ho]. by specialize (Ho ltac:(done)).
Qed.

Lemma usb_req_mode_switch_inv tag e s :
  inv_usb e (st s) -> wp (usb_req_mode_switch cfg tag) e s (fun _ s' => inv_usb e (st s')).
Proof.
  intros HI. unfold usb_req_mode_switch. wp_go; destruct_and?; cbn [st] in *;
    try (eapply inv_usb_mode_frame; [|eassumption]); try congruence.
  all: eapply wp_wand; [apply drop_app_inv_usb; cbn [st] in *|]; [congruence|..].
  all: try done; unfold id in *; lia.
Qed.

#[local] Hint Resolve usb_req_mode_switch_inv drop_app_inv_usb : wpdb.

Lemma usbd_enum_process_inv fd e s :
  inv_usb e (st s) -> wp (usbd_enum_process cfg fd) e s (fun r s' =>
    inv_usb e (st s') /\ usbd_app_fd (st s') = usbd_app_fd (st s) /\ (r < 0 -> 0 <= fd)).
Proof.
  intros HI. unfold usbd_enum_process.
  wp_go; cbn [st] in *; (split; [|split]); try (case_match; lia); try lia; try vars_solve.
  all: eapply inv_usb_mode_frame; [exact HI|vars_solve].
Qed.

Lemma enum_event_inv pc enum e s :
  inv_usb e (st s) -> wp (enum_event cfg pc enum) e s (fun _ s' => inv_usb e (st s')).
Proof.
  intros HI. unfold enum_event. apply wp_bind.
  apply (wp_wand _ _ _ (fun _ s' => inv_usb e (st s'))); [by wp_go|].
  clear s HI. intros _ s HI. wp_go; cbn [st] in *.
  - apply drop_app_inv_usb; cbn [st]; [|cbn in *; lia].
    apply inv_usb_state; [by apply inv_usb_count | set_solver].
  - apply inv_usb_state; [by apply inv_usb_count | set_solver].
  - apply inv_usb_state; [by apply inv_usb_count | set_solver].
  - by apply inv_usb_count.
  - eapply wp_wand; [apply usbd_enum_process_inv; apply inv_usb_state; [done|set_solver]|].
    intros r s' (HI' & Happ & Hr). wp_go; [|done].
    apply drop_app_inv_usb; [done|]. rewrite Happ. apply Hr. lia.
  - done.
Qed.

(** ** Handlers *)

#[local] Hint Resolve usbd_alt_mode_set_frame forward_flags_st : wpdb.

Lemma device_event_usb_inv devbuf e s :
  usbd_inv e (st s) ->
  usbd_curr_cable_status (st s) <> MOTO_ACCY_TYPE_EMU_CABLE_FACTORY ->
  wp (device_event_usb cfg devbuf) e s (fun _ s' => usbd_inv e (st s')).
Proof.
  intros HI Hc. unfold device_event_usb.
  apply wp_bind, wp_gets. case_match; [case_match|].
  2: { apply wp_modify. cbn [st]. destruct HI. by split. }
  apply wp_bind, wp_modify, wp_bind. cbn [st].
  apply (wp_wand _ _ _ (fun _ s' => usbd_inv e (st s'))).
  - wp_go; cbn [st] in *; unfold id in *.
    + eapply inv_mode_frame; [|eassumption|done]. destruct HI. by split.
    + rewrite H1. destruct HI. by split.
    + destruct HI. by split.
  - intros _ s' HI'. wp_go; cbn [st] in *; [|done].
    apply andb_prop in E as [E _]. apply bool_decide_eq_true in E. unfold id in *.
    eapply wp_wand; [apply enum_event_inv; done|]. by intros _ ? [].
Qed.

Lemma device_event_inv e s :
  usbd_inv e (st s) -> wp (device_event cfg) e s (fun _ s' => usbd_inv e (st s')).
Proof.
  intros HI. unfold device_event. wp_go; cbn [st] in *; unfold id in *.
  - done.
  - destruct_and?. eapply inv_mode_frame; [|eassumption|]; [destruct HI; split; try done|];
      rewrite H in *; try done. set_solver.
  - destruct_and?. eapply inv_mode_frame; [|eassumption|]; [destruct HI; split; try done|];
      rewrite H in *; try done. set_solver.
  - rewrite H. destruct HI. by split.
  - apply device_event_usb_inv; [destruct HI; by split | done].
  - destruct HI. by split.
Qed.

#[local] Hint Resolve usbd_notify_current_status_st usbd_get_flashdrive_status_st : wpdb.

Lemma inv_set_app e v n f fd :
  usbd_inv e v -> usb_alt_mode v = false -> fd = r_ret (e n (Accept f)) ->
  0 <= fd -> usbd_app_fd v = -1 ->
  usbd_inv e (v <| connected_apps_fd := {[fd]} ∪ connected_apps_fd v |>
                <| usbd_app_fd := fd |>
                <| max_fd := top_fd (v <| usbd_app_fd := fd |>) |>).
Proof.
  intros [] Halt Hfd Hpos Happ. split; try done; cbn; try congruence; try lia.
  - rewrite inv_watch0. unfold watched. cbn. rewrite Happ, Halt. cbn.
    rewrite (proj2 (Z.leb_le _ _) Hpos). set_solver.
  - intros _. rewrite Hfd in *. by apply inv_fresh0.
Qed.

Lemma server_event_inv e s :
  usbd_inv e (st s) -> usb_alt_mode (st s) = false ->
  wp server_event e s (fun _ s' => usbd_inv e (st s')).
Proof.
  intros HI Halt. unfold server_event. apply wp_bind, wp_gets, wp_bind, wp_call.
  intros r Hr. apply wp_when; [|done]. intros Hpos.
  apply wp_bind. unfold usbd_save_socket_fd, usbd_get_maxfd, usbd_send_adb_status.
  apply wp_bind, wp_gets. cbn [st]. case_match eqn:Happ.
  - wp_go; cbn [st] in *; destruct_and?; repeat match goal with H : st _ = _ |- _ => rewrite H; clear H end.
    all: apply (inv_set_app e (st s) (length (tr s)) (usbd_server_fd (st s)) (r_ret r));
      solve [done | congruence | lia].
  - wp_go; cbn [st] in *; destruct_and?; repeat match goal with H : st _ = _ |- _ => rewrite H; clear H end.
    all: cbn [st]; destruct HI; by split.
Qed.

Lemma app_event_inv e s :
  usbd_inv e (st s) -> 0 <= usbd_app_fd (st s) ->
  wp (app_event cfg) e s (fun _ s' => usbd_inv e (st s')).
Proof.
  intros HI Hpos. unfold app_event. apply wp_bind, wp_gets, wp_bind.
  eapply wp_wand; [apply usbd_socket_event_frame|]. intros rc s' [Hf Hst].
  assert (usbd_inv e (st s')) as HI'.
  { eapply inv_mode_frame; [done|done|]. intros Hc. rewrite (Hst Hc).
    by apply (inv_factory _ _ HI). }
  apply wp_when; [|done]. intros _.
  eapply wp_wand; [apply drop_app_inv; [done|]|by intros _ ? []].
  by rewrite Hf.
Qed.

(** Between a uevent that reports a new cable and the handler that follows it,
    the invariant holds up to the mode. *)
Definition inv_pending (e : env usb_call) (v : usbd_vars) : Prop :=
  usbd_inv e (v <| usbd_curr_usb_mode := USB_MODE_NETWORK |>).

Lemma inv_pending_other e v :
  inv_pending e v -> usbd_curr_cable_status v <> MOTO_ACCY_TYPE_EMU_CABLE_FACTORY ->
  usbd_inv e v.
Proof. intros [] Hc. by split. Qed.

Lemma inv_pending_frame e v v' :
  inv_pending e v -> mode_frame v v' -> usbd_curr_usb_mode v' ∈ factory_modes ->
  usbd_inv e v'.
Proof. intros [] -> Hm. by split. Qed.

Lemma cable_changed_inv c e s :
  usbd_inv e (st s) ->
  wp (cable_changed c) e s (fun r s' => r = true /\ inv_pending e (st s')).
Proof.
  intros []. unfold cable_changed. wp_go; (split; [done|]); cbn [st] in *;
    split; try done; cbn; solve [set_solver | naive_solver].
Qed.

#[local] Hint Resolve readUsbSwitchState_st copy_string_from_file_st : wpdb.

Lemma scsi_event_inv a p e s :
  usbd_inv e (st s) -> wp (scsi_event a p) e s (fun _ s' => usbd_inv e (st s')).
Proof.
  intros HI. unfold scsi_event. wp_go; cbn [st] in *;
    repeat match goal with H : st _ = _ |- _ => rewrite H; clear H end;
    solve [done | destruct HI; by split].
Qed.

#[local] Hint Resolve scsi_event_inv cable_changed_inv : wpdb.

Lemma process_usb_uevent_message_inv fd e s :
  usbd_inv e (st s) -> wp (process_usb_uevent_message fd) e s (fun changed s' =>
    if changed then inv_pending e (st s') else usbd_inv e (st s')).
Proof.
  intros HI. unfold process_usb_uevent_message.
  apply wp_bind, wp_call. intros r _.
  case_match; [by apply wp_ret|]. cbv zeta. case_match.
  { apply wp_bind. eapply wp_wand; [apply readUsbSwitchState_st|].
    intros [c|] s' Hst; cbn [st] in Hst; [|apply wp_ret; by rewrite Hst].
    eapply wp_wand; [apply cable_changed_inv; by rewrite Hst|].
    by intros ? s'' [-> ?]. }
  wp_go; cbn [st] in *; solve [done | destruct HI; by split].
Qed.

Lemma usbd_handle_cable_status_change_inv e s :
  inv_pending e (st s) ->
  wp (usbd_handle_cable_status_change cfg) e s (fun _ s' => usbd_inv e (st s')).
Proof.
  intros HI. unfold usbd_handle_cable_status_change, id.
  apply wp_bind, wp_gets.
  destruct (usbd_curr_cable_status (st s)) eqn:Hc.
  2: { eapply wp_wand; [apply set_factory_mode_spec|].
       intros _ s' [Hm Hf]. by eapply inv_pending_frame. }
  all: assert (usbd_inv e (st s)) as HI' by (apply inv_pending_other; congruence);
    destruct (usb_alt_mode (st s)) eqn:Ha.
  1: { apply wp_bind, wp_modify, wp_bind.
       eapply wp_wand; [apply usbd_enumerate_default_mode_frame|].
       intros ? s' Hf. apply wp_ret. eapply inv_mode_frame; [|exact Hf|]; cbn [st].
       - destruct HI'. by split.
       - cbn. congruence. }
  2: done.
  all: apply wp_when; [|done]; intros Hpos; apply wp_bind;
    eapply wp_wand; [apply usbd_notify_current_status_st|];
    intros rc s' Hst; apply wp_when; [|by rewrite Hst]; intros _;
    eapply wp_wand; [apply drop_app_inv; rewrite Hst; [done|lia]|by intros _ ? []].
Qed.

(** Every command of the loop body keeps the invariant. *)
Lemma wp_keep_bind {A B} (m : usb A) (k : A -> usb B) e s :
  wp m e s (fun _ s' => usbd_inv e (st s')) ->
  (forall a s', usbd_inv e (st s') -> wp (k a) e s' (fun _ s'' => usbd_inv e (st s''))) ->
  wp (mbind k m) e s (fun _ s' => usbd_inv e (st s')).
Proof. intros Hm Hk. apply wp_bind. eapply wp_wand; [exact Hm|]. eauto. Qed.

Lemma main_iter_inv e s :
  usbd_inv e (st s) -> wp (main_iter cfg) e s (fun _ s' => usbd_inv e (st s')).
Proof.
  intros HI. unfold main_iter, id. apply wp_bind, wp_gets, wp_bind, wp_call.
  intros r _. apply wp_keep_bind.
  { apply wp_when; [|done]. intros _. apply wp_bind.
    eapply wp_wand; [by apply process_usb_uevent_message_inv|].
    intros b s' Hb. apply wp_when; intros ->; [|done].
    by apply usbd_handle_cable_status_change_inv. }
  intros _ s1 H1. apply wp_bind, wp_gets, wp_keep_bind.
  { apply wp_when; [|done]. intros _. by apply device_event_inv. }
  intros _ s2 H2. apply wp_bind, wp_gets, wp_keep_bind.
  { apply wp_when; [|done]. intros Hc. apply server_event_inv; [done|].
    by destruct (usb_alt_mode (st s2)). }
  intros _ s3 H3. apply wp_bind, wp_gets, wp_when; [|done]. intros Hc.
  apply app_event_inv; [done|]. lia.
Qed.

(** ** The start *)

(** The kernel never answers [accept] with the descriptors it gave the daemon
    for the uevent socket, the driver and the server socket. *)
Definition accept_fresh (e : env usb_call) : Prop :=
  forall n f i c,
    c ∈ [Uevent_socket; Open "/dev/usb_device_mode" O_RDWR; Socket_local_server "usbd"] ->
    0 <= r_ret (e n (Accept f)) -> r_ret (e n (Accept f)) <> r_ret (e i c).

#[local] Hint Resolve set_factory_mode_spec usbd_enumerate_default_mode_frame : wpdb.

Lemma usbd_get_startup_mode_st e s :
  wp (usbd_get_startup_mode cfg) e s (fun _ s' => st s' = st s).
Proof. unfold usbd_get_startup_mode, property_get. by wp_go. Qed.

#[local] Hint Resolve usbd_get_startup_mode_st : wpdb.

(** The variables once the descriptors are open. *)
Record opened (e : env usb_call) (v : usbd_vars) : Prop := {
  op_app : usbd_app_fd v = -1;
  op_count : usb_get_des_count v = 0;
  op_fresh : accepts_fresh e v }.

Lemma main_open_spec e s :
  accept_fresh e -> usb_get_des_count (st s) = 0 -> usbd_server_fd (st s) = -1 ->
  wp (main_open cfg) e s (fun r s' => r = None -> opened e (st s')).
Proof.
  intros Hfresh Hcount Hsrv. unfold main_open, uevent_socket_init, usbd_socket_init.
  wp_go; try discriminate; intros _; cbn [st] in *;
    repeat match goal with H : st _ = _ |- _ => rewrite H in *; clear H end;
    (split; [done|done|]); intros n f Hpos; repeat split; cbn;
    solve [ subst; eapply Hfresh; [set_solver|done] | lia ].
Qed.

Lemma main_watch_inv e s :
  opened e (st s) ->
  wp main_watch e s (fun r s' => r = None -> inv_pending e (st s')).
Proof.
  intros []. unfold main_watch, usbd_get_initial_cable_status, usbd_get_maxfd.
  wp_go; try discriminate; intros _; cbn [st] in *;
    repeat match goal with H : st _ = _ |- _ => rewrite H in *; clear H end;
    split; try done; cbn; rewrite ?op_app0, ?op_count0; cbn; unfold watched; cbn;
    rewrite ?op_app0; cbn; solve [set_solver | naive_solver | lia].
Qed.

Lemma inv_pending_cdrom e v v' :
  inv_pending e v -> cdrom_frame v v' -> inv_pending e v'.
Proof. intros [] ->. by split. Qed.

Lemma main_first_mode_inv e s :
  inv_pending e (st s) ->
  wp (main_first_mode cfg) e s (fun _ s' => usbd_inv e (st s')).
Proof.
  intros HI. unfold main_first_mode, id.
  apply wp_bind. eapply wp_wand; [apply cdrom_smart_version_mount_frame|]. intros ? s1 H1.
  apply wp_bind. eapply wp_wand; [apply cdrom_read_version_key_frame|]. intros ? s2 H2.
  apply wp_bind. eapply wp_wand; [apply cdrom_smart_version_mount_frame|]. intros ? s3 H3.
  pose proof (inv_pending_cdrom _ _ _ (inv_pending_cdrom _ _ _
    (inv_pending_cdrom _ _ _ HI H1) H2) H3) as HP.
  clear s HI s1 H1 s2 H2 H3. apply wp_bind, wp_gets.
  pose proof (inv_online _ _ HP) as Hon. cbn in Hon.
  apply wp_when; intros Ho; rewrite Ho in Hon.
  2: { apply inv_pending_other; [done|]. intros Hc. rewrite Hc in Hon.
       destruct Hon as [_ Hon]. by specialize (Hon ltac:(done)). }
  destruct (usbd_curr_cable_status (st s3)) eqn:Hc.
  - assert (usbd_inv e (st s3)) as HI by (apply inv_pending_other; [done|congruence]).
    apply wp_when; [|done]. intros _. apply wp_bind.
    eapply wp_wand; [apply usbd_enumerate_default_mode_frame|].
    intros ? s' Hf. apply wp_ret. eapply inv_mode_frame; [done|done|congruence].
  - eapply wp_wand; [apply set_factory_mode_spec|].
    intros ? s' [Hm Hf]. by eapply inv_pending_frame.
  - apply wp_ret. apply inv_pending_other; [done|congruence].
Qed.

Lemma main_init_inv pc adb tether e :
  accept_fresh e ->
  wp (main_init cfg) e (Sys _ _ (usbd_start pc adb tether) []) (fun r s' => r = None -> usbd_inv e (st s')).
Proof.
  intros Hfresh. unfold main_init. apply wp_bind.
  eapply wp_wand; [by apply main_open_spec|]. intros [n|] s1 H1; [done|].
  apply wp_bind. eapply wp_wand; [apply main_watch_inv; by apply H1|].
  intros [n|] s2 H2; [done|]. apply wp_bind.
  eapply wp_wand; [apply main_first_mode_inv; by apply H2|]. by intros ? s3 H3 _.
Qed.

(** The invariant holds at every call of [select]. *)
Lemma reachable_inv e s :
  accept_fresh e -> reachable cfg e s -> usbd_inv e (st s).
Proof.
  intros Hfresh. induction 1 as [pc adb tether s Hi | s u s' Hr IH Hstep Hu].
  - pose proof (main_init_inv pc adb tether e Hfresh) as Hw. unfold wp, exec in *.
    rewrite Hi in Hw. by apply Hw.
  - pose proof (main_iter_inv e s (IH)) as Hw. unfold wp in Hw. by rewrite Hstep in Hw.
Qed.

End Frames.
