(* ===== verification/UsbThms.v ===== *)
(** * usbd: what the daemon guarantees *)

From S2P Require Import Prelude.
From S2P Require Import CString.
From S2P Require Import UsbDefines.
From S2P Require Import UsbState.
From S2P Require Import UsbCdrom.
From S2P Require Import UsbModes.
From S2P Require Import UsbEvents.
From S2P Require Import UsbUevent.
From S2P Require Import UsbMain.
From S2P Require Import UsbInv.
From Stdlib Require Import Ascii.

(** ** Concrete inputs for the witnesses *)

Definition demo_cfg : config :=
  Config false false false "/sys/devices/platform/usb_mass_storage/lun0/file"
    "/dev/block/cdrom".

(** A kernel that opens everything, has a CD-ROM block device, and reports the
    cable [c] ('1' plain, '2' factory); no application connects. *)
Definition demo_env (c : ascii) : env usb_call := fun _ x =>
  match x with
  | Uevent_socket => answer 3
  | Open "/dev/usb_device_mode" O_RDWR => answer 4
  | Open _ _ => answer 9
  | Socket_local_server _ => answer 5
  | Accept _ => answer (-1)
  | Fopen "/sys/class/switch/usb_connected/state" _ => answer 1
  | Fgets _ _ => Resp 1 0 (String c "") []
  | Property_get _ d => Resp (strlen d) 0 d []
  | _ => answer 0
  end.

Definition demo_start (c : ascii) : sys usb_call usbd_vars :=
  (exec (main_init demo_cfg) (demo_env c) (usbd_start "" "" "")).2.

Lemma demo_fresh c : accept_fresh (demo_env c).
Proof. intros n f i x _ H. cbn in H. lia. Qed.

Lemma demo_reachable_factory : reachable demo_cfg (demo_env "2") (demo_start "2").
Proof. apply (reach_init _ _ "" "" ""). vm_compute. reflexivity. Qed.

Lemma demo_reachable_usb : reachable demo_cfg (demo_env "1") (demo_start "1").
Proof. apply (reach_init _ _ "" "" ""). vm_compute. reflexivity. Qed.

Section Theorems.
  Context (cfg : config).

(** ** The loop *)

(** C1.  While a factory cable is attached the USB mode is one of the two
    factory modes: whenever the loop of [main] calls [select], whatever the
    application, the PC, the driver and the properties have sent so far. *)
Theorem usbd_factory_lock e s :
  accept_fresh e -> reachable cfg e s ->
  usbd_curr_cable_status (st s) = MOTO_ACCY_TYPE_EMU_CABLE_FACTORY ->
  usbd_curr_usb_mode (st s) = USB_MODE_NETWORK \/
  usbd_curr_usb_mode (st s) = USB_MODE_NETWORK_ADB.
Proof.
  intros Hf Hr Hc. pose proof (inv_factory _ _ (reachable_inv cfg e s Hf Hr) Hc).
  unfold factory_modes in *. set_solver.
Qed.

(** C2.  The descriptor set given to [select] is exactly the uevent socket, the
    driver, the server socket (normal mode only) and the connected application,
    and the bound [max_fd + 1] is above every descriptor of the set, so no event
    source is ever missed and a dropped application is never polled again. *)
Theorem usbd_watch_complete e s :
  accept_fresh e -> reachable cfg e s ->
  connected_apps_fd (st s) = watched (st s) /\
  (forall fd, fd ∈ connected_apps_fd (st s) -> fd < max_fd (st s) + 1).
Proof.
  intros Hf Hr. pose proof (reachable_inv cfg e s Hf Hr) as I.
  split; [by apply I|]. intros fd. rewrite (inv_watch _ _ I), (inv_max _ _ I).
  unfold watched, top_fd. repeat case_match; set_solver by lia.
Qed.

(** C3.  [current_usb_online], the cable type and the connection state agree:
    online exactly with a USB or factory cable; online, the state is attached or
    a later one; offline, it is default or detached and the count of descriptor
    requests is back to zero. *)
Theorem usbd_cable_consistent e s :
  accept_fresh e -> reachable cfg e s ->
  if current_usb_online (st s) then
    usbd_curr_cable_status (st s) <> MOTO_ACCY_TYPE_EMU_UNKNOWN /\
    usbd_current_state (st s) ∈ [USBD_STATE_CABLE_ATTACHED;
      USBD_STATE_ENUM_IN_PROGRESS; USBD_STATE_ENUMERATED]
  else
    usbd_curr_cable_status (st s) = MOTO_ACCY_TYPE_EMU_UNKNOWN /\
    usbd_current_state (st s) ∈ [USBD_STATE_CABLE_DEFAULT; USBD_STATE_CABLE_DETACHED] /\
    usb_get_des_count (st s) = 0.
Proof.
  intros Hf Hr. pose proof (reachable_inv cfg e s Hf Hr) as I.
  destruct (current_usb_online (st s)) eqn:Ho.
  - split; [by apply (inv_online _ _ I) | by apply (inv_state_on _ _ I)].
  - split; [|by apply (inv_state_off _ _ I)].
    destruct (usbd_curr_cable_status (st s)) eqn:Hc; [| |done].
    all: assert (current_usb_online (st s) = true) by (apply (inv_online _ _ I); congruence);
      congruence.
Qed.

End Theorems.

Lemma usbd_factory_lock_witness :
  usbd_curr_cable_status (st (demo_start "2")) = MOTO_ACCY_TYPE_EMU_CABLE_FACTORY /\
  (usbd_curr_usb_mode (st (demo_start "2")) = USB_MODE_NETWORK \/
   usbd_curr_usb_mode (st (demo_start "2")) = USB_MODE_NETWORK_ADB).
Proof.
  split; [vm_compute; reflexivity|].
  apply (usbd_factory_lock demo_cfg (demo_env "2")).
  - apply demo_fresh.
  - apply demo_reachable_factory.
  - vm_compute. reflexivity.
Defined.

Lemma usbd_watch_complete_witness :
  connected_apps_fd (st (demo_start "1")) = watched (st (demo_start "1")) /\
  (forall fd, fd ∈ connected_apps_fd (st (demo_start "1")) ->
              fd < max_fd (st (demo_start "1")) + 1).
Proof.
  apply (usbd_watch_complete demo_cfg (demo_env "1")).
  - apply demo_fresh.
  - apply demo_reachable_usb.
Defined.

Lemma usbd_cable_consistent_witness :
  usbd_current_state (st (demo_start "1")) = USBD_STATE_CABLE_ATTACHED /\
  if current_usb_online (st (demo_start "1")) then
    usbd_curr_cable_status (st (demo_start "1")) <> MOTO_ACCY_TYPE_EMU_UNKNOWN /\
    usbd_current_state (st (demo_start "1")) ∈ [USBD_STATE_CABLE_ATTACHED;
      USBD_STATE_ENUM_IN_PROGRESS; USBD_STATE_ENUMERATED]
  else
    usbd_curr_cable_status (st (demo_start "1")) = MOTO_ACCY_TYPE_EMU_UNKNOWN /\
    usbd_current_state (st (demo_start "1")) ∈ [USBD_STATE_CABLE_DEFAULT; USBD_STATE_CABLE_DETACHED] /\
    usb_get_des_count (st (demo_start "1")) = 0.
Proof.
  split; [vm_compute; reflexivity|].
  apply (usbd_cable_consistent demo_cfg (demo_env "1")).
  - apply demo_fresh.
  - apply demo_reachable_usb.
Defined.
