(* ===== verification/UsbParse.v ===== *)
(** * usbd: the two parsers of the daemon

    The event string of the USB driver and the device path of a SCSI disk. *)

From S2P Require Import Prelude.
From S2P Require Import CString.
From S2P Require Import UsbDefines.
From S2P Require Import UsbState.
From S2P Require Import UsbCdrom.
From S2P Require Import UsbModes.
From S2P Require Import UsbEvents.
From S2P Require Import UsbUevent.
From S2P Require Import UsbMain.
From Stdlib Require Import Ascii.

(** ** The driver's event *)

(** The format the driver prints. *)
Definition print_event (d : dev_event) : string :=
  de_pc d +:+ String ":" (de_adb d +:+ String ":" (de_tether d +:+ String ":" (de_enum d))).

(** Parsing the whole buffer, from the contents the three fields had before. *)
Definition parse_event (devbuf pc_old adb_old tether_old : string) : option dev_event :=
  '(pc, adb) ← parse_dev_head devbuf pc_old adb_old;
  '(tether, enum) ← parse_dev_tail devbuf pc adb tether_old;
  Some (DevEvent pc adb tether enum).

(** A field: not empty, no separator, no NUL, shorter than its buffer. *)
Definition field_ok (size : nat) (f : string) : Prop :=
  f <> "" /\ lacks ":" f /\ lacks NUL f /\ (String.length f < size)%nat.

Definition event_ok (d : dev_event) : Prop :=
  field_ok 50 (de_pc d) /\ field_ok 20 (de_adb d) /\ field_ok 20 (de_tether d) /\
  lacks NUL (de_enum d).

Lemma lacks_field d f rest :
  d <> ":"%char -> lacks d f -> lacks d rest -> lacks d (f +:+ String ":" rest).
Proof. intros Hd Hf Hr. apply lacks_app; [done|]. by apply lacks_cons. Qed.

Lemma str_drop_field f rest :
  str_drop (String.length f + 1) (f +:+ String ":" rest) = rest.
Proof.
  replace (f +:+ String ":" rest) with ((f +:+ ":") +:+ rest)
    by (rewrite <- str_app_assoc; done).
  apply str_drop_app. rewrite str_length_app. cbn. lia.
Qed.

Lemma str_drop_past f rest n :
  str_drop (String.length f + 1 + n) (f +:+ String ":" rest) = str_drop n rest.
Proof.
  rewrite <- (str_drop_field f rest) at 2. generalize (f +:+ String ":" rest).
  induction (String.length f + 1)%nat as [|m IH]; intros s; cbn; [done|].
  destruct s; [by destruct n | apply IH].
Qed.

(** C6.  Round trip: an event in the driver's format, with non-empty fields that
    fit the buffers, is parsed back exactly, whatever the three field buffers
    held before. *)
Theorem parse_event_print d pc_old adb_old tether_old :
  event_ok d -> parse_event (print_event d) pc_old adb_old tether_old = Some d.
Proof.
  destruct d as [pc adb te en]. intros (Hp & Ha & Ht & He); cbn in *.
  destruct Hp as (Hp1 & Hp2 & Hp3 & Hp4), Ha as (Ha1 & Ha2 & Ha3 & Ha4),
    Ht as (Ht1 & Ht2 & Ht3 & Ht4).
  assert (NUL <> ":"%char) as Hn by done.
  assert (lacks NUL (te +:+ String ":" en)) as L3 by by apply lacks_field.
  assert (lacks NUL (adb +:+ String ":" (te +:+ String ":" en))) as L2 by by apply lacks_field.
  unfold parse_event, parse_dev_head, print_event; cbn [de_pc de_adb de_tether de_enum].
  unfold c_str. rewrite (lacks_field NUL pc) by done.
  rewrite scan_field_full by done. cbn [mbind option_bind].
  rewrite str_drop_field. rewrite L2.
  rewrite scan_field_full by done. cbn [mbind option_bind].
  unfold parse_dev_tail, c_str.
  replace (String.length pc + String.length adb + 2)%nat
    with ((String.length pc + 1) + (String.length adb + 1))%nat by lia.
  rewrite str_drop_past, str_drop_field, L3.
  rewrite scan_field_full by done. cbn [mbind option_bind].
  rewrite <- !Nat.add_assoc, (Nat.add_assoc _ 1), str_drop_past, (Nat.add_assoc _ 1),
    str_drop_past, str_drop_field.
  rewrite !(lacks_field NUL pc) by done. unfold strlen.
  rewrite !str_length_app; cbn [String.length]; rewrite !str_length_app; cbn [String.length];
  rewrite !str_length_app; cbn [String.length].
  match goal with |- context [Z.to_nat ?z] => replace z with (Z.of_nat (S (String.length en))) by lia end.
  rewrite (proj2 (Z.ltb_lt _ _)) by lia. rewrite Nat2Z.id, str_take_all by lia.
  by rewrite He.
Qed.

(** ** The port of a disk *)

(** The scan passes over characters it does not look for. *)
Lemma port_scan_skip path n p k tmp :
  (n <= p)%nat ->
  (forall i, (p - n < i <= p)%nat ->
     char_at path i <> (if k is O then "-" else "/")%char) ->
  port_scan path p k tmp = port_scan path (p - n) k tmp.
Proof.
  revert p. induction n as [|n IH]; intros p Hp Hc; [by rewrite Nat.sub_0_r|].
  destruct p as [|p]; [lia|]. cbn [port_scan Nat.sub].
  pose proof (Hc (S p) ltac:(lia)) as Hne. apply Ascii.eqb_neq in Hne.
  destruct k; rewrite Hne; apply IH; [lia | intros i Hi; apply Hc; lia | lia |
    intros i Hi; apply Hc; lia].
Qed.

(** The components [cs], each after a slash. *)
Fixpoint join_path (cs : list string) : string :=
  match cs with
  | [] => ""
  | c :: cs => String "/" (c +:+ join_path cs)
  end.

(** One component, from its last character back across its slash. *)
Lemma port_scan_component path a c z k tmp :
  path = a +:+ String "/" (c +:+ z) -> lacks "/" c -> a <> "" ->
  port_scan path (String.length a + String.length c) (S k) tmp =
  port_scan path (String.length a - 1) k (String.length a).
Proof.
  intros -> Hc Ha. rewrite (port_scan_skip _ (String.length c)); [|lia|].
  - rewrite Nat.add_sub. pose proof (char_at_app a "/" (c +:+ z)) as Hs.
    destruct (String.length a) as [|n] eqn:E; [by destruct a|].
    cbn [port_scan]. rewrite Hs, Ascii.eqb_refl, Nat.sub_1_r. done.
  - intros i Hi. replace i with (String.length a + S (i - String.length a - 1))%nat by lia.
    rewrite char_at_app_r. cbn. apply char_at_lacks; [done|lia].
Qed.

Lemma port_scan_components path cs a z k tmp :
  path = a +:+ join_path cs +:+ z -> Forall (lacks "/") cs -> a <> "" ->
  port_scan path (String.length a + String.length (join_path cs) - 1) (length cs + k) tmp =
  port_scan path (String.length a - 1) k (match cs with [] => tmp | _ => String.length a end).
Proof.
  revert a k. induction cs as [|c cs IH]; intros a k Hp Hcs Ha.
  { cbn. by rewrite Nat.add_0_r. }
  apply Forall_cons in Hcs as [Hc Hcs]. cbn [join_path length] in *.
  replace (S (length cs) + k)%nat with (length cs + S k)%nat by lia.
  assert (path = (a +:+ String "/" c) +:+ join_path cs +:+ z) as Hp'.
  { rewrite Hp. rewrite <- !str_app_assoc. cbn. by rewrite <- !str_app_assoc. }
  assert (a +:+ String "/" c <> "") as Ha' by (by destruct a).
  specialize (IH _ (S k) Hp' Hcs Ha').
  rewrite !str_length_app in *. cbn [String.length] in *. rewrite str_length_app.
  replace (String.length a + S (String.length c + String.length (join_path cs)) - 1)%nat
    with (String.length a + S (String.length c) + String.length (join_path cs) - 1)%nat by lia.
  rewrite IH. replace (String.length a + S (String.length c) - 1)%nat
    with (String.length a + String.length c)%nat by lia.
  eapply port_scan_component; [|done..].
  rewrite Hp. cbn. by rewrite <- str_app_assoc.
Qed.

Lemma port_scan_dash path p x z tmp :
  path = p +:+ String "-" (x +:+ z) -> lacks "-" x -> p <> "" ->
  tmp = (String.length p + 1 + String.length x)%nat ->
  port_scan path (tmp - 1) 0 tmp = Some x.
Proof.
  intros -> Hx Hp ->. rewrite (port_scan_skip _ (String.length x)); [|lia|].
  - replace (_ + 1 + _ - 1 - _)%nat with (String.length p) by lia.
    pose proof (char_at_app p "-" (x +:+ z)) as Hs.
    destruct (String.length p) as [|n] eqn:E; [by destruct p|].
    cbn [port_scan]. rewrite Hs, Ascii.eqb_refl, <- E. f_equal.
    replace (p +:+ String "-" (x +:+ z)) with ((p +:+ "-") +:+ (x +:+ z))
      by (rewrite <- str_app_assoc; done).
    rewrite str_drop_app by (rewrite str_length_app; done).
    replace (_ + 1 + _ - _ - 1)%nat with (String.length x) by lia.
    clear. induction x; cbn; congruence.
  - intros i Hi. replace i with (String.length p + S (i - String.length p - 1))%nat by lia.
    rewrite char_at_app_r. cbn. apply char_at_lacks; [done|lia].
Qed.

(** For a path whose <device> component is followed by six more
    components, as the comment in the source describes, the text announced to
    the application is what follows the dash of <device>. *)
Theorem port_name_device p x cs :
  p <> "" -> lacks "-" x -> length cs = 6%nat -> Forall (lacks "/") cs ->
  port_name (p +:+ String "-" (x +:+ join_path cs)) = x.
Proof.
  intros Hp Hx Hlen Hcs. unfold port_name.
  set (path := p +:+ _). set (a := p +:+ String "-" x).
  assert (path = a +:+ join_path cs +:+ "") as Hpath.
  { unfold path, a. by rewrite str_app_nil, <- str_app_assoc. }
  assert (a <> "") as Ha by (unfold a; by destruct p).
  assert (String.length path = String.length a + String.length (join_path cs))%nat as Hl.
  { by rewrite Hpath, str_app_nil, str_length_app. }
  rewrite (port_scan_skip _ 1).
  - rewrite Hl. pose proof (port_scan_components path cs a "" 0 0 Hpath Hcs Ha) as Hs.
    rewrite Hlen in Hs. cbn [Nat.add] in Hs. rewrite Hs. destruct cs as [|c cs]; [done|].
    rewrite (port_scan_dash path p x (join_path (c :: cs))); try done.
    unfold a. rewrite str_length_app. cbn. lia.
  - destruct a; cbn in *; [done|lia].
  - intros i Hi. replace i with (String.length path + 0)%nat by lia.
    rewrite <- (str_app_nil path) at 1. by rewrite char_at_app_r.
Qed.

(** ** Witnesses *)

Definition demo_event : dev_event :=
  DevEvent "cdrom2" "adb_enable" "tethering_disable" "enumerated".

Lemma parse_event_print_witness :
  parse_event "cdrom2:adb_enable:tethering_disable:enumerated" "none" "" "x"
  = Some demo_event.
Proof.
  apply (parse_event_print demo_event "none" "" "x").
  repeat split; vm_compute; solve [congruence | lia].
Defined.

Lemma port_name_device_witness :
  port_name "/devices/platform/ehci/usb1/1-1/1-1.2/1-1.2:1.0/host0/target0/0:0:0:0/scsi_disk/0:0:0:0"
  = "1.2".
Proof.
  apply (port_name_device "/devices/platform/ehci/usb1/1-1/1" "1.2"
    ["1-1.2:1.0"; "host0"; "target0"; "0:0:0:0"; "scsi_disk"; "0:0:0:0"]).
  - vm_compute. congruence.
  - vm_compute. reflexivity.
  - reflexivity.
  - repeat constructor; vm_compute; reflexivity.
Defined.
