(* ===== verification/UsbModeThms.v ===== *)
(** * usbd: requests of the application, alternate modes, authenticated uevents *)

From S2P Require Import Prelude.
From S2P Require Import CString.
From S2P Require Import UsbDefines.
From S2P Require Import UsbState.
From S2P Require Import UsbCdrom.
From S2P Require Import UsbModes.
From S2P Require Import UsbEvents.
From S2P Require Import UsbUevent.
From S2P Require Import UsbMain.
From S2P Require Import UsbInv.

Section ModeTheorems.
  Context (cfg : config).

#[local] Hint Resolve run_ptr_frame : wpdb.

(** ** Setting a mode *)

(** What [usbd_set_usb_mode] does: it returns 0 with the mode set, changes
    besides only the variables of the CD-ROM, and its last call writes the name
    of the mode to the driver. *)
Lemma usbd_set_usb_mode_effect m e s :
  wp (usbd_set_usb_mode cfg m) e s (fun r s' =>
    r = 0 /\ usbd_curr_usb_mode (st s') = m /\
    cdrom_frame ((st s) <| usbd_curr_usb_mode := m |>) (st s') /\
    (m <> USB_MODE_MIN -> exists r,
       last (tr s') = Some (Write (usb_device_fd (st s))
                              (zstr (name (usb_mode_entry cfg m))), r))).
Proof.
  unfold usbd_set_usb_mode. wp_go; unfold cdrom_frame in *; cbn [st tr] in *.
  - split_and!; [done|done| |by intros []]. rewrite H0, H. by destruct (st s).
  - split_and!; [done|by rewrite H1| |].
    + rewrite H1, H0, H. by destruct (st s).
    + intros _. exists r. rewrite last_snoc. rewrite H1, H0, H. done.
Qed.

(** Every request of the table is the request of one mode only. *)
Lemma match_request_spec m buf :
  mode_req (usb_mode_entry cfg m) = Some buf -> match_request cfg buf = Some m.
Proof.
  intros H. destruct cfg as [? [] ? ? ?]; destruct m; cbn in H; simplify_eq; vm_compute; done.
Qed.



#[local] Hint Resolve usbd_set_usb_mode_effect : wpdb.

Definition writes_ok (e : env usb_call) : Prop :=
  forall n fd b, 0 <= r_ret (e n (Write fd b)).



(** What an accepted request does once it has been acknowledged. *)
Definition switched (s s' : sys usb_call usbd_vars) (m : USB_MODE_T) : Prop :=
  usbd_curr_usb_mode (st s') =
    (if current_usb_online (st s) then m else usbd_curr_usb_mode (st s)) /\
  (current_usb_online (st s) = true -> usbd_curr_usb_mode (st s) <> m -> exists w,
     last (tr s') = Some (Write (usb_device_fd (st s))
                            (zstr (name (usb_mode_entry cfg m))), w)).

Lemma socket_switch_spec fd m e s :
  m <> USB_MODE_MIN -> writes_ok e ->
  wp (socket_switch cfg fd m) e s (fun rc s' => (rc = 0 /\ switched s s' m) /\
    tr s `prefix_of` tr s').
Proof.
  intros Hm Hw. apply wp_logs; [unfold socket_switch; logs|].
  unfold socket_switch, switched. wp_go; cbn [st] in *; destruct_and?; split_and!;
    try done; repeat case_match; try done.
  - subst. specialize (Hw (length (tr s)) fd (zstr s0)). lia.
  - intros _ _. by apply H3.
  - congruence.
Qed.

(** A request of the application for mode [m] while no factory cable is
    attached and writes succeed: the handler returns 0; its first write is the
    acknowledgement of the table; with a cable online the mode afterwards is
    [m], written to the driver by the last call unless it was set already;
    offline the mode is unchanged. *)
Theorem usbd_mode_request e s fd m :
  m <> USB_MODE_MIN ->
  usbd_curr_cable_status (st s) <> MOTO_ACCY_TYPE_EMU_CABLE_FACTORY ->
  let r := e (length (tr s)) (Read fd SOCKET_BUFFER_SIZE) in
  0 < r_ret r ->
  mode_req (usb_mode_entry cfg m) = Some (c_str (received SOCKET_BUFFER_SIZE r)) ->
  writes_ok e ->
  wp (usbd_socket_event cfg fd) e s (fun rc s' =>
    rc = 0 /\ switched s s' m /\
    (forall ok, resp_ok (usb_mode_entry cfg m) = Some ok -> exists w,
       (tr s ++ [(Read fd SOCKET_BUFFER_SIZE, r); (Write fd (zstr ok), w)])
         `prefix_of` tr s')).
Proof.
  intros Hm Hc r Hr Hreq Hw. apply match_request_spec in Hreq.
  unfold usbd_socket_event. apply wp_bind, wp_call. intros r' ->. fold r.
  rewrite (proj2 (Z.ltb_ge _ _)), (proj2 (Z.eqb_neq _ _)) by lia. cbv zeta.
  rewrite Hreq. apply wp_bind, wp_gets. cbn [st].
  rewrite decide_False by done. rewrite decide_False by done.
  destruct (resp_ok (usb_mode_entry cfg m)) as [ok|] eqn:Hok.
  - apply wp_bind, wp_bind, wp_call. intros w Ew. cbn [st tr] in *. apply wp_ret.
    rewrite (proj2 (Z.ltb_ge _ _)) by (subst w; apply Hw).
    eapply wp_wand; [by apply socket_switch_spec|]. cbn [st tr].
    intros rc s' [[-> Hsw] Hp]. split_and!; [done|done|].
    intros ? [= <-]. exists w. by rewrite <- (assoc_L (++)) in Hp.
  - apply wp_bind, wp_ret. cbn [Z.ltb Z.compare].
    eapply wp_wand; [by apply socket_switch_spec|].
    intros rc s' [[-> Hsw] _]. split_and!; [done|done|]. intros ? [=].
Qed.


(** ** Alternate modes *)


Lemma usb_alt_mode_tlb_names tablet adb tether :
  let n := name (usb_mode_entry cfg (usb_alt_mode_tlb tablet adb tether)) in
  contains n "adb" = adb /\ contains n "rndis" = tether && (adb || negb tablet).
Proof. destruct cfg as [? [] ? ? ?], tablet, adb, tether; vm_compute; done. Qed.

(** In BP-tools and tablet start-up modes an ADB notification of the driver
    selects a mode whose name has "adb" exactly when ADB was switched on, and
    "rndis" exactly when tethering is on (and, on a tablet, ADB too); the
    tethering state is the notified one, or the old one. *)
Theorem usbd_alt_mode_semantics e s m adb_buf tether_buf b :
  m ∈ [MOTO_MODE_TYPE_BPTOOLS; MOTO_MODE_TYPE_TABLET] ->
  flag_of adb_buf "adb_enable" "adb_disable" = Some b ->
  wp (usbd_alt_mode_set cfg m adb_buf tether_buf) e s (fun rc s' =>
    let n := name (usb_mode_entry cfg (usbd_curr_usb_mode (st s'))) in
    let tether := default (tethering_enabled (st s))
        (flag_of tether_buf "tethering_enable" "tethering_disable") in
    rc = 0 /\ tethering_enabled (st s') = tether /\
    contains n "adb" = b /\
    contains n "rndis" = tether && (b || bool_decide (m = MOTO_MODE_TYPE_BPTOOLS))).
Proof.
  intros Hm Hb. unfold usbd_alt_mode_set. rewrite Hb.
  assert (m = MOTO_MODE_TYPE_BPTOOLS \/ m = MOTO_MODE_TYPE_TABLET) as [-> | ->] by set_solver.
  all: destruct (flag_of tether_buf _ _) as [t|]; wp_go; cbn [st] in *;
    destruct b; try discriminate.
  all: destruct H as (_ & Hmode & Hf & _); rewrite Hmode; rewrite Hf;
    (split_and!; [done|done|..]); apply usb_alt_mode_tlb_names.
Qed.

(** ** The cable state *)


Definition same_cable : relation usbd_vars := fun v v' =>
  usbd_curr_cable_status v' = usbd_curr_cable_status v.

#[local] Instance same_cable_preorder : PreOrder same_cable.
Proof. split; [done|]. unfold same_cable. intros v1 v2 v3. congruence. Qed.

#[local] Instance run_ptr_cable p : Framed same_cable (run_ptr cfg p).
Proof. intros e s. pose proof (run_ptr_frame cfg p e s) as Hf. unfold wp in Hf. by rewrite Hf. Qed.

#[local] Instance usbd_set_usb_mode_cable m : Framed same_cable (usbd_set_usb_mode cfg m).
Proof. unfold usbd_set_usb_mode. framed. Qed.

#[local] Instance property_get_cable k d : Framed same_cable (property_get k d).
Proof. unfold property_get. framed. Qed.

#[local] Instance usbd_get_adb_property_cable : Framed same_cable usbd_get_adb_property.
Proof. unfold usbd_get_adb_property. framed. Qed.

#[local] Instance drop_app_cable : Framed same_cable drop_app.
Proof. unfold drop_app, usbd_get_maxfd. framed. Qed.

#[local] Instance enum_event_cable pc enum : Framed same_cable (enum_event cfg pc enum).
Proof. unfold enum_event, usb_req_mode_switch, usbd_enum_process. framed. Qed.

#[local] Instance device_event_cable : Framed same_cable (device_event cfg).
Proof.
  unfold device_event, device_event_usb, usbd_alt_mode_set, forward_flags,
    usbd_send_adb_status, usbd_send_tethering_status, usbd_factorycable_adb_enabled. framed.
Qed.

#[local] Instance server_event_cable : Framed same_cable server_event.
Proof.
  unfold server_event, usbd_save_socket_fd, usbd_get_maxfd, usbd_send_adb_status,
    usbd_notify_current_status, usbd_get_flashdrive_status. framed.
Qed.

#[local] Instance app_event_cable : Framed same_cable (app_event cfg).
Proof. unfold app_event, usbd_socket_event, socket_switch. framed. Qed.

#[local] Instance handle_cable_cable : Framed same_cable (usbd_handle_cable_status_change cfg).
Proof.
  unfold usbd_handle_cable_status_change, set_factory_mode, usbd_factorycable_adb_enabled,
    usbd_notify_current_status, usbd_enumerate_default_mode. framed.
Qed.

#[local] Instance scsi_event_cable a p : Framed same_cable (scsi_event a p).
Proof. unfold scsi_event, copy_string_from_file. framed. Qed.

#[local] Instance readUsbSwitchState_cable : Framed same_cable readUsbSwitchState.
Proof. unfold readUsbSwitchState. framed. Qed.


(** The handler of a uevent changes nothing before a trusted message. *)
Lemma uevent_cable sock e s :
  wp (process_usb_uevent_message sock) e s (fun changed s' =>
    uevent_trusted (e (length (tr s)) (Recvmsg sock)) = true \/
    (changed = false /\ same_cable (st s) (st s'))).
Proof.
  unfold process_usb_uevent_message. apply wp_bind, wp_call. intros ? ->.
  destruct (uevent_trusted _).
  - apply (wp_wand _ _ _ (fun _ _ => True)); [done | by left].
  - apply wp_ret. by right.
Qed.

(** C5.  The cable state changes in an iteration of the loop only when the
    uevent socket delivered a complete message that the kernel multicast
    (group 1, pid 0) with credentials of uid 0. *)
Theorem usbd_uevent_authentic e s :
  wp (main_iter cfg) e s (fun _ s' =>
    let r := e (S (length (tr s))) (Recvmsg (uevent_sock (st s))) in
    usbd_curr_cable_status (st s') <> usbd_curr_cable_status (st s) ->
    aux 0 r = 1 /\ aux 1 r = 0 /\ aux 2 r = 1 /\ aux 3 r = 0 /\
    0 < r_ret r < USBD_UEVENT_MSG_LEN - 1).
Proof.
  unfold main_iter, id. apply wp_bind, wp_gets, wp_bind, wp_call. intros sel _.
  cbv zeta. apply wp_bind.
  apply (wp_wand _ _ _ (fun _ s' => same_cable (st s) (st s') \/
    uevent_trusted (e (S (length (tr s))) (Recvmsg (uevent_sock (st s)))) = true)).
  - apply wp_when; [intros _|by left]. apply wp_bind.
    eapply wp_wand; [apply uevent_cable|]. cbn [st tr].
    rewrite length_app, Nat.add_comm. intros ch s' [H|[-> H]]; [|by left].
    apply (wp_frame same_cable); [framed|]. by right.
  - intros _ s1 Hs1. apply (wp_frame same_cable); [framed|]. intros _ s2 Hs2 Hne.
    destruct Hs1 as [Hs1|Hs1]; [by rewrite Hs2, Hs1 in Hne|].
    unfold uevent_trusted in Hs1. lia.
Qed.
End ModeTheorems.

(** ** Witnesses *)

(** The application asks for mass storage; every other call succeeds. *)
Definition request_env : env usb_call := fun _ c =>
  match c with
  | Read _ _ => Resp 13 0 (zstr "usb_mode_msc") []
  | _ => answer 1
  end.

Definition request_start : sys usb_call usbd_vars :=
  Sys _ _ ((usbd_start "" "" "") <| usbd_curr_cable_status := MOTO_ACCY_TYPE_EMU_CABLE_USB |>
                      <| current_usb_online := true |> <| usb_device_fd := 4 |>) [].

Definition plain_cfg : config := Config false false false "/lun0" "/dev/block/cdrom".

Lemma usbd_mode_request_witness :
  wp (usbd_socket_event plain_cfg 6) request_env request_start (fun rc s' =>
    rc = 0 /\ switched plain_cfg request_start s' USB_MODE_MSC /\
    (forall ok, resp_ok (usb_mode_entry plain_cfg USB_MODE_MSC) = Some ok -> exists w,
       (tr request_start ++ [(Read 6 SOCKET_BUFFER_SIZE, Resp 13 0 (zstr "usb_mode_msc") []);
                             (Write 6 (zstr ok), w)]) `prefix_of` tr s')).
Proof.
  apply (usbd_mode_request plain_cfg request_env request_start 6 USB_MODE_MSC);
    try (vm_compute; congruence).
Defined.

Lemma usbd_alt_mode_semantics_witness :
  wp (usbd_alt_mode_set plain_cfg MOTO_MODE_TYPE_TABLET "adb_enable" "tethering_enable")
    request_env request_start (fun rc s' =>
    let n := name (usb_mode_entry plain_cfg (usbd_curr_usb_mode (st s'))) in
    let tether := true in
    rc = 0 /\ tethering_enabled (st s') = tether /\ contains n "adb" = true /\
    contains n "rndis" = tether &&
      (true || bool_decide (MOTO_MODE_TYPE_TABLET = MOTO_MODE_TYPE_BPTOOLS))).
Proof.
  apply (usbd_alt_mode_semantics plain_cfg request_env request_start
    MOTO_MODE_TYPE_TABLET "adb_enable" "tethering_enable" true).
  - right. left.
  - reflexivity.
Defined.
