(* ===== verification/UsbCdromThms.v ===== *)
(** * usbd: the loop device and the CD-ROM version key *)

From S2P Require Import Prelude.
From S2P Require Import CString.
From S2P Require Import UsbDefines.
From S2P Require Import UsbState.
From S2P Require Import UsbCdrom.

(** ** The free device *)

(** How the kernel answers a probe of device [i] whose first call has number
    [n]: the node exists or is created, it opens as [fd]. *)
Definition probe_opens (e : env usb_call) (n : nat) (i fd : Z) : Prop :=
  let r := e n (Mknod (loop_path i) loop_node_mode (loop_dev i)) in
  (0 <= r_ret r \/ r_errno r = EEXIST) /\
  r_ret (e (S n) (Open (loop_path i) O_RDWR)) = fd /\ 0 <= fd.

Definition probe_busy (e : env usb_call) (n : nat) (i fd : Z) : Prop :=
  probe_opens e n i fd /\ 0 <= r_ret (e (S (S n)) (Ioctl fd LOOP_GET_STATUS)).

Definition probe_free (e : env usb_call) (n : nat) (i fd : Z) : Prop :=
  let r := e (S (S n)) (Ioctl fd LOOP_GET_STATUS) in
  probe_opens e n i fd /\ r_ret r < 0 /\ r_errno r = ENXIO.

(** The first [k] probes from device [i] are busy, the next device is free.  A
    busy probe takes four calls, so the call numbers are known. *)
Fixpoint first_free (e : env usb_call) (n : nat) (i : Z) (k : nat) (fd : Z) : Prop :=
  match k with
  | O => probe_free e n i fd
  | S k => (exists f, probe_busy e n i f) /\ first_free e (4 + n) (i + 1) k fd
  end.



(** One iteration of the search whose device opens. *)
Lemma loop_search_step e k i fd s Q :
  probe_opens e (length (tr s)) i fd ->
  (forall s', st s' = st s -> length (tr s') = (3 + length (tr s))%nat ->
     let r := e (S (S (length (tr s)))) (Ioctl fd LOOP_GET_STATUS) in
     wp (if (r_ret r <? 0) && (r_errno r =? ENXIO) then mret (loop_free i fd) else
         call (Close fd) ;;
         if r_ret r <? 0 then mret loop_error else loop_search k (i + 1)) e s' Q) ->
  wp (loop_search (S k) i) e s Q.
Proof.
  intros (H1 & H2 & H3) HQ. cbn [loop_search].
  apply wp_bind, wp_call. intros r1 Hr1. rewrite <- Hr1 in H1.
  replace ((r_ret r1 <? 0) && negb (r_errno r1 =? EEXIST)) with false by lia.
  apply wp_bind, wp_call. cbn [st tr]. rewrite length_app; cbn [length];
  rewrite Nat.add_1_r. intros r2 Hr2. rewrite <- Hr2 in H2. rewrite H2.
  rewrite (proj2 (Z.ltb_ge _ _)) by done. apply wp_bind, wp_call.
  cbn [st tr]. intros r3 Hr3. rewrite !length_app in Hr3; cbn [length] in Hr3.
  rewrite !Nat.add_1_r in Hr3. subst r3. apply HQ; [done|]. cbn [tr]. rewrite !length_app. cbn [length]. lia.
Qed.

Lemma loop_search_free e k m i fd s :
  first_free e (length (tr s)) i m fd -> (m < k)%nat ->
  wp (loop_search k i) e s (fun res s' =>
    res = loop_free (i + Z.of_nat m) fd /\ st s' = st s /\
    length (tr s') = (length (tr s) + 4 * m + 3)%nat).
Proof.
  revert m i s. induction k as [|k IH]; intros m i s Hm Hk; [lia|].
  destruct m as [|m]; cbn [first_free] in Hm.
  - destruct Hm as (Ho & Hr & He). eapply loop_search_step; [exact Ho|].
    intros s' Hst Hlen r. fold r in Hr, He.
    rewrite (proj2 (Z.ltb_lt _ _) Hr), He. cbn. apply wp_ret.
    split_and!; [f_equal; lia | done | lia].
  - destruct Hm as [(f & Ho & Hr) Hm]. eapply loop_search_step; [exact Ho|].
    intros s' Hst Hlen r. fold r in Hr. rewrite (proj2 (Z.ltb_ge _ _) Hr). cbn [andb].
    apply wp_bind, wp_call. intros ? _. eapply wp_wand; [apply (IH m)|].
    + cbn [tr]. rewrite length_app, Hlen, Nat.add_comm. exact Hm.
    + lia.
    + cbn [st tr]. rewrite length_app, Hlen. cbn [length].
      intros res s2 (-> & ? & ?). split_and!; [f_equal; lia | congruence | lia].
Qed.

(** When the first [m] loop devices are in use and the next one is free,
    [loop_create] binds the file to that device, for every [m] below
    LOOP_MAX: it returns 0 with the device's path in [curr_loop_dev], after
    LOOP_SET_FD on its descriptor and closing both descriptors. *)
Theorem loop_create_first_free e s m fd ffd file :
  (m < LOOP_MAX)%nat ->
  first_free e (length (tr s)) 0 m fd ->
  (forall n, r_ret (e n (Open file O_RDWR)) = ffd) -> 0 <= ffd ->
  (forall n, 0 <= r_ret (e n (Ioctl fd (LOOP_SET_FD ffd)))) ->
  wp (loop_create file) e s (fun rc s' =>
    rc = 0 /\ curr_loop_dev (st s') = loop_path (Z.of_nat m) /\
    exists t a b c d, tr s' = t ++ [(Open file O_RDWR, a);
      (Ioctl fd (LOOP_SET_FD ffd), b); (Close fd, c); (Close ffd, d)] /\ 0 <= r_ret b).
Proof.
  intros Hm Hfree Hopen Hffd Hset. unfold loop_create. apply wp_bind.
  eapply wp_wand; [by apply (loop_search_free e _ m _ fd)|].
  intros res s1 (-> & _ & _). wp_go; subst; rewrite ?Hopen in *; try lia.
  - pose proof (Hset (length (tr s1 ++ [(Open file O_RDWR, e (length (tr s1)) (Open file O_RDWR))]))).
    lia.
  - split_and!; [done|done|]. cbn [tr]. exists (tr s1).
    do 4 eexists. rewrite <- !(assoc_L (++)). cbn [app]. split; [done|]. apply Hset.
Qed.

(** [loop_create] leaks no descriptor: on every path, whatever the kernel
    answers, each descriptor is closed as often as it is opened. *)
Theorem loop_create_balanced e s file fd :
  wp (loop_create file) e s (fun _ s' => fd_balance fd (tr s') = fd_balance fd (tr s)).
Proof.
  unfold loop_create. apply wp_bind. eapply wp_wand; [apply loop_search_spec|].
  intros res s1 [_ Hb]. specialize (Hb fd). destruct res; cbn [res_fd] in Hb; wp_go;
    fd_solve.
Qed.

(** The device number given to [mknod] is the kernel's encoding of the
    device with major 7 and minor [i], for every index the search uses. *)
Theorem loop_dev_encodes i :
  0 <= i < Z.of_nat LOOP_MAX -> dev_major (loop_dev i) = 7 /\ dev_minor (loop_dev i) = i.
Proof.
  intros Hi. pose proof loop_dev_all as H. rewrite forallb_forall in H.
  specialize (H i). rewrite andb_true_iff, !Z.eqb_eq in H. apply H.
  apply list_elem_of_In, elem_of_seqZ. unfold LOOP_MAX in Hi. lia.
Qed.

(** ** The version key *)

Lemma version_len_bounds t : 0 <= version_len t <= 232.
Proof.
  unfold version_len. pose proof (Z.mod_pos_bound t 4294967296 ltac:(done)).
  assert (MAX_VERSION_SIZE - strlen version_prefix - 1 = 232) as -> by done. lia.
Qed.

(** Whatever size [ftell] reports for the version file (a failure gives
    -1), the read and the message to the driver stay inside the buffer: at most
    MAX_VERSION_SIZE bytes, the prefix first and the terminating NUL last. *)
Theorem cdrom_version_key_bounded e v :
  wp cdrom_read_version_key e (Sys _ _ v []) (fun _ s' =>
    Forall (fun c => match c with
      | Fread _ len => 0 <= strlen version_prefix + len + 1 <= MAX_VERSION_SIZE
      | Write fd b => fd = usb_device_fd v /\ strlen b <= MAX_VERSION_SIZE /\
          exists key, b = version_prefix +:+ key +:+ String NUL ""
      | _ => True
      end) (calls s')).
Proof.
  unfold cdrom_read_version_key, calls.
  wp_go; cbn [tr calls fmap list_fmap app fst]; repeat constructor; auto.
  all: pose proof (version_len_bounds (r_ret r0)) as Hb.
  all: assert (strlen version_prefix = 22) as Hp by done;
    assert (MAX_VERSION_SIZE = 255) as Hmax by done; try lia; try by eexists.
  unfold strlen in *. rewrite !str_length_app, buf_bytes_length. cbn [String.length]. lia.
Qed.

(** ** Witnesses *)

(** Devices 0 and 1 are busy, device 2 is free. *)
Definition loop_env : env usb_call := fun n c =>
  match c with
  | Mknod _ _ _ => Resp (-1) EEXIST "" []
  | Open "/cdrom/cdrom_vfat.bin" _ => answer 8
  | Open _ _ => answer 7
  | Ioctl _ LOOP_GET_STATUS => if (n =? 10)%nat then Resp (-1) ENXIO "" [] else answer 0
  | _ => answer 0
  end.

Lemma loop_create_first_free_witness :
  wp (loop_create cdrom_image) loop_env (Sys _ _ (usbd_start "" "" "") []) (fun rc s' =>
    rc = 0 /\ curr_loop_dev (st s') = loop_path (Z.of_nat 2) /\
    exists t a b c d, tr s' = t ++ [(Open cdrom_image O_RDWR, a);
      (Ioctl 7 (LOOP_SET_FD 8), b); (Close 7, c); (Close 8, d)] /\ 0 <= r_ret b).
Proof.
  apply (loop_create_first_free loop_env (Sys _ _ (usbd_start "" "" "") []) 2 7 8 cdrom_image).
  - unfold LOOP_MAX. lia.
  - cbn [length tr first_free].
    split; [|split]; [exists 7 | exists 7 |]; repeat split; try (right; reflexivity);
      vm_compute; congruence.
  - reflexivity.
  - lia.
  - intros n. vm_compute. congruence.
Defined.

Lemma loop_dev_encodes_witness :
  dev_major (loop_dev 300) = 7 /\ dev_minor (loop_dev 300) = 300.
Proof. apply loop_dev_encodes. unfold LOOP_MAX. lia. Defined.
