(* ===== verification/Alarm.v ===== *)
(** * charge_only_mode: the alarm queue ([src/charge_only_mode/alarm.c])

    The linked list [alarms] is a Rocq list in list order.  The interface
    [AlarmQueue] says what the rest of the program relies on; the list
    implements it, and [abstract] relates it to an unordered collection. *)

From S2P Require Import Prelude.
From S2P Require Import CString.
From Stdlib Require Import Sorting.Sorted.

(** ** Time *)

(** [struct timeval] *)
Record timeval := Timeval { tv_sec : Z; tv_usec : Z }.

#[export] Instance timeval_eq_dec : EqDecision timeval.
Proof. solve_decision. Defined.

(** The time in microseconds. *)
Definition micros (t : timeval) : Z := 1000000 * tv_sec t + tv_usec t.

(** What [gettimeofday] returns. *)
Definition normal (t : timeval) : Prop := 0 <= tv_usec t < 1000000.

(** [t] is after [u], as the loops of [alarm.c] compare times. *)
Definition time_gtb (t u : timeval) : bool :=
  (tv_sec u <? tv_sec t) || ((tv_sec t =? tv_sec u) && (tv_usec u <? tv_usec t)).

Lemma time_gtb_micros t u : normal t -> normal u ->
  time_gtb t u = (micros u <? micros t).
Proof. unfold normal, time_gtb, micros. lia. Qed.

(** [alarm_time] of an alarm set [ms] milliseconds after [now]. *)
Definition alarm_deadline (now : timeval) (ms : Z) : timeval :=
  let usec := tv_usec now + ms * 1000 in
  if 1000000 <=? usec
  then Timeval (tv_sec now + usec / 1000000) (usec mod 1000000)
  else Timeval (tv_sec now) usec.

Lemma alarm_deadline_micros now ms :
  micros (alarm_deadline now ms) = micros now + 1000 * ms.
Proof. unfold alarm_deadline, micros. case_match; cbn; dlia. Qed.

Lemma alarm_deadline_normal now ms :
  normal now -> 0 <= ms -> normal (alarm_deadline now ms).
Proof. unfold alarm_deadline, normal. intros. case_match; cbn; dlia. Qed.



(** Milliseconds from [now] to the deadline [t], as [alarm_get_time_until_next]
    computes them. *)
Definition time_until (now t : timeval) : Z :=
  wrap32 ((tv_sec t - tv_sec now) * 1000 + Z.quot (tv_usec t - tv_usec now) 1000).

Lemma quot_bounds a : -1000 < 1000 * Z.quot a 1000 - a < 1000.
Proof.
  pose proof (Z.quot_rem' a 1000). pose proof (Z.rem_bound_abs a 1000 ltac:(lia)). lia.
Qed.

Lemma time_until_close now t :
  normal now -> normal t -> Z.abs (tv_sec t - tv_sec now) <= 2000000 ->
  -1000 < 1000 * time_until now t - (micros t - micros now) < 1000.
Proof.
  unfold normal, micros, time_until. intros Hn Ht Hs.
  pose proof (quot_bounds (tv_usec t - tv_usec now)) as Hq.
  rewrite wrap32_id; [lia | unfold INT_MIN, INT_MAX; lia].
Qed.

(** ** The interface of the queue

    [F] is the type of callbacks.  [pending f q] counts the alarms of [f]. *)

Class AlarmQueue (F Q : Type) := {
  q_empty : Q;
  q_set : F -> timeval -> Q -> Q;
  q_cancel : F -> Q -> Z * Q;
  q_next : Q -> option timeval;
  q_pop : timeval -> Q -> option (F * Q);
  pending : F -> Q -> Z }.

Class AlarmQueueLaws (F Q : Type) `{EqDecision F} `{!AlarmQueue F Q} : Prop := {
  pending_nonneg f (q : Q) : 0 <= pending f q;
  pending_empty f : pending f (q_empty (Q := Q)) = 0;
  pending_set f g t (q : Q) :
    pending f (q_set g t q) = pending f q + (if decide (f = g) then 1 else 0);
  pending_cancel f g (q : Q) :
    pending f (q_cancel g q).2 = (if decide (f = g) then 0 else pending f q);
  cancel_count g (q : Q) : (q_cancel g q).1 = pending g q;
  pending_pop f g now (q q' : Q) :
    q_pop now q = Some (g, q') ->
    pending f q = pending f q' + (if decide (f = g) then 1 else 0) }.

(** ** The list *)

Section Queue.
  Context {F : Type} `{EqDecision F}.

Record alarm_node := AlarmNode { alarm_time : timeval; alarm_f : F }.

(** Insertion of [alarm_set_relative]: after every alarm that is not later. *)
Fixpoint alarm_insert (a : alarm_node) (l : list alarm_node) : list alarm_node :=
  match l with
  | [] => [a]
  | c :: l' =>
      if time_gtb (alarm_time c) (alarm_time a) then a :: c :: l'
      else c :: alarm_insert a l'
  end.

(** The loop of [alarm_cancel]: the alarms that stay and their number. *)
Fixpoint alarm_remove (f : F) (l : list alarm_node) : Z * list alarm_node :=
  match l with
  | [] => (0, [])
  | c :: l' =>
      let '(n, l'') := alarm_remove f l' in
      if decide (alarm_f c = f) then (1 + n, l'') else (n, c :: l'')
  end.

(** The head of the queue when it has expired. *)
Definition alarm_pop (now : timeval) (l : list alarm_node)
    : option (F * list alarm_node) :=
  match l with
  | [] => None
  | a :: l' => if time_gtb (alarm_time a) now then None else Some (alarm_f a, l')
  end.

Definition alarm_next (l : list alarm_node) : option timeval :=
  alarm_time <$> head l.

Definition alarm_pending (f : F) (l : list alarm_node) : Z :=
  Z.of_nat (length (filter (fun a => alarm_f a = f) l)).

#[export] Instance alarm_list_queue : AlarmQueue F (list alarm_node) := {|
  q_empty := [];
  q_set f t := alarm_insert (AlarmNode t f);
  q_cancel := alarm_remove;
  q_next := alarm_next;
  q_pop := alarm_pop;
  pending := alarm_pending |}.

(** ** Lemmas *)

Lemma alarm_insert_perm a l : alarm_insert a l ≡ₚ a :: l.
Proof.
  induction l as [|c l IH]; cbn; [done|]. case_match; [done|].
  rewrite IH. apply Permutation_swap.
Qed.

Lemma alarm_remove_spec f l :
  alarm_remove f l = (alarm_pending f l, filter (fun a => alarm_f a <> f) l).
Proof.
  unfold alarm_pending. induction l as [|c l IH]; cbn [alarm_remove]; [done|].
  rewrite IH, !filter_cons. repeat case_decide; try done; cbn [length]. f_equal. lia.
Qed.

Lemma alarm_pending_cons f a l :
  alarm_pending f (a :: l) =
  alarm_pending f l + (if decide (f = alarm_f a) then 1 else 0).
Proof.
  unfold alarm_pending. rewrite filter_cons. repeat case_decide; cbn; try congruence; lia.
Qed.

Lemma alarm_pending_perm f l l' :
  l ≡ₚ l' -> alarm_pending f l = alarm_pending f l'.
Proof. unfold alarm_pending. by intros ->. Qed.

Lemma alarm_pending_filter f g l :
  alarm_pending f (filter (fun a => alarm_f a <> g) l) =
  if decide (f = g) then 0 else alarm_pending f l.
Proof.
  induction l as [|c l IH].
  { unfold alarm_pending. cbn. by case_decide. }
  rewrite filter_cons, !alarm_pending_cons.
  repeat case_decide; subst; rewrite ?alarm_pending_cons, ?IH;
    repeat case_decide; try congruence; lia.
Qed.

#[export] Instance alarm_list_laws : AlarmQueueLaws F (list alarm_node).
Proof.
  split; cbn.
  - intros. unfold alarm_pending. lia.
  - done.
  - intros. erewrite alarm_pending_perm by apply alarm_insert_perm.
    by rewrite alarm_pending_cons.
  - intros. rewrite alarm_remove_spec. cbn. apply alarm_pending_filter.
  - intros. by rewrite alarm_remove_spec.
  - intros f g now [|a q] q'; cbn; [done|]. case_match; [done|].
    intros [= <- <-]. by rewrite alarm_pending_cons.
Qed.

(** The queue is ordered by deadline. *)
Definition alarm_le (a b : alarm_node) : Prop :=
  micros (alarm_time a) <= micros (alarm_time b).

Definition ordered (l : list alarm_node) : Prop :=
  StronglySorted alarm_le l /\ Forall (fun a => normal (alarm_time a)) l.

Lemma alarm_insert_ordered a l :
  normal (alarm_time a) -> ordered l -> ordered (alarm_insert a l).
Proof.
  intros Ha [Hs Hn]. split.
  2: { rewrite alarm_insert_perm. by constructor. }
  induction Hs as [|c l Hs IH Hc]; cbn; [repeat constructor|].
  apply Forall_cons in Hn as [Hnc Hn]. rewrite time_gtb_micros by done. case_match.
  - constructor; [by constructor|]. constructor; [unfold alarm_le; lia|].
    eapply Forall_impl; [exact Hc|]. unfold alarm_le. intros x Hx. cbn in *. lia.
  - constructor; [by apply IH|]. rewrite alarm_insert_perm.
    constructor; [unfold alarm_le; lia|done].
Qed.

Lemma ordered_filter (P : alarm_node -> Prop) `{!forall x, Decision (P x)} l :
  ordered l -> ordered (filter P l).
Proof.
  intros [Hs Hn]. split; [|by apply Forall_filter].
  induction Hs as [|c l Hs IH Hc]; [constructor|]. apply Forall_cons in Hn as [? Hn].
  rewrite filter_cons. case_decide; [|by apply IH].
  constructor; [by apply IH|]. by apply Forall_filter.
Qed.

Lemma ordered_tail a l : ordered (a :: l) -> ordered l.
Proof.
  intros [Hs Hn]. apply StronglySorted_inv in Hs as [Hs _].
  apply Forall_cons in Hn as [_ Hn]. done.
Qed.

(** The alarms of a queue that are due at [now]. *)
Definition due (now : timeval) (a : alarm_node) : Prop :=
  micros (alarm_time a) <= micros now.

#[export] Instance due_dec now a : Decision (due now a).
Proof. unfold due. apply _. Defined.

Lemma alarm_pop_some now l f l' :
  normal now -> ordered l -> alarm_pop now l = Some (f, l') ->
  ordered l' /\ exists a, alarm_f a = f /\ l = a :: l' /\ due now a /\ Forall (alarm_le a) l'.
Proof.
  intros Hn Ho Hp. destruct l as [|a l]; [done|]. cbn in Hp.
  destruct (time_gtb (alarm_time a) now) eqn:E; [done|]. injection Hp as <- <-.
  pose proof Ho as [Hs Hna]. apply Forall_cons in Hna as [Hna _].
  apply StronglySorted_inv in Hs as [_ Hle].
  rewrite time_gtb_micros in E by done. split; [by eapply ordered_tail|].
  exists a. split_and!; [done|done| |done]. unfold due. lia.
Qed.

Lemma alarm_pop_none now l :
  normal now -> ordered l -> alarm_pop now l = None -> Forall (fun a => ~ due now a) l.
Proof.
  intros Hn Ho Hp. destruct l as [|a l]; [constructor|]. cbn in Hp.
  destruct (time_gtb (alarm_time a) now) eqn:E; [|done].
  pose proof Ho as [Hs Hna]. apply Forall_cons in Hna as [Hna _].
  apply StronglySorted_inv in Hs as [_ Hle].
  rewrite time_gtb_micros in E by done. constructor; unfold due; [lia|].
  eapply Forall_impl; [exact Hle|]. intros b Hb. unfold alarm_le in Hb. cbn in *. lia.
Qed.

End Queue.

Arguments alarm_node : clear implicits.
