(* ===== verification/ComHardware.v ===== *)
(** * charge_only_mode: variables, calls and hardware access
    ([src/charge_only_mode/hardware.c] and the variables of [main.c],
    [events.c] and [screen.c]) *)

From S2P Require Import Prelude.
From S2P Require Import CString.
From S2P Require Import Alarm.
From Stdlib Require Import Ascii.

(** ** Calls *)

(** [Uninit n] stands for the contents of a local buffer of [n] bytes that the
    code has not initialised. *)
Inductive com_call :=
  | Open (path : string) (create : bool)
  | Read (fd len : Z)
  | Write (fd : Z) (bytes : string)
  | Close (fd : Z)
  | Truncate (path : string)
  | Sync
  | Sleep (seconds : Z)
  | Gettimeofday
  | Malloc
  | System (command : string)
  | Reboot_power_off
  | Reboot_restart2 (arg : string)
  | Fb_blank (on : bool)                    (* ioctl(fb->fd, FBIOBLANK, ...) *)
  | Screen_init
  | Screen_update (percentage : Z) (error : bool)
  | Screen_uninit
  | Netlink_socket
  | Setsockopt (fd : Z)
  | Bind (fd : Z)
  | Fcntl (fd : Z)
  | Poll (fds : list Z) (timeout : Z)
  | Read_event (fd : Z)
  | Recv (fd len : Z)
  | Uninit (len : Z).

(** ** Variables *)

(** The callbacks given to the alarm queue. *)
Inductive callback :=
  | animation_alarm
  | screen_brightness_animation_alarm1
  | screen_brightness_animation_alarm2
  | power_key_alarm.

#[export] Instance callback_eq_dec : EqDecision callback.
Proof. solve_decision. Defined.

Inductive ev_kind := EV_TYPE_KEYBOARD | EV_TYPE_UEVENT.

#[export] Instance ev_kind_eq_dec : EqDecision ev_kind.
Proof. solve_decision. Defined.

(** [powerup_latch] and [launch_counter] are the statics of [power_event] and
    [launch_sequence]; [ev_table] holds the first [ev_count] entries of [ev_fds]
    and [ev_type]; [undefined] is set where the code would access memory
    outside an array. *)
Record com_vars {Q : Type} := ComVars {
  quit : bool;
  launched : bool;
  shutdown : bool;
  powerup : bool;
  powerup_latch : bool;
  launch_counter : Z;
  blank : bool;
  alarms : Q;
  ev_table : list (Z * ev_kind);
  uev_count : nat;
  undefined : bool }.
Arguments com_vars : clear implicits.

#[export] Instance eta_com_vars Q : Eta (com_vars Q) := fun v =>
  ComVars _ (quit v) (launched v) (shutdown v) (powerup v) (powerup_latch v)
    (launch_counter v) (blank v) (alarms v) (ev_table v) (uev_count v)
    (undefined v).

Definition com_start {Q} `{!AlarmQueue callback Q} : com_vars Q :=
  ComVars _ false false false false false 0 false q_empty [] 0 false.

Section Hardware.
  Context {Q : Type} `{!AlarmQueue callback Q}.

Abbreviation com A := (prog com_call (com_vars Q) A).

(** ** sysfs *)

Definition sys_get_int_parameter (path : string) (missing_value : Z) : com Z :=
  o ← call (Open path false);
  let fd := r_ret o in
  if fd <? 0 then mret missing_value else
  r ← call (Read fd 1023);
  call (Close fd) ;;
  if r_ret r <? 0 then mret missing_value
  else mret (atoi (c_str (received 1023 r))).

(** The return value and the string in the buffer; a failed read leaves the
    buffer empty. *)
Definition sys_get_string_parameter (path : string) (size : Z) : com (Z * string) :=
  o ← call (Open path false);
  let fd := r_ret o in
  if fd <? 0 then mret (0, "") else
  r ← call (Read fd (size - 1));
  call (Close fd) ;;
  if 0 <=? r_ret r then mret (r_ret r, c_str (received (size - 1) r))
  else mret (r_ret r, "").

Definition is_plugged_into_ac : com Z :=
  sys_get_int_parameter "/sys/class/power_supply/ac/online" 0.
Definition is_plugged_into_usb : com Z :=
  sys_get_int_parameter "/sys/class/power_supply/usb/online" 0.
Definition is_battery_present : com Z :=
  sys_get_int_parameter "/sys/class/power_supply/battery/present" 0.

(** [is_charging], [is_discharging] and [is_unknown] compare the first [n]
    characters of the status. *)
Definition battery_status (word : string) (n : nat) : com Z :=
  '(r, status) ← sys_get_string_parameter "/sys/class/power_supply/battery/status" 128;
  if r <? 0 then mret 0 else mret (if strn_eq n status word then 1 else 0).

Definition is_charging : com Z := battery_status "Charging" 8.
Definition is_discharging : com Z := battery_status "Discharging" 11.
Definition is_unknown : com Z := battery_status "Unknown" 7.

Definition charge_level : com Z :=
  sys_get_int_parameter "/sys/class/power_supply/battery/capacity" 0.
Definition voltage_level : com Z :=
  sys_get_int_parameter "/sys/class/power_supply/battery/voltage_now" 0.

Record device_state := DeviceState {
  ds_ac : Z;
  ds_usb : Z;
  ds_battery_present : Z;
  ds_charging : Z;
  ds_discharging : Z;
  ds_unknown : Z;
  ds_charge_level : Z;
  ds_voltage_level : Z }.

Definition get_device_state : com device_state :=
  ac ← is_plugged_into_ac;
  usb ← is_plugged_into_usb;
  bat ← is_battery_present;
  chg ← is_charging;
  dis ← is_discharging;
  unk ← is_unknown;
  lvl ← charge_level;
  vol ← voltage_level;
  mret (DeviceState ac usb bat chg dis unk lvl vol).

(** ** LEDs and brightness *)

Definition write_string (file s : string) : com Z :=
  o ← call (Open file false);
  let fd := r_ret o in
  if fd <? 0 then mret (r_errno o) else
  w ← call (Write fd s);
  c ← call (Close fd);
  mret (if 0 <=? r_ret w then 0
        else if r_ret c <? 0 then r_errno c else r_errno w).

Definition RED_BRIGHTNESS_FILE : string := "/sys/class/leds/red/brightness".
Definition GREEN_BRIGHTNESS_FILE : string := "/sys/class/leds/green/brightness".
Definition BLINK_ENABLE_FILE : string := "/sys/class/leds/red/blink".

Definition color_red (color : Z) : Z := Z.land (Z.shiftr color 16) 255.
Definition color_green (color : Z) : Z := Z.land (Z.shiftr color 8) 255.

Definition set_led_state (color on off : Z) : com Z :=
  let dark := (Z.land color 4278190080 =? 0) || (Z.land color 16777215 =? 0) in
  let on := if dark then 0 else on in
  let off := if dark then 0 else off in
  (if (0 <? on) && (0 <? off) then
     write_string RED_BRIGHTNESS_FILE (pretty (color_red color)) ;;
     write_string GREEN_BRIGHTNESS_FILE (pretty (color_green color)) ;;
     write_string BLINK_ENABLE_FILE (pretty 1)
   else
     write_string BLINK_ENABLE_FILE (pretty 0) ;;
     write_string RED_BRIGHTNESS_FILE (pretty (color_red color)) ;;
     write_string GREEN_BRIGHTNESS_FILE (pretty (color_green color))) ;;
  mret 0.

Definition CHARGING_LOW_ARGB : Z := 4294901760.   (* 0xFFFF0000 *)
Definition CHARGING_ARGB : Z := 4294967040.       (* 0xFFFFFF00 *)
Definition CHARGING_FULL_ARGB : Z := 4278255360.  (* 0xFF00FF00 *)
Definition LOW_BATTERY_THRESHOLD : Z := 10.
Definition LED_ON_THRESHOLD : Z := 90.

Definition battery_color (level : Z) : Z :=
  if level <? LOW_BATTERY_THRESHOLD then CHARGING_LOW_ARGB
  else if level <? LED_ON_THRESHOLD then CHARGING_ARGB
  else CHARGING_FULL_ARGB.

Definition set_battery_led (s : device_state) : com unit :=
  set_led_state (battery_color (ds_charge_level s)) 0 0 ;; mret tt.

(** The callers pass 0.0, 0.4, 0.8 and 1.0: [percent] is in tenths, and 255
    times these [float]s truncates to the exact product. *)
Definition brightness_text (tenths : Z) : string :=
  pretty (255 * tenths / 10) +:+ String "010"%char "".

Definition set_brightness (tenths : Z) : com unit :=
  o ← call (Open "/sys/class/backlight/lcd-backlight/brightness" false);
  fd ← (if r_ret o <? 0 then
          o ← call (Open "/sys/class/backlight/lm3532_bl/brightness" false);
          mret (r_ret o)
        else mret (r_ret o));
  if fd <? 0 then mret tt else
  call (Write fd (brightness_text tenths)) ;; call (Close fd) ;; mret tt.

Definition set_button_brightness (tenths : Z) : com unit :=
  o ← call (Open "/sys/class/leds/button-backlight/brightness" false);
  let fd := r_ret o in
  if fd <? 0 then mret tt else
  call (Write fd (brightness_text tenths)) ;; call (Close fd) ;; mret tt.

End Hardware.
