(* ===== verification/ComEvents.v ===== *)
(** * charge_only_mode: input and power-supply events
    ([src/charge_only_mode/events.c]) *)

From S2P Require Import Prelude.
From S2P Require Import CString.
From S2P Require Import Alarm.
From S2P Require Import ComHardware.
From Stdlib Require Import Ascii.

Definition EVENT_QUIT : Z := 1.
Definition EVENT_BATTERY : Z := 2.
Definition EVENT_POWER_KEY_DOWN : Z := 3.
Definition EVENT_POWER_KEY_UP : Z := 4.
Definition EVENT_VOLUMEDOWN_KEY_DOWN : Z := 5.
Definition EVENT_VOLUMEDOWN_KEY_UP : Z := 6.
Definition EVENT_VOLUMEUP_KEY_DOWN : Z := 7.
Definition EVENT_VOLUMEUP_KEY_UP : Z := 8.
Definition EVENT_CAMERA_KEY_DOWN : Z := 9.
Definition EVENT_CAMERA_KEY_UP : Z := 10.

Definition MAX_DEVICES : nat := 16.

(** Codes of <linux/input.h>. *)
Definition EV_KEY : Z := 1.
Definition KEY_POWER : Z := 116.
Definition KEY_VOLUMEDOWN : Z := 114.
Definition KEY_VOLUMEUP : Z := 115.
Definition KEY_CAMERA : Z := 212.

Definition sizeof_input_event : Z := 16.

Definition CHARGER_DRIVER : string := "pm8921-charger".

(** The event code of an input event; -1 for any other. *)
Definition key_event (type code value : Z) : Z :=
  if negb (type =? EV_KEY) then -1
  else if (code =? KEY_POWER) && (value =? 1) then EVENT_POWER_KEY_DOWN
  else if (code =? KEY_POWER) && (value =? 0) then EVENT_POWER_KEY_UP
  else if (code =? KEY_VOLUMEDOWN) && (value =? 1) then EVENT_VOLUMEDOWN_KEY_DOWN
  else if (code =? KEY_VOLUMEDOWN) && (value =? 0) then EVENT_VOLUMEDOWN_KEY_UP
  else if (code =? KEY_VOLUMEUP) && (value =? 1) then EVENT_VOLUMEUP_KEY_DOWN
  else if (code =? KEY_VOLUMEUP) && (value =? 0) then EVENT_VOLUMEUP_KEY_UP
  else if (code =? KEY_CAMERA) && (value =? 1) then EVENT_CAMERA_KEY_DOWN
  else if (code =? KEY_CAMERA) && (value =? 0) then EVENT_CAMERA_KEY_UP
  else -1.

Section Events.
  Context {Q : Type} `{!AlarmQueue callback Q}.

Abbreviation com A := (prog com_call (com_vars Q) A).

Definition open_uevent_socket : com Z :=
  s ← call Netlink_socket;
  if r_ret s <? 0 then mret (-1) else
  call (Setsockopt (r_ret s)) ;;
  b ← call (Bind (r_ret s));
  if r_ret b <? 0 then call (Close (r_ret s)) ;; mret (-1)
  else mret (r_ret s).

(** Append an entry at [ev_count]; the arrays have MAX_DEVICES entries. *)
Definition add_device (fd : Z) (k : ev_kind) : com unit :=
  modify (fun v =>
    if (length (ev_table v) <? MAX_DEVICES)%nat
    then v <| ev_table := ev_table v ++ [(fd, k)] |>
    else v <| undefined := true |>).

(** The loop of [ev_init] from device [i]; it runs until an open fails, or out
    of the arrays: [k] bounds the iterations that stay inside them. *)
Fixpoint open_inputs (k : nat) (i : Z) : com unit :=
  match k with
  | O => modify (fun v => v <| undefined := true |>)
  | S k =>
      o ← call (Open ("/dev/input/event" +:+ pretty i) false);
      if r_ret o <? 0 then mret tt else
      add_device (r_ret o) EV_TYPE_KEYBOARD ;;
      open_inputs k (i + 1)
  end.

Definition ev_init : com Z :=
  open_inputs (S MAX_DEVICES) 0 ;;
  fd ← open_uevent_socket;
  (if 0 <=? fd then
     call (Fcntl fd) ;; call (Fcntl fd) ;;
     modify (fun v => v <| uev_count := length (ev_table v) |>) ;;
     add_device fd EV_TYPE_UEVENT
   else mret tt) ;;
  mret 0.

Definition ev_exit : com unit :=
  t ← gets ev_table;
  for_each (reverse t) (fun x => call (Close (fst x)) ;; mret tt) ;;
  modify (fun v => v <| ev_table := [] |>).

(** [while ((r = recv(fd, msg, 1024, 0)) > 0);]: the buffer when the socket is
    drained; [None] when [fuel] messages were not all of them. *)
Fixpoint drain (fuel : nat) (fd : Z) (msg : string) : com (option string) :=
  match fuel with
  | O => mret None
  | S fuel =>
      r ← call (Recv fd 1024);
      if 0 <? r_ret r then drain fuel fd (overlay (received 1024 r) msg)
      else mret (Some msg)
  end.

(** The battery event of a drained uevent socket. *)
Definition uevent_battery (fuel : nat) (fd : Z) : com (option bool) :=
  u ← call (Uninit 1024);
  m ← drain fuel fd (r_data u);
  mret ((fun msg => contains (c_str msg) CHARGER_DRIVER) <$> m).

(** The loop of [ev_get] over the polled descriptors; [revents] are their
    returned events. *)
Fixpoint ev_scan (fuel : nat) (fds : list (Z * ev_kind)) (revents : list Z)
    : com (option Z) :=
  match fds with
  | [] => mret (Some (-1))
  | (fd, k) :: fds =>
      let rest := ev_scan fuel fds (tail revents) in
      if Z.land (default 0 (head revents)) 1 =? 0 then rest else
      match k with
      | EV_TYPE_KEYBOARD =>
          r ← call (Read_event fd);
          if r_ret r =? sizeof_input_event
          then mret (Some (key_event (aux 0 r) (aux 1 r) (aux 2 r)))
          else rest
      | EV_TYPE_UEVENT =>
          b ← uevent_battery fuel fd;
          match b with
          | None => mret None
          | Some true => mret (Some EVENT_BATTERY)
          | Some false => rest
          end
      end
  end.

Definition ev_get (fuel : nat) (timeout_ms : Z) : com (option Z) :=
  t ← gets ev_table;
  r ← call (Poll t.*1 timeout_ms);
  if r_ret r <=? 0 then mret (Some (-1)) else
  ev_scan fuel t (r_aux r).

(** [ev_fds[uev_count]] is all zero when no socket was opened. *)
Definition uev_get (fuel : nat) (timeout_ms : Z) : com (option Z) :=
  v ← gets id;
  let entry := ev_table v !! uev_count v in
  r ← call (Poll [default 0 (fst <$> entry)] timeout_ms);
  if r_ret r <=? 0 then mret (Some (-1)) else
  if Z.land (aux 0 r) 1 =? 0 then mret (Some (-1)) else
  match entry with
  | Some (fd, EV_TYPE_UEVENT) =>
      b ← uevent_battery fuel fd;
      mret ((fun b : bool => if b then EVENT_BATTERY else -1) <$> b)
  | _ => mret (Some (-1))
  end.

End Events.
