(* ===== verification/ComMain.v ===== *)
(** * charge_only_mode: the program ([src/charge_only_mode/main.c] and the
    operations of [alarm.c] that it calls)

    The alarm queue is used through its interface [AlarmQueue]. *)

From S2P Require Import Prelude.
From S2P Require Import CString.
From S2P Require Import Alarm.
From S2P Require Import ComHardware.
From S2P Require Import ComEvents.

Section Main.
  Context {Q : Type} `{!AlarmQueue callback Q}.

Abbreviation com A := (prog com_call (com_vars Q) A).

(** ** alarm.c *)

Definition gettimeofday : com timeval :=
  r ← call Gettimeofday; mret (Timeval (aux 0 r) (aux 1 r)).

Definition alarm_set_relative (f : callback) (ms : Z) : com Z :=
  m ← call Malloc;
  if r_ret m =? 0 then mret (-1) else
  now ← gettimeofday;
  modify (fun v => v <| alarms := q_set f (alarm_deadline now ms) (alarms v) |>) ;;
  mret 0.

Definition alarm_cancel (f : callback) : com Z :=
  q ← gets alarms;
  modify (fun v => v <| alarms := (q_cancel f q).2 |>) ;;
  mret (q_cancel f q).1.

Definition alarm_get_time_until_next : com Z :=
  q ← gets alarms;
  match q_next q with
  | None => mret INT_MAX
  | Some t => now ← gettimeofday; mret (time_until now t)
  end.

(** ** main.c *)

Definition ANIMATION_TIMEOUT : Z := 500.
Definition POWERUP_VOLTAGE : Z := 3600000.
Definition FS_PATH : string := "/data/chargeonlymode".

Definition save_mode (path : string) : com Z :=
  o ← call (Open path true);
  let fd := r_ret o in
  if fd <? 0 then mret (-1) else
  call (Write fd ("charging" +:+ String NUL "")) ;;
  call (Close fd) ;;
  mret 0.

Definition clear_mode (path : string) : com Z :=
  r ← call (Truncate path);
  call Sync ;; call (Sleep 1) ;;
  mret (r_ret r).

Definition display_blank : com unit :=
  call (Fb_blank true) ;; modify (fun v => v <| blank := true |>).

Definition display_unblank : com unit :=
  call (Fb_blank false) ;; modify (fun v => v <| blank := false |>).

(** [screen_brightness_animation_alarm2] *)
Definition run_alarm2 : com unit :=
  set_brightness 0 ;;
  alarm_cancel animation_alarm ;;
  sd ← gets shutdown;
  when sd (clear_mode FS_PATH ;; call Reboot_power_off ;; mret tt) ;;
  display_blank.

(** [screen_brightness_animation_alarm1] *)
Definition run_alarm1 : com unit :=
  set_brightness 4 ;;
  alarm_set_relative screen_brightness_animation_alarm2 10000 ;;
  mret tt.

Definition screen_brightness_animation_start (animation_timeout : Z) : com unit :=
  display_unblank ;;
  set_brightness 8 ;;
  alarm_set_relative screen_brightness_animation_alarm1 5000 ;;
  alarm_set_relative animation_alarm animation_timeout ;;
  mret tt.

(** [power_key_alarm] *)
Definition run_power_key : com unit :=
  alarm_cancel screen_brightness_animation_alarm2 ;;
  alarm_cancel screen_brightness_animation_alarm1 ;;
  alarm_cancel animation_alarm ;;
  l ← gets launched;
  when l (call (System "/system/bin/memtest_mode") ;; mret tt) ;;
  clear_mode FS_PATH ;;
  r ← call (Reboot_restart2 "outofcharge");
  when (negb (r_ret r <? 0)) (modify (fun v => v <| quit := true |>)).

(** The level shown: the capacity clamped to a percentage, and zero until the
    voltage has once been enough to power up. *)
Definition shown_level (s : device_state) (latch : bool) : Z :=
  let l := if 100 <? ds_charge_level s then 100
           else if ds_charge_level s <? 0 then 0 else ds_charge_level s in
  if (POWERUP_VOLTAGE <=? ds_voltage_level s) || latch then l else 0.

(** The error flag given to [screen_update]. *)
Definition charge_error (s : device_state) : bool :=
  (negb (ds_discharging s =? 0) &&
     (negb (ds_ac s =? 0) || negb (ds_usb s =? 0)))
  || (ds_battery_present s =? 0) || negb (ds_unknown s =? 0).

Definition power_event (update_leds : bool) : com unit :=
  state ← get_device_state;
  latch ← gets powerup_latch;
  (if POWERUP_VOLTAGE <=? ds_voltage_level state then
     modify (fun v => v <| powerup := true |>) ;;
     modify (fun v => v <| powerup_latch := true |>)
   else modify (fun v => v <| powerup := false |>)) ;;
  let level := shown_level state latch in
  call (Screen_update level (charge_error state)) ;;
  when update_leds
    (set_battery_led (DeviceState (ds_ac state) (ds_usb state)
       (ds_battery_present state) (ds_charging state) (ds_discharging state)
       (ds_unknown state) level (ds_voltage_level state))) ;;
  sd ← gets shutdown;
  when (negb sd && (ds_ac state =? 0) && (ds_usb state =? 0))
    (modify (fun v => v <| shutdown := true |>) ;;
     alarm_cancel screen_brightness_animation_alarm2 ;;
     alarm_cancel screen_brightness_animation_alarm1 ;;
     run_alarm2).

(** [animation_alarm] *)
Definition run_animation : com unit :=
  alarm_set_relative animation_alarm ANIMATION_TIMEOUT ;;
  power_event false.

Definition run_callback (f : callback) : com unit :=
  match f with
  | animation_alarm => run_animation
  | screen_brightness_animation_alarm1 => run_alarm1
  | screen_brightness_animation_alarm2 => run_alarm2
  | power_key_alarm => run_power_key
  end.

(** The loop of [alarm_process] at time [now]; the result is false when [fuel]
    alarms were not all that had expired. *)
Fixpoint process_expired (fuel : nat) (now : timeval) : com bool :=
  match fuel with
  | O => mret false
  | S fuel =>
      q ← gets alarms;
      match q_pop now q with
      | None => mret true
      | Some (f, q') =>
          modify (fun v => v <| alarms := q' |>) ;;
          run_callback f ;;
          process_expired fuel now
      end
  end.

Definition alarm_process (fuel : nat) : com bool :=
  now ← gettimeofday; process_expired fuel now.

Definition update_screen_on_wakeup_key : com unit :=
  alarm_cancel screen_brightness_animation_alarm2 ;;
  alarm_cancel animation_alarm ;;
  n ← alarm_cancel screen_brightness_animation_alarm1;
  if negb (n =? 0) then run_alarm2
  else screen_brightness_animation_start ANIMATION_TIMEOUT.

Definition update_screen_on_wakeup_key2 : com unit :=
  alarm_cancel screen_brightness_animation_alarm2 ;;
  alarm_cancel screen_brightness_animation_alarm1 ;;
  alarm_cancel animation_alarm ;;
  screen_brightness_animation_start ANIMATION_TIMEOUT.

(** ** The backdoor *)

Definition sequence : list Z :=
  [EVENT_VOLUMEUP_KEY_DOWN; EVENT_VOLUMEUP_KEY_DOWN;
   EVENT_VOLUMEDOWN_KEY_DOWN; EVENT_VOLUMEDOWN_KEY_DOWN;
   EVENT_VOLUMEUP_KEY_DOWN; EVENT_VOLUMEUP_KEY_DOWN;
   EVENT_VOLUMEDOWN_KEY_DOWN; EVENT_VOLUMEDOWN_KEY_DOWN;
   EVENT_POWER_KEY_DOWN].

(** The keys the sequence looks at. *)
Definition launch_key (r : Z) : bool :=
  (r =? EVENT_VOLUMEDOWN_KEY_DOWN) || (r =? EVENT_VOLUMEUP_KEY_DOWN)
  || (r =? EVENT_POWER_KEY_DOWN).

(** The static counter after a key; [None] is a read past [sequence]. *)
Definition launch_step (counter r : Z) : option Z :=
  if launch_key r then
    k ← sequence !! Z.to_nat counter;
    Some (if k =? r then counter + 1 else 0)
  else Some counter.

Definition launch_sequence (r : Z) : com bool :=
  c ← gets launch_counter;
  match launch_step c r with
  | None => modify (fun v => v <| undefined := true |>) ;; mret false
  | Some c' =>
      modify (fun v => v <| launch_counter := c' |>) ;;
      mret (launch_key r && (c' =? Z.of_nat (length sequence)))
  end.

(** ** The loop *)

(** The [switch] of the loop. *)
Definition handle_event (r : Z) : com unit :=
  if r =? EVENT_POWER_KEY_DOWN then
    p ← gets powerup;
    when p (alarm_set_relative power_key_alarm 1000 ;; mret tt)
  else if r =? EVENT_POWER_KEY_UP then
    alarm_cancel power_key_alarm ;; update_screen_on_wakeup_key
  else if (r =? EVENT_VOLUMEDOWN_KEY_DOWN) || (r =? EVENT_VOLUMEUP_KEY_DOWN)
          || (r =? EVENT_CAMERA_KEY_DOWN) then update_screen_on_wakeup_key2
  else if r =? EVENT_BATTERY then power_event false
  else when (r =? EVENT_QUIT) (modify (fun v => v <| quit := true |>)).

(** One iteration; false when the fuel was too small. *)
Definition com_main_iter (fuel : nat) : com bool :=
  delay ← alarm_get_time_until_next;
  if delay <? 1 then alarm_process fuel else
  ev ← ev_get fuel delay;
  match ev with
  | None => mret false
  | Some r =>
      go ← launch_sequence r;
      when go (modify (fun v => v <| launched := true |>)) ;;
      handle_event r ;;
      mret true
  end.

(** Up to the loop: [Some (None, old)] is entering it, [Some (Some n, _)] is
    returning [n]; [None] is fuel too small to drain the socket. *)
Definition com_main_init (fuel : nat) : com (option (option Z * device_state)) :=
  save_mode FS_PATH ;;
  old ← get_device_state;
  s ← call Screen_init;
  if r_ret s <? 0 then clear_mode FS_PATH ;; mret (Some (Some (-1), old)) else
  ev_init ;;
  u ← uev_get fuel 10000;
  match u with
  | None => mret None
  | Some _ =>
      display_blank ;;
      display_unblank ;;
      set_button_brightness 0 ;;
      screen_brightness_animation_start 1500 ;;
      mret (Some (None, old))
  end.

(** After the loop. *)
Definition main_exit (old_state : device_state) : com Z :=
  ev_exit ;;
  call Screen_uninit ;;
  set_brightness 10 ;;
  set_battery_led old_state ;;
  clear_mode FS_PATH ;;
  mret 0.

(** The states at the head of the loop. *)
Inductive com_reachable (e : env com_call) : sys com_call (com_vars Q) -> Prop :=
  | com_init fuel old s :
      exec (com_main_init fuel) e com_start = (Some (None, old), s) -> com_reachable e s
  | com_iter fuel s s' :
      com_reachable e s -> quit (st s) = false ->
      com_main_iter fuel e s = (true, s') -> undefined (st s') = false ->
      com_reachable e s'.

End Main.
