(* ===== verification/ComThms.v ===== *)
(** * charge_only_mode: what the program guarantees *)

From S2P Require Import Prelude.
From S2P Require Import CString.
From S2P Require Import Alarm.
From S2P Require Import ComHardware.
From S2P Require Import ComEvents.
From S2P Require Import ComMain.
From Stdlib Require Import Sorting.Sorted.

Section Generic.
  Context {Q : Type} `{!AlarmQueue callback Q, !AlarmQueueLaws callback Q}.

Abbreviation com A := (prog com_call (com_vars Q) A).

(** ** The effect of each function on the variables *)

Abbreviation unchanged m := 
  (forall e (s : sys com_call (com_vars Q)), wp m e s (fun _ s' => st s' = st s)).

Lemma sys_get_int_parameter_st p d : unchanged (sys_get_int_parameter p d).
Proof. intros e s. unfold sys_get_int_parameter. by wp_go. Qed.

Lemma battery_status_st w n : unchanged (battery_status w n).
Proof. intros e s. unfold battery_status, sys_get_string_parameter. by wp_go. Qed.

Lemma set_brightness_st n : unchanged (set_brightness n).
Proof. intros e s. unfold set_brightness. by wp_go. Qed.

Lemma write_string_st f t : unchanged (write_string f t).
Proof. intros e s. unfold write_string. by wp_go. Qed.

Lemma clear_mode_st p : unchanged (clear_mode p).
Proof. intros e s. unfold clear_mode. by wp_go. Qed.

#[local] Hint Resolve sys_get_int_parameter_st battery_status_st set_brightness_st
  write_string_st clear_mode_st : wpdb.

Ltac st_chain :=
  cbn [st] in *;
  repeat match goal with H : st _ = _ |- _ => rewrite H in *; clear H end; try done.

Lemma get_device_state_st : unchanged get_device_state.
Proof.
  intros e s. unfold get_device_state, is_plugged_into_ac, is_plugged_into_usb,
    is_battery_present, is_charging, is_discharging, is_unknown, charge_level, voltage_level.
  wp_go; st_chain.
Qed.

Lemma set_battery_led_st d : unchanged (set_battery_led d).
Proof. intros e s. unfold set_battery_led, set_led_state. wp_go; st_chain. Qed.

Lemma alarm_cancel_st f e s :
  wp (alarm_cancel f) e s (fun n s' => n = pending f (alarms (st s)) /\
    st s' = (st s) <| alarms := (q_cancel f (alarms (st s))).2 |>).
Proof. unfold alarm_cancel. wp_go. by rewrite cancel_count. Qed.

Lemma alarm_set_relative_st f ms e s :
  wp (alarm_set_relative f ms) e s (fun _ s' => st s' = st s \/
    exists t, st s' = (st s) <| alarms := q_set f t (alarms (st s)) |>).
Proof. unfold alarm_set_relative, gettimeofday. wp_go; eauto. Qed.

#[local] Hint Resolve get_device_state_st set_battery_led_st alarm_cancel_st
  alarm_set_relative_st : wpdb.

(** ** The timers of the display *)

(** At most one of the two dimming timers and one animation timer are pending;
    none is while the display is off. *)
Record timers_ok (v : com_vars Q) : Prop := {
  tm_dim : pending screen_brightness_animation_alarm1 (alarms v)
           + pending screen_brightness_animation_alarm2 (alarms v) <= 1;
  tm_anim : pending animation_alarm (alarms v) <= 1;
  tm_blank : blank v = true ->
    pending screen_brightness_animation_alarm1 (alarms v) = 0 /\
    pending screen_brightness_animation_alarm2 (alarms v) = 0 /\
    pending animation_alarm (alarms v) = 0 }.

(** Close a goal on pending counts after the variables have been computed. *)
Ltac pending_solve :=
  st_chain; destruct_and?;
  repeat match goal with H : _ \/ _ |- _ => destruct H | H : exists _, _ |- _ => destruct H end;
  st_chain; cbn in *;
  rewrite ?pending_set, ?pending_cancel in *;
  repeat case_decide; try discriminate; try done; intuition lia.

Ltac timers := split; pending_solve.

Lemma pending_zero f (q : Q) : pending f q <= 0 -> pending f q = 0.
Proof. pose proof (pending_nonneg f q). lia. Qed.

Lemma run_alarm2_timers e s :
  pending screen_brightness_animation_alarm1 (alarms (st s)) = 0 ->
  pending screen_brightness_animation_alarm2 (alarms (st s)) = 0 ->
  wp run_alarm2 e s (fun _ s' => timers_ok (st s')).
Proof. intros H1 H2. unfold run_alarm2, display_blank. wp_go; timers. Qed.

Lemma animation_start_timers ms e s :
  pending screen_brightness_animation_alarm1 (alarms (st s)) = 0 ->
  pending screen_brightness_animation_alarm2 (alarms (st s)) = 0 ->
  pending animation_alarm (alarms (st s)) = 0 ->
  wp (screen_brightness_animation_start ms) e s (fun _ s' => timers_ok (st s')).
Proof.
  intros H1 H2 H3. unfold screen_brightness_animation_start, display_unblank.
  wp_go; timers.
Qed.

#[local] Hint Resolve run_alarm2_timers animation_start_timers : wpdb.

Lemma power_event_timers leds e s :
  timers_ok (st s) -> wp (power_event leds) e s (fun _ s' => timers_ok (st s')).
Proof.
  intros []. unfold power_event. wp_go.
  all: first [apply run_alarm2_timers; pending_solve | timers].
Qed.

Lemma wakeup_key_timers e s :
  timers_ok (st s) ->
  wp update_screen_on_wakeup_key e s (fun _ s' => timers_ok (st s')).
Proof.
  intros []. unfold update_screen_on_wakeup_key. wp_go.
  - apply run_alarm2_timers; pending_solve.
  - apply animation_start_timers; pending_solve.
Qed.

Lemma wakeup_key2_timers e s :
  timers_ok (st s) ->
  wp update_screen_on_wakeup_key2 e s (fun _ s' => timers_ok (st s')).
Proof.
  intros []. unfold update_screen_on_wakeup_key2. wp_go.
  apply animation_start_timers; pending_solve.
Qed.

(** An expired alarm taken off the queue and run. *)
Lemma run_callback_timers now f q' e s :
  timers_ok (st s) -> q_pop now (alarms (st s)) = Some (f, q') ->
  wp (run_callback f) e (Sys _ _ ((st s) <| alarms := q' |>) (tr s))
    (fun _ s' => timers_ok (st s')).
Proof.
  intros [Hd Ha Hb] Hp.
  pose proof (pending_pop screen_brightness_animation_alarm1 _ _ _ _ Hp) as P1.
  pose proof (pending_pop screen_brightness_animation_alarm2 _ _ _ _ Hp) as P2.
  pose proof (pending_pop animation_alarm _ _ _ _ Hp) as P3.
  pose proof (pending_nonneg screen_brightness_animation_alarm1 q').
  pose proof (pending_nonneg screen_brightness_animation_alarm2 q').
  pose proof (pending_nonneg animation_alarm q').
  destruct f; cbn [run_callback];
    repeat case_decide; try done.
  - unfold run_animation. apply wp_bind.
    eapply wp_wand; [apply alarm_set_relative_st|]. intros ? s' Hs.
    apply power_event_timers. timers.
  - unfold run_alarm1. wp_go. timers.
  - apply run_alarm2_timers; pending_solve.
  - unfold run_power_key. wp_go; timers.
Qed.

Lemma process_expired_timers fuel now e s :
  timers_ok (st s) -> wp (process_expired fuel now) e s (fun _ s' => timers_ok (st s')).
Proof.
  revert s. induction fuel as [|fuel IH]; intros s Hs; cbn [process_expired]; [by apply wp_ret|].
  apply wp_bind, wp_gets. destruct (q_pop now (alarms (st s))) as [[f q']|] eqn:Hp.
  - apply wp_bind, wp_modify, wp_bind. eapply wp_wand; [by eapply run_callback_timers|].
    intros ? s'. apply IH.
  - by apply wp_ret.
Qed.

(** ** Events leave the variables alone *)

Lemma drain_st fuel fd msg : unchanged (drain fuel fd msg).
Proof.
  intros e s. revert msg s. induction fuel as [|fuel IH]; intros msg s; cbn [drain];
    wp_go; st_chain.
Qed.

#[local] Hint Resolve drain_st : wpdb.

Lemma ev_scan_st fuel fds rev : unchanged (ev_scan fuel fds rev).
Proof.
  intros e. revert rev. induction fds as [|[fd k] fds IH]; intros rev s; cbn [ev_scan];
    unfold uevent_battery; wp_go; st_chain.
Qed.

#[local] Hint Resolve ev_scan_st : wpdb.

Lemma ev_get_st fuel ms : unchanged (ev_get fuel ms).
Proof. intros e s. unfold ev_get. wp_go; st_chain. Qed.

Lemma uev_get_st fuel ms : unchanged (uev_get fuel ms).
Proof. intros e s. unfold uev_get, uevent_battery. wp_go; st_chain. Qed.

#[local] Hint Resolve ev_get_st uev_get_st : wpdb.

(** [timers_ok] reads only the queue and [blank]. *)
Lemma timers_ok_ext (v v' : com_vars Q) :
  timers_ok v -> alarms v' = alarms v -> blank v' = blank v -> timers_ok v'.
Proof. intros [] Ha Hb. split; rewrite ?Ha, ?Hb; done. Qed.

Lemma launch_sequence_timers r e s :
  timers_ok (st s) -> wp (launch_sequence r) e s (fun _ s' => timers_ok (st s')).
Proof.
  intros H. unfold launch_sequence. wp_go; by eapply timers_ok_ext.
Qed.

Lemma handle_event_timers r e s :
  timers_ok (st s) -> wp (handle_event r) e s (fun _ s' => timers_ok (st s')).
Proof.
  intros H. unfold handle_event. repeat case_match.
  - destruct H. wp_go; timers.
  - apply wp_bind. eapply wp_wand; [apply alarm_cancel_st|]. intros ? s' [_ Hs].
    apply wakeup_key_timers. destruct H. timers.
  - by apply wakeup_key2_timers.
  - by apply power_event_timers.
  - wp_go; by eapply timers_ok_ext.
Qed.

Lemma main_iter_timers fuel e s :
  timers_ok (st s) -> wp (com_main_iter fuel) e s (fun _ s' => timers_ok (st s')).
Proof.
  intros H. unfold com_main_iter, alarm_get_time_until_next, gettimeofday.
  apply wp_bind. apply (wp_wand _ _ _ (fun _ s' => timers_ok (st s'))); [by wp_go|].
  intros delay s1 H1. case_match.
  - unfold alarm_process, gettimeofday. wp_go. by apply process_expired_timers.
  - apply wp_bind. eapply wp_wand; [apply ev_get_st|]. intros [r|] s2 Hs2; [|by rewrite <- Hs2 in H1].
    apply wp_bind. eapply wp_wand; [apply launch_sequence_timers; by rewrite Hs2|].
    intros go s3 H3. apply wp_bind.
    apply (wp_wand _ _ _ (fun _ s' => timers_ok (st s'))); [wp_go; [by apply (timers_ok_ext (st s3)) | done]|].
    intros ? s4 H4. apply wp_bind. eapply wp_wand; [by apply handle_event_timers|].
    by intros ? s5 H5.
Qed.

Lemma open_inputs_alarms k i e (s : sys com_call (com_vars Q)) :
  wp (open_inputs k i) e s (fun _ s' => alarms (st s') = alarms (st s)).
Proof.
  revert i s. induction k as [|k IH]; intros i s; cbn [open_inputs]; unfold add_device;
    wp_go; try done. rewrite H. cbn [st]. by destruct (_ <? _)%nat.
Qed.

Lemma ev_init_alarms e (s : sys com_call (com_vars Q)) :
  wp ev_init e s (fun _ s' => alarms (st s') = alarms (st s)).
Proof.
  unfold ev_init. apply wp_bind. eapply wp_wand; [apply open_inputs_alarms|].
  intros ? s1 H1. unfold open_uevent_socket, add_device. wp_go; try done.
  cbn [st] in *. destruct (_ <? _)%nat; done.
Qed.

Lemma main_init_timers fuel e s :
  alarms (st s) = q_empty ->
  wp (com_main_init fuel) e s (fun r s' => forall old, r = Some (None, old) -> timers_ok (st s')).
Proof.
  intros Hq. unfold com_main_init, save_mode, display_blank, display_unblank, set_button_brightness.
  apply wp_bind. apply (wp_wand _ _ _ (fun _ s' => st s' = st s)); [by wp_go|].
  intros ? s1 H1. apply wp_bind. eapply wp_wand; [apply get_device_state_st|].
  intros d s2 H2. apply wp_bind, wp_call. intros r _. case_match; [by wp_go|].
  apply wp_bind. eapply wp_wand; [apply ev_init_alarms|]. intros ? s3 H3. cbn [st] in H3.
  apply wp_bind. eapply wp_wand; [apply uev_get_st|]. intros [u|] s4 H4; [|done].
  assert (alarms (st s4) = q_empty) as H5 by congruence.
  do 3 (apply wp_bind; apply (wp_wand _ _ _ (fun _ s' => alarms (st s') = q_empty));
    [by wp_go|]; intros ? ? ?).
  apply wp_bind. eapply wp_wand.
  - apply animation_start_timers;
      match goal with H : alarms (st ?x) = _ |- context [st ?x] => rewrite H end;
      apply pending_empty.
  - intros ? s8 H8. apply wp_ret. by intros old [= <-].
Qed.

(** C9.  Whenever the loop of [main] runs, at most one dimming timer and one
    animation timer are pending, and none of them while the display is off:
    for every queue that satisfies the laws of the interface. *)
Theorem com_timers e s :
  com_reachable e s ->
  pending screen_brightness_animation_alarm1 (alarms (st s))
  + pending screen_brightness_animation_alarm2 (alarms (st s)) <= 1 /\
  pending animation_alarm (alarms (st s)) <= 1 /\
  (blank (st s) = true ->
   pending screen_brightness_animation_alarm1 (alarms (st s)) = 0 /\
   pending screen_brightness_animation_alarm2 (alarms (st s)) = 0 /\
   pending animation_alarm (alarms (st s)) = 0).
Proof.
  intros Hr. assert (timers_ok (st s)) as []; [|done].
  induction Hr as [fuel old s Hi | fuel s s' Hr IH Hq Hs Hu].
  - pose proof (main_init_timers fuel e (Sys _ _ com_start []) eq_refl) as Hw.
    unfold wp, exec in *. rewrite Hi in Hw. by eapply Hw.
  - pose proof (main_iter_timers fuel e s IH) as Hw. unfold wp in Hw. by rewrite Hs in Hw.
Qed.

(** ** Power events *)

Lemma shown_level_bounds d latch : 0 <= shown_level d latch <= 100.
Proof. unfold shown_level. repeat case_match; lia. Qed.

Definition is_power_off (c : com_call) : bool :=
  match c with Reboot_power_off => true | _ => false end.

(** How often the device has been switched off. *)
Abbreviation power_offs s := (count_calls is_power_off (tr s)).

Abbreviation no_power_off m :=
  (forall e n, Keeps e (fun s : sys com_call (com_vars Q) => power_offs s = n) m).

#[local] Instance get_device_state_quiet : no_power_off get_device_state.
Proof.
  intros e n. unfold get_device_state, is_plugged_into_ac, is_plugged_into_usb,
    is_battery_present, is_charging, is_discharging, is_unknown, charge_level,
    voltage_level, battery_status, sys_get_int_parameter, sys_get_string_parameter.
  keeps.
Qed.

#[local] Instance set_brightness_quiet b : no_power_off (set_brightness b).
Proof. intros e n. unfold set_brightness. keeps. Qed.

#[local] Instance set_battery_led_quiet d : no_power_off (set_battery_led d).
Proof. intros e n. unfold set_battery_led, set_led_state, write_string. keeps. Qed.

#[local] Instance alarm_cancel_quiet f : no_power_off (alarm_cancel f).
Proof. intros e n. unfold alarm_cancel. keeps. Qed.

#[local] Instance clear_mode_quiet p : no_power_off (clear_mode p).
Proof. intros e n. unfold clear_mode. keeps. Qed.

Lemma wp_quiet {A} (m : com A) e s (P : A -> sys com_call (com_vars Q) -> Prop) :
  no_power_off m -> wp m e s P ->
  wp m e s (fun a s' => P a s' /\ power_offs s' = power_offs s).
Proof. intros Hm HP. apply wp_and; [done|]. by apply wp_keeps. Qed.

Lemma run_alarm2_power_off e s :
  wp run_alarm2 e s (fun _ s' => shutdown (st s') = shutdown (st s) /\
    power_offs s' = power_offs s + (if shutdown (st s) then 1 else 0)).
Proof.
  unfold run_alarm2, display_blank.
  apply wp_bind. eapply wp_wand; [apply wp_quiet; [apply _|apply set_brightness_st]|].
  intros ? s1 [H1 Q1]. apply wp_bind.
  eapply wp_wand; [apply wp_quiet; [apply _|apply alarm_cancel_st]|].
  intros ? s2 [[_ H2] Q2]. apply wp_bind, wp_gets, wp_bind.
  assert (shutdown (st s2) = shutdown (st s)) as Hsd by (rewrite H2, <- H1; done).
  apply wp_when; intros Hb.
  - apply wp_bind. eapply wp_wand; [apply wp_quiet; [apply _|apply clear_mode_st]|].
    intros ? s3 [H3 Q3]. wp_go; cbn [st tr] in *; rewrite !count_calls_snoc; cbn.
    split; [by rewrite H3, Hsd|]. rewrite <- Hsd, Hb. lia.
  - wp_go; cbn [st tr] in *; rewrite !count_calls_snoc; cbn. split; [done|].
    rewrite <- Hsd, Hb. lia.
Qed.

(** The charger is unplugged and the device is not switching off yet. *)
Definition unplugged (v : com_vars Q) (d : device_state) : bool :=
  negb (shutdown v) && (ds_ac d =? 0) && (ds_usb d =? 0).

(** What [power_event] does after updating the screen. *)
Lemma power_off_tail (leds : bool) d d' e s :
  wp (when leds (set_battery_led d') ;;
      sd ← gets shutdown;
      when (negb sd && (ds_ac d =? 0) && (ds_usb d =? 0))
        (modify (fun v => v <| shutdown := true |>) ;;
         alarm_cancel screen_brightness_animation_alarm2 ;;
         alarm_cancel screen_brightness_animation_alarm1 ;;
         run_alarm2)) e s (fun _ s' =>
    power_offs s' = power_offs s + (if unplugged (st s) d then 1 else 0) /\
    shutdown (st s') = shutdown (st s) || unplugged (st s) d).
Proof.
  apply wp_bind.
  apply (wp_wand _ _ _ (fun _ s' => st s' = st s /\ power_offs s' = power_offs s)).
  { apply wp_when; [intros _|done]. apply wp_quiet; [apply _ | apply set_battery_led_st]. }
  intros ? s1 [H1 Q1]. apply wp_bind, wp_gets. rewrite H1. fold (unplugged (st s) d).
  apply wp_when; intros Hu; rewrite Hu; [|rewrite H1, orb_false_r; split; [lia|done]].
  apply wp_bind, wp_modify. cbn [st tr]. rewrite H1. apply wp_bind.
  eapply wp_wand; [apply wp_quiet; [apply _|apply alarm_cancel_st]|]. intros ? s2 [[_ H2] Q2].
  apply wp_bind.
  eapply wp_wand; [apply wp_quiet; [apply _|apply alarm_cancel_st]|]. intros ? s3 [[_ H3] Q3].
  eapply wp_wand; [apply run_alarm2_power_off|]. intros ? s4 [H4 Q4].
  assert (shutdown (st s3) = true) as Hs by (rewrite H3, H2; done).
  rewrite H4, Q4, Hs, orb_true_r. cbn [st tr] in *. split; [lia|done].
Qed.

(** A power event shows a level between 0 and 100, and 0 until the voltage
    has been enough to power up; it switches the device off, once, exactly when
    both supplies read as absent and the device is not already switching off. *)
Theorem power_event_spec leds e s :
  let d := (get_device_state e s).1 in
  let level := shown_level d (powerup_latch (st s)) in
  wp (power_event leds) e s (fun _ s' =>
    Screen_update level (charge_error d) ∈ calls s' /\
    0 <= level <= 100 /\
    (ds_voltage_level d < POWERUP_VOLTAGE -> powerup_latch (st s) = false -> level = 0) /\
    power_offs s' = power_offs s + (if unplugged (st s) d then 1 else 0) /\
    shutdown (st s') = shutdown (st s) || unplugged (st s) d).
Proof.
  intros d level. unfold power_event. apply wp_bind.
  eapply wp_wand; [apply wp_and;
    [apply wp_quiet; [apply _|apply get_device_state_st] | apply wp_self]|].
  intros ? s1 [[H1 Q1] [-> _]]. fold d. apply wp_bind, wp_gets, wp_bind. rewrite H1. fold level.
  apply (wp_wand _ _ _ (fun _ s2 => shutdown (st s2) = shutdown (st s) /\ tr s2 = tr s1));
    [by wp_go; cbn; rewrite H1|].
  intros ? s2 [H2 T2]. apply wp_bind, wp_call. intros r _.
  eapply wp_wand; [apply wp_logs; [|apply (power_off_tail leds d)]|].
  - unfold run_alarm2, display_blank, alarm_cancel, set_brightness, clear_mode,
      set_battery_led, set_led_state, write_string. logs.
  - cbn [st tr]. intros ? s' [[Hp Hs] Hpre]. rewrite count_calls_snoc, T2, Q1 in Hp.
    split_and!; [|apply shown_level_bounds|..].
    + unfold calls. destruct Hpre as [t ->]. rewrite !fmap_app. set_solver.
    + apply shown_level_bounds.
    + intros Hv Hl. subst level. unfold shown_level. rewrite Hl, (proj2 (Z.leb_gt _ _) Hv). done.
    + cbn in Hp. unfold unplugged in *. rewrite H2 in Hp. lia.
    + unfold unplugged in *. by rewrite Hs, H2.
Qed.

End Generic.
