(* ===== verification/ComAlarmThms.v ===== *)
(** * charge_only_mode: the backdoor sequence, the alarm queue and its loop *)

From S2P Require Import Prelude.
From S2P Require Import CString.
From S2P Require Import Alarm.
From S2P Require Import ComHardware.
From S2P Require Import ComEvents.
From S2P Require Import ComMain.
From S2P Require Import ComThms.
From Stdlib Require Import Sorting.Sorted.

(** ** The backdoor *)

(** The counter after the events [h]. *)
Fixpoint launch_run (counter : Z) (h : list Z) : option Z :=
  match h with
  | [] => Some counter
  | r :: h => c ← launch_step counter r; launch_run c h
  end.

(** The keys of a history that the sequence looks at. *)
Definition launch_keys (h : list Z) : list Z := filter (fun r => launch_key r = true) h.

Lemma launch_run_snoc c h r :
  launch_run c (h ++ [r]) = (c' ← launch_run c h; launch_step c' r).
Proof.
  revert c. induction h as [|x h IH]; intros c; cbn.
  - by destruct (launch_step c r).
  - destruct (launch_step c x); cbn; [apply IH | done].
Qed.

Lemma launch_run_app c h h' : launch_run c (h ++ h') = (c' ← launch_run c h; launch_run c' h').
Proof.
  revert c. induction h as [|x h IH]; intros c; cbn; [done|].
  destruct (launch_step c x); cbn; [apply IH | done].
Qed.

(** Other events than the three keys do not count. *)
Lemma launch_run_keys c h : launch_run c h = launch_run c (launch_keys h).
Proof.
  revert c. induction h as [|r h IH]; intros c; [done|]. unfold launch_keys. cbn.
  destruct (launch_key r) eqn:Hr.
  - rewrite decide_True by done. cbn. destruct (launch_step c r); cbn; [apply IH | done].
  - rewrite decide_False by done. unfold launch_step. rewrite Hr. cbn. apply IH.
Qed.

(** A failed attempt at the sequence: it ends with its first wrong key. *)
Definition failed (a : list Z) : Prop :=
  exists k x y, sequence !! k = Some y /\ x <> y /\ a = take k sequence ++ [x].

(** The presses of a history: failed attempts, and then [k] keys of the sequence *)
Definition attempts_then (k : nat) (keys : list Z) : Prop :=
  exists attempts, Forall failed attempts /\ keys = concat attempts ++ take k sequence.

Lemma launch_run_prefix k : (k <= 9)%nat -> launch_run 0 (take k sequence) = Some (Z.of_nat k).
Proof. intros Hk. do 10 (destruct k as [|k]; [reflexivity|]). lia. Qed.

Lemma launch_run_failed a :
  failed a -> Forall (fun r => launch_key r = true) a -> launch_run 0 a = Some 0.
Proof.
  intros (k & x & y & Hk & Hne & ->) Hkeys. pose proof (lookup_lt_Some _ _ _ Hk) as Hlt.
  change (length sequence) with 9%nat in Hlt. apply Forall_app in Hkeys as [_ Hx].
  rewrite launch_run_snoc, launch_run_prefix by lia. cbn. unfold launch_step.
  rewrite (Forall_inv Hx), Nat2Z.id, Hk. cbn. by rewrite (proj2 (Z.eqb_neq y x)).
Qed.

Lemma launch_run_attempts attempts :
  Forall failed attempts -> Forall (fun r => launch_key r = true) (concat attempts) ->
  launch_run 0 (concat attempts) = Some 0.
Proof.
  induction 1 as [|a attempts Ha _ IH]; [done|]. cbn. intros [H1 H2]%Forall_app.
  rewrite launch_run_app, launch_run_failed by done. by apply IH.
Qed.

Lemma launch_run_nonneg h c : launch_run 0 h = Some c -> 0 <= c.
Proof.
  revert c. induction h as [|y h IH] using rev_ind; [by intros c [= <-]|]. intros c.
  rewrite launch_run_snoc. destruct (launch_run 0 h) as [d|]; [|done]. specialize (IH d eq_refl).
  cbn. unfold launch_step. destruct (launch_key y); [|by intros [= <-]].
  destruct (sequence !! Z.to_nat d); [|done]. cbn. case_match; intros [= <-]; lia.
Qed.

(** The counter is the number of keys since the last failed attempt. *)
Lemma launch_run_counter h k :
  launch_run 0 h = Some (Z.of_nat k) <-> (k <= 9)%nat /\ attempts_then k (launch_keys h).
Proof.
  split.
  - revert k. induction h as [|r h IH] using rev_ind; intros k Hk.
    { injection Hk as Hk. assert (k = 0%nat) as -> by lia. split; [lia|]. by exists []. }
    rewrite launch_run_snoc in Hk. destruct (launch_run 0 h) as [c|] eqn:Hc; [|done].
    cbn in Hk. unfold launch_step in Hk. unfold launch_keys in *. rewrite filter_app.
    destruct (launch_key r) eqn:Hr; cbn.
    2: { injection Hk as ->. rewrite decide_False by congruence. rewrite app_nil_r. by apply IH. }
    rewrite decide_True by done.
    destruct (sequence !! Z.to_nat c) as [x|] eqn:Hx; [|done]. cbn in Hk. injection Hk as Hk.
    pose proof (lookup_lt_Some _ _ _ Hx) as Hlt. change (length sequence) with 9%nat in Hlt.
    destruct (IH (Z.to_nat c)) as [_ (att & Ha & ->)].
    { f_equal. apply launch_run_nonneg in Hc. lia. }
    apply launch_run_nonneg in Hc.
    destruct (x =? r) eqn:Exr.
    + apply Z.eqb_eq in Exr as ->. assert (k = S (Z.to_nat c)) as -> by lia. split; [lia|].
      exists att. by rewrite (take_S_r _ _ _ Hx), (assoc_L (++)).
    + assert (k = 0%nat) as -> by lia. split; [lia|].
      exists (att ++ [take (Z.to_nat c) sequence ++ [r]]). split.
      * apply Forall_app. split; [done|]. constructor; [|done]. exists (Z.to_nat c), r, x.
        split_and!; [done| |done]. intros ->. by rewrite Z.eqb_refl in Exr.
      * rewrite concat_app. cbn. by rewrite !app_nil_r, (assoc_L (++)).
  - intros [Hk (att & Ha & E)]. rewrite launch_run_keys, E, launch_run_app.
    rewrite launch_run_attempts; [by apply launch_run_prefix|done|].
    assert (Forall (fun r => launch_key r = true) (launch_keys h)) as Hall
      by (apply Forall_forall; intros r [? _]%list_elem_of_filter; done).
    rewrite E in Hall. by apply Forall_app in Hall as [? _].
Qed.

(** C11.  The memory-test backdoor opens exactly for the secret sequence: [launch_sequence]
    answers yes to a key if and only if the volume and power keys pressed so far, this one
    included, are failed attempts, each of which ends with its first wrong key, and
    after them the nine keys of the sequence.  The wrong key is not taken for the first
    one of the next attempt. *)
Theorem launch_sequence_exact {Q} `{!AlarmQueue callback Q} e (s : sys com_call (com_vars Q)) h r :
  launch_run 0 h = Some (launch_counter (st s)) ->
  (launch_sequence r e s).1 = true <->
    launch_key r = true /\ exists attempts, Forall failed attempts /\
      launch_keys (h ++ [r]) = concat attempts ++ sequence.
Proof.
  intros Hh. pose proof (launch_run_snoc 0 h r) as Hrun. rewrite Hh in Hrun. cbn in Hrun.
  pose proof (launch_run_counter (h ++ [r]) 9) as Hspec. rewrite Hrun in Hspec.
  assert (attempts_then 9 (launch_keys (h ++ [r])) <-> exists attempts, Forall failed attempts /\
      launch_keys (h ++ [r]) = concat attempts ++ sequence) as <- by done.
  assert ((launch_sequence r e s).1 = true <->
    launch_key r = true /\ launch_step (launch_counter (st s)) r = Some 9) as ->.
  { unfold launch_sequence, mbind, prog_bind, gets.
    destruct (launch_step (launch_counter (st s)) r) as [c|]; cbn; [|naive_solver].
    rewrite andb_true_iff, Z.eqb_eq.
    split; intros [H1 H2]; (split; [done|]); [by rewrite H2 | by injection H2]. }
  change (Z.of_nat 9) with 9 in Hspec. rewrite Hspec. split; intros (? & H); (split; [done|]);
    [apply H | split; [lia|done]].
Qed.

(** So the sequence is missed after one stray Volume Up: the third Volume Up in a row is
    the wrong key of a failed attempt, and the first key of the next one is then wrong. *)
Lemma launch_stray_key : launch_run 0 (EVENT_VOLUMEUP_KEY_DOWN :: sequence) = Some 0.
Proof. reflexivity. Qed.

(** The counter is not reset after the sequence: the next press of a key it
    looks at reads the element after the last one of [sequence]. *)
Theorem launch_after_activation r :
  launch_key r = true -> launch_run 0 (sequence ++ [r]) = None.
Proof. intros Hr. rewrite launch_run_snoc. cbn. unfold launch_step. by rewrite Hr. Qed.

(** ** The queue *)

Section Queue.
  Context {F : Type} `{EqDecision F}.
Implicit Types l : list (alarm_node F).

(** C12.  The alarm list refines an unordered collection served by deadline:
    every operation keeps it ordered; setting adds exactly the new alarm;
    cancelling removes exactly the alarms of the callback and returns their
    number; taking an expired alarm takes one that is due and earliest, and
    fails only when no alarm is due. *)
Theorem alarm_queue_refines l :
  ordered l ->
  (forall a, normal (alarm_time a) ->
     ordered (alarm_insert a l) /\ alarm_insert a l ≡ₚ a :: l) /\
  (forall f, ordered (alarm_remove f l).2 /\
     (alarm_remove f l).2 = filter (fun a => alarm_f a <> f) l /\
     (alarm_remove f l).1 = alarm_pending f l) /\
  (forall now, normal now ->
     match alarm_pop now l with
     | Some (f, l') => ordered l' /\ exists a, alarm_f a = f /\ l ≡ₚ a :: l' /\
         due now a /\ Forall (alarm_le a) l'
     | None => Forall (fun a => ~ due now a) l
     end).
Proof.
  intros Hl. split_and!.
  - intros a Ha. split; [by apply alarm_insert_ordered | apply alarm_insert_perm].
  - intros f. rewrite alarm_remove_spec. cbn. split; [by apply ordered_filter|done].
  - intros now Hnow. destruct (alarm_pop now l) as [[f l']|] eqn:Hp.
    + destruct (alarm_pop_some now l f l' Hnow Hl Hp) as (Ho & a & Hf & -> & Hd & Hle).
      split; [done|]. by exists a.
    + by apply alarm_pop_none.
Qed.

End Queue.

(** The delay that [main] gives to [poll] is within a millisecond of the
    time to the next deadline; a deadline that has passed gives a delay below
    1, so [main] never polls past an alarm that is due. *)
Theorem alarm_delay_exact now t :
  normal now -> normal t -> Z.abs (tv_sec t - tv_sec now) <= 2000000 ->
  Z.abs (1000 * time_until now t - (micros t - micros now)) < 1000 /\
  (micros t <= micros now -> time_until now t < 1).
Proof. intros Hn Ht Hs. pose proof (time_until_close now t Hn Ht Hs). lia. Qed.

(** ** The loop of [alarm_process] *)

Section Process.
  Context (e : env com_call).

Abbreviation queue := (list (alarm_node callback)).

(** The answer of [gettimeofday] as call number [n]. *)
Definition clock (n : nat) : timeval :=
  Timeval (aux 0 (e n Gettimeofday)) (aux 1 (e n Gettimeofday)).

(** From call [k] on, the clock does not show a time before [now]. *)
Definition clock_from (k : nat) (now : timeval) : Prop :=
  forall n, (k <= n)%nat -> normal (clock n) /\ micros now <= micros (clock n).

Definition due_count (now : timeval) (l : queue) : nat := length (filter (due now) l).

Section Fixed.
  Context (k : nat) (now : timeval) (Hclock : clock_from k now) (d : nat).

(** What the callbacks keep: the queue is ordered and no more than [d] of its
    alarms are due at [now]. *)
Definition served (s : sys com_call (com_vars queue)) : Prop :=
  ordered (alarms (st s)) /\ (due_count now (alarms (st s)) <= d)%nat /\
  (k <= length (tr s))%nat.

#[local] Instance served_call c : Keeps e served (call c).
Proof.
  apply keeps_call. intros s r (H1 & H2 & H3). split_and!; [done|done|].
  cbn. rewrite length_app. lia.
Qed.

#[local] Instance served_cancel f : Keeps e served (alarm_cancel f).
Proof.
  intros s (H1 & H2 & H3). unfold alarm_cancel, mbind, prog_bind, gets, modify. cbn.
  rewrite alarm_remove_spec. cbn. split_and!; cbn; [by apply ordered_filter| |done].
  unfold due_count in *. etrans; [apply length_filter_filter | exact H2].
Qed.

Lemma due_count_insert a l :
  ~ due now a -> due_count now (alarm_insert a l) = due_count now l.
Proof.
  intros Ha. unfold due_count. rewrite alarm_insert_perm, filter_cons. by rewrite decide_False.
Qed.

#[local] Instance served_set f ms : 0 < ms -> Keeps e served (alarm_set_relative f ms).
Proof.
  intros Hms s Hs. change (wp (alarm_set_relative f ms) e s (fun _ s' => served s')).
  unfold alarm_set_relative, gettimeofday. apply wp_bind, wp_call. intros r ->.
  pose proof (served_call Malloc s Hs) as Hs1. case_match; [by apply wp_ret|].
  apply wp_bind, wp_bind, wp_call. intros t ->. cbn [st tr].
  destruct (served_call Gettimeofday _ Hs1) as (H1 & H2 & H3).
  destruct Hs1 as (_ & _ & Hk). destruct (Hclock _ Hk) as [Hn Hle].
  cbn [st tr] in *. wp_go. split_and!; cbn [st alarms].
  - cbn. apply alarm_insert_ordered; [|done]. cbn. by apply alarm_deadline_normal; [|lia].
  - rewrite <- (due_count_insert (AlarmNode (alarm_deadline (clock (length (tr (call Malloc e s).2))) ms) f)) in H2; [exact H2|].
    unfold due. cbn [alarm_time]. rewrite alarm_deadline_micros. lia.
  - done.
Qed.

#[local] Instance served_brightness b : Keeps e served (set_brightness b).
Proof. unfold set_brightness. keeps. Qed.

#[local] Instance served_run_alarm2 : Keeps e served run_alarm2.
Proof. unfold run_alarm2, clear_mode, display_blank. keeps. Qed.

#[local] Instance served_power_event b : Keeps e served (power_event b).
Proof.
  unfold power_event, get_device_state, is_plugged_into_ac, is_plugged_into_usb,
    is_battery_present, is_charging, is_discharging, is_unknown, charge_level,
    voltage_level, battery_status, sys_get_int_parameter, sys_get_string_parameter,
    set_battery_led, set_led_state, write_string. keeps.
Qed.

#[local] Instance served_callback f : Keeps e served (run_callback f).
Proof.
  destruct f; cbn [run_callback].
  - unfold run_animation. apply keeps_bind; [by apply served_set | intros; apply _].
  - unfold run_alarm1. apply keeps_bind; [apply _|intros ?].
    apply keeps_bind; [by apply served_set | intros; apply _].
  - apply _.
  - unfold run_power_key, clear_mode. keeps.
Qed.
End Fixed.

Lemma alarm_pop_due now (l : queue) f l' :
  normal now -> ordered l -> alarm_pop now l = Some (f, l') ->
  ordered l' /\ due_count now l = S (due_count now l').
Proof.
  intros Hn Ho Hp. destruct (alarm_pop_some now l f l' Hn Ho Hp) as (Ho' & a & _ & -> & Hd & _).
  split; [done|]. unfold due_count. by rewrite filter_cons, decide_True.
Qed.

Lemma process_expired_total k now d fuel s :
  normal now -> clock_from k now -> served k now d s -> (d < fuel)%nat ->
  wp (process_expired fuel now) e s (fun b s' => b = true /\ ordered (alarms (st s')) /\
    Forall (fun a => ~ due now a) (alarms (st s'))).
Proof.
  intros Hn Hc. revert d s. induction fuel as [|fuel IH]; intros d s (Ho & Hd & Hk) Hf; [lia|].
  cbn [process_expired]. apply wp_bind, wp_gets.
  destruct (q_pop now (alarms (st s))) as [[f q']|] eqn:Hp.
  - destruct (alarm_pop_due now _ _ _ Hn Ho Hp) as [Ho' Hd'].
    apply wp_bind, wp_modify, wp_bind.
    eapply wp_wand; [apply (wp_keeps e (served k now (d - 1))); [by apply served_callback|]|].
    + split_and!; [done| |done]. change (due_count now q' <= d - 1)%nat. lia.
    + intros ? s' Hs'. apply (IH (d - 1)%nat); [done|lia].
  - apply wp_ret. split_and!; [done|done|]. by apply alarm_pop_none.
Qed.

(** [alarm_process] returns, whatever the callbacks do, and leaves no alarm
    in the queue that was due when it was called: fuel above the length of the
    queue is enough, when the clock does not go back meanwhile. *)
Theorem alarm_process_total fuel s :
  let now := clock (length (tr s)) in
  clock_from (length (tr s)) now -> ordered (alarms (st s)) ->
  (length (alarms (st s)) < fuel)%nat ->
  wp (alarm_process fuel) e s (fun b s' => b = true /\
    Forall (fun a => ~ due now a) (alarms (st s'))).
Proof.
  intros now Hc Ho Hf. unfold alarm_process, gettimeofday.
  apply wp_bind, wp_bind, wp_call. intros r ->. apply wp_ret. fold now.
  eapply wp_wand; [apply (process_expired_total (length (tr s)) now (length (alarms (st s))))|].
  - apply (Hc (length (tr s))). lia.
  - done.
  - split_and!; cbn [st tr]; [done | apply length_filter | rewrite length_app; lia].
  - done.
  - intros b s' (? & _ & ?). done.
Qed.

End Process.

(** ** Witnesses *)

(** A device on its charger; the clock shows second [n] at call [n]. *)
Definition com_env : env com_call := fun n c =>
  match c with
  | Open _ _ => Resp (-1) 2 "" []
  | Malloc => answer 4096
  | Gettimeofday => Resp 0 0 "" [Z.of_nat n; 0]
  | Netlink_socket => Resp (-1) 0 "" []
  | _ => answer 0
  end.

Abbreviation com_queue := (list (alarm_node callback)).

Definition com_first : sys com_call (com_vars com_queue) :=
  (exec (com_main_init 1) com_env com_start).2.

Lemma com_first_reachable : com_reachable com_env com_first.
Proof.
  destruct (exec (com_main_init (Q := com_queue) 1) com_env com_start) as [[[[z|] old]|] s] eqn:E;
    try (vm_compute in E; discriminate).
  unfold com_first. rewrite E. by apply (com_init com_env 1 old).
Qed.

Lemma com_timers_witness :
  pending screen_brightness_animation_alarm1 (alarms (st com_first)) = 1 /\
  pending screen_brightness_animation_alarm1 (alarms (st com_first))
  + pending screen_brightness_animation_alarm2 (alarms (st com_first)) <= 1 /\
  pending animation_alarm (alarms (st com_first)) <= 1 /\
  (blank (st com_first) = true ->
   pending screen_brightness_animation_alarm1 (alarms (st com_first)) = 0 /\
   pending screen_brightness_animation_alarm2 (alarms (st com_first)) = 0 /\
   pending animation_alarm (alarms (st com_first)) = 0).
Proof.
  split; [vm_compute; reflexivity|].
  apply (com_timers com_env com_first). apply com_first_reachable.
Defined.

Lemma power_event_spec_witness :
  let d := (get_device_state com_env com_first).1 in
  let level := shown_level d (powerup_latch (st com_first)) in
  wp (power_event true) com_env com_first (fun _ s' =>
    Screen_update level (charge_error d) ∈ calls s' /\
    0 <= level <= 100 /\
    (ds_voltage_level d < POWERUP_VOLTAGE -> powerup_latch (st com_first) = false -> level = 0) /\
    count_calls is_power_off (tr s') = count_calls is_power_off (tr com_first)
      + (if unplugged (st com_first) d then 1 else 0) /\
    shutdown (st s') = shutdown (st com_first) || unplugged (st com_first) d).
Proof. apply power_event_spec. Defined.

Definition com_pressed : sys com_call (com_vars com_queue) :=
  Sys _ _ (com_start <| launch_counter := 8 |>) [].

Lemma launch_sequence_exact_witness :
  (launch_sequence EVENT_POWER_KEY_DOWN com_env com_pressed).1 = true <->
    launch_key EVENT_POWER_KEY_DOWN = true /\ exists attempts, Forall failed attempts /\
      launch_keys (take 8 sequence ++ [EVENT_POWER_KEY_DOWN]) = concat attempts ++ sequence.
Proof. apply launch_sequence_exact. vm_compute. reflexivity. Defined.

Lemma launch_after_activation_witness :
  launch_run 0 (sequence ++ [EVENT_VOLUMEUP_KEY_DOWN]) = None.
Proof. apply launch_after_activation. reflexivity. Defined.

Definition two_alarms : com_queue :=
  [AlarmNode (Timeval 3 0) animation_alarm; AlarmNode (Timeval 9 500) power_key_alarm].

Lemma two_alarms_ordered : ordered two_alarms.
Proof.
  split; [|repeat constructor; vm_compute; congruence].
  repeat constructor; vm_compute; congruence.
Qed.

Lemma alarm_queue_refines_witness :
  match alarm_pop (Timeval 5 0) two_alarms with
  | Some (f, l') => ordered l' /\ exists a, alarm_f a = f /\ two_alarms ≡ₚ a :: l' /\
      due (Timeval 5 0) a /\ Forall (alarm_le a) l'
  | None => Forall (fun a => ~ due (Timeval 5 0) a) two_alarms
  end.
Proof.
  apply (alarm_queue_refines two_alarms two_alarms_ordered). vm_compute. split; congruence.
Defined.

Lemma alarm_delay_exact_witness :
  Z.abs (1000 * time_until (Timeval 4 999999) (Timeval 5 3) - 4) < 1000 /\
  (5000003 <= 4999999 -> time_until (Timeval 4 999999) (Timeval 5 3) < 1).
Proof.
  apply (alarm_delay_exact (Timeval 4 999999) (Timeval 5 3)); vm_compute;
    [split; congruence | split; congruence | congruence].
Defined.

Definition com_waiting : sys com_call (com_vars com_queue) :=
  Sys _ _ (com_start <| alarms := two_alarms |>) (replicate 5 (Sync, answer 0)).

Lemma alarm_process_total_witness :
  wp (alarm_process 3) com_env com_waiting (fun b s' => b = true /\
    Forall (fun a => ~ due (Timeval 5 0) a) (alarms (st s'))).
Proof.
  apply (alarm_process_total com_env 3 com_waiting).
  - intros n Hn. unfold normal, micros, clock. cbn in *. lia.
  - apply two_alarms_ordered.
  - cbn. lia.
Defined.
