(* ===== verification/Edid.v ===== *)
(** * HDMI audio: capabilities of the display
    ([src/audio/hdmi_audio_utils.c])

    The E-EDID is a list of HDMI_MAX_EDID bytes; [None] is a read outside the
    array [edid]. *)

From S2P Require Import Prelude.
From S2P Require Import CString.

Definition HDMI_MAX_EDID : Z := 512.
Definition EDID_BLOCK_SIZE : Z := 128.
Definition EDID_BLOCK_MAP_ID : Z := 240.
Definition EDID_BLOCK_CEA_ID : Z := 2.
Definition EDID_BLOCK_CEA_REV_3 : Z := 3.
Definition CEA_TAG_MASK : Z := 224.
Definition CEA_SIZE_MASK : Z := 31.
Definition CEA_TAG_AUDIO : Z := 32.
Definition CEA_TAG_SPKRS : Z := 128.
Definition CEA_BIT_AUDIO : Z := 64.

Record hdmi_audio_caps_t := HdmiCaps { has_audio : Z; speaker_alloc : Z }.

#[export] Instance hdmi_audio_caps_eq_dec : EqDecision hdmi_audio_caps_t.
Proof. solve_decision. Defined.

(** [edid[i]] *)
Definition edid_at (edid : list Z) (i : Z) : option Z :=
  if 0 <=? i then edid !! Z.to_nat i else None.

(** A short audio descriptor as it is printed: format, channels, sample-rate
    bits, third byte. *)
Record short_audio := ShortAudio {
  sa_format : Z; sa_channels : Z; sa_rates : Z; sa_third : Z }.

(** The loop of [hdmi_dump_short_audio_descriptor_block] from [p] to [stop]. *)
Fixpoint dump_descriptors (k : nat) (edid : list Z) (p stop : Z)
    : option (list short_audio) :=
  match k with
  | O => Some []
  | S k =>
      if p <? stop then
        b0 ← edid_at edid p;
        b1 ← edid_at edid (p + 1);
        b2 ← edid_at edid (p + 2);
        rest ← dump_descriptors k edid (p + 3) stop;
        Some (ShortAudio (Z.shiftr (Z.land b0 120) 3) (Z.land b0 7 + 1) b1 b2 :: rest)
      else Some []
  end.

(** At most 31 bytes hold at most eleven descriptors. *)
Definition hdmi_dump_short_audio_descriptor_block (edid : list Z) (mem : Z)
    : option (list short_audio) :=
  b ← edid_at edid mem;
  dump_descriptors 11 edid (mem + 1) (mem + 1 + Z.land b CEA_SIZE_MASK).

(** The [while] loop over the data blocks of the CEA block at [index]; every
    iteration advances [n] below [d], which is a byte, so 256 iterations are
    enough.  The result is [speaker_alloc]. *)
Fixpoint cea_blocks (fuel : nat) (edid : list Z) (index n d spk : Z) : option Z :=
  match fuel with
  | O => Some spk
  | S fuel =>
      if n <? d then
        byte ← edid_at edid (index + n);
        let tag := Z.land byte CEA_TAG_MASK in
        let size := Z.land byte CEA_SIZE_MASK in
        spk ← (if tag =? CEA_TAG_AUDIO then
                 _ ← hdmi_dump_short_audio_descriptor_block edid (index + n);
                 Some spk
               else if tag =? CEA_TAG_SPKRS then edid_at edid (index + n + 1)
               else Some spk);
        cea_blocks fuel edid index (n + 1 + size) d spk
      else Some spk
  end.

(** The [for] loop over the extension blocks from [index]. *)
Fixpoint scan_blocks (k : nat) (edid : list Z) (index edid_size : Z)
    : option hdmi_audio_caps_t :=
  match k with
  | O => Some (HdmiCaps 0 0)
  | S k =>
      if index <? edid_size then
        id ← edid_at edid index;
        rev ← edid_at edid (index + 1);
        if (id =? EDID_BLOCK_CEA_ID) && (rev =? EDID_BLOCK_CEA_REV_3) then
          d ← edid_at edid (index + 2);
          flags ← edid_at edid (index + 3);
          if Z.land flags CEA_BIT_AUDIO =? 0 then Some (HdmiCaps 0 0) else
          spk ← cea_blocks 256 edid index 4 d 0;
          Some (HdmiCaps 1 spk)
        else scan_blocks k edid (index + EDID_BLOCK_SIZE) edid_size
      else Some (HdmiCaps 0 0)
  end.

(** [edid_size] after the block map and the size of the array are considered. *)
Definition edid_total (edid : list Z) : option Z :=
  n ← edid_at edid 126;
  m ← edid_at edid EDID_BLOCK_SIZE;
  let nblocks := if m =? EDID_BLOCK_MAP_ID then n + 1 else n in
  Some (Z.min HDMI_MAX_EDID (EDID_BLOCK_SIZE * (nblocks + 1))).

(** The array has room for three extension blocks. *)
Definition parse_edid (edid : list Z) : option hdmi_audio_caps_t :=
  size ← edid_total edid;
  scan_blocks 3 edid EDID_BLOCK_SIZE size.

(** ** The query *)

Inductive edid_call := Open (path : string) | Read (fd len : Z) | Close (fd : Z).

(** The return value, and the capabilities when it is 0; [None] is a read
    outside [edid]. *)
Definition hdmi_query_audio_caps (edid_path : string)
    : prog edid_call unit (option (Z * option hdmi_audio_caps_t)) :=
  o ← call (Open edid_path);
  let fd := r_ret o in
  if fd =? -1 then mret (Some (- r_errno o, None)) else
  r ← call (Read fd HDMI_MAX_EDID);
  c ← call (Close fd);
  if r_ret r =? -1 then
    mret (Some (- (if r_ret c <? 0 then r_errno c else r_errno r), None))
  else
    let edid := byte_list (buf_bytes 512 (received HDMI_MAX_EDID r)) in
    mret ((fun caps => (0, Some caps)) <$> parse_edid edid).

(** ** Lemmas *)

(** The query on a file that can be read *)
Lemma hdmi_query_reads path e fd caps :
  let rd := e 1%nat (Read fd HDMI_MAX_EDID) in
  fd = r_ret (e 0%nat (Open path)) -> fd <> -1 -> r_ret rd <> -1 ->
  parse_edid (byte_list (buf_bytes 512 (received HDMI_MAX_EDID rd))) = Some caps ->
  hdmi_query_audio_caps path e (Sys _ _ tt []) =
  (Some (0, Some caps),
   Sys _ _ tt [(Open path, e 0%nat (Open path)); (Read fd HDMI_MAX_EDID, rd);
               (Close fd, e 2%nat (Close fd))]).
Proof.
  intros rd Hfd Hne Hrd Hp. unfold hdmi_query_audio_caps, mbind, prog_bind, call.
  cbn [length tr st app Nat.add]. rewrite <- Hfd.
  rewrite (proj2 (Z.eqb_neq fd (-1)) Hne). cbn [length tr st app].
  fold rd. rewrite (proj2 (Z.eqb_neq _ _) Hrd), Hp. done.
Qed.

Lemma edid_at_app pre x post :
  edid_at (pre ++ x :: post) (Z.of_nat (length pre)) = Some x.
Proof.
  unfold edid_at. rewrite (proj2 (Z.leb_le _ _)) by lia. rewrite Nat2Z.id.
  by rewrite list_lookup_middle.
Qed.

Lemma edid_at_some edid i :
  length edid = 512%nat -> 0 <= i < 512 -> is_Some (edid_at edid i).
Proof.
  intros Hl Hi. unfold edid_at. rewrite (proj2 (Z.leb_le _ _)) by lia.
  apply lookup_lt_is_Some. lia.
Qed.

Lemma edid_at_byte edid i b :
  Forall (fun x => 0 <= x < 256) edid -> edid_at edid i = Some b -> 0 <= b < 256.
Proof.
  unfold edid_at. intros Hb Hl. case_match; [|done].
  exact (Forall_lookup_1 _ _ _ _ Hb Hl).
Qed.

Lemma cea_size_mod b : Z.land b CEA_SIZE_MASK = b mod 32.
Proof. apply (Z.land_ones b 5). lia. Qed.

Lemma cea_size_bounds b : 0 <= Z.land b CEA_SIZE_MASK <= 31.
Proof. rewrite cea_size_mod. dlia. Qed.

(** 256 iterations are enough: more do not change the result. *)
Lemma cea_blocks_fuel fuel more edid index n d spk :
  d - n <= Z.of_nat fuel ->
  cea_blocks (fuel + more) edid index n d spk = cea_blocks fuel edid index n d spk.
Proof.
  revert n spk. induction fuel as [|fuel IH]; intros n spk Hf.
  - destruct more; cbn [cea_blocks Nat.add]; [done|].
    by rewrite (proj2 (Z.ltb_ge _ _)) by lia.
  - cbn [cea_blocks Nat.add]. case_match; [|done].
    destruct (edid_at edid (index + n)) as [byte|]; [|done]. cbn.
    destruct (if _ =? _ then _ else _) as [spk'|]; [|done]. cbn.
    apply IH. pose proof (cea_size_bounds byte). lia.
Qed.

Lemma dump_descriptors_safe k edid p stop :
  length edid = 512%nat -> 0 <= p -> stop <= 510 ->
  is_Some (dump_descriptors k edid p stop).
Proof.
  intros Hl. revert p. induction k as [|k IH]; intros p Hp Hs; cbn; [done|].
  case_match; [|done].
  destruct (edid_at_some edid p Hl) as [b0 ->]; [lia|].
  destruct (edid_at_some edid (p + 1) Hl) as [b1 ->]; [lia|].
  destruct (edid_at_some edid (p + 2) Hl) as [b2 ->]; [lia|]. cbn.
  destruct (IH (p + 3)) as [r ->]; [lia..|done].
Qed.

Lemma cea_blocks_safe fuel edid index n d spk :
  length edid = 512%nat -> 0 <= index -> index + d <= 479 -> 0 <= n ->
  is_Some (cea_blocks fuel edid index n d spk).
Proof.
  intros Hl Hi Hd. revert n spk. induction fuel as [|fuel IH]; intros n spk Hn; cbn [cea_blocks]; [done|].
  case_match; [|done].
  destruct (edid_at_some edid (index + n) Hl) as [byte Hb]; [lia|]. rewrite Hb. cbn [mbind option_bind].
  pose proof (cea_size_bounds byte) as Hsz.
  case_match; [|case_match].
  - unfold hdmi_dump_short_audio_descriptor_block. rewrite Hb. cbn [mbind option_bind].
    destruct (dump_descriptors_safe 11 edid (index + n + 1)
      (index + n + 1 + Z.land byte CEA_SIZE_MASK) Hl) as [ds ->]; [lia..|].
    cbn [mbind option_bind]. apply IH. lia.
  - destruct (edid_at_some edid (index + n + 1) Hl) as [b ->]; [lia|]. cbn [mbind option_bind].
    apply IH. lia.
  - cbn [mbind option_bind]. apply IH. lia.
Qed.

(** ** Data blocks as the CEA standard encodes them *)

(** A data block: a 3-bit tag and up to 31 bytes of payload. *)
Record data_block := DataBlock { db_tag : Z; db_payload : list Z }.

Definition encode_block (b : data_block) : list Z :=
  Z.lor (Z.shiftl (db_tag b) 5) (Z.of_nat (length (db_payload b))) :: db_payload b.

(** Audio blocks hold whole descriptors, speaker blocks at least one byte. *)
Definition block_ok (b : data_block) : Prop :=
  0 <= db_tag b < 8 /\ (length (db_payload b) <= 31)%nat /\
  (db_tag b = 1 -> exists k, length (db_payload b) = (3 * k)%nat) /\
  (db_tag b = 4 -> db_payload b <> []).

(** The speaker allocation the blocks announce: the last one counts. *)
Definition announced (spk : Z) (bs : list data_block) : Z :=
  foldl (fun spk b => if db_tag b =? 4 then default 0 (head (db_payload b)) else spk) spk bs.

Lemma encode_tag_size t n :
  0 <= t < 8 -> 0 <= n <= 31 ->
  Z.land (Z.lor (Z.shiftl t 5) n) CEA_TAG_MASK = 32 * t /\
  Z.land (Z.lor (Z.shiftl t 5) n) CEA_SIZE_MASK = n.
Proof.
  intros Ht Hn.
  assert (forallb (fun t => forallb (fun n =>
    (Z.land (Z.lor (Z.shiftl t 5) n) CEA_TAG_MASK =? 32 * t) &&
    (Z.land (Z.lor (Z.shiftl t 5) n) CEA_SIZE_MASK =? n)) (seqZ 0 32)) (seqZ 0 8) = true) as H
    by (vm_compute; done).
  rewrite forallb_forall in H.
  assert (In t (seqZ 0 8)) as Hit by (apply list_elem_of_In, elem_of_seqZ; lia).
  assert (In n (seqZ 0 32)) as Hin by (apply list_elem_of_In, elem_of_seqZ; lia).
  specialize (H t Hit). rewrite forallb_forall in H. specialize (H n Hin). lia.
Qed.

Lemma dump_descriptors_whole k edid p j :
  0 <= p -> p + 3 * Z.of_nat j <= Z.of_nat (length edid) ->
  is_Some (dump_descriptors k edid p (p + 3 * Z.of_nat j)).
Proof.
  revert p j. induction k as [|k IH]; intros p j Hp Hl; cbn [dump_descriptors]; [done|].
  case_match; [|done]. destruct j as [|j]; [lia|].
  assert (forall i, 0 <= i < Z.of_nat (length edid) -> is_Some (edid_at edid i)) as Hat.
  { intros i Hi. unfold edid_at. rewrite (proj2 (Z.leb_le _ _)) by lia.
    apply lookup_lt_is_Some. lia. }
  destruct (Hat p) as [b0 ->]; [lia|]. destruct (Hat (p + 1)) as [b1 ->]; [lia|].
  destruct (Hat (p + 2)) as [b2 ->]; [lia|]. cbn [mbind option_bind].
  replace (p + 3 * Z.of_nat (S j)) with (p + 3 + 3 * Z.of_nat j) by lia.
  destruct (IH (p + 3) j) as [r ->]; [lia..|done].
Qed.

Lemma edid_at_app_next pre h x post :
  edid_at (pre ++ h :: x :: post) (Z.of_nat (length pre) + 1) = Some x.
Proof.
  replace (pre ++ h :: x :: post) with ((pre ++ [h]) ++ x :: post)
    by (by rewrite <- (assoc_L (++))).
  replace (Z.of_nat (length pre) + 1) with (Z.of_nat (length (pre ++ [h])))
    by (rewrite length_app; cbn; lia).
  apply edid_at_app.
Qed.

(** One data block of the loop. *)
Lemma cea_blocks_step fuel edid pre b post index n d spk :
  block_ok b -> edid = pre ++ encode_block b ++ post ->
  index + n = Z.of_nat (length pre) -> n < d ->
  cea_blocks (S fuel) edid index n d spk =
  cea_blocks fuel edid index (n + Z.of_nat (length (encode_block b))) d (announced spk [b]).
Proof.
  intros (Ht & Hlen & Haud & Hspk) -> Hpre Hn. cbn [cea_blocks].
  rewrite (proj2 (Z.ltb_lt _ _) Hn), Hpre. unfold encode_block. cbn [app].
  rewrite edid_at_app. cbn [mbind option_bind].
  destruct (encode_tag_size (db_tag b) (Z.of_nat (length (db_payload b)))) as [Etag Esz]; [lia..|].
  rewrite Etag, Esz. unfold CEA_TAG_AUDIO, CEA_TAG_SPKRS, announced. cbn [foldl length].
  destruct (32 * db_tag b =? 32) eqn:E1; [|destruct (32 * db_tag b =? 128) eqn:E2].
  - assert (db_tag b = 1) as Hb by lia. destruct (Haud Hb) as [k Hk].
    unfold hdmi_dump_short_audio_descriptor_block. rewrite edid_at_app. cbn [mbind option_bind].
    rewrite Esz, Hk, Nat2Z.inj_mul.
    destruct (dump_descriptors_whole 11
      (pre ++ Z.lor (Z.shiftl (db_tag b) 5) (Z.of_nat (3 * k)) :: db_payload b ++ post)
      (Z.of_nat (length pre) + 1) k) as [r Hr];
      [lia | rewrite !length_app; cbn; rewrite length_app; lia |].
    rewrite <- Nat2Z.inj_mul. change (Z.of_nat 3) with 3 in *.
    replace (Z.of_nat (3 * k)) with (3 * Z.of_nat k) in * by lia.
    rewrite Hr. cbn [mbind option_bind]. rewrite Hb. cbn. f_equal. lia.
  - assert (db_tag b = 4) as Hb by lia. rewrite Hb. cbn [Z.eqb Pos.eqb].
    destruct (db_payload b) as [|x l] eqn:El; [by destruct (Hspk Hb)|].
    rewrite <- app_comm_cons, edid_at_app_next. cbn. f_equal. lia.
  - rewrite (proj2 (Z.eqb_neq (db_tag b) 4)) by lia. cbn [mbind option_bind]. f_equal. lia.
Qed.

Lemma cea_blocks_encode bs fuel edid pre post index n d spk :
  Forall block_ok bs -> edid = pre ++ concat (encode_block <$> bs) ++ post ->
  index + n = Z.of_nat (length pre) ->
  d = n + Z.of_nat (length (concat (encode_block <$> bs))) -> d - n <= Z.of_nat fuel ->
  cea_blocks fuel edid index n d spk = Some (announced spk bs).
Proof.
  intros Hok. revert fuel pre n spk.
  induction Hok as [|b bs Hb Hbs IH]; intros fuel pre n spk He Hp Hd Hf.
  - cbn in Hd. destruct fuel; cbn [cea_blocks]; [done|].
    by rewrite (proj2 (Z.ltb_ge _ _)) by lia.
  - cbn [fmap list_fmap concat] in He, Hd. rewrite length_app in Hd.
    destruct fuel as [|fuel]; [cbn in Hd; lia|].
    rewrite (cea_blocks_step fuel edid pre b (concat (encode_block <$> bs) ++ post)); try done.
    + apply (IH fuel (pre ++ encode_block b)).
      * rewrite He. by rewrite <- !(assoc_L (++)).
      * rewrite length_app. lia.
      * cbn in *. lia.
      * cbn in *. lia.
    + by rewrite He, <- !(assoc_L (++)).
    + cbn in *. lia.
Qed.

Lemma edid_at_base base rest i :
  0 <= i < Z.of_nat (length base) ->
  edid_at (base ++ rest) i = Some (nth (Z.to_nat i) base 0).
Proof.
  intros Hi. unfold edid_at. rewrite (proj2 (Z.leb_le _ _)) by lia.
  rewrite lookup_app_l by lia.
  destruct (lookup_lt_is_Some_2 base (Z.to_nat i)) as [x Hx]; [lia|].
  rewrite Hx. symmetry. by erewrite nth_lookup_Some.
Qed.

Lemma audio_flag flags : Z.testbit flags 6 = true -> (Z.land flags CEA_BIT_AUDIO =? 0) = false.
Proof.
  intros Hb. apply Z.eqb_neq. intros H0.
  assert (Z.testbit (Z.land flags CEA_BIT_AUDIO) 6 = true) as Ht by (rewrite Z.land_spec, Hb; done).
  by rewrite H0 in Ht.
Qed.

(** The first extension block is read when the base block announces it. *)
Lemma parse_edid_first base h0 h1 h2 h3 rest :
  let edid := base ++ h0 :: h1 :: h2 :: h3 :: rest in
  length base = 128%nat -> 0 < nth 126 base 0 ->
  h0 = EDID_BLOCK_CEA_ID -> h1 = EDID_BLOCK_CEA_REV_3 ->
  parse_edid edid =
    if Z.land h3 CEA_BIT_AUDIO =? 0 then Some (HdmiCaps 0 0)
    else spk ← cea_blocks 256 edid 128 4 h2 0; Some (HdmiCaps 1 spk).
Proof.
  intros edid Hbase Hn -> ->. unfold parse_edid, edid_total.
  assert (edid_at edid 126 = Some (nth 126 base 0)) as En by (apply edid_at_base; lia).
  rewrite En. cbn [mbind option_bind].
  assert (edid_at edid 128 = Some EDID_BLOCK_CEA_ID) as E0.
  { change 128 with (Z.of_nat 128). rewrite <- Hbase. apply edid_at_app. }
  assert (edid_at edid (128 + 1) = Some EDID_BLOCK_CEA_REV_3) as E1.
  { change 128 with (Z.of_nat 128). rewrite <- Hbase. apply edid_at_app_next. }
  assert (edid_at edid (128 + 2) = Some h2) as E2.
  { unfold edid. replace (base ++ _) with ((base ++ [EDID_BLOCK_CEA_ID; EDID_BLOCK_CEA_REV_3]) ++ h2 :: h3 :: rest)
      by (by rewrite <- (assoc_L (++))).
    replace (128 + 2) with (Z.of_nat (length (base ++ [EDID_BLOCK_CEA_ID; EDID_BLOCK_CEA_REV_3])))
      by (rewrite length_app, Hbase; done). apply edid_at_app. }
  assert (edid_at edid (128 + 3) = Some h3) as E3.
  { unfold edid. replace (base ++ _) with ((base ++ [EDID_BLOCK_CEA_ID; EDID_BLOCK_CEA_REV_3; h2]) ++ h3 :: rest)
      by (by rewrite <- (assoc_L (++))).
    replace (128 + 3) with (Z.of_nat (length (base ++ [EDID_BLOCK_CEA_ID; EDID_BLOCK_CEA_REV_3; h2])))
      by (rewrite length_app, Hbase; done). apply edid_at_app. }
  unfold EDID_BLOCK_SIZE in *. rewrite E0. cbn [mbind option_bind scan_blocks].
  change (EDID_BLOCK_CEA_ID =? EDID_BLOCK_MAP_ID) with false. cbv iota.
  rewrite (proj2 (Z.ltb_lt _ _)) by (unfold HDMI_MAX_EDID; lia).
  rewrite E0, E1, E2, E3. reflexivity.
Qed.

(** An E-EDID whose first extension block is a CEA block with the given flags
    and data blocks *)
Definition cea_edid (base : list Z) (flags : Z) (bs : list data_block) (post : list Z) : list Z :=
  let body := concat (encode_block <$> bs) in
  base ++ [EDID_BLOCK_CEA_ID; EDID_BLOCK_CEA_REV_3; 4 + Z.of_nat (length body); flags]
       ++ body ++ post.

(** It is well formed, with basic audio. *)
Record cea_ok (base : list Z) (flags : Z) (bs : list data_block) (post : list Z) : Prop := {
  cea_base : length base = 128%nat;
  cea_extended : 0 < nth 126 base 0;
  cea_size : length (cea_edid base flags bs post) = 512%nat;
  cea_audio : Z.testbit flags 6 = true;
  cea_data : Forall block_ok bs;
  cea_room : (length (concat (encode_block <$> bs)) <= 123)%nat }.

(** Round trip with the CEA-861 encoding: the parser reports audio and the speaker
    allocation of the last speaker block. *)
Lemma parse_cea_edid base flags bs post :
  cea_ok base flags bs post ->
  parse_edid (cea_edid base flags bs post) = Some (HdmiCaps 1 (announced 0 bs)).
Proof.
  intros [Hbase Hn Hlen Hflag Hok Hbody]. unfold cea_edid. cbv zeta. cbn [app].
  rewrite parse_edid_first by done. rewrite audio_flag by done.
  erewrite (cea_blocks_encode bs _ _ (base ++ [EDID_BLOCK_CEA_ID; EDID_BLOCK_CEA_REV_3;
    4 + Z.of_nat (length (concat (encode_block <$> bs))); flags]) post); [done|done| | |done|].
  - by rewrite <- !(assoc_L (++)).
  - rewrite length_app, Hbase. done.
  - lia.
Qed.

(** C15.  No read outside the array, for any contents, when the CEA block is the
    first extension block. *)
Theorem parse_edid_in_bounds edid :
  length edid = 512%nat -> Forall (fun b => 0 <= b < 256) edid ->
  edid_at edid 128 = Some EDID_BLOCK_CEA_ID ->
  edid_at edid 129 = Some EDID_BLOCK_CEA_REV_3 ->
  is_Some (parse_edid edid).
Proof.
  intros Hl Hb H0 H1. unfold parse_edid, edid_total, EDID_BLOCK_SIZE.
  destruct (edid_at_some edid 126 Hl) as [n Hn]; [lia|]. rewrite Hn, H0. cbn [mbind option_bind].
  change (EDID_BLOCK_CEA_ID =? EDID_BLOCK_MAP_ID) with false. cbv iota. cbn [scan_blocks].
  case_match; [|done]. change (128 + 1) with 129. rewrite H0, H1.
  cbn [mbind option_bind Z.eqb Pos.eqb andb EDID_BLOCK_CEA_ID EDID_BLOCK_CEA_REV_3].
  destruct (edid_at_some edid (128 + 2) Hl) as [d Hd]; [lia|].
  destruct (edid_at_some edid (128 + 3) Hl) as [f ->]; [lia|]. rewrite Hd.
  pose proof (edid_at_byte _ _ _ Hb Hd). cbn [mbind option_bind]. case_match; [done|].
  destruct (cea_blocks_safe 256 edid 128 4 d 0 Hl) as [spk ->]; [lia..|done].
Qed.

(** An E-EDID with a block map first and the CEA block last, whose length byte is
    200. *)
Definition overread_edid : list Z :=
  replicate 126 0 ++ [2; 0] ++ (EDID_BLOCK_MAP_ID :: replicate 127 0) ++ replicate 128 0
  ++ [EDID_BLOCK_CEA_ID; EDID_BLOCK_CEA_REV_3; 200; 64] ++ replicate 124 0.

(** The length byte is not compared with the block size: there is an E-EDID
    on which the parser reads past the array. *)
Theorem parse_edid_overread :
  length overread_edid = 512%nat /\ parse_edid overread_edid = None.
Proof. vm_compute. done. Qed.

(** ** Witnesses *)

Definition demo_blocks : list data_block :=
  [DataBlock 2 [1; 2; 3]; DataBlock 1 [9; 7; 7]; DataBlock 4 [79; 0; 0]].

Definition demo_base : list Z := replicate 126 0 ++ [1; 0].

Lemma parse_edid_in_bounds_witness :
  is_Some (parse_edid (demo_base ++ [2; 3; 255; 64] ++ replicate 380 63)).
Proof.
  apply parse_edid_in_bounds; try reflexivity.
  eapply bool_decide_unpack. vm_compute. exact I.
Defined.
