(* ===== verification/BootMode.v ===== *)
(** * mot_boot_mode: which mode the phone starts in
    ([src/mot_boot_mode/mot_boot_mode.c]) *)

From S2P Require Import Prelude.
From S2P Require Import CString.
From Stdlib Require Import Ascii.

Inductive boot_call :=
  | Open (path : string)
  | Read (fd len : Z)
  | Close (fd : Z)
  | Property_get (key dflt : string)
  | Property_set (key value : string).

(** [mode] is the global buffer of [check_com_reset]. *)
Record boot_vars := BootVars { mode : string }.

#[export] Instance eta_boot_vars : Eta boot_vars := fun v => BootVars (mode v).

Abbreviation boot A := (prog boot_call boot_vars A).

Definition MOTO_PU_REASON_CHARGE_ONLY : string := "0x00000100".
Definition MOTO_PU_REASON_CPCAP_RESET : string := "0x00040000".
Definition MOTO_PU_REASON_KPANIC : string := "0x00020000".
Definition MOTO_PU_REASON_WDRESET : string := "0x00008000".
Definition MOTO_CID_RECOVER_BOOT : string := "0x01".

(** The characters of [x] up to a space, at most [k]. *)
Fixpoint token (k : nat) (x : string) : string :=
  match k, x with
  | S k, String c x => if isspace c then "" else String c (token k x)
  | _, _ => ""
  end.

(** [bootreason]: the word after the first ": " that follows the first
    occurrence of [field] in the C string [data]. *)
Definition bootinfo_value (data field : string) : string :=
  match strstr data field with
  | None => ""
  | Some i =>
      let pwrup_rsn := str_drop i data in
      match strstr pwrup_rsn ": " with
      | None => ""
      | Some j => token 31 (str_drop (j + 2) pwrup_rsn)
      end
  end.

Definition check_bootinfo (field value : string) : boot bool :=
  o ← call (Open "/proc/bootinfo");
  let fd := r_ret o in
  if fd <? 0 then mret false else
  r ← call (Read fd 1023);
  call (Close fd) ;;
  if r_ret r <? 0 then mret false else
  mret (str_eq (bootinfo_value (c_str (received 1023 r)) field) value).

Definition bootmode : boot string :=
  r ← call (Property_get "ro.bootmode" "unknown"); mret (c_str (r_data r)).

Definition check_abnormal_reboot : boot bool :=
  m ← bootmode;
  if strn_eq 6 m "kpanic" || strn_eq 7 m "wdreset" || strn_eq 7 m "wdcpcap" then mret true else
  a ← check_bootinfo "POWERUPREASON" MOTO_PU_REASON_KPANIC;
  if a : bool then mret true else
  b ← check_bootinfo "POWERUPREASON" MOTO_PU_REASON_WDRESET;
  if b : bool then mret true else
  check_bootinfo "POWERUPREASON" MOTO_PU_REASON_CPCAP_RESET.

(** Every path returns before the [ftruncate] and the [close]. *)
Definition check_com_reset : boot bool :=
  o ← call (Open "/data/chargeonlymode");
  let fd := r_ret o in
  if fd <? 0 then mret false else
  r ← call (Read fd 20);
  if r_ret r <=? 0 then mret false else
  modify (fun v => v <| mode := overlay (received 20 r) (mode v) |>) ;;
  m ← gets mode;
  mret (strn_eq 8 (c_str m) "charging").

Definition boot_reason_charge_only : boot bool :=
  m ← bootmode;
  if strn_eq 7 m "charger" then mret true else
  c ← check_bootinfo "POWERUPREASON" MOTO_PU_REASON_CHARGE_ONLY;
  if c : bool then mret true else
  a ← check_abnormal_reboot;
  if a : bool then check_com_reset else mret false.

Definition check_cid_recover_boot : boot bool :=
  m ← bootmode;
  if strn_eq 7 m "cidtcmd" then mret true else
  check_bootinfo (newline +:+ "CID_RECOVER_BOOT") MOTO_CID_RECOVER_BOOT.

Definition check_data_12m : boot bool := mret false.

Definition property_set (key value : string) : boot unit :=
  call (Property_set key value) ;; mret tt.

Definition boot_main : boot Z :=
  cid ← check_cid_recover_boot;
  (if cid : bool then
     property_set "tcmd.cid.recover.boot" "1" ;; property_set "tcmd.suspend" "1"
   else
     com ← boot_reason_charge_only;
     if com : bool then property_set "sys.chargeonly.mode" "1" else
     m12 ← check_data_12m;
     if m12 : bool then
       property_set "tcmd.12m.test" "1" ;; property_set "tcmd.suspend" "1"
     else property_set "tcmd.suspend" "0") ;;
  mret 0.

(** ** Specification *)

(** The facts the decision depends on: the boot mode property, the contents of
    /proc/bootinfo and of the file that charge-only mode leaves. *)
Record boot_facts := BootFacts { bf_mode : string; bf_info : string; bf_com : string }.

Definition reason (f : boot_facts) : string := bootinfo_value (bf_info f) "POWERUPREASON".

Definition wants_cid (f : boot_facts) : bool :=
  strn_eq 7 (bf_mode f) "cidtcmd"
  || str_eq (bootinfo_value (bf_info f) (newline +:+ "CID_RECOVER_BOOT")) MOTO_CID_RECOVER_BOOT.

Definition abnormal (f : boot_facts) : bool :=
  strn_eq 6 (bf_mode f) "kpanic" || strn_eq 7 (bf_mode f) "wdreset"
  || strn_eq 7 (bf_mode f) "wdcpcap" || str_eq (reason f) MOTO_PU_REASON_KPANIC
  || str_eq (reason f) MOTO_PU_REASON_WDRESET || str_eq (reason f) MOTO_PU_REASON_CPCAP_RESET.

Definition wants_charge_only (f : boot_facts) : bool :=
  strn_eq 7 (bf_mode f) "charger" || str_eq (reason f) MOTO_PU_REASON_CHARGE_ONLY
  || (abnormal f && String.prefix "charging" (bf_com f)).

Definition boot_properties (f : boot_facts) : list (string * string) :=
  if wants_cid f then [("tcmd.cid.recover.boot", "1"); ("tcmd.suspend", "1")]
  else if wants_charge_only f then [("sys.chargeonly.mode", "1")]
  else [("tcmd.suspend", "0")].

(** The properties set in a trace. *)
Definition properties_set (t : list (boot_call * resp)) : list (string * string) :=
  omap (fun x => match x.1 with Property_set k v => Some (k, v) | _ => None end) t.

(** The outside world answers according to [f]; a file that cannot be opened or
    read counts as empty. *)
Record answers (e : env boot_call) (f : boot_facts) : Prop := {
  an_mode n : c_str (r_data (e n (Property_get "ro.bootmode" "unknown"))) = bf_mode f;
  an_open n : r_ret (e n (Open "/proc/bootinfo")) = 3 \/
    (r_ret (e n (Open "/proc/bootinfo")) < 0 /\ bf_info f = "");
  an_open_com n : r_ret (e n (Open "/data/chargeonlymode")) = 4 \/
    (r_ret (e n (Open "/data/chargeonlymode")) < 0 /\ bf_com f = "");
  an_read n : c_str (received 1023 (e n (Read 3 1023))) = bf_info f;
  an_read_com n : received 20 (e n (Read 4 20)) = bf_com f }.

(** ** Proofs *)

Lemma received_none len r : r_ret r <= 0 -> received len r = "".
Proof. intros H. unfold received. by replace (Z.to_nat _) with 0%nat by lia. Qed.

Lemma strn_eq_prefix w r :
  lacks NUL w -> strn_eq (String.length w) (c_str r) w = String.prefix w r.
Proof.
  unfold strn_eq, c_str, lacks. revert r. induction w as [|c w IH]; intros r Hw; [by destruct r|].
  cbn in Hw. destruct (c =? NUL)%char eqn:Ec; [done|]. injection Hw as Hw.
  destruct r as [|d r]; cbn; [done|]. destruct (ascii_dec c d) as [<-|Hne].
  - rewrite Ec. cbn. rewrite <- IH by done. unfold str_eq. cbn. by rewrite Ascii.eqb_refl.
  - destruct (d =? NUL)%char; [done|]. unfold str_eq. cbn.
    by rewrite (proj2 (Ascii.eqb_neq d c)).
Qed.

Section Refinement.
  Context (e : env boot_call) (f : boot_facts) (Hans : answers e f).

(** A check of the program returns [b], sets no property and keeps [mode]. *)
Definition decides (m : boot bool) (b : bool) : Prop :=
  forall s, wp m e s (fun r s' => r = b /\ mode (st s') = mode (st s) /\
    properties_set (tr s') = properties_set (tr s)).

Lemma bootinfo_value_nil field : bootinfo_value "" field = "".
Proof. by destruct field. Qed.

(** The properties of a trace do not depend on the other calls. *)
Ltac properties :=
  cbn [st tr] in *; unfold properties_set; rewrite ?omap_app; cbn; rewrite ?app_nil_r; done.

Lemma check_bootinfo_decides field value :
  value <> "" ->
  decides (check_bootinfo field value) (str_eq (bootinfo_value (bf_info f) field) value).
Proof.
  intros Hv s. assert (bf_info f = "" ->
    false = str_eq (bootinfo_value (bf_info f) field) value) as Hnil.
  { intros ->. rewrite bootinfo_value_nil. symmetry. by apply str_eq_false. }
  unfold check_bootinfo. apply wp_bind, wp_call. intros o Ho.
  destruct (an_open e f Hans (length (tr s))) as [H3|[Hneg Hi]]; rewrite <- Ho in *.
  - rewrite H3. cbn [Z.ltb Z.compare]. wp_go; (split; [|split; [done|properties]]).
    + apply Hnil. rewrite <- (an_read e f Hans (length (tr s ++ [(Open "/proc/bootinfo", o)]))).
      rewrite <- Hr, received_none; [done|lia].
    + by rewrite Hr, (an_read e f Hans).
  - rewrite (proj2 (Z.ltb_lt _ _) Hneg). apply wp_ret.
    split; [by apply Hnil | split; [done|properties]].
Qed.

Lemma bootmode_decides s :
  wp bootmode e s (fun m s' => m = bf_mode f /\ mode (st s') = mode (st s) /\
    properties_set (tr s') = properties_set (tr s)).
Proof.
  unfold bootmode. wp_go. split_and!; [by rewrite Hr, (an_mode e f Hans)|done|properties].
Qed.

(** Sequencing two decisions. *)
Lemma decides_if (m : boot bool) b (k : bool -> boot bool) c :
  decides m b -> decides (k b) c -> decides (x ← m; k x) c.
Proof.
  intros Hm Hk s. apply wp_bind. eapply wp_wand; [apply Hm|]. intros x s1 (-> & H1 & H2).
  eapply wp_wand; [apply Hk|]. intros y s2 (-> & H3 & H4). split_and!; congruence.
Qed.

Lemma decides_mode (k : string -> boot bool) c :
  decides (k (bf_mode f)) c -> decides (m ← bootmode; k m) c.
Proof.
  intros Hk s. apply wp_bind. eapply wp_wand; [apply bootmode_decides|]. intros x s1 (-> & H1 & H2).
  eapply wp_wand; [apply Hk|]. intros y s2 (-> & H3 & H4). split_and!; congruence.
Qed.

Lemma decides_ret b : decides (mret b) b.
Proof. intros s. by apply wp_ret. Qed.

Lemma check_cid_decides : decides check_cid_recover_boot (wants_cid f).
Proof.
  unfold check_cid_recover_boot, wants_cid. apply decides_mode.
  destruct (strn_eq 7 (bf_mode f) "cidtcmd"); [apply decides_ret|].
  by apply check_bootinfo_decides.
Qed.

Lemma check_abnormal_decides : decides check_abnormal_reboot (abnormal f).
Proof.
  unfold check_abnormal_reboot, abnormal, reason. apply decides_mode.
  destruct (strn_eq 6 (bf_mode f) "kpanic" || _ || _); [apply decides_ret|]. cbn [orb].
  eapply decides_if; [by apply check_bootinfo_decides|].
  destruct (str_eq _ MOTO_PU_REASON_KPANIC); [apply decides_ret|]. cbn [orb].
  eapply decides_if; [by apply check_bootinfo_decides|].
  destruct (str_eq _ MOTO_PU_REASON_WDRESET); [apply decides_ret|]. cbn [orb].
  by apply check_bootinfo_decides.
Qed.

(** The file of charge-only mode, with the buffer still zero. *)
Lemma check_com_reset_decides s :
  mode (st s) = "" ->
  wp check_com_reset e s (fun r s' => r = String.prefix "charging" (bf_com f) /\
    properties_set (tr s') = properties_set (tr s)).
Proof.
  intros Hm. unfold check_com_reset. apply wp_bind, wp_call. intros o Ho.
  destruct (an_open_com e f Hans (length (tr s))) as [H4|[Hneg Hc]]; rewrite <- Ho in *.
  - rewrite H4. cbn [Z.ltb Z.compare]. apply wp_bind, wp_call. intros r Hr. cbn [tr] in Hr.
    assert (received 20 r = bf_com f) as Hrc by (rewrite Hr; apply (an_read_com e f Hans)).
    case_match; [apply wp_ret | wp_go]; (split; [|properties]).
    + rewrite received_none in Hrc by lia. by rewrite <- Hrc.
    + cbn. rewrite Hm. unfold overlay. rewrite Hrc.
      assert (str_drop (String.length (bf_com f)) "" = "") as -> by (by destruct (bf_com f)).
      rewrite str_app_nil. apply (strn_eq_prefix "charging"). reflexivity.
  - rewrite (proj2 (Z.ltb_lt _ _) Hneg). apply wp_ret. rewrite Hc. split; [done|properties].
Qed.

Lemma charge_only_decides s :
  mode (st s) = "" ->
  wp boot_reason_charge_only e s (fun r s' => r = wants_charge_only f /\
    properties_set (tr s') = properties_set (tr s)).
Proof.
  intros Hm. unfold boot_reason_charge_only, wants_charge_only, reason. apply wp_bind.
  eapply wp_wand; [apply bootmode_decides|]. intros ? s1 (-> & M1 & P1).
  destruct (strn_eq 7 (bf_mode f) "charger"); [by apply wp_ret|]. apply wp_bind.
  eapply wp_wand; [by apply check_bootinfo_decides|]. intros ? s2 (-> & M2 & P2).
  destruct (str_eq _ MOTO_PU_REASON_CHARGE_ONLY); [apply wp_ret; split; [done|congruence]|].
  apply wp_bind. eapply wp_wand; [apply check_abnormal_decides|]. intros ? s3 (-> & M3 & P3).
  destruct (abnormal f); cbn [orb andb]; [|apply wp_ret; split; [done|congruence]].
  eapply wp_wand; [apply check_com_reset_decides; congruence|].
  intros ? s4 [-> P4]. split; [done|congruence].
Qed.

(** C16.  [main] refines the specification: the properties it sets are exactly
    those that the boot mode, the power-up reason and the file of charge-only
    mode call for, with recovery before charge-only before normal. *)
Theorem boot_main_refines :
  wp boot_main e (Sys _ _ (BootVars "") []) (fun r s' =>
    r = 0 /\ properties_set (tr s') = boot_properties f).
Proof.
  unfold boot_main, boot_properties. apply wp_bind.
  eapply wp_wand; [apply check_cid_decides|]. intros ? s1 (-> & M1 & P1). cbn in P1.
  apply wp_bind. unfold check_data_12m, property_set.
  destruct (wants_cid f).
  { wp_go. split; [done|]. cbn [tr]. unfold properties_set in *. rewrite !omap_app, P1. done. }
  apply wp_bind. eapply wp_wand; [by apply charge_only_decides|]. intros ? s2 [-> P2].
  destruct (wants_charge_only f); wp_go; (split; [done|]); cbn [tr] in *;
    unfold properties_set in *; rewrite !omap_app, P2, P1; done.
Qed.

End Refinement.

(** ** The format of /proc/bootinfo *)

Lemma strstr_colon a b : lacks ":" a -> strstr (a +:+ ": " +:+ b) ": " = Some (String.length a).
Proof.
  unfold strstr, lacks. induction a as [|c a IH]; cbn [take_until]; intros Ha.
  - by destruct b.
  - destruct (c =? ":")%char eqn:Ec; [done|]. injection Ha as Ha.
    cbn [String.append String.index String.prefix String.length].
    destruct (ascii_dec ":" c) as [<-|_]; [done|]. specialize (IH Ha).
    cbn [String.append] in IH. by rewrite IH.
Qed.

Fixpoint no_space (s : string) : bool :=
  match s with "" => true | String c s => negb (isspace c) && no_space s end.

Lemma token_word k w rest :
  no_space w = true -> (String.length w <= k)%nat -> token k (w +:+ newline +:+ rest) = w.
Proof.
  revert k. induction w as [|c w IH]; intros k Hw Hk; cbn in *.
  - by destruct k.
  - apply andb_true_iff in Hw as [Hc Hw]. destruct k as [|k]; [lia|]. cbn.
    destruct (isspace c); [done|]. rewrite IH; [done|done|lia].
Qed.

(** Round trip with the format of /proc/bootinfo: when the first occurrence
    of a field starts a line "FIELD ... : value", the value is read back, for
    values of up to 31 characters without spaces. *)
Theorem bootinfo_value_line pre field mid value rest :
  let data := pre +:+ field +:+ mid +:+ ": " +:+ value +:+ newline +:+ rest in
  strstr data field = Some (String.length pre) ->
  lacks ":" field -> lacks ":" mid -> no_space value = true ->
  (String.length value <= 31)%nat ->
  bootinfo_value data field = value.
Proof.
  intros data Hfield Hf Hm Hv Hlen. unfold bootinfo_value. rewrite Hfield.
  unfold data. rewrite str_drop_app by done.
  replace (field +:+ mid +:+ ": " +:+ value +:+ newline +:+ rest)
    with ((field +:+ mid) +:+ ": " +:+ value +:+ newline +:+ rest)
    by (by rewrite <- !str_app_assoc).
  rewrite strstr_colon by (by apply lacks_app).
  rewrite (str_app_assoc (field +:+ mid) ": "), str_drop_app
    by (rewrite !str_length_app; cbn; lia).
  by apply token_word.
Qed.

(** ** Witnesses *)

(** A kernel panic while the phone was in charge-only mode. *)
Definition panic_facts : boot_facts :=
  BootFacts "unknown" ("POWERUPREASON : 0x00020000" +:+ newline) ("charging" +:+ String NUL "").

Definition panic_env : env boot_call := fun _ c =>
  match c with
  | Open "/proc/bootinfo" => answer 3
  | Open _ => answer 4
  | Read 3 _ => Resp 27 0 (bf_info panic_facts) []
  | Read _ _ => Resp 9 0 (bf_com panic_facts) []
  | Property_get _ d => Resp 7 0 d []
  | _ => answer 0
  end.

Lemma panic_answers : answers panic_env panic_facts.
Proof. split; intros n; try (left; reflexivity); vm_compute; reflexivity. Qed.

Lemma boot_main_refines_witness :
  wp boot_main panic_env (Sys _ _ (BootVars "") []) (fun r s' =>
    r = 0 /\ properties_set (tr s') = [("sys.chargeonly.mode", "1")]).
Proof. apply (boot_main_refines panic_env panic_facts panic_answers). Defined.

Lemma bootinfo_value_line_witness :
  bootinfo_value ("ATAG : 1" +:+ newline +:+ "POWERUPREASON" +:+ " " +:+ ": " +:+ "0x00000100"
                  +:+ newline +:+ "") "POWERUPREASON" = "0x00000100".
Proof.
  apply (bootinfo_value_line ("ATAG : 1" +:+ newline) "POWERUPREASON" " " "0x00000100" "");
    try reflexivity. cbn. lia.
Defined.
