(* ===== verification/Power.v ===== *)
(** * The power HAL ([src/libpower/power.c])

    The functions of the HAL as programs, and the two critical sections of the
    boost descriptor as a step relation of concurrent threads. *)

From S2P Require Import Prelude.
From S2P Require Import CString.
From Stdlib Require Import Ascii.

(** ** Calls and variables *)

Inductive power_call :=
  | Open (path : string)
  | Read (fd len : Z)
  | Write (fd : Z) (bytes : string)
  | Close (fd : Z)
  | Lock
  | Unlock.

Record power_vars := PowerVars {
  freq_list : list string;         (* the first [freq_num] entries *)
  max_freq : option string;        (* NULL is None *)
  nom_freq : option string;
  boostpulse_fd : Z;
  boostpulse_warned : bool;
  inited : bool }.

#[export] Instance eta_power_vars : Eta power_vars := fun v =>
  PowerVars (freq_list v) (max_freq v) (nom_freq v) (boostpulse_fd v)
    (boostpulse_warned v) (inited v).

(** [HAL_MODULE_INFO_SYM] *)
Definition power_start : power_vars := PowerVars [] None None (-1) false false.

Abbreviation power A := (prog power_call power_vars A).

Definition MAX_FREQ_NUMBER : nat := 12.
Definition NOM_FREQ_INDEX : nat := 3.

Definition CPUFREQ_INTERACTIVE : string := "/sys/devices/system/cpu/cpufreq/interactive/".
Definition CPUFREQ_CPU0 : string := "/sys/devices/system/cpu/cpu0/cpufreq/".
Definition BOOSTPULSE_PATH : string := CPUFREQ_INTERACTIVE +:+ "boostpulse".
Definition NOTIFY_ON_MIGRATE : string := "/dev/cpuctl/cpu.notify_on_migrate".

(** ** Tokens *)

(** The delimiters " \t\r\n" of [strtok_r]. *)
Definition delim (c : ascii) : bool :=
  (c =? " ")%char || (c =? "009")%char || (c =? "013")%char || (c =? "010")%char.

(** [strtok_r]: skip delimiters, then the token up to the next delimiter and
    the rest after it; [None] when only delimiters are left. *)
Fixpoint strtok_word (s : string) : string * string :=
  match s with
  | "" => ("", "")
  | String c s =>
      if delim c then ("", s)
      else let '(w, rest) := strtok_word s in (String c w, rest)
  end.

Fixpoint strtok_r (s : string) : option (string * string) :=
  match s with
  | "" => None
  | String c s' => if delim c then strtok_r s' else Some (strtok_word s)
  end.

(** The loop of [str_to_tokens] with room for [k] more tokens. *)
Fixpoint str_to_tokens (s : string) (k : nat) : list string :=
  match k with
  | O => []
  | S k =>
      match strtok_r s with
      | None => []
      | Some (w, rest) => w :: str_to_tokens rest k
      end
  end.

(** ** sysfs *)

Definition sysfs_write (path s : string) : power unit :=
  o ← call (Open path);
  let fd := r_ret o in
  if fd <? 0 then mret tt else
  call (Write fd s) ;; call (Close fd) ;; mret tt.

(** The return value and the C string in the buffer. *)
Definition sysfs_read (path : string) (s_size : Z) : power (Z * string) :=
  o ← call (Open path);
  let fd := r_ret o in
  if fd <? 0 then mret (fd, "") else
  r ← call (Read fd (s_size - 1));
  call (Close fd) ;;
  mret (r_ret r, c_str (received (s_size - 1) r)).

(** ** The HAL *)

(** The number of the nominal frequency: [tmp] of [omap_power_init]. *)
Definition nom_index (freq_num : nat) : nat :=
  if (6 <=? freq_num)%nat then (freq_num - freq_num / 3)%nat
  else if (freq_num <? NOM_FREQ_INDEX)%nat then freq_num else NOM_FREQ_INDEX.

Definition omap_power_init : power unit :=
  '(n, buf) ← sysfs_read (CPUFREQ_CPU0 +:+ "scaling_available_frequencies") 120;
  if n <=? 0 then mret tt else
  let l := str_to_tokens buf MAX_FREQ_NUMBER in
  let freq_num := length l in
  modify (fun v => v <| freq_list := l |>) ;;
  if (freq_num =? 0)%nat then mret tt else
  modify (fun v => v <| max_freq := l !! (freq_num - 1)%nat |>) ;;
  modify (fun v => v <| nom_freq := l !! (nom_index freq_num - 1)%nat |>) ;;
  nom ← gets nom_freq;
  sysfs_write (CPUFREQ_INTERACTIVE +:+ "timer_rate") "30000" ;;
  sysfs_write (CPUFREQ_INTERACTIVE +:+ "min_sample_time") "60000" ;;
  sysfs_write (CPUFREQ_INTERACTIVE +:+ "hispeed_freq") (default "" nom) ;;
  sysfs_write (CPUFREQ_INTERACTIVE +:+ "go_hispeed_load") "99" ;;
  sysfs_write (CPUFREQ_INTERACTIVE +:+ "above_hispeed_delay") "30000" ;;
  modify (fun v => v <| inited := true |>).

(** The first critical section. *)
Definition boostpulse_locked : power unit :=
  call Lock ;;
  fd ← gets boostpulse_fd;
  (if fd <? 0 then
     o ← call (Open BOOSTPULSE_PATH);
     modify (fun v => v <| boostpulse_fd := r_ret o |>) ;;
     modify (fun v => v <| boostpulse_warned := r_ret o <? 0 |>)
   else mret tt) ;;
  call Unlock ;;
  mret tt.

(** The descriptor is read again after the lock has been released. *)
Definition boostpulse_open : power Z :=
  boostpulse_locked ;; gets boostpulse_fd.

Definition omap_power_set_interactive (on : bool) : power unit :=
  v ← gets id;
  if negb (inited v) then mret tt else
  sysfs_write (CPUFREQ_CPU0 +:+ "scaling_max_freq")
    (default "" (if on then max_freq v else nom_freq v)) ;;
  sysfs_write NOTIFY_ON_MIGRATE (if on then "1" else "0").

Inductive power_hint_t :=
  | POWER_HINT_VSYNC
  | POWER_HINT_INTERACTION
  | POWER_HINT_CPU_BOOST
  | POWER_HINT_LAUNCH_BOOST
  | POWER_HINT_OTHER.

(** The second critical section: after a failed write. *)
Definition boostpulse_close : power unit :=
  call Lock ;;
  fd ← gets boostpulse_fd;
  call (Close fd) ;;
  modify (fun v => v <| boostpulse_fd := -1 |>) ;;
  modify (fun v => v <| boostpulse_warned := false |>) ;;
  call Unlock ;;
  mret tt.

(** The write to the descriptor, outside the lock; true when it failed. *)
Definition boostpulse_write (duration : Z) : power bool :=
  fd ← gets boostpulse_fd;
  w ← call (Write fd (pretty duration));
  mret (r_ret w <? 0).

(** The hints that boost. *)
Definition boosts (hint : power_hint_t) : bool :=
  match hint with
  | POWER_HINT_INTERACTION | POWER_HINT_CPU_BOOST | POWER_HINT_LAUNCH_BOOST => true
  | POWER_HINT_VSYNC | POWER_HINT_OTHER => false
  end.

(** [data] is the duration when the caller passes one. *)
Definition omap_power_hint (hint : power_hint_t) (data : option Z) : power unit :=
  v ← gets id;
  if negb (inited v) then mret tt else
  if boosts hint then
    fd ← boostpulse_open;
    if 0 <=? fd then
      failed ← boostpulse_write (default 1 data);
      when failed boostpulse_close
    else mret tt
  else mret tt.

(** ** Tokens: round trip *)

(** A word: not empty and without delimiters. *)
Fixpoint wordy (s : string) : bool :=
  match s with "" => true | String c s => negb (delim c) && wordy s end.

Definition is_word (w : string) : Prop := w <> "" /\ wordy w = true.

(** The list as the kernel prints it: each word followed by a space. *)
Definition print_words (l : list string) : string :=
  foldr (fun w t => w +:+ String " " t) "" l.

Lemma strtok_word_spec w rest :
  wordy w = true -> strtok_word (w +:+ String " " rest) = (w, rest).
Proof.
  induction w as [|c w IH]; cbn; [done|]. intros [Hc Hw]%andb_true_iff.
  destruct (delim c); [done|]. by rewrite IH.
Qed.

Lemma strtok_r_spec w rest :
  is_word w -> strtok_r (w +:+ String " " rest) = Some (w, rest).
Proof.
  intros [Hne Hw]. destruct w as [|c w]; [done|]. pose proof Hw as Hw'. cbn in Hw.
  apply andb_true_iff in Hw as [Hc _]. cbn [String.append strtok_r].
  destruct (delim c); [done|]. f_equal. by apply (strtok_word_spec (String c w)).
Qed.

Lemma str_to_tokens_print l k :
  Forall is_word l -> str_to_tokens (print_words l) k = take k l.
Proof.
  intros Hl. revert k. induction Hl as [|w l Hw Hl IH]; intros [|k]; cbn; try done.
  rewrite strtok_r_spec by done. by rewrite IH.
Qed.

Lemma nom_index_bounds n : (0 < n)%nat -> (1 <= nom_index n <= n)%nat.
Proof.
  intros Hn. unfold nom_index, NOM_FREQ_INDEX. repeat case_match; try lia.
  pose proof (Nat.div_lt n 3 ltac:(lia) ltac:(lia)). lia.
Qed.

(** sysfs accesses leave the variables alone. *)
Lemma sysfs_write_st p t e s : wp (sysfs_write p t) e s (fun _ s' => st s' = st s).
Proof. unfold sysfs_write. by wp_go. Qed.

#[export] Hint Resolve sysfs_write_st : wpdb.

Lemma sysfs_read_spec p size txt e s :
  (forall n, 0 <= r_ret (e n (Open p))) -> strlen txt <= size - 1 -> lacks NUL txt ->
  (forall n fd len, r_ret (e n (Read fd len)) = strlen txt /\ r_data (e n (Read fd len)) = txt) ->
  wp (sysfs_read p size) e s (fun r s' => r = (strlen txt, txt) /\ st s' = st s).
Proof.
  intros Ho Hl Hn Hr. unfold sysfs_read. wp_go; subst.
  { specialize (Ho (length (tr s))). lia. }
  split; [|done]. match goal with |- context [e ?n (Read ?fd ?len)] =>
    destruct (Hr n fd len) as [H1 H2]; unfold received; rewrite H1, H2 end.
  f_equal. rewrite Z.min_r by done. unfold strlen, c_str. rewrite Nat2Z.id, str_take_all by done.
  exact Hn.
Qed.

(** Initialisation with a frequency table of one to twelve entries: the
    table is read back, the maximum is its last entry, the nominal frequency is
    an entry of the table (no index is out of range), and the HAL is marked as
    initialised. *)
Theorem omap_power_init_spec l e s :
  (0 < length l <= 12)%nat -> Forall is_word l -> strlen (print_words l) <= 119 ->
  lacks NUL (print_words l) ->
  (forall n, 0 <= r_ret (e n (Open (CPUFREQ_CPU0 +:+ "scaling_available_frequencies")))) ->
  (forall n fd len, r_ret (e n (Read fd len)) = strlen (print_words l) /\
                    r_data (e n (Read fd len)) = print_words l) ->
  wp omap_power_init e s (fun _ s' =>
    freq_list (st s') = l /\ max_freq (st s') = last l /\
    nom_freq (st s') = l !! (nom_index (length l) - 1)%nat /\
    is_Some (nom_freq (st s')) /\ inited (st s') = true).
Proof.
  intros Hlen Hw Hsz Hn Ho Hr. unfold omap_power_init. apply wp_bind.
  eapply wp_wand; [by apply (sysfs_read_spec _ 120 (print_words l))|].
  intros ? s1 [-> H1]. cbn [fst snd].
  assert (0 < strlen (print_words l)) as Hpos.
  { destruct l as [|w l]; [cbn in Hlen; lia|]. unfold strlen. cbn.
    rewrite str_length_app. cbn. lia. }
  rewrite (proj2 (Z.leb_gt _ _) Hpos), str_to_tokens_print by done.
  unfold MAX_FREQ_NUMBER. rewrite take_ge by lia. cbv zeta.
  rewrite (proj2 (Nat.eqb_neq (length l) 0)) by lia.
  wp_go; cbn [st] in *. repeat match goal with H : st _ = _ |- _ => rewrite H; clear H end.
  cbn. split_and!; try done.
  - by rewrite last_lookup, Nat.sub_1_r.
  - apply lookup_lt_is_Some. pose proof (nom_index_bounds (length l)). lia.
Qed.

(** ** Threads

    Binder threads call [omap_power_hint] concurrently.  A thread runs in four
    steps: the first critical section, the test of the returned descriptor, the
    write, and after a failed write the second critical section.  The steps of
    all threads interleave on the shared variables. *)

Inductive thread := idle | opened | writing | failed.

Record hal := Hal { threads : list thread; shared : sys power_call power_vars }.

Inductive hal_step (e : env power_call) : hal -> hal -> Prop :=
  | step_open ts i s :
      ts !! i = Some idle ->
      hal_step e (Hal ts s) (Hal (<[i := opened]> ts) (boostpulse_locked e s).2)
  | step_test ts i s :
      ts !! i = Some opened ->
      hal_step e (Hal ts s)
        (Hal (<[i := if 0 <=? boostpulse_fd (st s) then writing else idle]> ts) s)
  | step_write ts i s duration :
      ts !! i = Some writing ->
      hal_step e (Hal ts s)
        (Hal (<[i := if (boostpulse_write duration e s).1 then failed else idle]> ts)
             (boostpulse_write duration e s).2)
  | step_close ts i s :
      ts !! i = Some failed ->
      hal_step e (Hal ts s) (Hal (<[i := idle]> ts) (boostpulse_close e s).2)
  | step_interactive ts i s on :
      ts !! i = Some idle ->
      hal_step e (Hal ts s) (Hal ts (omap_power_set_interactive on e s).2).

#[export] Instance power_fd_calls : FdCalls power_call := fun fd x =>
  match x with
  | (Open _, r) => if (0 <=? r_ret r) && (r_ret r =? fd) then 1 else 0
  | (Close f, _) => if f =? fd then -1 else 0
  | _ => 0
  end.

Definition is_lock (c : power_call) : bool := match c with Lock => true | _ => false end.
Definition is_unlock (c : power_call) : bool := match c with Unlock => true | _ => false end.

(** The descriptor variable accounts for every open descriptor, and the lock is
    released as often as it is taken. *)
Definition hal_inv (s : sys power_call power_vars) : Prop :=
  (forall fd, 0 <= fd ->
     fd_balance fd (tr s) = if boostpulse_fd (st s) =? fd then 1 else 0) /\
  count_calls is_lock (tr s) = count_calls is_unlock (tr s).

Ltac hal_solve :=
  split; [ intros ? ?;
    match goal with H : forall fd, 0 <= fd -> _, Hx : 0 <= ?x |- _ => specialize (H x Hx) end;
    cbn in *; fd_solve
  | cbn [st tr] in *; rewrite ?count_calls_snoc; cbn; lia ].

Lemma boostpulse_locked_inv e s :
  hal_inv s -> wp boostpulse_locked e s (fun _ s' => hal_inv s').
Proof. intros [Hb Hl]. unfold boostpulse_locked. wp_go; hal_solve. Qed.

Lemma boostpulse_close_inv e s :
  hal_inv s -> wp boostpulse_close e s (fun _ s' => hal_inv s').
Proof. intros [Hb Hl]. unfold boostpulse_close. wp_go; hal_solve. Qed.

Lemma boostpulse_write_inv d e s :
  hal_inv s -> wp (boostpulse_write d) e s (fun _ s' => hal_inv s').
Proof. intros [Hb Hl]. unfold boostpulse_write. wp_go; hal_solve. Qed.

Lemma sysfs_write_inv p t e s :
  hal_inv s -> wp (sysfs_write p t) e s (fun _ s' => hal_inv s').
Proof. intros [Hb Hl]. unfold sysfs_write. wp_go; hal_solve. Qed.

Lemma hal_step_inv e h h' : hal_step e h h' -> hal_inv (shared h) -> hal_inv (shared h').
Proof.
  destruct 1; cbn [shared]; intros HI.
  - by apply boostpulse_locked_inv.
  - done.
  - by apply boostpulse_write_inv.
  - by apply boostpulse_close_inv.
  - change (wp (omap_power_set_interactive on) e s (fun _ s' => hal_inv s')).
    unfold omap_power_set_interactive. apply wp_bind, wp_gets. case_match; [done|].
    apply wp_bind. eapply wp_wand; [by apply sysfs_write_inv|]. intros ? s1 H1.
    by apply sysfs_write_inv.
Qed.

(** C18.  In every interleaving of the threads, at every step, exactly the
    descriptor in [boostpulse_fd] is open: none is leaked and none is closed
    twice; and the lock is free. *)
Theorem boost_no_leak e h0 h :
  shared h0 = Sys _ _ power_start [] -> rtc (hal_step e) h0 h ->
  (forall fd, 0 <= fd ->
     fd_balance fd (tr (shared h)) = if boostpulse_fd (st (shared h)) =? fd then 1 else 0) /\
  count_calls is_lock (tr (shared h)) = count_calls is_unlock (tr (shared h)).
Proof.
  intros H0 Hr. change (hal_inv (shared h)).
  assert (hal_inv (shared h0)) as HI.
  { rewrite H0. split; [|done]. intros fd Hfd. cbn [tr st]. rewrite fd_balance_nil.
    change (boostpulse_fd power_start) with (-1). case_match; lia. }
  clear H0. induction Hr as [|h0 h1 h Hs _ IH]; [done|]. apply IH. by eapply hal_step_inv.
Qed.

(** The threads implement the HAL function: running [omap_power_hint] alone
    is a sequence of steps of one thread, from idle to idle. *)
Theorem hint_simulated e hint data s :
  inited (st s) = true ->
  rtc (hal_step e) (Hal [idle] s) (Hal [idle] (omap_power_hint hint data e s).2).
Proof.
  intros Hi. change (wp (omap_power_hint hint data) e s
    (fun _ s' => rtc (hal_step e) (Hal [idle] s) (Hal [idle] s'))).
  unfold omap_power_hint. apply wp_bind, wp_gets.
  change (inited (id (st s))) with (inited (st s)). rewrite Hi. cbn [negb].
  destruct (boosts hint); [|apply wp_ret; done].
  unfold boostpulse_open. apply wp_bind, wp_bind.
  eapply wp_wand; [apply wp_self|]. intros ? s1 [_ ->]. apply wp_gets.
  set (s1 := (boostpulse_locked e s).2).
  assert (rtc (hal_step e) (Hal [idle] s) (Hal [opened] s1)) as R1
    by (apply rtc_once; by apply (step_open e [idle] 0)).
  pose proof (step_test e [opened] 0 s1 eq_refl) as S2. cbn in S2.
  destruct (0 <=? boostpulse_fd (st s1)) eqn:E.
  2: { apply wp_ret. by eapply rtc_r. }
  apply wp_bind. eapply wp_wand; [apply wp_self|]. intros b s2 [-> ->].
  pose proof (step_write e [writing] 0 s1 (default 1 data) eq_refl) as S3. cbn [list_insert insert] in S3.
  set (s2 := (boostpulse_write (default 1 data) e s1).2) in *.
  destruct (boostpulse_write (default 1 data) e s1).1; cbn [when].
  - eapply wp_wand; [apply wp_self|]. intros ? s3 [_ ->].
    eapply rtc_r; [eapply rtc_r; [by eapply rtc_r|exact S3]|].
    by apply (step_close e [failed] 0).
  - apply wp_ret. eapply rtc_r; [by eapply rtc_r|exact S3].
Qed.

(** ** Witnesses *)

Definition demo_freqs : list string := ["300000"; "600000"; "800000"; "1008000"].

Definition power_env : env power_call := fun n c =>
  match c with
  | Open _ => answer 5
  | Read _ _ => Resp (strlen (print_words demo_freqs)) 0 (print_words demo_freqs) []
  | Write _ _ => answer (if (n =? 4)%nat then -1 else 1)
  | _ => answer 0
  end.

Lemma omap_power_init_spec_witness :
  wp omap_power_init power_env (Sys _ _ power_start []) (fun _ s' =>
    freq_list (st s') = demo_freqs /\ max_freq (st s') = Some "1008000" /\
    nom_freq (st s') = Some "800000" /\ is_Some (nom_freq (st s')) /\ inited (st s') = true).
Proof.
  apply (omap_power_init_spec demo_freqs power_env (Sys _ _ power_start [])).
  - cbn. lia.
  - repeat constructor; vm_compute; congruence.
  - vm_compute. congruence.
  - vm_compute. reflexivity.
  - intros n. vm_compute. congruence.
  - intros. split; reflexivity.
Defined.

Definition two_threads : hal := Hal [idle; idle] (Sys _ _ power_start []).

Definition both_opened : hal :=
  Hal [opened; opened]
    (boostpulse_locked power_env (boostpulse_locked power_env (Sys _ _ power_start [])).2).2.

Lemma both_opened_reachable : rtc (hal_step power_env) two_threads both_opened.
Proof.
  eapply rtc_l; [by apply (step_open power_env [idle; idle] 0)|].
  apply rtc_once. by apply (step_open power_env [opened; idle] 1).
Qed.

Lemma boost_no_leak_witness :
  boostpulse_fd (st (shared both_opened)) = 5 /\
  (forall fd, 0 <= fd ->
     fd_balance fd (tr (shared both_opened)) =
     if boostpulse_fd (st (shared both_opened)) =? fd then 1 else 0) /\
  count_calls is_lock (tr (shared both_opened)) = count_calls is_unlock (tr (shared both_opened)).
Proof.
  split; [vm_compute; reflexivity|].
  apply (boost_no_leak power_env two_threads both_opened); [reflexivity|].
  apply both_opened_reachable.
Defined.

Definition power_ready : sys power_call power_vars :=
  Sys _ _ (power_start <| inited := true |>) [].

Lemma hint_simulated_witness :
  rtc (hal_step power_env) (Hal [idle] power_ready)
    (Hal [idle] (omap_power_hint POWER_HINT_INTERACTION None power_env power_ready).2).
Proof. apply hint_simulated. reflexivity. Defined.
