(* ===== verification/AplogState.v ===== *)
(** * aplogd: data, variables and calls of the log daemon
    ([src/aplogd/aplogd.h], [log_io.h] and the globals of [aplogd.c],
    [log_io.c] and [rambuf.c]) *)

From S2P Require Import Prelude.
From S2P Require Import CString.
From Stdlib Require Import Ascii.

(** ** Calls

    The functions of liblog are calls too: [Read_entry] reads one logger entry,
    [Log_process] decodes it, [Log_should_print] filters it, [Log_format_line] answers with the line
    (0 is NULL).  [Stat] answers with [S_ISDIR], the size and the owner, [Statfs] with the
    free blocks and the block size, [Localtime] with the broken-down time. *)
Inductive apl_call :=
  | Open_read (path : string)
  | Open_append (path : string)
  | Read (fd len : Z)
  | Read_entry (fd : Z)
  | Write (fd : Z) (bytes : string)
  | Close (fd : Z)
  | Access (path : string)
  | Access_write (path : string)
  | Mkdir (path : string)
  | Rename (src dst : string)
  | Unlink (path : string)
  | Rmdir (path : string)
  | Remove (path : string)
  | Opendir (path : string)
  | Closedir (path : string)
  | Stat (path : string)
  | Lstat (path : string)
  | Statfs (path : string)
  | System (command : string)
  | Chmod (path : string)
  | Localtime
  | Socket_local_client (name : string)
  | Ioctl_log_len (fd : Z)
  | Log_process (events : bool)
  | Log_should_print
  | Log_format_line
  | Set_format (fmt : string)
  | Poll (fds : list Z) (timeout : Z)
  | Getenv (name : string)
  | Property_get (key dflt : string)
  | Malloc
  | Free
  | Signal (sig : string)
  | Open_event_tag_map
  | Getuid
  | Prctl_keepcaps
  | Setgroups (groups : list string)
  | Setgid (gid : string)
  | Setuid (uid : string)
  | Capset (caps : string)
  | Uninit.

Definition EINTR : Z := 4.
Definition EBADF : Z := 9.
Definition EAGAIN : Z := 11.
Definition ENOSPC : Z := 28.

Definition MAX_PATH_LEN : nat := 255.
Definition CONFIG_LOGFILE_MAX_VALUE_USERDATA : Z := 10 * 1024 * 1024.
Definition CONFIG_LOGFILE_MAX_VALUE_EXTERNAL : Z := 50 * 1024 * 1024.
Definition DEFAULT_USR_CFG_MAX_DIR_COUNT : Z := 10.
Definition DEFAULT_USR_CFG_SIZE : Z := 50.
Definition SZ_1G : Z := 1024 * 1024 * 1024.
Definition aplogd_ram_buff_size : Z := 8 * 1024.
Definition aplogd_output_buffering : Z := 4 * 1024.

(** [snprintf] into a buffer of MAX_PATH_LEN bytes. *)
Definition path_of (s : string) : string := str_take (MAX_PATH_LEN - 1) s.

(** ** Data *)

Inductive STORAGE_T := STORAGE_USERDATA | STORAGE_EXTERNAL | STORAGE_SECONDARY.

#[export] Instance STORAGE_eq_dec : EqDecision STORAGE_T.
Proof. solve_decision. Defined.

(** An entry of [aplogd_io_array].  [io_buf] is the filled part of the input
    buffer, the bytes from [input_buf_base] to [input_buf]; [None] when
    [input_buf_base] is NULL. *)
Record log_io_struct := LogIo {
  input_fd : Z;
  output_fd : Z;
  collect_flag : bool;
  io_buf : option string }.

#[export] Instance eta_log_io : Eta log_io_struct := fun v =>
  LogIo (input_fd v) (output_fd v) (collect_flag v) (io_buf v).

(** An entry of [aplogd_io_fd]. *)
Record pollfd := PollFd { p_fd : Z; p_events : Z; p_revents : Z }.

(** The indexes of the five logs and of the vold socket. *)
Definition log_indexes : list nat := [0; 1; 2; 3; 4]%nat.
Definition EVENTS_INDEX : nat := 2.
Definition KERNEL_INDEX : nat := 4.
Definition VOLD_INDEX : nat := 5.
Definition APLOGD_MAX_IO_FDS : nat := 6.

Definition input_filename (i : nat) : string :=
  nth i ["/dev/log/main"; "/dev/log/radio"; "/dev/log/events"; "/dev/log/system";
         "/proc/kmsg"] "".
Definition output_filename (i : nat) : string :=
  nth i ["log.main.txt"; "log.radio.txt"; "log.events.txt"; "log.system.txt";
         "log.kernel.txt"] "".

(** The globals; [backup_n], [backup_flag] and [config_finish] are the statics of
    [aplogd_io_file_backup], [aplogd_log_save] and [aplogd_io_boot_finish]. *)
Record apl_vars := AplVars {
  io_array : list log_io_struct;
  io_fd : list pollfd;
  poll_timeout : Z;
  total_write_size : Z;
  logfile_max : Z;
  current_storage : STORAGE_T;
  unwritten_bytes : Z;
  bytes_lost : Z;
  usr_cfg_collect : string;
  usr_cfg_format : string;
  usr_cfg_size : Z;
  usr_cfg_backup : Z;
  usr_cfg_seq : Z;
  usr_cfg_ext : Z;
  storage_path : STORAGE_T -> option string;
  output_path : STORAGE_T -> option string;
  config_changed : bool;
  backup_n : nat;
  backup_flag : Z;
  config_finish : bool }.

#[export] Instance eta_apl_vars : Eta apl_vars := fun v =>
  AplVars (io_array v) (io_fd v) (poll_timeout v) (total_write_size v) (logfile_max v)
    (current_storage v) (unwritten_bytes v) (bytes_lost v) (usr_cfg_collect v)
    (usr_cfg_format v) (usr_cfg_size v) (usr_cfg_backup v) (usr_cfg_seq v)
    (usr_cfg_ext v) (storage_path v) (output_path v) (config_changed v)
    (backup_n v) (backup_flag v) (config_finish v).

Definition io_closed : log_io_struct := LogIo (-1) (-1) false None.

(** The values at the start, and after [aplogd_io_array_init]. *)
Definition apl_start : apl_vars :=
  AplVars (replicate APLOGD_MAX_IO_FDS io_closed)
    (replicate APLOGD_MAX_IO_FDS (PollFd (-1) 0 0)) (-1) 0
    CONFIG_LOGFILE_MAX_VALUE_USERDATA STORAGE_USERDATA 0 0 "mrsek" "threadtime"
    DEFAULT_USR_CFG_SIZE DEFAULT_USR_CFG_MAX_DIR_COUNT 1 1
    (fun _ => None) (fun _ => None) false 0 0 false.

Abbreviation apl A := (prog apl_call apl_vars A).

(** ** Access to the arrays *)

(** [aplogd_io_array[i]] *)
Definition io_at (i : nat) (v : apl_vars) : log_io_struct :=
  default io_closed (io_array v !! i).

(** [aplogd_io_fd[i]] *)
Definition poll_at (i : nat) (v : apl_vars) : pollfd :=
  default (PollFd (-1) 0 0) (io_fd v !! i).

(** An assignment to a field of [aplogd_io_array[i]]. *)
Definition set_io (i : nat) (f : log_io_struct -> log_io_struct) : apl unit :=
  modify (fun v => v <| io_array := alter f i (io_array v) |>).

Definition set_poll (i : nat) (p : pollfd) : apl unit :=
  modify (fun v => v <| io_fd := <[i := p]> (io_fd v) |>).

(** [g_output_path[storage]]; printing NULL gives "(null)". *)
Definition out_path (s : STORAGE_T) (v : apl_vars) : string :=
  default "(null)" (output_path v s).

Definition slash (a b : string) : string := a +:+ "/" +:+ b.

(** How a call of a loop with fuel ends: with a value, by [exit], or without
    enough fuel. *)
Inductive outcome (A : Type) := Done (a : A) | Exited | NoFuel.
Arguments Done {A} a.
Arguments Exited {A}.
Arguments NoFuel {A}.

(** Sequencing of outcomes. *)
Definition andthen {A B} (m : apl (outcome A)) (k : A -> apl (outcome B))
    : apl (outcome B) :=
  o ← m;
  match o with
  | Done a => k a
  | Exited => mret Exited
  | NoFuel => mret NoFuel
  end.

Declare Scope outcome_scope.
Notation "x <~ m ; k" := (andthen m (fun x => k))
  (at level 20, m at level 100, k at level 200, right associativity) : outcome_scope.
#[global] Open Scope outcome_scope.

(** A program without fuel. *)
Definition total {A} (m : apl A) : apl (outcome A) := a ← m; mret (Done a).

Lemma wp_andthen {A B} (m : apl (outcome A)) (k : A -> apl (outcome B)) e s
    (P : outcome B -> sys apl_call apl_vars -> Prop) :
  wp m e s (fun o s' => match o with
    | Done a => wp (k a) e s' P
    | Exited => P Exited s'
    | NoFuel => P NoFuel s'
    end) -> wp (andthen m k) e s P.
Proof.
  intros H. apply wp_bind. eapply wp_wand; [exact H|].
  intros [a| |] s' Hs; [done|by apply wp_ret..].
Qed.
