(* ===== verification/AplogUtil.v ===== *)
(** * aplogd: utilities ([src/aplogd/aplogd_util.c])

    A loop over the entries of a directory is a fixpoint over the names
    [readdir] delivers; the recursive removal, the clean-up loop and the copy
    loop take fuel. *)

From S2P Require Import Prelude.
From S2P Require Import CString.
From S2P Require Import AplogState.
From Stdlib Require Import Ascii.

(** ** Definitions *)

Definition aplogd_util_gzip (src : string) : apl Z :=
  r ← call (System ("gzip -5 " +:+ src));
  call (Chmod (path_of (src +:+ ".gz"))) ;;
  mret (r_ret r).

(** The entries every directory loop skips. *)
Definition dots (name : string) : bool := str_eq name "." || str_eq name "..".

Fixpoint move_entries (src dst pstr : string) (l : list string) (ret : Z) : apl Z :=
  match l with
  | [] => mret ret
  | name :: l =>
      if dots name then move_entries src dst pstr l ret else
      if negb (contains name pstr) then move_entries src dst pstr l ret else
      let file_name := path_of (slash src name) in
      let bak_name := path_of (slash dst name) in
      r ← call (Rename file_name bak_name);
      if r_ret r <? 0 then
        call (Unlink file_name) ;; move_entries src dst pstr l (-1)
      else move_entries src dst pstr l ret
  end.

Definition aplogd_util_move (src dst pstr : string) : apl Z :=
  o ← call (Opendir src);
  if r_ret o =? 0 then mret (-1) else
  ret ← move_entries src dst pstr (dir_entries o) 0;
  call (Closedir src) ;;
  mret ret.

(** The loop of [aplogd_remove_dir]; [rec] removes a subdirectory. *)
Fixpoint remove_entries (rec : string -> apl (outcome Z)) (dir : string)
    (l : list string) : apl (outcome Z) :=
  match l with
  | [] => call (Closedir dir) ;; call (Rmdir dir) ;; mret (Done 0)
  | name :: l =>
      if dots name then remove_entries rec dir l else
      let file_name := path_of (slash dir name) in
      r ← call (Lstat file_name);
      if r_ret r =? -1 then call (Closedir dir) ;; mret (Done (-1)) else
      if aux 0 r =? 0 then call (Unlink file_name) ;; remove_entries rec dir l
      else _ <~ rec file_name; remove_entries rec dir l
  end.

Fixpoint aplogd_remove_dir (fuel : nat) (dir : string) : apl (outcome Z) :=
  match fuel with
  | O => mret NoFuel
  | S fuel =>
      o ← call (Opendir dir);
      if r_ret o =? 0 then mret (Done (-1)) else
      remove_entries (aplogd_remove_dir fuel) dir (dir_entries o)
  end.

(** The digits at the front of a string. *)
Fixpoint numstr_digits (s : string) : string :=
  match s with
  | String c s => if isdigit c then String c (numstr_digits s) else ""
  | "" => ""
  end.

(** The first run of digits; [f_head] becomes 1 at its first digit. *)
Fixpoint filter_numstr (s : string) : string :=
  match s with
  | String c s' => if isdigit c then numstr_digits s else filter_numstr s'
  | "" => ""
  end.

(** The locals of a pass of [aplogd_util_cleardir]. *)
Record scan := Scan { sc_count : Z; sc_oldest : string; sc_tnum : Z; sc_ret : Z }.

(** A numbered backup folder. *)
Definition scan_dir (dir name : string) (sc : scan) : scan :=
  let dir_num := strtol (filter_numstr name) in
  let older := dir_num <? sc_tnum sc in
  Scan (sc_count sc + 1)
    (if older then path_of (slash dir name) else sc_oldest sc)
    (if older then dir_num else sc_tnum sc)
    (if sc_ret sc <? dir_num then dir_num else sc_ret sc).

(** The inner loop; [None] is the return after a failing [stat]. *)
Fixpoint cleardir_scan (dir : string) (l : list string) (sc : scan) : apl (option scan) :=
  match l with
  | [] => mret (Some sc)
  | name :: l =>
      if dots name || negb (contains name "No.") then cleardir_scan dir l sc else
      r ← call (Stat (path_of (slash dir name)));
      if r_ret r =? -1 then call (Closedir dir) ;; mret None else
      cleardir_scan dir l (if aux 0 r =? 0 then sc else scan_dir dir name sc)
  end.

(** One pass per unit of fuel; [ret] carries over from pass to pass. *)
Fixpoint cleardir_loop (fuel : nat) (dir : string) (max_count ret : Z)
    : apl (outcome Z) :=
  match fuel with
  | O => mret NoFuel
  | S fuel =>
      o ← call (Opendir dir);
      if r_ret o =? 0 then mret (Done (-1)) else
      sc ← cleardir_scan dir (dir_entries o) (Scan 0 "" LONG_MAX ret);
      match sc with
      | None => mret (Done (-1))
      | Some sc =>
          call (Closedir dir) ;;
          if (max_count - 1 <? sc_count sc) && negb (str_eq (sc_oldest sc) "") then
            r <~ aplogd_remove_dir fuel (sc_oldest sc);
            if r =? -1 then mret (Done (-1)) else
            if max_count - 1 <? sc_count sc - 1
            then cleardir_loop fuel dir max_count (sc_ret sc)
            else mret (Done (sc_ret sc))
          else
            if max_count - 1 <? sc_count sc
            then cleardir_loop fuel dir max_count (sc_ret sc)
            else mret (Done (sc_ret sc))
      end
  end.

Definition aplogd_util_cleardir (fuel : nat) (dir : string) (max_count : Z)
    : apl (outcome Z) := cleardir_loop fuel dir max_count 0.

(** [while((ret = read(sfd,buf,4095))>0) write(dfd,buf,ret);] *)
Fixpoint copy_loop (fuel : nat) (sfd dfd : Z) : apl (outcome unit) :=
  match fuel with
  | O => mret NoFuel
  | S fuel =>
      r ← call (Read sfd 4095);
      if r_ret r <=? 0 then mret (Done tt) else
      let ret := if 4095 <? r_ret r then 4095 else r_ret r in
      call (Write dfd (buf_bytes (Z.to_nat ret) (r_data r))) ;;
      copy_loop fuel sfd dfd
  end.

(** One file of [aplogd_move_logs]; when [dst] cannot be opened, the descriptor
    of [src] stays open. *)
Definition move_log (fuel : nat) (src dst : string) : apl (outcome unit) :=
  o ← call (Open_read src);
  let sfd := r_ret o in
  if sfd <? 0 then mret (Done tt) else
  o ← call (Open_append dst);
  let dfd := r_ret o in
  if dfd <? 0 then mret (Done tt) else
  _ <~ copy_loop fuel sfd dfd;
  call (Close sfd) ;; call (Close dfd) ;; call (Unlink src) ;;
  mret (Done tt).

(** [for (i in l) f(i)] for a body with an outcome. *)
Fixpoint for_each_o {X} (l : list X) (f : X -> apl (outcome unit)) : apl (outcome unit) :=
  match l with
  | [] => mret (Done tt)
  | x :: l => _ <~ f x; for_each_o l f
  end.

Definition aplogd_move_logs (fuel : nat) (old_storage new_storage : STORAGE_T)
    : apl (outcome unit) :=
  v ← gets id;
  match output_path v old_storage, output_path v new_storage with
  | Some po, Some pn =>
      for_each_o log_indexes (fun i =>
        move_log fuel (path_of (slash po (output_filename i)))
          (path_of (slash pn (output_filename i))))
  | _, _ => mret (Done tt)
  end.

(** [int] from [unsigned int] *)
Definition int_of_u32 (x : Z) : Z := if x <? 2147483648 then x else x - 4294967296.

Definition aplogd_get_filesize (storage : STORAGE_T) (v : apl_vars) : Z :=
  match storage with
  | STORAGE_SECONDARY | STORAGE_EXTERNAL =>
      let size := int_of_u32 (usr_cfg_size v) in
      if (size <=? 0) || (1000 <? size) then CONFIG_LOGFILE_MAX_VALUE_EXTERNAL
      else size * 1024 * 1024
  | STORAGE_USERDATA => CONFIG_LOGFILE_MAX_VALUE_USERDATA
  end.

Definition aplogd_calc_storage_pref (v : apl_vars) : STORAGE_T :=
  if usr_cfg_ext v =? 0 then STORAGE_USERDATA else STORAGE_SECONDARY.

(** [strchr] also finds the terminating NUL, which no caller asks for. *)
Definition aplogd_is_collected (stream : ascii) (v : apl_vars) : bool :=
  contains (usr_cfg_collect v) (String stream "").
