(* ===== verification/AplogBuf.v ===== *)
(** * aplogd: output files and the RAM buffers
    ([src/aplogd/rambuf.c] and the output part of [log_io.c]) *)

From S2P Require Import Prelude.
From S2P Require Import CString.
From S2P Require Import AplogState.
From S2P Require Import AplogUtil.

(** ** Output descriptors *)

Definition close_one (i : nat) : apl unit :=
  fd ← gets (fun v => output_fd (io_at i v));
  when (0 <? fd) (call (Close fd) ;; mret tt) ;;
  set_io i (fun x => x <| output_fd := -1 |>).

Definition aplogd_close_output : apl unit := for_each log_indexes close_one.

(** The loop of [aplogd_output_setup]: open one log file. *)
Fixpoint open_outputs (pathname : string) (l : list nat) (ret_val : Z) : apl Z :=
  match l with
  | [] => mret ret_val
  | i :: l =>
      o ← call (Open_append (path_of (slash pathname (output_filename i))));
      set_io i (fun x => x <| output_fd := r_ret o |>) ;;
      open_outputs pathname l (if r_ret o <? 0 then -1 else ret_val)
  end.

(** [pathname] is the output path whole, as [sprintf] copies it. *)
Definition aplogd_output_setup (storage : STORAGE_T) : apl Z :=
  pathname ← gets (out_path storage);
  a ← call (Access pathname);
  when (negb (r_ret a =? 0)) (call (Mkdir pathname) ;; mret tt) ;;
  a ← call (Access_write pathname);
  if negb (r_ret a =? 0) then mret (r_ret a) else
  open_outputs pathname log_indexes (r_ret a).

(** ** Rotation *)

Definition backup_name (cur_path : string) (k : nat) (i : nat) : string :=
  path_of (slash cur_path ("backup." +:+ pretty k +:+ "." +:+ output_filename i +:+ ".gz")).

(** [while(i>0)]: each backup moves up by one number. *)
Fixpoint shift_backups (cur_path : string) (index k : nat) (ret_val : Z) : apl Z :=
  match k with
  | O => mret ret_val
  | S k' =>
      let file_name := backup_name cur_path k' index in
      r ← call (Rename file_name (backup_name cur_path k index));
      if r_ret r <? 0 then
        call (Unlink file_name) ;; shift_backups cur_path index k' (-1)
      else shift_backups cur_path index k' ret_val
  end.

(** [stat] that fails leaves [statf] as the stack had it. *)
Definition aplogd_io_file_backup (index : nat) (storage : STORAGE_T) : apl Z :=
  cur_path ← gets (fun v => path_of (out_path storage v));
  n ← gets backup_n;
  ret_val ← shift_backups cur_path index n 0;
  modify (fun v => v <| backup_n := S (backup_n v) |>) ;;
  let file_name := path_of (slash cur_path (output_filename index)) in
  let bak_name := path_of (slash cur_path ("backup.0." +:+ output_filename index)) in
  a ← call (Access bak_name);
  when (r_ret a =? 0) (call (Unlink bak_name) ;; mret tt) ;;
  r ← call (Rename file_name bak_name);
  ret_val ← (if r_ret r <? 0 then call (Unlink file_name) ;; mret (-1) else mret ret_val);
  x ← call (Stat bak_name);
  when (negb (r_ret x =? 0))
    (u ← call Uninit;
     modify (fun v => v <| total_write_size := u32 (total_write_size v - r_ret u) |>)) ;;
  aplogd_util_gzip bak_name ;;
  mret ret_val.

Fixpoint backup_each (storage : STORAGE_T) (l : list nat) (ret_val : Z) : apl Z :=
  match l with
  | [] => mret ret_val
  | i :: l =>
      r ← aplogd_io_file_backup i storage;
      backup_each storage l (ret_val + r)
  end.

Definition aplogd_io_backupall (storage : STORAGE_T) : apl Z :=
  backup_each storage log_indexes 0.

(** ** RAM buffers *)

(** [malloc] answers 0 when it fails; the daemon then exits. *)
Definition aplogd_rambuf_init : apl (outcome Z) :=
  m ← call Malloc;
  if r_ret m =? 0 then mret Exited else
  for_each log_indexes (fun i => set_io i (fun x => x <| io_buf := Some "" |>)) ;;
  mret (Done 0).

(** No function calls this one; the buffers are gone afterwards. *)
Definition aplogd_rambuf_destroy : apl unit :=
  for_each (seq 0 APLOGD_MAX_IO_FDS) (fun i =>
    set_io i (fun x => x <| io_buf := None |>)) ;;
  call Free ;; mret tt.

Definition aplogd_rambuf_bytes_filled (i : nat) (v : apl_vars) : Z :=
  strlen (default "" (io_buf (io_at i v))).

Definition aplogd_rambuf_space (i : nat) (v : apl_vars) : Z :=
  let temp_filled := aplogd_rambuf_bytes_filled i v in
  if (temp_filled <? 0) || (aplogd_ram_buff_size <? temp_filled) then -1
  else aplogd_ram_buff_size - temp_filled.

(** [input_buf = input_buf_base] *)
Definition rambuf_reset (i : nat) : apl unit :=
  set_io i (fun x => x <| io_buf := (fun _ => "") <$> io_buf x |>).

(** The write loop: every write starts at [input_buf_base].  The result tells
    whether the loop ended without an error. *)
Fixpoint write_loop (fuel : nat) (i : nat) (need_written : Z) : apl (outcome bool) :=
  if need_written <=? 0 then mret (Done true) else
  match fuel with
  | O => mret NoFuel
  | S fuel =>
      x ← gets (io_at i);
      w ← call (Write (output_fd x)
                 (str_take (Z.to_nat need_written) (default "" (io_buf x))));
      let size_written := r_ret w in
      if size_written <? 0 then
        when (r_errno w =? ENOSPC) aplogd_close_output ;;
        when (r_errno w =? EBADF) (set_io i (fun x => x <| output_fd := -1 |>)) ;;
        mret (Done false)
      else
        modify (fun v => v <| total_write_size := u32 (total_write_size v + size_written) |>) ;;
        write_loop fuel i (need_written - size_written)
  end.

(** The rotation when the size limit is reached. *)
Definition rambuf_rotate : apl unit :=
  v ← gets id;
  if logfile_max v <=? total_write_size v then
    aplogd_close_output ;;
    aplogd_io_backupall (current_storage v) ;;
    aplogd_output_setup (current_storage v) ;;
    modify (fun v => v <| total_write_size := 0 |>)
  else mret tt.

Definition aplogd_rambuf_output (fuel : nat) (i : nat) : apl (outcome Z) :=
  need_written ← gets (aplogd_rambuf_bytes_filled i);
  x ← gets (io_at i);
  if negb (bool_decide (is_Some (io_buf x))) || negb (0 <? need_written)
  then mret (Done (-1)) else
  if output_fd x <? 0 then rambuf_reset i ;; mret (Done (-1)) else
  ok <~ write_loop fuel i need_written;
  if negb ok then mret (Done (-1)) else
  rambuf_reset i ;;
  rambuf_rotate ;;
  mret (Done 0).

Definition aplogd_rambuf_outputall (fuel : nat) : apl (outcome unit) :=
  for_each_o log_indexes (fun i =>
    _ <~ aplogd_rambuf_output fuel i; mret (Done tt)).
