(* ===== verification/AplogIo.v ===== *)
(** * aplogd: input, storage changes and the main loop
    ([src/aplogd/log_io.c]) *)

From S2P Require Import Prelude.
From S2P Require Import CString.
From S2P Require Import AplogState.
From S2P Require Import AplogUtil.
From S2P Require Import AplogBuf.
From Stdlib Require Import Ascii.

Definition POLLIN : Z := 1.
Definition POLLERR : Z := 8.
Definition POLLHUP : Z := 16.

Definition has_flag (x f : Z) : bool := negb (Z.land x f =? 0).
Definition clear_flag (x f : Z) : Z := Z.land x (Z.lnot f).

(** ** Buffering *)

(** [memcpy(input_buf, bytes, n); input_buf += n;] *)
Definition append_buf (i : nat) (bytes : string) : apl unit :=
  set_io i (fun x => x <| io_buf := (fun b => b +:+ bytes) <$> io_buf x |>).

(** [len] is a [size_t]: a space of -1 is the largest one. *)
Definition LogfilterAndBuffering (i : nat) : apl Z :=
  p ← call Log_should_print;
  if r_ret p =? 0 then mret 0 else
  l ← call Log_format_line;
  if r_ret l =? 0 then mret (-1) else
  let outBuffer := r_data l in
  let totalLen := strlen outBuffer in
  len ← gets (fun v => u32 (aplogd_rambuf_space i v));
  if totalLen <? len then append_buf i outBuffer ;; mret totalLen
  else
    modify (fun v => v <| bytes_lost := u32 (bytes_lost v + totalLen) |>) ;;
    mret (-1).

(** After [ret] bytes have been buffered: output everything when enough have
    gathered, else arm the timeout. *)
Definition account (fuel : nat) (ret : Z) : apl (outcome unit) :=
  modify (fun v => v <| unwritten_bytes := u32 (unwritten_bytes v + ret) |>) ;;
  n ← gets unwritten_bytes;
  if aplogd_output_buffering <=? n then
    _ <~ aplogd_rambuf_outputall fuel;
    modify (fun v => v <| unwritten_bytes := 0 |>) ;;
    modify (fun v => v <| poll_timeout := -1 |>) ;;
    mret (Done tt)
  else modify (fun v => v <| poll_timeout := 60000 |>) ;; mret (Done tt).

(** ** Storage *)

Definition switch_storage (old_storage new_storage : STORAGE_T) : apl STORAGE_T :=
  modify (fun v => v <| logfile_max := aplogd_get_filesize new_storage v |>) ;;
  aplogd_close_output ;;
  r ← aplogd_output_setup new_storage;
  if r <? 0 then aplogd_output_setup old_storage ;; mret old_storage
  else mret new_storage.

(** [g_current_storage = switch_storage(a, b)] *)
Definition change_storage (a b : STORAGE_T) : apl unit :=
  s ← switch_storage a b;
  modify (fun v => v <| current_storage := s |>).

Definition is_vold_msg_for (storage : STORAGE_T) (vold_msg : string) (v : apl_vars) : bool :=
  match storage_path v storage with
  | None => false
  | Some path =>
      match strstr vold_msg path with
      | None => false
      | Some n =>
          let msg_path := str_drop n vold_msg in
          match strstr msg_path " " with
          | Some msg_path_len => (String.length path =? msg_path_len)%nat
          | None => false
          end
      end
  end.

Definition is_trans_to_mounted (storage : STORAGE_T) (m : string) (v : apl_vars) : bool :=
  is_vold_msg_for storage m v &&
  contains m "state changed from 3 (Checking) to 4 (Mounted)".

Definition is_trans_to_unmounted (storage : STORAGE_T) (m : string) (v : apl_vars) : bool :=
  is_vold_msg_for storage m v &&
  contains m "state changed from 4 (Mounted) to 5 (Unmounting)".

Definition is_bad_removal (storage : STORAGE_T) (m : string) (v : apl_vars) : bool :=
  is_vold_msg_for storage m v && contains m "bad removal".

Definition is_storage_writable (storage : STORAGE_T) : apl bool :=
  p ← gets (fun v => storage_path v storage);
  match p with
  | Some path => a ← call (Access_write path); mret (r_ret a =? 0)
  | None => mret false
  end.

(** *** Saving the logs of the last run *)

(** [%02d] *)
Definition pad2 (x : Z) : string := if (0 <=? x) && (x <? 10) then "0" +:+ pretty x else pretty x.

Definition save_name (out : string) (num : Z) (tm : resp) : string :=
  path_of (slash out ("No." +:+ pretty num +:+ "_" +:+ pretty (aux 0 tm + 1900) +:+
    pad2 (aux 1 tm + 1) +:+ pad2 (aux 2 tm) +:+ pad2 (aux 3 tm) +:+ pad2 (aux 4 tm) +:+
    pad2 (aux 5 tm))).

(** Compress the logs that exist; the number of those that do not. *)
Fixpoint gzip_existing (out : string) (l : list nat) (count : Z) : apl Z :=
  match l with
  | [] => mret count
  | i :: l =>
      let file_name := path_of (slash out (output_filename i)) in
      a ← call (Access file_name);
      if negb (r_ret a =? 0) then gzip_existing out l (count + 1)
      else aplogd_util_gzip file_name ;; gzip_existing out l count
  end.

Definition backup_bit (storage : STORAGE_T) : Z :=
  match storage with
  | STORAGE_SECONDARY => 1
  | STORAGE_EXTERNAL => 2
  | STORAGE_USERDATA => 0
  end.

(** The branch of SECONDARY and EXTERNAL; an [Access] of a NULL path fails. *)
Definition log_save_external (fuel : nat) (storage : STORAGE_T) : apl (outcome unit) :=
  v ← gets id;
  match output_path v storage with
  | None => mret (Done tt)
  | Some out =>
      a ← call (Access out);
      if negb (r_ret a =? 0) then mret (Done tt) else
      f ← call (Statfs out);
      when (negb (r_ret f =? -1) && (aux 0 f * aux 1 f <? SZ_1G))
        (modify (fun v => v <| usr_cfg_backup := DEFAULT_USR_CFG_MAX_DIR_COUNT |>)) ;;
      max_count ← gets (fun v => int_of_u32 (usr_cfg_backup v));
      num <~ aplogd_util_cleardir fuel out max_count;
      tm ← call Localtime;
      let bak_dir :=
        if negb (num =? -1) && negb (r_ret tm =? 0)
        then save_name out ((num + 1) mod LONG_MAX) tm
        else path_of (slash out "last") in
      count ← gzip_existing out log_indexes 0;
      modify (fun v => v <| backup_flag := Z.lor (backup_flag v) (backup_bit storage) |>) ;;
      if count =? 5 then mret (Done tt) else
      call (Mkdir bak_dir) ;;
      aplogd_util_move out bak_dir ".gz" ;;
      mret (Done tt)
  end.

Definition log_save_userdata (fuel : nat) : apl (outcome unit) :=
  out ← gets (out_path STORAGE_USERDATA);
  let bak_dir := path_of (slash out "last") in
  call (Mkdir bak_dir) ;;
  for_each log_indexes (fun i =>
    aplogd_util_gzip (path_of (slash out (output_filename i))) ;; mret tt) ;;
  _ <~ aplogd_util_cleardir fuel bak_dir 1;
  aplogd_util_move out bak_dir ".gz" ;;
  mret (Done tt).

Definition aplogd_log_save (fuel : nat) (storage : STORAGE_T) : apl (outcome unit) :=
  flag ← gets backup_flag;
  match storage with
  | STORAGE_USERDATA => log_save_userdata fuel
  | _ =>
      if Z.land flag (backup_bit storage) =? backup_bit storage then mret (Done tt)
      else log_save_external fuel storage
  end.

(** ** Reading an input *)

(** The loop over the entries of a logger device; the entry's bytes are
    decoded by liblog.  [n] bounds the iterations, [fuel] is that of the output. *)
Fixpoint read_logger (fuel n : nat) (my_fd : Z) (i : nat) (readable : Z)
    : apl (outcome unit) :=
  if readable <=? 0 then mret (Done tt) else
  match n with
  | O => mret NoFuel
  | S n =>
      r ← call (Read_entry my_fd);
      if r_ret r <? 0 then
        if r_errno r =? EINTR then read_logger fuel n my_fd i readable
        else if r_errno r =? EAGAIN then mret (Done tt)
        else mret Exited
      else if r_ret r =? 0 then mret Exited
      else
        p ← call (Log_process (i =? EVENTS_INDEX)%nat);
        if r_ret p <? 0 then mret (Done tt) else
        ret ← LogfilterAndBuffering i;
        if ret <? 0 then mret (Done tt) else
        _ <~ account fuel ret;
        read_logger fuel n my_fd i (readable - ret)
  end.

(** The loop over [/proc/kmsg], after a [read] that answered [r]. *)
Fixpoint read_kernel (fuel n : nat) (my_fd : Z) (i : nat) (r : resp) : apl (outcome unit) :=
  let ret := r_ret r in
  if ret <=? 0 then mret (Done tt) else
  match n with
  | O => mret NoFuel
  | S n =>
      len ← gets (aplogd_rambuf_space i);
      if (0 <? len) && (ret <=? len) && (ret <=? 255) then
        append_buf i (buf_bytes (Z.to_nat ret) (r_data r)) ;;
        _ <~ account fuel ret;
        r' ← call (Read my_fd 255);
        read_kernel fuel n my_fd i r'
      else mret (Done tt)
  end.

(** [if(1==usr_cfg_seq) aplogd_move_logs(a, b);] *)
Definition move_if_seq (fuel : nat) (a b : STORAGE_T) : apl (outcome unit) :=
  seq ← gets usr_cfg_seq;
  if seq =? 1 then aplogd_move_logs fuel a b else mret (Done tt).

(** The four reactions to a message of vold, in their order. *)
Definition vold_secondary_mounted (fuel : nat) (buf : string) : apl (outcome unit) :=
  b ← gets (is_trans_to_mounted STORAGE_SECONDARY buf);
  if negb b then mret (Done tt) else
  _ <~ aplogd_log_save fuel STORAGE_SECONDARY;
  v ← gets id;
  if bool_decide (aplogd_calc_storage_pref v = STORAGE_SECONDARY) then
    _ <~ move_if_seq fuel (current_storage v) STORAGE_SECONDARY;
    total (change_storage (current_storage v) STORAGE_SECONDARY)
  else mret (Done tt).

Definition vold_secondary_gone (buf : string) : apl unit :=
  b ← gets (fun v => is_trans_to_unmounted STORAGE_SECONDARY buf v ||
                     is_bad_removal STORAGE_SECONDARY buf v);
  cur ← gets current_storage;
  if b && bool_decide (cur = STORAGE_SECONDARY) then
    change_storage STORAGE_SECONDARY STORAGE_EXTERNAL ;;
    cur ← gets current_storage;
    when (bool_decide (cur = STORAGE_SECONDARY))
      (change_storage STORAGE_SECONDARY STORAGE_USERDATA)
  else mret tt.

Definition vold_external_mounted (fuel : nat) (buf : string) : apl (outcome unit) :=
  b ← gets (is_trans_to_mounted STORAGE_EXTERNAL buf);
  if negb b then mret (Done tt) else
  _ <~ aplogd_log_save fuel STORAGE_EXTERNAL;
  v ← gets id;
  if bool_decide (aplogd_calc_storage_pref v <> STORAGE_USERDATA) &&
     bool_decide (current_storage v = STORAGE_USERDATA) then
    _ <~ move_if_seq fuel STORAGE_USERDATA STORAGE_EXTERNAL;
    total (change_storage (current_storage v) STORAGE_EXTERNAL)
  else mret (Done tt).

Definition vold_external_gone (buf : string) : apl unit :=
  b ← gets (fun v => is_trans_to_unmounted STORAGE_EXTERNAL buf v ||
                     is_bad_removal STORAGE_EXTERNAL buf v);
  cur ← gets current_storage;
  when (b && bool_decide (cur = STORAGE_EXTERNAL))
    (change_storage STORAGE_EXTERNAL STORAGE_USERDATA).

Definition handle_vold (fuel : nat) (buf : string) : apl (outcome unit) :=
  _ <~ vold_secondary_mounted fuel buf;
  _ <~ total (vold_secondary_gone buf);
  _ <~ vold_external_mounted fuel buf;
  total (vold_external_gone buf).

(** The message buffer is on the stack and not cleared: after a short [read] the
    bytes that follow are what the stack held. *)
Definition aplogd_io_read_data (fuel : nat) (poll_num : nat) : apl (outcome unit) :=
  my_fd ← gets (fun v => p_fd (poll_at poll_num v));
  if (poll_num <? KERNEL_INDEX)%nat then
    n ← call (Ioctl_log_len my_fd);
    read_logger fuel fuel my_fd poll_num (r_ret n)
  else if (poll_num =? KERNEL_INDEX)%nat then
    r ← call (Read my_fd 255);
    read_kernel fuel fuel my_fd poll_num r
  else
    sock_fd ← gets (fun v => input_fd (io_at VOLD_INDEX v));
    stack ← call Uninit;
    r ← call (Read sock_fd 4096);
    handle_vold fuel (c_str (str_take 4095 (overlay (received 4096 r) (r_data stack)))).

(** ** Poll entries *)

Definition aplogd_io_add_poll_fd (fd events : Z) (index : nat) : apl unit :=
  set_poll index (PollFd fd events 0).

Definition aplogd_io_remove_poll_fd (num : nat) : apl unit :=
  if (APLOGD_MAX_IO_FDS <=? num)%nat then mret tt
  else set_poll num (PollFd (-1) 0 0).

Definition aplogd_io_add_poll_flag (index : nat) (flags : Z) : apl unit :=
  p ← gets (poll_at index);
  set_poll index (PollFd (p_fd p) (Z.lor (p_events p) flags) (p_revents p)).

Definition aplogd_io_remove_poll_flag (index : nat) (flags : Z) : apl unit :=
  p ← gets (poll_at index);
  set_poll index (PollFd (p_fd p) (clear_flag (p_events p) flags) (p_revents p)).

(** [revents &= ~flags] *)
Definition clear_revents (index : nat) (flags : Z) : apl unit :=
  p ← gets (poll_at index);
  set_poll index (PollFd (p_fd p) (p_events p) (clear_flag (p_revents p) flags)).

Definition aplogd_io_array_init : apl unit :=
  for_each (seq 0 APLOGD_MAX_IO_FDS) (fun i =>
    set_poll i (PollFd (-1) 0 0) ;;
    set_io i (fun x => LogIo (-1) (-1) (collect_flag x) None)).

Definition aplogd_io_fd_setup (pathname : string) : apl Z :=
  o ← call (Open_read pathname);
  mret (if r_ret o <? 0 then -1 else r_ret o).

Definition open_vold : apl unit :=
  o ← call (Socket_local_client "vold");
  set_io VOLD_INDEX (fun x => x <| input_fd := r_ret o |>) ;;
  when (0 <=? r_ret o) (aplogd_io_add_poll_fd (r_ret o) POLLIN VOLD_INDEX).

(** The loop of [aplogd_input_setup]. *)
Fixpoint open_inputs (l : list nat) (ret_val : Z) : apl Z :=
  match l with
  | [] => mret ret_val
  | i :: l =>
      x ← gets (io_at i);
      if collect_flag x && (input_fd x <? 0) then
        fd ← aplogd_io_fd_setup (input_filename i);
        set_io i (fun x => x <| input_fd := fd |>) ;;
        if 0 <=? fd then aplogd_io_add_poll_fd fd POLLIN i ;; open_inputs l ret_val
        else open_inputs l (-1)
      else open_inputs l ret_val
  end.

Definition aplogd_input_setup : apl Z :=
  ret_val ← open_inputs log_indexes 0;
  open_vold ;;
  mret ret_val.

(** From the last entry to the first; [if(output_fd)] lets -1 through to
    [close]. *)
Definition aplogd_io_cleanup : apl unit :=
  for_each (rev (seq 0 APLOGD_MAX_IO_FDS)) (fun i =>
    set_poll i (PollFd (-1) 0 0) ;;
    x ← gets (io_at i);
    when (0 <=? input_fd x) (call (Close (input_fd x)) ;; mret tt) ;;
    set_io i (fun x => x <| input_fd := -1 |>) ;;
    when (negb (output_fd x =? 0)) (call (Close (output_fd x)) ;; mret tt) ;;
    set_io i (fun x => x <| output_fd := -1 |>)).

Definition aplogd_io_handle_pollerr (offset : nat) : apl unit :=
  temp_fd ← gets (fun v => p_fd (poll_at offset v));
  call (Close temp_fd) ;;
  aplogd_io_remove_poll_fd offset.

(** Whether the descriptor was removed (APLOGD_POLL_STATUS_RM_FD). *)
Definition aplogd_io_handle_poll (fuel : nat) (off : nat) : apl (outcome bool) :=
  p ← gets (poll_at off);
  _ <~ (if has_flag (p_revents p) POLLIN then
          _ <~ aplogd_io_read_data fuel off;
          total (clear_revents off POLLIN)
        else mret (Done tt));
  p ← gets (poll_at off);
  if has_flag (p_revents p) POLLERR || has_flag (p_revents p) POLLHUP then
    aplogd_io_handle_pollerr off ;;
    clear_revents off POLLERR ;;
    clear_revents off POLLHUP ;;
    mret (Done true)
  else mret (Done false).
