(* ===== verification/AplogMain.v ===== *)
(** * aplogd: configuration, start and main loop
    ([src/aplogd/aplogd.c] and the main loop of [log_io.c]) *)

From S2P Require Import Prelude.
From S2P Require Import CString.
From S2P Require Import AplogState.
From S2P Require Import AplogUtil.
From S2P Require Import AplogBuf.
From S2P Require Import AplogIo.
From Stdlib Require Import Ascii.

(** ** Start as root *)

(** The loop of [aplogd_erase_dir_contents]; its buffer is FILENAME_MAX long. *)
Fixpoint erase_entries (dir : string) (l : list string) : apl unit :=
  match l with
  | [] => mret tt
  | name :: l =>
      if dots name then erase_entries dir l
      else call (Remove (slash dir name)) ;; erase_entries dir l
  end.

Definition aplogd_erase_dir_contents (dir_path : string) : apl unit :=
  o ← call (Opendir dir_path);
  if r_ret o =? 0 then mret tt else
  erase_entries dir_path (dir_entries o) ;;
  call (Closedir dir_path) ;; mret tt.

(** Out-parameter 2 of [Stat] is the owner. *)
Definition aplogd_erase_legacy_files : apl unit :=
  x ← call (Stat "/data/logger/aplogd.db");
  when ((r_ret x =? 0) && (aux 2 x =? 0))
    (aplogd_erase_dir_contents "/data/logger/last" ;;
     aplogd_erase_dir_contents "/data/logger").

(** The changes of identity, in their order; the daemon exits at the first that
    fails. *)
Definition drop_sequence : list apl_call :=
  [Setgroups ["AID_SYSTEM"; "AID_SDCARD_RW"; "AID_MOUNT"]; Setgid "AID_LOG";
   Setuid "AID_LOG"; Capset "CAP_SYS_ADMIN"].

Fixpoint drop_each (l : list apl_call) : apl (outcome unit) :=
  match l with
  | [] => mret (Done tt)
  | c :: l => r ← call c; if r_ret r =? -1 then mret Exited else drop_each l
  end.

Definition aplogd_drop_root : apl (outcome unit) :=
  u ← call Getuid;
  if negb (r_ret u =? 0) then mret (Done tt) else
  call Prctl_keepcaps ;;
  drop_each drop_sequence.

(** ** Configuration *)

Definition MAX_ARGC : nat := 12.

Definition cfg_delim (c : ascii) : bool := (c =? " ")%char || (c =? ",")%char.

(** [strtok] with the delimiters " ,": the token and what follows it. *)
Fixpoint strtok_token (s : string) : string * string :=
  match s with
  | "" => ("", "")
  | String c s =>
      if cfg_delim c then ("", s)
      else let '(w, rest) := strtok_token s in (String c w, rest)
  end.

Fixpoint strtok (s : string) : option (string * string) :=
  match s with
  | "" => None
  | String c s' => if cfg_delim c then strtok s' else Some (strtok_token s)
  end.

(** The loop of [build_argv] with [k] entries left below MAX_ARGC. *)
Fixpoint argv_loop (k : nat) (s : string) : list string :=
  match k with
  | O => []
  | S k =>
      match strtok s with
      | None => []
      | Some (w, rest) => w :: argv_loop k rest
      end
  end.

(** The arguments before the terminating NULL. *)
Definition build_argv (args : string) : list string :=
  "aplogd" :: argv_loop (MAX_ARGC - 1) args.

(** One result of [getopt_long]: the option and [optarg]. *)
Definition cfg_option (o : ascii * string) : apl (outcome unit) :=
  let '(cmd, optarg) := o in
  if (cmd =? "c")%char then modify (fun v => v <| usr_cfg_collect := optarg |>) ;; mret (Done tt)
  else if (cmd =? "f")%char then modify (fun v => v <| usr_cfg_format := optarg |>) ;; mret (Done tt)
  else if (cmd =? "s")%char then
    let n := u32 (atoi optarg) in
    modify (fun v => v <| usr_cfg_size := if n <=? 0 then DEFAULT_USR_CFG_SIZE else n |>) ;;
    mret (Done tt)
  else if (cmd =? "b")%char then
    let n := u32 (atoi optarg) in
    modify (fun v => v <| usr_cfg_backup :=
      if n <=? 0 then DEFAULT_USR_CFG_MAX_DIR_COUNT else n |>) ;;
    mret (Done tt)
  else if (cmd =? "q")%char then modify (fun v => v <| usr_cfg_seq := 1 |>) ;; mret (Done tt)
  else if (cmd =? "x")%char then modify (fun v => v <| usr_cfg_ext := 1 |>) ;; mret (Done tt)
  else mret Exited.

Section Config.
(** [getopt_long] of the C library on an argument vector: the options it
    returns, one after the other. *)
Variable getopt_long : list string -> list (ascii * string).

Definition parse_usr_cfg (argv : list string) : apl (outcome unit) :=
  modify (fun v => v <| usr_cfg_seq := 0 |>) ;;
  modify (fun v => v <| usr_cfg_ext := 0 |>) ;;
  for_each_o (getopt_long argv) cfg_option.

Definition aplogd_load_usr_cfg (argv : list string) : apl (outcome unit) :=
  if (1 <? length argv)%nat then parse_usr_cfg argv
  else
    p ← call (Property_get "persist.log.aplogd.config" "");
    let cfg_prop := c_str (r_data p) in
    if str_eq cfg_prop "" then mret (Done tt)
    else parse_usr_cfg (build_argv cfg_prop).
End Config.

Definition set_storage_path (s : STORAGE_T) (p : string) : apl unit :=
  modify (fun v => v <| storage_path :=
    fun t => if bool_decide (t = s) then Some p else storage_path v t |>).

(** An environment variable that is not set answers with 0 (NULL). *)
Definition aplogd_init_storage_refs : apl unit :=
  set_storage_path STORAGE_USERDATA "/data" ;;
  ext ← call (Getenv "EXTERNAL_STORAGE");
  when (negb (r_ret ext =? 0)) (set_storage_path STORAGE_EXTERNAL (r_data ext)) ;;
  sec ← call (Getenv "SECONDARY_STORAGE");
  when (negb (r_ret sec =? 0))
    (set_storage_path STORAGE_SECONDARY (take_until ":" (r_data sec))) ;;
  modify (fun v => v <| output_path := fun t =>
    match storage_path v t with
    | Some p => Some (p +:+ "/logger")
    | None => output_path v t
    end |>).

(** [setLogFormat] sets the format of liblog. *)
Definition aplogd_config_load : apl unit :=
  let flag i c := v ← gets id;
    set_io i (fun x => x <| collect_flag := aplogd_is_collected c v |>) in
  flag 0%nat "m"%char ;; flag 1%nat "r"%char ;; flag 2%nat "e"%char ;;
  flag 3%nat "s"%char ;; flag 4%nat "k"%char ;;
  fmt ← gets usr_cfg_format;
  call (Set_format fmt) ;;
  set_io VOLD_INDEX (fun x => x <| collect_flag := true |>) ;;
  modify (fun v => v <| current_storage := aplogd_calc_storage_pref v |>) ;;
  modify (fun v => v <| logfile_max := aplogd_get_filesize (current_storage v) v |>).

(** ** The main loop *)

(** [if (STORAGE_SECONDARY == g_current_storage) ...] *)
Definition boot_secondary (fuel : nat) : apl (outcome unit) :=
  cur ← gets current_storage;
  if negb (bool_decide (cur = STORAGE_SECONDARY)) then mret (Done tt) else
  w ← is_storage_writable STORAGE_SECONDARY;
  if negb w then modify (fun v => v <| current_storage := STORAGE_EXTERNAL |>) ;; mret (Done tt)
  else
    _ <~ aplogd_log_save fuel STORAGE_SECONDARY;
    r ← aplogd_output_setup STORAGE_SECONDARY;
    when (negb (r =? 0)) (modify (fun v => v <| current_storage := STORAGE_EXTERNAL |>)) ;;
    mret (Done tt).

Definition boot_external (fuel : nat) : apl (outcome unit) :=
  cur ← gets current_storage;
  if negb (bool_decide (cur = STORAGE_EXTERNAL)) then mret (Done tt) else
  _ <~ aplogd_log_save fuel STORAGE_EXTERNAL;
  r ← aplogd_output_setup STORAGE_EXTERNAL;
  when (negb (r =? 0)) (modify (fun v => v <| current_storage := STORAGE_USERDATA |>)) ;;
  mret (Done tt).

Definition aplogd_io_boot_finish (fuel : nat) : apl (outcome Z) :=
  f ← gets config_finish;
  when (negb f) (aplogd_config_load ;; modify (fun v => v <| config_finish := true |>)) ;;
  _ <~ boot_secondary fuel;
  _ <~ boot_external fuel;
  cur ← gets current_storage;
  r1 ← (if bool_decide (cur = STORAGE_USERDATA)
        then aplogd_output_setup STORAGE_USERDATA else mret 0);
  r2 ← aplogd_input_setup;
  mret (Done (if negb (r1 =? 0) || negb (r2 =? 0) then -1 else 0)).

(** [if(1 == __atomic_swap(0, &config_changed)) ...] *)
Definition reload_config : apl unit :=
  changed ← gets config_changed;
  modify (fun v => v <| config_changed := false |>) ;;
  if negb changed then mret tt else
  v ← gets id;
  let ret := aplogd_calc_storage_pref v in
  when (negb (bool_decide (current_storage v = ret)))
    (change_storage (current_storage v) ret) ;;
  aplogd_config_load ;;
  for_each log_indexes (fun i =>
    x ← gets (io_at i);
    if negb (collect_flag x) then aplogd_io_remove_poll_fd i
    else when (0 <=? input_fd x) (aplogd_io_add_poll_fd (input_fd x) POLLIN i)).

(** [poll] stores the returned events; negative descriptors get none. *)
Definition poll_result (r : resp) (l : list pollfd) : list pollfd :=
  if r_ret r <? 0 then l
  else imap (fun i p => PollFd (p_fd p) (p_events p)
               (if p_fd p <? 0 then 0 else aux i r)) l.

(** [while (poll_ret > 0 && i < APLOGD_MAX_IO_FDS)]: an entry that was removed is
    looked at again.  [n] bounds the iterations. *)
Fixpoint dispatch (fuel n : nat) (poll_ret : Z) (i : nat) : apl (outcome unit) :=
  if (poll_ret <=? 0) || (APLOGD_MAX_IO_FDS <=? i)%nat then mret (Done tt) else
  match n with
  | O => mret NoFuel
  | S n =>
      p ← gets (poll_at i);
      if p_revents p =? 0 then dispatch fuel n poll_ret (S i)
      else
        removed <~ aplogd_io_handle_poll fuel i;
        dispatch fuel n (poll_ret - 1) (if removed then i else S i)
  end.

(** The body of the main loop.  Twelve iterations of [dispatch] are enough. *)
Definition aplogd_iteration (fuel : nat) : apl (outcome unit) :=
  reload_config ;;
  v ← gets id;
  r ← call (Poll (p_fd <$> io_fd v) (poll_timeout v));
  modify (fun v => v <| io_fd := poll_result r (io_fd v) |>) ;;
  _ <~ (if r_ret r =? 0 then
          _ <~ aplogd_rambuf_outputall fuel;
          modify (fun v => v <| poll_timeout := -1 |>) ;;
          modify (fun v => v <| unwritten_bytes := 0 |>) ;;
          mret (Done tt)
        else dispatch fuel 12 (r_ret r) 0);
  x ← gets (io_at VOLD_INDEX);
  when (input_fd x <? 0) open_vold ;;
  mret (Done tt).

(** What [aplogd_log_io] does before its loop: true when the loop is entered. *)
Definition log_io_start (fuel : nat) : apl (outcome bool) :=
  _ <~ aplogd_log_save fuel STORAGE_SECONDARY;
  _ <~ aplogd_log_save fuel STORAGE_USERDATA;
  r <~ aplogd_io_boot_finish fuel;
  if r <? 0 then aplogd_io_cleanup ;; mret (Done false)
  else mret (Done true).

(** [main] after the change of identity. *)
Definition main_rest (getopt_long : list string -> list (ascii * string))
    (fuel : nat) (argv : list string) : apl (outcome bool) :=
  aplogd_init_storage_refs ;;
  _ <~ aplogd_load_usr_cfg getopt_long argv;
  aplogd_io_array_init ;;
  call Open_event_tag_map ;;
  r ← call (Signal "SIGUSR1");
  if r_ret r =? -1 then mret (Done false) else
  r ← call (Signal "SIGTERM");
  if r_ret r =? -1 then mret (Done false) else
  _ <~ aplogd_rambuf_init;
  log_io_start fuel.

Definition main_start (getopt_long : list string -> list (ascii * string))
    (fuel : nat) (argv : list string) : apl (outcome bool) :=
  aplogd_erase_legacy_files ;;
  _ <~ aplogd_drop_root;
  main_rest getopt_long fuel argv.

(** [aplogd_continue_running] stays 1: the daemon runs iterations of the loop,
    with the signal handler for SIGUSR1 between any two of them, until it
    exits. *)
Inductive apl_step (e : env apl_call) (fuel : nat)
    : sys apl_call apl_vars -> sys apl_call apl_vars -> Prop :=
  | step_iteration s s' :
      aplogd_iteration fuel e s = (Done tt, s') -> apl_step e fuel s s'
  | step_sigusr1 s :
      apl_step e fuel s (Sys _ _ ((st s) <| config_changed := true |>) (tr s)).

(** The states of the daemon in its main loop. *)
Definition apl_running getopt_long (e : env apl_call) (fuel : nat) (argv : list string)
    (s : sys apl_call apl_vars) : Prop :=
  exists s0, main_start getopt_long fuel argv e (Sys _ _ apl_start []) = (Done true, s0) /\
    rtc (apl_step e fuel) s0 s.
