(* ===== verification/AplogInv.v ===== *)
(** * aplogd: the invariant of the RAM buffers

    [buffers_ok] holds in every state of the daemon: the two arrays have their
    six entries and no input buffer holds more than its 8192 bytes, so that the
    unchecked [memcpy]s of [LogfilterAndBuffering] and [aplogd_io_read_data]
    stay inside the allocation. *)

From S2P Require Import Prelude.
From S2P Require Import CString.
From S2P Require Import AplogState.
From S2P Require Import AplogUtil.
From S2P Require Import AplogBuf.
From S2P Require Import AplogIo.
From S2P Require Import AplogMain.
From Stdlib Require Import Ascii.

Definition buf_len (x : log_io_struct) : Z := strlen (default "" (io_buf x)).

Definition buffers_ok (v : apl_vars) : Prop :=
  length (io_array v) = APLOGD_MAX_IO_FDS /\ length (io_fd v) = APLOGD_MAX_IO_FDS /\
  Forall (fun x => buf_len x <= aplogd_ram_buff_size) (io_array v).

(** The relation of the frames: the invariant carries over. *)
Definition keeps_buffers : relation apl_vars := fun v v' => buffers_ok v -> buffers_ok v'.

#[export] Instance keeps_buffers_pre : PreOrder keeps_buffers.
Proof. split; [intros v Hv; exact Hv|intros v1 v2 v3 H1 H2 H; auto]. Qed.

Abbreviation Bufs m := (Framed keeps_buffers m).

#[export] Instance framed_andthen {A B} (m : apl (outcome A)) (k : A -> apl (outcome B)) :
  Bufs m -> (forall a, Bufs (k a)) -> Bufs (andthen m k).
Proof. intros Hm Hk. unfold andthen. apply framed_bind; [apply _|done|]. intros [a| |]; apply _. Qed.

#[export] Instance framed_for_each_o {X} (l : list X) (f : X -> apl (outcome unit)) :
  (forall x, Bufs (f x)) -> Bufs (for_each_o l f).
Proof. intros Hf. induction l; cbn; apply _. Qed.

#[export] Instance framed_total {A} (m : apl A) : Bufs m -> Bufs (total m).
Proof. unfold total. apply _. Qed.

(** An assignment to an entry that does not lengthen its buffer. *)
Lemma bufs_set_io i f :
  (forall x, buf_len x <= aplogd_ram_buff_size -> buf_len (f x) <= aplogd_ram_buff_size) ->
  Bufs (set_io i f).
Proof.
  intros Hf. apply framed_modify. intros v (H1 & H2 & H3). split_and!; cbn; [|done|].
  - by rewrite length_alter.
  - apply Forall_alter; [done|]. intros x ?. apply Hf.
Qed.

Lemma bufs_set_poll i p : Bufs (set_poll i p).
Proof.
  apply framed_modify. intros v (H1 & H2 & H3). split_and!; cbn; [done| |done].
  by rewrite length_insert.
Qed.
#[export] Existing Instance bufs_set_poll.

(** [bufs]: walk over a program; assignments to an entry are closed by
    computing the length of its new buffer. *)
Ltac bufs :=
  repeat lazymatch goal with
  | |- Framed _ (andthen _ _) => apply framed_andthen; [|intros ?]
  | |- Framed _ (total _) => apply framed_total
  | |- Framed _ (for_each_o _ _) => apply framed_for_each_o; intros ?
  | |- Framed _ (for_each _ _) => apply framed_for_each; [apply _|intros ?]
  | |- Framed _ (mbind _ _) => apply framed_bind; [apply _| |intros ?]
  | |- Framed _ (when _ _) => apply framed_when; [apply _|]
  | |- Framed _ (set_io _ _) =>
      first [ apply _ | apply bufs_set_io; intros ? ?; first [done | cbn; lia] ]
  | |- Framed _ (modify _) => first [ apply _ | apply framed_modify; intros ? H; exact H ]
  | |- Framed _ (if ?b then _ else _) => destruct b
  | |- Framed _ (match ?x with _ => _ end) => destruct x
  | |- Framed _ _ => first [ progress cbv zeta | apply _ ]
  end.

#[export] Instance bufs_rambuf_reset i : Bufs (rambuf_reset i).
Proof.
  apply bufs_set_io. intros x _. unfold buf_len. cbn. by destruct (io_buf x).
Qed.

Lemma bufs_of_wp {A} (m : apl A) :
  (forall e s, buffers_ok (st s) -> wp m e s (fun _ s' => buffers_ok (st s'))) -> Bufs m.
Proof. intros H e s. exact (H e s). Qed.

Lemma wp_bufs {A} (m : apl A) `{!Bufs m} e s :
  buffers_ok (st s) -> wp m e s (fun _ s' => buffers_ok (st s')).
Proof. exact (framed_rel (R := keeps_buffers) (m := m) e s). Qed.

(** ** Utilities and files *)

#[export] Instance bufs_gzip s : Bufs (aplogd_util_gzip s).
Proof. unfold aplogd_util_gzip. bufs. Qed.

#[export] Instance bufs_move_entries a b c l r : Bufs (move_entries a b c l r).
Proof. revert r. induction l; intros r; cbn [move_entries]; bufs. Qed.

#[export] Instance bufs_move a b c : Bufs (aplogd_util_move a b c).
Proof. unfold aplogd_util_move. bufs. Qed.

Lemma bufs_remove_entries rec d l : (forall f, Bufs (rec f)) -> Bufs (remove_entries rec d l).
Proof. intros Hr. induction l; cbn [remove_entries]; bufs. Qed.

#[export] Instance bufs_remove_dir n d : Bufs (aplogd_remove_dir n d).
Proof.
  revert d. induction n as [|n IH]; intros d; cbn [aplogd_remove_dir]; bufs. by apply bufs_remove_entries.
Qed.

#[export] Instance bufs_scan d l sc : Bufs (cleardir_scan d l sc).
Proof. revert sc. induction l; intros sc; cbn [cleardir_scan]; bufs. Qed.

#[export] Instance bufs_cleardir_loop n d m r : Bufs (cleardir_loop n d m r).
Proof. revert r. induction n; intros r; cbn [cleardir_loop]; bufs. Qed.

#[export] Instance bufs_copy n a b : Bufs (copy_loop n a b).
Proof. induction n; cbn [copy_loop]; bufs. Qed.

#[export] Instance bufs_move_logs n a b : Bufs (aplogd_move_logs n a b).
Proof. unfold aplogd_move_logs, move_log. bufs. Qed.

#[export] Instance bufs_close_one i : Bufs (close_one i).
Proof. unfold close_one. bufs. Qed.

#[export] Instance bufs_close_output : Bufs aplogd_close_output.
Proof. unfold aplogd_close_output, close_one. bufs. Qed.

#[export] Instance bufs_open_outputs p l r : Bufs (open_outputs p l r).
Proof. revert r. induction l; intros r; cbn [open_outputs]; bufs. Qed.

#[export] Instance bufs_output_setup s : Bufs (aplogd_output_setup s).
Proof. unfold aplogd_output_setup. bufs. Qed.

#[export] Instance bufs_shift p i k r : Bufs (shift_backups p i k r).
Proof. revert r. induction k; intros r; cbn [shift_backups]; bufs. Qed.

#[export] Instance bufs_file_backup i s : Bufs (aplogd_io_file_backup i s).
Proof. unfold aplogd_io_file_backup. bufs. Qed.

#[export] Instance bufs_backup_each s l r : Bufs (backup_each s l r).
Proof. revert r. induction l; intros r; cbn [backup_each]; bufs. Qed.

#[export] Instance bufs_write_loop n i k : Bufs (write_loop n i k).
Proof. revert k. induction n; intros k; cbn [write_loop]; bufs. Qed.

#[export] Instance bufs_rotate : Bufs rambuf_rotate.
Proof. unfold rambuf_rotate, aplogd_io_backupall. bufs. Qed.

#[export] Instance bufs_rambuf_output n i : Bufs (aplogd_rambuf_output n i).
Proof. unfold aplogd_rambuf_output. bufs. Qed.

#[export] Instance bufs_outputall n : Bufs (aplogd_rambuf_outputall n).
Proof. unfold aplogd_rambuf_outputall. bufs. Qed.

#[export] Instance bufs_account n r : Bufs (account n r).
Proof. unfold account. bufs. Qed.

(** ** The two places that fill a buffer *)

(** Appending what the free space allows. *)
Lemma append_buf_ok i b v :
  buffers_ok v -> strlen b <= aplogd_rambuf_space i v ->
  buffers_ok (v <| io_array := alter (fun x => x <| io_buf := (fun a => a +:+ b) <$> io_buf x |>)
                                 i (io_array v) |>).
Proof.
  intros (H1 & H2 & H3) Hb. split_and!; cbn; [by rewrite length_alter|done|].
  apply Forall_alter; [done|]. intros x Hx Hl. unfold buf_len in *. cbn.
  destruct (io_buf x) as [a|] eqn:Ea; cbn; [|done].
  unfold aplogd_rambuf_space, aplogd_rambuf_bytes_filled, io_at in Hb. rewrite Hx in Hb.
  cbn in Hb. rewrite Ea in Hb. cbn in Hb, Hl.
  unfold strlen in *. rewrite str_length_app, Nat2Z.inj_add.
  case_match; unfold aplogd_ram_buff_size in *; lia.
Qed.

Lemma filled_bound i v :
  buffers_ok v -> 0 <= aplogd_rambuf_bytes_filled i v <= aplogd_ram_buff_size.
Proof.
  intros (_ & _ & H). unfold aplogd_rambuf_bytes_filled, io_at. split; [unfold strlen; lia|].
  change (buf_len (default io_closed (io_array v !! i)) <= aplogd_ram_buff_size).
  destruct (io_array v !! i) as [x|] eqn:E; [|vm_compute; discriminate].
  exact (Forall_lookup_1 _ _ _ _ H E).
Qed.

Lemma space_bounds i v : buffers_ok v -> 0 <= aplogd_rambuf_space i v <= aplogd_ram_buff_size.
Proof.
  intros H. pose proof (filled_bound i v H). unfold aplogd_rambuf_space. case_match; lia.
Qed.

#[export] Instance bufs_filter i : Bufs (LogfilterAndBuffering i).
Proof.
  apply bufs_of_wp. intros e s HI.
  unfold LogfilterAndBuffering, append_buf, set_io. wp_go; cbn [st]; try done.
  apply append_buf_ok; [done|]. pose proof (space_bounds i (st s) HI).
  unfold u32, aplogd_ram_buff_size in *. rewrite Z.mod_small in * by lia. lia.
Qed.

#[export] Instance bufs_read_logger f n fd i k : Bufs (read_logger f n fd i k).
Proof. revert k. induction n; intros k; cbn [read_logger]; bufs. Qed.

#[export] Instance bufs_read_kernel f n fd i r : Bufs (read_kernel f n fd i r).
Proof.
  revert r. induction n as [|n IH]; intros r; cbn [read_kernel]; [bufs|].
  destruct (r_ret r <=? 0) eqn:E; [apply _|]. apply bufs_of_wp. intros e s HI.
  pose proof (space_bounds i (st s) HI). apply wp_bind, wp_gets.
  destruct (_ && _) eqn:Eg; [|exact HI]. apply wp_bind, wp_modify.
  apply wp_bufs; [bufs|]. apply append_buf_ok; [done|].
  unfold strlen. rewrite buf_bytes_length. lia.
Qed.

(** ** Storage changes, configuration and the main loop *)

#[export] Instance bufs_change_storage a b : Bufs (change_storage a b).
Proof. unfold change_storage, switch_storage. bufs. Qed.

#[export] Instance bufs_gzip_existing o l c : Bufs (gzip_existing o l c).
Proof. revert c. induction l; intros c; cbn [gzip_existing]; bufs. Qed.

#[export] Instance bufs_log_save n s : Bufs (aplogd_log_save n s).
Proof.
  unfold aplogd_log_save, log_save_userdata, log_save_external, aplogd_util_cleardir. bufs.
Qed.

#[export] Instance bufs_handle_vold n m : Bufs (handle_vold n m).
Proof.
  unfold handle_vold, vold_secondary_mounted, vold_secondary_gone, vold_external_mounted,
    vold_external_gone, move_if_seq. bufs.
Qed.

#[export] Instance bufs_handle_poll n i : Bufs (aplogd_io_handle_poll n i).
Proof.
  unfold aplogd_io_handle_poll, aplogd_io_read_data, aplogd_io_handle_pollerr,
    aplogd_io_remove_poll_fd, clear_revents. bufs.
Qed.

#[export] Instance bufs_dispatch f n k i : Bufs (dispatch f n k i).
Proof. revert k i. induction n; intros k i; cbn [dispatch]; bufs. Qed.

#[export] Instance bufs_config_load : Bufs aplogd_config_load.
Proof. unfold aplogd_config_load. bufs. Qed.

#[export] Instance bufs_reload : Bufs reload_config.
Proof. unfold reload_config, aplogd_io_remove_poll_fd, aplogd_io_add_poll_fd. bufs. Qed.

#[export] Instance bufs_open_vold : Bufs open_vold.
Proof. unfold open_vold, aplogd_io_add_poll_fd. bufs. Qed.

Lemma bufs_poll_result r : Bufs (modify (fun v => v <| io_fd := poll_result r (io_fd v) |>) : apl unit).
Proof.
  apply framed_modify. intros v (H1 & H2 & H3). split_and!; cbn; [done| |done].
  unfold poll_result. case_match; [done|]. by rewrite length_imap.
Qed.
#[export] Existing Instance bufs_poll_result.

#[export] Instance bufs_iteration n : Bufs (aplogd_iteration n).
Proof. unfold aplogd_iteration. bufs. Qed.

#[export] Instance bufs_open_inputs l r : Bufs (open_inputs l r).
Proof. revert r. induction l; intros r; cbn [open_inputs]; unfold aplogd_io_fd_setup, aplogd_io_add_poll_fd; bufs. Qed.

#[export] Instance bufs_log_io_start n : Bufs (log_io_start n).
Proof.
  unfold log_io_start, aplogd_io_cleanup, aplogd_io_boot_finish, boot_secondary,
    boot_external, is_storage_writable, aplogd_input_setup. bufs.
Qed.

#[export] Instance bufs_erase l d : Bufs (erase_entries d l).
Proof. induction l; cbn [erase_entries]; bufs. Qed.

#[export] Instance bufs_drop_each l : Bufs (drop_each l).
Proof. induction l; cbn [drop_each]; bufs. Qed.

#[export] Instance bufs_main g n a : Bufs (main_start g n a).
Proof.
  unfold main_start, main_rest, aplogd_erase_legacy_files, aplogd_erase_dir_contents, aplogd_drop_root,
    aplogd_init_storage_refs, set_storage_path, aplogd_load_usr_cfg, parse_usr_cfg, cfg_option,
    aplogd_io_array_init, aplogd_rambuf_init. bufs.
Qed.
