(* ===== verification/AplogThms.v ===== *)
(** * aplogd: correctness of the log daemon *)

From S2P Require Import Prelude.
From S2P Require Import CString.
From S2P Require Import AplogState.
From S2P Require Import AplogUtil.
From S2P Require Import AplogBuf.
From S2P Require Import AplogIo.
From S2P Require Import AplogMain.
From S2P Require Import AplogInv.
From Stdlib Require Import Ascii.

(** ** The buffers of the running daemon *)

Lemma apl_start_ok : buffers_ok apl_start.
Proof. split_and!; [done..|]. repeat constructor; vm_compute; discriminate. Qed.

Lemma apl_step_ok e n s s' : apl_step e n s s' -> buffers_ok (st s) -> buffers_ok (st s').
Proof.
  destruct 1 as [s s' Hs|s]; [|done]. intros HI.
  pose proof (wp_bufs (aplogd_iteration n) e s HI) as H. unfold wp in H. by rewrite Hs in H.
Qed.

(** C30.  Whatever the kernel, liblog and vold answer, in every state of the main
    loop the arrays have their six entries, no input buffer holds more than its
    8192 bytes, and the free space that the two [memcpy]s rely on is never the
    error value -1. *)
Theorem apl_buffers_bounded getopt_long e fuel argv s :
  apl_running getopt_long e fuel argv s ->
  buffers_ok (st s) /\ (forall i, 0 <= aplogd_rambuf_space i (st s) <= 8192).
Proof.
  intros (s0 & H0 & Hr).
  assert (buffers_ok (st s0)) as HI.
  { pose proof (wp_bufs (main_start getopt_long fuel argv) e (Sys _ _ apl_start []) apl_start_ok)
      as H. unfold wp in H. by rewrite H0 in H. }
  assert (buffers_ok (st s)) as Hs.
  { clear H0. induction Hr as [|x y z Hxy _ IH]; [done|]. apply IH. by eapply apl_step_ok. }
  split; [done|]. intros i. by apply space_bounds.
Qed.

(** ** Writing a buffer *)

Definition is_done {A} (o : outcome A) : Prop := match o with Done _ => True | _ => False end.

Lemma write_loop_done fuel i k : k <= 0 -> write_loop fuel i k = mret (Done true).
Proof. intros H. destruct fuel; cbn [write_loop]; by rewrite (proj2 (Z.leb_le _ _) H). Qed.

Lemma write_loop_total fuel i k e s :
  (forall n fd b, r_ret (e n (Write fd b)) <> 0) -> k <= Z.of_nat fuel ->
  wp (write_loop fuel i k) e s (fun o _ => is_done o).
Proof.
  intros Hw. revert k s. induction fuel as [|fuel IH]; intros k s Hk.
  { by rewrite write_loop_done by lia. }
  cbn [write_loop]. destruct (k <=? 0); [by apply wp_ret|].
  apply wp_bind, wp_gets, wp_bind, wp_call. intros w ->. cbv zeta.
  match goal with |- context [e ?n (Write ?fd ?b)] => specialize (Hw n fd b) end.
  case_match.
  - apply wp_bind, wp_always. intros ? ?. apply wp_bind, wp_always. intros ? ?. by apply wp_ret.
  - apply wp_bind, wp_modify. apply IH. lia.
Qed.

Lemma rambuf_output_total fuel i e s :
  buffers_ok (st s) -> (forall n fd b, r_ret (e n (Write fd b)) <> 0) ->
  aplogd_ram_buff_size <= Z.of_nat fuel -> wp (aplogd_rambuf_output fuel i) e s (fun o _ => is_done o).
Proof.
  intros HI Hw Hf. unfold aplogd_rambuf_output. apply wp_bind, wp_gets, wp_bind, wp_gets.
  destruct (_ || _) eqn:E1; [by apply wp_ret|]. case_match.
  { apply wp_bind, wp_always. intros ? ?. by apply wp_ret. }
  apply wp_andthen. eapply wp_wand.
  { apply write_loop_total; [done|]. pose proof (filled_bound i (st s) HI). lia. }
  intros [ok| |] s1 H1; try done. destruct ok; [|by apply wp_ret]. cbn [negb].
  apply wp_bind, wp_always. intros ? ?. apply wp_bind, wp_always. intros ? ?. by apply wp_ret.
Qed.

(** Output terminates: when [write] never answers 0 and the fuel covers the
    8192 bytes of a buffer, [aplogd_rambuf_outputall] returns, short writes,
    errors and rotations included. *)
Theorem outputall_terminates fuel e s :
  buffers_ok (st s) -> (forall n fd b, r_ret (e n (Write fd b)) <> 0) ->
  aplogd_ram_buff_size <= Z.of_nat fuel ->
  wp (aplogd_rambuf_outputall fuel) e s (fun o s' => o = Done tt /\ buffers_ok (st s')).
Proof.
  intros HI Hw Hf. unfold aplogd_rambuf_outputall. revert s HI.
  generalize log_indexes as l. induction l as [|i l IH]; intros s HI; [by apply wp_ret|].
  cbn [for_each_o]. apply wp_andthen, wp_andthen.
  eapply wp_wand; [apply wp_and; [by apply rambuf_output_total|exact (wp_bufs _ e s HI)]|].
  intros [a| |] s' [Ha HI']; try done. apply wp_ret. by apply IH.
Qed.

(** The bytes that [fd] accepted in a trace. *)
Fixpoint accepted (fd : Z) (t : list (apl_call * resp)) : string :=
  match t with
  | (Write f b, r) :: t =>
      (if (f =? fd) && (0 <=? r_ret r) then str_take (Z.to_nat (r_ret r)) b else "") +:+
      accepted fd t
  | _ :: t => accepted fd t
  | [] => ""
  end.

(** A buffer that is not empty, with an open output. *)
Definition pending (i : nat) (fd : Z) (b : string) (v : apl_vars) : Prop :=
  exists x, io_array v !! i = Some x /\ io_buf x = Some b /\ b <> "" /\
    output_fd x = fd /\ 0 <= fd.

Definition emptied (i : nat) (v : apl_vars) : list log_io_struct :=
  alter (fun x => x <| io_buf := (fun _ => "") <$> io_buf x |>) i (io_array v).

Lemma pending_at i fd b v : pending i fd b v -> io_at i v = LogIo
  (input_fd (io_at i v)) fd (collect_flag (io_at i v)) (Some b).
Proof.
  intros (x & Hx & Hb & _ & Hfd & _). unfold io_at. rewrite Hx. cbn.
  destruct x. cbn in *. congruence.
Qed.

Lemma str_take_take n b : str_take n (str_take n b) = str_take n b.
Proof. revert b. induction n as [|n IH]; intros [|c b]; cbn; try done. by rewrite IH. Qed.

Lemma str_take_strlen b : str_take (Z.to_nat (strlen b)) b = b.
Proof. unfold strlen. by rewrite Nat2Z.id, str_take_all. Qed.

Lemma strlen_pos b : b <> "" -> 0 < strlen b.
Proof. destruct b; [done|]. unfold strlen. cbn. lia. Qed.

Lemma rambuf_output_pending fuel i fd b e s :
  pending i fd b (st s) ->
  aplogd_rambuf_output fuel i e s =
    andthen (write_loop fuel i (strlen b)) (fun ok =>
      if negb ok then mret (Done (-1)) else
      rambuf_reset i ;; rambuf_rotate ;; mret (Done 0)) e s.
Proof.
  intros HP. pose proof HP as (x & Hx & Hb & Hne & Hfd & Hge).
  unfold aplogd_rambuf_output, aplogd_rambuf_bytes_filled.
  unfold mbind at 1 2, prog_bind at 1 2, gets at 1 2. rewrite (pending_at _ _ _ _ HP).
  cbn [io_buf output_fd default from_option id]. pose proof (strlen_pos b Hne).
  rewrite bool_decide_true by done. cbn [negb orb].
  rewrite (proj2 (Z.ltb_lt 0 (strlen b))) by lia. cbn [negb].
  by rewrite (proj2 (Z.ltb_ge fd 0)) by lia.
Qed.

(** A buffer reaches its file: when the kernel accepts the whole buffer and
    the size limit is not reached, [aplogd_rambuf_output] makes exactly one call,
    the write of the buffer to its file, and then empties this buffer and counts
    its bytes; every other variable keeps its value. *)
Theorem rambuf_output_delivers fuel i fd b e s :
  pending i fd b (st s) -> (0 < fuel)%nat ->
  0 <= total_write_size (st s) -> total_write_size (st s) + strlen b < logfile_max (st s) ->
  logfile_max (st s) < 4294967296 ->
  r_ret (e (length (tr s)) (Write fd b)) = strlen b ->
  aplogd_rambuf_output fuel i e s =
    (Done 0, Sys _ _
      ((st s) <| total_write_size := total_write_size (st s) + strlen b |>
              <| io_array := emptied i (st s) |>)
      (tr s ++ [(Write fd b, e (length (tr s)) (Write fd b))])).
Proof.
  intros HP Hf Ht Hm Hmax Hw. rewrite (rambuf_output_pending _ _ _ _ _ _ HP).
  destruct fuel as [|fuel]; [lia|]. unfold andthen, mbind, prog_bind. cbn [write_loop].
  pose proof HP as (x & Hx & Hb & Hne & Hfd & Hge). pose proof (strlen_pos b Hne).
  rewrite (proj2 (Z.leb_gt (strlen b) 0)) by lia.
  unfold mbind, prog_bind, gets, call. rewrite (pending_at _ _ _ _ HP).
  cbn [io_buf output_fd default from_option id]. rewrite str_take_strlen.
  cbv zeta. rewrite Hw. rewrite (proj2 (Z.ltb_ge (strlen b) 0)) by lia.
  rewrite Z.sub_diag, write_loop_done by lia.
  unfold modify, mret, prog_ret, rambuf_reset, set_io, rambuf_rotate, modify, mbind, prog_bind, gets, u32.
  cbn [negb st tr]. rewrite Z.mod_small by lia. cbn [id logfile_max total_write_size].
  cbn. rewrite (proj2 (Z.leb_gt _ _)) by lia. done.
Qed.

(** A short write corrupts the file: when the kernel accepts only the first
    [k] of the [n] bytes and then the rest, the second write starts again at the
    beginning of the buffer, so that the file receives the first [k] bytes and
    then the first [n - k] bytes; the last [k] bytes are lost. *)
Theorem short_write_resends fuel i fd b k e s :
  pending i fd b (st s) -> (2 <= fuel)%nat -> 0 < k < strlen b ->
  r_ret (e (length (tr s)) (Write fd b)) = k ->
  r_ret (e (S (length (tr s))) (Write fd (str_take (Z.to_nat (strlen b - k)) b))) = strlen b - k ->
  wp (write_loop fuel i (strlen b)) e s (fun o s' =>
    o = Done true /\ exists t, tr s' = tr s ++ t /\
    accepted fd t = str_take (Z.to_nat k) b +:+ str_take (Z.to_nat (strlen b - k)) b).
Proof.
  intros HP Hf Hk H1 H2. destruct fuel as [|[|fuel]]; [lia..|].
  cbn [write_loop]. rewrite (proj2 (Z.leb_gt (strlen b) 0)) by lia.
  apply wp_bind, wp_gets. rewrite (pending_at _ _ _ _ HP). cbn [io_buf output_fd default from_option id].
  rewrite str_take_strlen.
  apply wp_bind, wp_call. intros w Hw. cbv zeta. rewrite Hw, H1 at 1.
  rewrite (proj2 (Z.ltb_ge k 0)) by lia. apply wp_bind, wp_modify. cbn [st tr].
  rewrite Hw, H1. rewrite (proj2 (Z.leb_gt (strlen b - k) 0)) by lia.
  apply wp_bind, wp_gets. cbn [st].
  match goal with |- context [io_at i (set_field ?p ?f ?v)] =>
    change (io_at i (set_field p f v)) with (io_at i v) end. rewrite (pending_at _ _ _ _ HP). cbn [io_buf output_fd default from_option id].
  apply wp_bind, wp_call. intros w2 Hw2. cbv zeta. cbn [tr] in Hw2.
  rewrite length_app, Nat.add_1_r in Hw2. rewrite Hw2, H2 at 1.
  rewrite (proj2 (Z.ltb_ge (strlen b - k) 0)) by lia. apply wp_bind, wp_modify. cbn [st tr].
  rewrite Hw2, H2, Z.sub_diag, write_loop_done by lia. apply wp_ret.
  split; [done|]. eexists. cbn [tr]. rewrite <-app_assoc. split; [done|].
  cbn [app accepted]. rewrite Z.eqb_refl, <-Hw, Hw, H1, H2.
  rewrite !(proj2 (Z.leb_le 0 _)) by lia. cbn [andb]. rewrite str_app_nil. f_equal.
  apply str_take_take.
Qed.

(** ** The dispatch loop *)

Lemma poll_at_insert i p v : (i < length (io_fd v))%nat ->
  poll_at i (v <| io_fd := <[i := p]> (io_fd v) |>) = p.
Proof. intros Hi. unfold poll_at. cbn. by rewrite list_lookup_insert_eq. Qed.

(** An entry that was removed has no events left. *)
Lemma handle_poll_removed fuel i e s :
  buffers_ok (st s) -> (i < APLOGD_MAX_IO_FDS)%nat ->
  wp (aplogd_io_handle_poll fuel i) e s (fun o s' =>
    o = Done true -> p_revents (poll_at i (st s')) = 0).
Proof.
  intros HI Hi. unfold aplogd_io_handle_poll. apply wp_bind, wp_gets, wp_andthen.
  eapply wp_wand.
  { apply wp_bufs; [|exact HI]. unfold aplogd_io_read_data, clear_revents. bufs. }
  intros [[]| |] s1 HI1; [|done..]. apply wp_bind, wp_gets. case_match; [|by apply wp_ret].
  unfold aplogd_io_handle_pollerr, aplogd_io_remove_poll_fd, clear_revents, set_poll.
  rewrite (proj2 (Nat.leb_gt _ _) Hi). wp_go. intros _.
  destruct HI1 as (_ & Hl & _). rewrite <-Hl in Hi.
  cbn [st]. rewrite !poll_at_insert by (cbn; rewrite ?length_insert; exact Hi). done.
Qed.

(** Two iterations per entry are enough. *)
Lemma dispatch_enough fuel e n k i s :
  (forall j s, wp (aplogd_io_handle_poll fuel j) e s (fun o _ => o <> NoFuel)) ->
  buffers_ok (st s) ->
  (2 * (APLOGD_MAX_IO_FDS - i) <= n + if (p_revents (poll_at i (st s)) =? 0)%Z then 1 else 0)%nat ->
  wp (dispatch fuel n k i) e s (fun o _ => o <> NoFuel).
Proof.
  intros Hh. revert k i s. induction n as [|n IH]; intros k i s HI Hn; cbn [dispatch].
  { destruct (_ || _) eqn:E; [by apply wp_ret|]. apply orb_false_iff in E as [_ E].
    apply Nat.leb_gt in E. case_match; lia. }
  destruct (_ || _) eqn:E; [by apply wp_ret|]. apply orb_false_iff in E as [_ E].
  apply Nat.leb_gt in E. apply wp_bind, wp_gets.
  destruct (p_revents (poll_at i (st s)) =? 0) eqn:Ep; [apply IH; [done|]; case_match; lia|].
  apply wp_andthen. eapply wp_wand.
  { apply wp_and; [apply (Hh i s)|]. apply wp_and; [by apply handle_poll_removed|].
    exact (wp_bufs _ e s HI). }
  intros [b| |] s1 (H1 & H2 & H3); [|done..]. destruct b.
  - apply IH; [done|]. rewrite H2, Z.eqb_refl by done. lia.
  - apply IH; [done|]. case_match; lia.
Qed.
