(* ===== verification/AplogFd.v ===== *)
(** * aplogd: the descriptors of the log files

    [ledger fd s] is the number of times [fd] is open according to the calls
    made, less the number of entries of [aplogd_io_array] that hold it as their
    output.  A program that keeps the ledger neither leaks an output nor closes
    a descriptor that is not its own. *)

From S2P Require Import Prelude.
From S2P Require Import CString.
From S2P Require Import AplogState.
From S2P Require Import AplogUtil.
From S2P Require Import AplogBuf.
From S2P Require Import AplogIo.
From S2P Require Import AplogMain.
From S2P Require Import AplogInv.

#[export] Instance apl_fd_calls : FdCalls apl_call := fun fd x =>
  match x with
  | (Open_read _, r) | (Open_append _, r) | (Socket_local_client _, r) =>
      if (0 <=? r_ret r) && (r_ret r =? fd) then 1 else 0
  | (Close f, _) => if f =? fd then -1 else 0
  | _ => 0
  end.

Definition holds (fd : Z) (i : nat) (v : apl_vars) : Z :=
  if output_fd (io_at i v) =? fd then 1 else 0.

(** The entries in [l] whose output is [fd]. *)
Definition owned (fd : Z) (l : list nat) (v : apl_vars) : Z :=
  foldr (fun i n => holds fd i v + n) 0 l.

Definition ledger (fd : Z) (s : sys apl_call apl_vars) : Z :=
  fd_balance fd (tr s) - owned fd log_indexes (st s).

(** The outputs that are not open. *)
Definition outputs_closed (l : list nat) (v : apl_vars) : Prop :=
  Forall (fun i => output_fd (io_at i v) < 0) l.

(** ** Assignments to one entry *)

Lemma io_at_alter f i j v : (i < length (io_array v))%nat ->
  io_at j (v <| io_array := alter f i (io_array v) |>) =
  if bool_decide (i = j) then f (io_at j v) else io_at j v.
Proof.
  intros Hi. unfold io_at. cbn. case_bool_decide as E; subst.
  - apply lookup_lt_is_Some_2 in Hi as [x Hx]. by rewrite list_lookup_alter_eq, Hx.
  - by rewrite list_lookup_alter_ne.
Qed.

Lemma owned_cons fd i l v : owned fd (i :: l) v = holds fd i v + owned fd l v.
Proof. done. Qed.

Lemma owned_other fd g i l v : (i < length (io_array v))%nat -> i ∉ l ->
  owned fd l (v <| io_array := alter g i (io_array v) |>) = owned fd l v.
Proof.
  intros Hi. induction l as [|j l IH]; intros Hn; [done|]. rewrite !owned_cons.
  apply not_elem_of_cons in Hn as [Hij Hn]. rewrite IH by done. f_equal.
  unfold holds. rewrite io_at_alter by done. by rewrite bool_decide_false.
Qed.

Lemma owned_alter fd g i l v : (i < length (io_array v))%nat -> i ∈ l -> NoDup l ->
  owned fd l (v <| io_array := alter g i (io_array v) |>) =
  owned fd l v - holds fd i v + (if output_fd (g (io_at i v)) =? fd then 1 else 0).
Proof.
  intros Hi Hin Hd. induction Hd as [|j l Hj Hd IH]; [by apply elem_of_nil in Hin|].
  rewrite !owned_cons. apply elem_of_cons in Hin as [<-|Hin].
  - rewrite owned_other by done. unfold holds. rewrite io_at_alter by done.
    rewrite bool_decide_true by done. lia.
  - rewrite IH by done. unfold holds at 1. rewrite io_at_alter by done.
    rewrite bool_decide_false by (intros ->; done). unfold holds. lia.
Qed.

Lemma log_indexes_nodup : NoDup log_indexes.
Proof. apply (bool_decide_unpack _). by vm_compute. Qed.

Lemma log_index_lt i v : buffers_ok v -> i ∈ log_indexes -> (i < length (io_array v))%nat.
Proof.
  intros (-> & _) Hi. unfold log_indexes, APLOGD_MAX_IO_FDS in *.
  repeat (apply elem_of_cons in Hi as [->|Hi]; [lia|]). by apply elem_of_nil in Hi.
Qed.

Lemma closed_not_held fd i l v :
  0 < fd -> outputs_closed l v -> i ∈ l -> holds fd i v = 0.
Proof.
  intros Hfd Hc Hi. unfold outputs_closed in Hc. rewrite Forall_forall in Hc.
  specialize (Hc i Hi). unfold holds. case_match; lia.
Qed.

(** ** The operations *)

Lemma close_one_ledger fd i e s :
  buffers_ok (st s) -> i ∈ log_indexes -> 0 < fd ->
  wp (close_one i) e s (fun _ s' => ledger fd s' = ledger fd s /\
    (forall l, outputs_closed l (st s) -> outputs_closed (i :: l) (st s'))).
Proof.
  intros HI Hi Hfd. pose proof (log_index_lt _ _ HI Hi) as Hlt.
  unfold close_one, set_io. wp_go; (split;
  [ unfold ledger; cbn [st tr]; rewrite ?fd_balance_app, owned_alter
      by (done || apply log_indexes_nodup); unfold holds; cbn [output_fd];
    rewrite ?fd_balance_one; cbn; repeat case_match; lia
  | intros l Hl; constructor;
    [ cbn [st]; rewrite io_at_alter, bool_decide_true by done; cbn; lia |];
    eapply Forall_impl; [exact Hl|]; intros j Hj; cbn [st] in *;
    rewrite io_at_alter by done; case_bool_decide; [cbn; lia|done] ]).
Qed.

Lemma close_each_ledger fd l e s k :
  buffers_ok (st s) -> l ⊆ log_indexes -> 0 < fd -> outputs_closed k (st s) ->
  wp (for_each l close_one) e s (fun _ s' => ledger fd s' = ledger fd s /\
    outputs_closed (rev l ++ k) (st s') /\ buffers_ok (st s')).
Proof.
  revert s k. induction l as [|i l IH]; intros s k HI Hl Hfd Hk; [by apply wp_ret|].
  cbn [for_each rev]. apply wp_bind. eapply wp_wand.
  { apply wp_and; [by apply close_one_ledger; [done|apply Hl; left|]|].
    exact (wp_bufs (close_one i) e s HI). }
  intros [] s1 [[H1 H2] H3]. eapply wp_wand.
  { apply (IH s1 (i :: k)); [done| |done|by apply H2]. intros j Hj. apply Hl. by right. }
  intros [] s2 (H4 & H5 & H6). rewrite <-app_assoc. split_and!; [congruence|done..].
Qed.

Lemma close_output_ledger fd e s :
  buffers_ok (st s) -> 0 < fd ->
  wp aplogd_close_output e s (fun _ s' => ledger fd s' = ledger fd s /\
    outputs_closed log_indexes (st s') /\ buffers_ok (st s')).
Proof.
  intros HI Hfd. eapply wp_wand; [apply (close_each_ledger fd log_indexes e s []); try done; constructor|].
  intros [] s' (H1 & H2 & H3). split_and!; [done| |done].
  unfold outputs_closed in *. rewrite app_nil_r in H2. rewrite Forall_forall in *.
  intros i Hi. apply H2. apply list_elem_of_In. rewrite <-in_rev. by apply list_elem_of_In.
Qed.

(** Opening outputs that are closed. *)
Lemma open_outputs_ledger fd p l r e s :
  buffers_ok (st s) -> l ⊆ log_indexes -> NoDup l -> 0 < fd -> outputs_closed l (st s) ->
  wp (open_outputs p l r) e s (fun _ s' => ledger fd s' = ledger fd s).
Proof.
  revert r s. induction l as [|i l IH]; intros r s HI Hl Hd Hfd Hc; [by apply wp_ret|].
  cbn [open_outputs]. pose proof (log_index_lt i _ HI ltac:(apply Hl; left)) as Hlt.
  apply wp_bind, wp_call. intros o _. apply wp_bind.
  apply NoDup_cons in Hd as [Hn Hd].
  eapply wp_wand; [apply wp_and; [apply (wp_self (set_io i _))|]|].
  { apply wp_bufs; [|exact HI]. bufs. }
  intros [] s1 [[_ ->] HI1]. unfold set_io, modify in *. cbn [st tr snd] in *.
  eapply wp_wand; [apply IH|].
  - done.
  - intros j Hj. apply Hl. by right.
  - done.
  - done.
  - unfold outputs_closed in *. rewrite Forall_forall in *. intros j Hj. cbn [st].
    rewrite io_at_alter, bool_decide_false by (done || (intros ->; done)). apply Hc. by right.
  - intros ? s2 ->. unfold ledger. cbn [st tr].
    rewrite fd_balance_app, fd_balance_one, owned_alter
      by (done || apply log_indexes_nodup || (apply Hl; left)).
    rewrite (closed_not_held fd i (i :: l)) by (done || left). cbn.
    repeat case_match; lia.
Qed.

Lemma output_setup_ledger fd t e s :
  buffers_ok (st s) -> 0 < fd -> outputs_closed log_indexes (st s) ->
  wp (aplogd_output_setup t) e s (fun _ s' => ledger fd s' = ledger fd s).
Proof.
  intros HI Hfd Hc. unfold aplogd_output_setup. wp_go.
  all: try (eapply wp_wand; [apply open_outputs_ledger; try done; apply log_indexes_nodup|]; intros ? s' ->).
  all: unfold ledger; fd_solve.
Qed.

(** What holds between closing the outputs and opening the new ones. *)
Definition between (fd c : Z) (s : sys apl_call apl_vars) : Prop :=
  ledger fd s = c /\ outputs_closed log_indexes (st s) /\ buffers_ok (st s).

Lemma between_call fd c e x :
  (forall r, fd_delta fd (x, r) = 0) -> Keeps e (between fd c) (call x).
Proof.
  intros Hx. apply keeps_call. intros s r (H1 & H2 & H3). split_and!; [|done..].
  unfold ledger in *. cbn [st tr]. rewrite fd_balance_app, fd_balance_one, Hx. lia.
Qed.

(** A call that opens and closes nothing, and an assignment outside the array. *)
Ltac between :=
  repeat lazymatch goal with
  | |- Keeps _ _ (mbind _ _) => apply keeps_bind; [|intros ?]
  | |- Keeps _ _ (when _ _) => apply keeps_when
  | |- Keeps _ _ (call _) =>
      apply between_call; intros ?; reflexivity
  | |- Keeps _ _ (modify _) => apply keeps_modify; intros ? H; exact H
  | |- Keeps _ _ (if ?b then _ else _) => destruct b
  | |- Keeps _ _ _ => first [ progress cbv zeta | apply _ ]
  end.

#[export] Instance shift_between fd c e p i k r : Keeps e (between fd c) (shift_backups p i k r).
Proof. revert r. induction k; intros r; cbn [shift_backups]; between. Qed.

#[export] Instance file_backup_between fd c e i t :
  Keeps e (between fd c) (aplogd_io_file_backup i t).
Proof. unfold aplogd_io_file_backup, aplogd_util_gzip. between. Qed.

#[export] Instance backup_each_between fd c e t l r : Keeps e (between fd c) (backup_each t l r).
Proof. revert r. induction l; intros r; cbn [backup_each]; between. Qed.

Lemma rotate_ledger fd e s :
  buffers_ok (st s) -> 0 < fd ->
  wp rambuf_rotate e s (fun _ s' => ledger fd s' = ledger fd s).
Proof.
  intros HI Hfd. unfold rambuf_rotate. apply wp_bind, wp_gets. case_match; [|done].
  apply wp_bind. eapply wp_wand; [by apply close_output_ledger|]. intros [] s1 H1.
  apply wp_bind. eapply wp_wand.
  { apply (wp_keeps e (between fd (ledger fd s)) (backup_each _ _ _)). exact H1. }
  intros ? s2 (H2 & H3 & H4). apply wp_bind.
  eapply wp_wand; [by apply output_setup_ledger|]. intros ? s3 H5.
  apply wp_modify. rewrite <-H2, <-H5. done.
Qed.

Lemma write_loop_ledger fd fuel i k e s :
  buffers_ok (st s) -> 0 < fd -> (forall n f b, r_errno (e n (Write f b)) <> EBADF) ->
  wp (write_loop fuel i k) e s (fun _ s' => ledger fd s' = ledger fd s).
Proof.
  intros HI Hfd Hb. revert k s HI.
  induction fuel as [|fuel IH]; intros k s HI; cbn [write_loop]; (case_match; [done|]); [done|].
  apply wp_bind, wp_gets, wp_bind, wp_call. intros w Hw. cbv zeta.
  assert (ledger fd (Sys _ _ (st s) (tr s ++ [(Write (output_fd (io_at i (st s)))
    (str_take (Z.to_nat k) (default "" (io_buf (io_at i (st s))))), w)])) = ledger fd s) as Hl
    by (unfold ledger; fd_solve).
  case_match.
  - rewrite <-Hl. apply wp_bind.
    assert ((r_errno w =? EBADF) = false) as -> by (apply Z.eqb_neq; rewrite Hw; apply Hb).
    apply wp_when; intros _; [eapply wp_wand; [by apply close_output_ledger|]; intros [] s1 (H1 & _)|].
    all: apply wp_bind, wp_ret, wp_ret; done.
  - apply wp_bind, wp_modify. eapply wp_wand; [apply IH; exact HI|].
    intros ? s1 ->. exact Hl.
Qed.

Lemma owned_alter_same fd g i l v :
  (forall x, output_fd (g x) = output_fd x) ->
  owned fd l (v <| io_array := alter g i (io_array v) |>) = owned fd l v.
Proof.
  intros Hg. induction l as [|j l IH]; [done|]. rewrite !owned_cons, IH. f_equal.
  unfold holds, io_at. cbn. destruct (decide (i = j)) as [->|Hn].
  - rewrite list_lookup_alter_eq. destruct (io_array v !! j); cbn; [|done]. by rewrite Hg.
  - by rewrite list_lookup_alter_ne.
Qed.

Lemma reset_ledger fd i e s :
  buffers_ok (st s) ->
  wp (rambuf_reset i) e s (fun _ s' => ledger fd s' = ledger fd s /\ buffers_ok (st s')).
Proof.
  intros HI. apply wp_and; [|exact (wp_bufs _ e s HI)]. apply wp_modify.
  unfold ledger. cbn [st tr]. by rewrite owned_alter_same.
Qed.

(** An open that succeeds does not change the answer. *)
Lemma open_outputs_answer p l r e s :
  (forall n q, 0 <= r_ret (e n (Open_append q))) ->
  wp (open_outputs p l r) e s (fun a _ => a = r).
Proof.
  intros Ho. revert r s. induction l as [|i l IH]; intros r s; [done|]. cbn [open_outputs].
  apply wp_bind, wp_call. intros o ->. apply wp_bind, wp_always. intros [] s1.
  match goal with |- context [e ?n (Open_append ?q)] => specialize (Ho n q) as Hn end.
  rewrite (proj2 (Z.ltb_ge _ 0)) by done. apply IH.
Qed.

(** When every open succeeds, a failing set-up has opened nothing. *)
Lemma output_setup_failed t e s :
  (forall n q, 0 <= r_ret (e n (Open_append q))) ->
  wp (aplogd_output_setup t) e s (fun a s' => a < 0 -> st s' = st s).
Proof.
  intros Ho. unfold aplogd_output_setup. wp_go; try done.
  all: eapply wp_wand; [by apply open_outputs_answer|].
  all: intros a s' -> Ha; match goal with H : negb _ = false |- _ =>
    apply negb_false_iff in H end; lia.
Qed.

Lemma switch_storage_ledger fd a b e s :
  buffers_ok (st s) -> 0 < fd -> (forall n q, 0 <= r_ret (e n (Open_append q))) ->
  wp (switch_storage a b) e s (fun _ s' => ledger fd s' = ledger fd s).
Proof.
  intros HI Hfd Ho. unfold switch_storage. apply wp_bind, wp_modify, wp_bind.
  eapply wp_wand; [apply close_output_ledger; [exact HI|done]|].
  intros [] s1 (H1 & H2 & H3). rewrite <-(H1 : _ = ledger fd s). apply wp_bind.
  eapply wp_wand; [apply wp_and; [by apply output_setup_ledger|by apply output_setup_failed]|].
  intros r s2 [H4 H5]. case_match; [|by apply wp_ret]. specialize (H5 ltac:(lia)).
  apply wp_bind. eapply wp_wand; [apply output_setup_ledger; try done; by rewrite H5|].
  intros ? s3 H6. apply wp_ret. congruence.
Qed.

(** C31.  The log files are accounted for: when every open of a log file succeeds
    and no write answers EBADF, neither an output with its rotation nor a change
    of storage leaks a descriptor or closes a foreign one: for every descriptor,
    the number of times it is open less the number of outputs that hold it stays
    the same. *)
Theorem outputs_accounted fd fuel i a b e s :
  buffers_ok (st s) -> 0 < fd ->
  (forall n q, 0 <= r_ret (e n (Open_append q))) ->
  (forall n f t, r_errno (e n (Write f t)) <> EBADF) ->
  wp (aplogd_rambuf_output fuel i) e s (fun _ s' => ledger fd s' = ledger fd s) /\
  wp (switch_storage a b) e s (fun _ s' => ledger fd s' = ledger fd s).
Proof.
  intros HI Hfd Ho Hb. split; [|by apply switch_storage_ledger].
  unfold aplogd_rambuf_output. apply wp_bind, wp_gets, wp_bind, wp_gets.
  case_match; [done|]. case_match.
  { apply wp_bind. eapply wp_wand; [by apply reset_ledger|]. intros [] s1 [H1 _]. by apply wp_ret. }
  apply wp_andthen. eapply wp_wand.
  { apply wp_and; [by apply write_loop_ledger|exact (wp_bufs _ e s HI)]. }
  intros [ok| |] s1 [H1 HI1]; [|done..]. rewrite <-H1. destruct ok; [|by apply wp_ret].
  cbn [negb]. apply wp_bind. eapply wp_wand; [by apply reset_ledger|]. intros [] s2 [H2 HI2].
  apply wp_bind. eapply wp_wand; [by apply rotate_ledger|]. intros [] s3 H3. apply wp_ret. exact (eq_trans H3 H2).
Qed.
