(* ===== verification/AplogStorage.v ===== *)
(** * aplogd: storage changes, backup folders and start *)

From S2P Require Import Prelude.
From S2P Require Import CString.
From S2P Require Import AplogState.
From S2P Require Import AplogUtil.
From S2P Require Import AplogBuf.
From S2P Require Import AplogIo.
From S2P Require Import AplogMain.
From S2P Require Import AplogInv.
From S2P Require Import AplogFd.
From Stdlib Require Import Ascii.

(** ** Setting up a storage *)

Definition outputs_open (l : list nat) (v : apl_vars) : Prop :=
  Forall (fun i => 0 <= output_fd (io_at i v)) l.

(** The paths are those of the start. *)
Definition same_paths : relation apl_vars := fun v v' =>
  storage_path v' = storage_path v /\ output_path v' = output_path v.

#[export] Instance same_paths_pre : PreOrder same_paths.
Proof. split; [done|]. intros v1 v2 v3 [H1 H2] [H3 H4]. split; congruence. Qed.

#[export] Instance paths_close_output : Framed same_paths aplogd_close_output.
Proof. unfold aplogd_close_output, close_one, set_io. framed. Qed.

#[export] Instance paths_open_outputs p l r : Framed same_paths (open_outputs p l r).
Proof. revert r. induction l; intros r; cbn [open_outputs]; unfold set_io; framed. Qed.

#[export] Instance paths_output_setup t : Framed same_paths (aplogd_output_setup t).
Proof. unfold aplogd_output_setup. framed. Qed.

(** The kernel lets the daemon create files, and [access] answers 0 or -1. *)
Record storage_env (e : env apl_call) : Prop := StorageEnv {
  opens_succeed : forall n q, 0 <= r_ret (e n (Open_append q));
  access_answers : forall n q, r_ret (e n (Access_write q)) = 0 \/ r_ret (e n (Access_write q)) = -1 }.

Section Storage.
Context (e : env apl_call) (He : storage_env e).

Lemma open_outputs_open p l r k s :
  buffers_ok (st s) -> l ⊆ log_indexes -> outputs_open k (st s) ->
  wp (open_outputs p l r) e s (fun _ s' => outputs_open (l ++ k) (st s')).
Proof using He.
  revert r s k. induction l as [|i l IH]; intros r s k HI Hl Hk; [by apply wp_ret|].
  cbn [open_outputs]. pose proof (log_index_lt i _ HI ltac:(apply Hl; left)) as Hlt.
  apply wp_bind, wp_call. intros o Ho. apply wp_bind.
  eapply wp_wand; [apply wp_and; [apply (wp_self (set_io i _))|]|].
  { apply wp_bufs; [|exact HI]. bufs. }
  intros [] s1 [[_ ->] HI1]. eapply wp_wand; [apply (IH _ _ (i :: k))|].
  - done.
  - intros j Hj. apply Hl. by right.
  - assert (0 <= r_ret o) as Hpos by (rewrite Ho; by apply opens_succeed).
    unfold set_io, modify. cbn [st snd]. constructor.
    { rewrite io_at_alter, bool_decide_true by done. exact Hpos. }
    eapply Forall_impl; [exact Hk|]. intros j Hj. rewrite io_at_alter by done.
    by case_bool_decide.
  - intros ? s2 H. unfold outputs_open in *. rewrite Forall_app, Forall_cons in H. cbn.
    rewrite Forall_cons, Forall_app. tauto.
Qed.

(** The set-up answers like [access] on the folder; 0 means that all outputs
    are open. *)
Lemma output_setup_spec t s :
  buffers_ok (st s) ->
  wp (aplogd_output_setup t) e s (fun a s' =>
    ((a = 0 /\ outputs_open log_indexes (st s') \/ a = -1) /\
     ((forall n, r_ret (e n (Access_write (out_path t (st s)))) = 0) -> a = 0)) /\
    same_paths (st s) (st s') /\ buffers_ok (st s')).
Proof using He.
  intros HI. apply wp_and.
  2: { split; [apply (framed_rel (m := aplogd_output_setup t))|exact (wp_bufs _ e s HI)]. }
  unfold aplogd_output_setup. apply wp_bind, wp_gets, wp_bind, wp_call. intros a1 _.
  apply wp_bind. eapply (wp_wand _ _ _ (fun _ s' => st s' = st s)).
  { by wp_go. }
  intros [] s1 H1. apply wp_bind, wp_call. intros a Ha.
  pose proof (access_answers e He (length (tr s1)) (out_path t (st s))) as Hans.
  rewrite <-Ha in Hans. destruct Hans as [H|H]; rewrite H; cbn [Z.eqb negb].
  - eapply wp_wand; [apply wp_and;
      [apply (open_outputs_open _ log_indexes _ []); [by rewrite H1|done|constructor]
      |apply open_outputs_answer; apply He]|].
    intros r s' [H2 ->]. rewrite app_nil_r in H2. split; [by left|done].
  - apply wp_ret. split; [by right|]. intros H0. by rewrite <-H, Ha, H0.
Qed.

Lemma switch_storage_spec a b s :
  buffers_ok (st s) ->
  wp (switch_storage a b) e s (fun t s' =>
    (t = b /\ outputs_open log_indexes (st s') \/ t = a) /\
    ((forall n, r_ret (e n (Access_write (out_path b (st s)))) = 0) ->
      t = b /\ outputs_open log_indexes (st s')) /\
    same_paths (st s) (st s') /\ buffers_ok (st s')).
Proof using He.
  intros HI. unfold switch_storage. apply wp_bind, wp_modify, wp_bind.
  eapply wp_wand; [apply wp_and;
    [apply (wp_framed same_paths aplogd_close_output)
    |apply (wp_bufs aplogd_close_output); exact HI]|].
  intros [] s1 [HP1 HI1]. apply wp_bind. eapply wp_wand; [by apply output_setup_spec|].
  intros r s2 ([H1 H2] & HP2 & HI2).
  assert (same_paths (st s) (st s2)) as HP by (etrans; [exact HP1|exact HP2]).
  assert (out_path b (st s1) = out_path b (st s)) as Hb
    by (unfold out_path; by rewrite (proj2 HP1)).
  rewrite Hb in H2. destruct (r <? 0) eqn:E.
  - apply wp_bind. eapply wp_wand; [by apply output_setup_spec|].
    intros r' s3 (_ & HP3 & HI3). apply wp_ret. split; [by right|]. split.
    { intros H0. specialize (H2 H0). lia. }
    split; [|done]. etrans; [exact HP|exact HP3].
  - apply wp_ret. assert (r = 0 /\ outputs_open log_indexes (st s2)) as [_ Hop]
      by (destruct H1 as [?|?]; [done|lia]).
    split; [by left|]. split; [done|]. by split.
Qed.

Lemma change_storage_spec a b s :
  buffers_ok (st s) ->
  wp (change_storage a b) e s (fun _ s' => let t := current_storage (st s') in
    (t = b /\ outputs_open log_indexes (st s') \/ t = a) /\
    ((forall n, r_ret (e n (Access_write (out_path b (st s)))) = 0) ->
      t = b /\ outputs_open log_indexes (st s')) /\
    same_paths (st s) (st s') /\ buffers_ok (st s')).
Proof using He.
  intros HI. unfold change_storage. apply wp_bind.
  eapply wp_wand; [by apply switch_storage_spec|]. intros t s1 H1. by apply wp_modify.
Qed.
End Storage.

(** ** Messages of vold *)

Definition mount_text : string := "state changed from 3 (Checking) to 4 (Mounted)".

Lemma not_mounted t buf v : contains buf mount_text = false -> is_trans_to_mounted t buf v = false.
Proof. intros H. unfold is_trans_to_mounted, mount_text in *. rewrite H. apply andb_false_r. Qed.

Section Gone.
Context (e : env apl_call) (He : storage_env e) (data : string).
Context (Hdata : forall n, r_ret (e n (Access_write data)) = 0).

(** The daemon can log to /data, and writes to a storage other than [t]. *)
Definition data_ok (v : apl_vars) : Prop :=
  buffers_ok v /\ out_path STORAGE_USERDATA v = data.

Lemma change_to_data a s :
  data_ok (st s) ->
  wp (change_storage a STORAGE_USERDATA) e s (fun _ s' => data_ok (st s') /\
    current_storage (st s') = STORAGE_USERDATA /\ outputs_open log_indexes (st s')).
Proof using He Hdata.
  intros [HI Hd]. eapply wp_wand; [by apply change_storage_spec|].
  intros [] s' (_ & H2 & HP & HI'). rewrite Hd in H2. destruct (H2 Hdata) as [Hc Ho].
  split; [|done]. split; [done|]. unfold out_path in *. by rewrite (proj2 HP).
Qed.

Lemma secondary_gone_spec buf s :
  data_ok (st s) -> current_storage (st s) = STORAGE_SECONDARY ->
  is_trans_to_unmounted STORAGE_SECONDARY buf (st s) ||
    is_bad_removal STORAGE_SECONDARY buf (st s) = true ->
  wp (vold_secondary_gone buf) e s (fun _ s' => data_ok (st s') /\
    current_storage (st s') <> STORAGE_SECONDARY /\ outputs_open log_indexes (st s')).
Proof using He Hdata.
  intros Hd Hc Hg. unfold vold_secondary_gone. apply wp_bind, wp_gets, wp_bind, wp_gets.
  rewrite Hg, Hc, bool_decide_true by done. cbn [andb]. apply wp_bind.
  eapply wp_wand; [apply change_storage_spec; [done|apply Hd]|].
  intros [] s1 (H1 & _ & HP & HI). apply wp_bind, wp_gets.
  assert (data_ok (st s1)) as Hd1
    by (split; [done|]; destruct Hd as [_ <-]; unfold out_path; by rewrite (proj2 HP)).
  apply wp_when; intros E; [apply bool_decide_eq_true in E|apply bool_decide_eq_false in E].
  - eapply wp_wand; [by apply change_to_data|]. intros [] s2 (H2 & H3 & H4).
    split; [done|]. split; [by rewrite H3|done].
  - split; [done|]. split; [done|]. by destruct H1 as [[_ ?]|?].
Qed.

Lemma external_gone_spec buf s :
  data_ok (st s) ->
  wp (vold_external_gone buf) e s (fun _ s' =>
    s' = s \/ current_storage (st s') = STORAGE_USERDATA /\ outputs_open log_indexes (st s')).
Proof using He Hdata.
  intros Hd. unfold vold_external_gone. apply wp_bind, wp_gets, wp_bind, wp_gets.
  apply wp_when; intros E; [|by left].
  eapply wp_wand; [by apply change_to_data|]. intros [] s' (_ & ?). by right.
Qed.
End Gone.

(** The daemon leaves a storage that goes away: when vold announces that the
    current storage is being unmounted or was removed, and /data is writable,
    handling the message ends with another current storage and with all five log
    files open there. *)
Theorem vold_gone_leaves t buf fuel e s :
  storage_env e -> buffers_ok (st s) -> t <> STORAGE_USERDATA -> current_storage (st s) = t ->
  is_trans_to_unmounted t buf (st s) || is_bad_removal t buf (st s) = true ->
  contains buf mount_text = false ->
  (forall n, r_ret (e n (Access_write (out_path STORAGE_USERDATA (st s)))) = 0) ->
  wp (handle_vold fuel buf) e s (fun o s' =>
    o = Done tt /\ current_storage (st s') <> t /\ outputs_open log_indexes (st s')).
Proof.
  intros He HI Ht Hc Hg Hm Hd. unfold handle_vold.
  assert (data_ok (out_path STORAGE_USERDATA (st s)) (st s)) as Hdo by done.
  apply wp_andthen, wp_bind, wp_gets. rewrite not_mounted by done. apply wp_ret.
  apply wp_andthen. unfold total. apply wp_bind. destruct t; [done| |].
  - unfold vold_secondary_gone. apply wp_bind, wp_gets, wp_bind, wp_gets.
    rewrite Hc, (bool_decide_false (STORAGE_EXTERNAL = _)), andb_false_r by done.
    apply wp_ret, wp_ret, wp_andthen, wp_bind, wp_gets. rewrite not_mounted by done.
    apply wp_ret. unfold vold_external_gone. apply wp_bind, wp_bind, wp_gets, wp_bind, wp_gets.
    rewrite Hg, Hc, bool_decide_true by done. cbn [andb when].
    eapply wp_wand; [by eapply change_to_data|]. intros [] s' (_ & H2 & H3).
    apply wp_ret. by rewrite H2.
  - eapply wp_wand; [by eapply secondary_gone_spec|]. intros [] s1 (Hd1 & H1 & H2).
    apply wp_ret, wp_andthen, wp_bind, wp_gets. rewrite not_mounted by done. apply wp_ret.
    apply wp_bind. eapply wp_wand; [by eapply external_gone_spec|].
    intros [] s2 [->|[H3 H4]]; apply wp_ret; [done|]. by rewrite H3.
Qed.

(** *** Which storage a message is about *)

Lemma strstr_space_cons c s :
  strstr (String c s) " " =
  if (c =? " ")%char then Some O else S <$> strstr s " ".
Proof.
  unfold strstr. cbn -[ascii_dec].
  destruct (ascii_dec " " c) as [<-|Hn].
  - rewrite Ascii.eqb_refl. by destruct s.
  - rewrite (proj2 (Ascii.eqb_neq c " ")) by congruence. by destruct (String.index 0 " " s).
Qed.

(** The first space follows the part without spaces. *)
Lemma index_space a b : lacks " " a -> strstr (a +:+ String " " b) " " = Some (String.length a).
Proof.
  unfold lacks. induction a as [|c a IH]; cbn [String.append take_until]; rewrite strstr_space_cons.
  - by rewrite Ascii.eqb_refl.
  - destruct (c =? " ")%char; [done|]. intros [= H]. by rewrite IH.
Qed.

Lemma index_space_bound a b n :
  strstr (a +:+ b) " " = Some n -> lacks " " a -> (String.length a <= n)%nat.
Proof.
  unfold lacks. revert n. induction a as [|c a IH]; intros n; cbn [String.append take_until].
  { cbn. lia. }
  rewrite strstr_space_cons. destruct (c =? " ")%char; [done|]. intros H [= H0].
  destruct (strstr (a +:+ b) " ") as [m|]; [|done]. cbn in H. injection H as <-.
  specialize (IH m eq_refl H0). cbn. lia.
Qed.

Lemma str_drop_prefix a b : str_drop (String.length a) (a +:+ b) = b.
Proof. by apply str_drop_app. Qed.

(** A message of vold names the storage it is about by its whole path: when
    the path (without spaces) first occurs in the message after [pre], the
    message is taken to be about the storage exactly when the path ends there,
    at a space.  So a message about /mnt/sdcard-ext is not taken for one about
    /mnt/sdcard, although the one path is a prefix of the other. *)
Theorem vold_msg_whole_path t p pre c post v :
  storage_path v t = Some p -> lacks " " p ->
  strstr (pre +:+ p +:+ String c post) p = Some (String.length pre) ->
  is_vold_msg_for t (pre +:+ p +:+ String c post) v = (c =? " ")%char.
Proof.
  intros Hp Hs Hi. unfold is_vold_msg_for. rewrite Hp, Hi, str_drop_prefix.
  destruct (c =? " ")%char eqn:E.
  - apply Ascii.eqb_eq in E as ->. rewrite index_space by done. apply Nat.eqb_refl.
  - destruct (strstr (p +:+ String c post) " ") as [n|] eqn:En; [|done].
    apply Nat.eqb_neq. intros <-.
    assert (p +:+ String c post = (p +:+ String c "") +:+ post) as Heq
      by (by rewrite <-str_app_assoc).
    rewrite Heq in En. apply index_space_bound in En.
    + rewrite str_length_app in En. cbn in En. lia.
    + apply lacks_app; [done|]. apply lacks_cons; [|done]. by apply Ascii.eqb_neq.
Qed.

(** ** Backup folders *)

(** The names [aplogd_util_cleardir] looks at, and their numbers. *)
Definition is_backup (name : string) : bool := negb (dots name) && contains name "No.".
Definition backup_num (name : string) : Z := strtol (filter_numstr name).
Definition backups (l : list string) : list string := base.filter (fun x => is_backup x = true) l.

(** What a pass has found after the folders [bs]. *)
Definition scanned (dir : string) (ret : Z) (bs : list string) (sc : scan) : Prop :=
  sc_count sc = Z.of_nat (length bs) /\ ret <= sc_ret sc /\ sc_tnum sc <= LONG_MAX /\
  Forall (fun x => sc_tnum sc <= backup_num x <= sc_ret sc) bs /\
  (sc_tnum sc < LONG_MAX -> exists x, x ∈ bs /\ backup_num x = sc_tnum sc /\
     sc_oldest sc = path_of (slash dir x)).

Section Backups.
Context (e : env apl_call) (dir : string).
(** Every numbered name is a folder. *)
Context (Hstat : forall n x, is_backup x = true ->
  let r := e n (Stat (path_of (slash dir x))) in r_ret r <> -1 /\ aux 0 r <> 0).

Lemma scan_dir_scanned ret bs sc x :
  scanned dir ret bs sc -> scanned dir ret (bs ++ [x]) (scan_dir dir x sc).
Proof using.
  intros (H1 & H2 & H3 & H4 & H5). unfold scan_dir. fold (backup_num x).
  pose proof (strtol_bounds (filter_numstr x)) as Hb. fold (backup_num x) in Hb.
  change INT_MAX with LONG_MAX in Hb.
  split_and!; cbn [sc_count sc_ret sc_tnum sc_oldest].
  - rewrite length_app. cbn. lia.
  - case_match; lia.
  - case_match; lia.
  - apply Forall_app. split; [|constructor; [|constructor]; repeat case_match; lia].
    eapply Forall_impl; [exact H4|]. intros y Hy. cbn in Hy. repeat case_match; lia.
  - destruct (backup_num x <? sc_tnum sc) eqn:E.
    + intros _. exists x. split; [|done]. apply elem_of_app. right. left.
    + intros Ht. destruct (H5 Ht) as (y & Hy & ?). exists y. split; [|done].
      apply elem_of_app. by left.
Qed.

Lemma cleardir_scan_spec ret bs l sc s :
  scanned dir ret bs sc ->
  wp (cleardir_scan dir l sc) e s (fun o s' =>
    exists sc', o = Some sc' /\ scanned dir ret (bs ++ backups l) sc' /\ st s' = st s).
Proof using Hstat.
  revert bs sc s. induction l as [|x l IH]; intros bs sc s Hsc.
  { apply wp_ret. exists sc. unfold backups. cbn. by rewrite app_nil_r. }
  cbn [cleardir_scan].
  assert (dots x || negb (contains x "No.") = negb (is_backup x)) as ->
    by (unfold is_backup; by destruct (dots x), (contains x "No.")).
  assert (backups (x :: l) = if is_backup x then x :: backups l else backups l) as ->.
  { unfold backups. rewrite filter_cons. by destruct (is_backup x). }
  destruct (is_backup x) eqn:Ex; cbn [negb]; [|by apply IH].
  apply wp_bind, wp_call. intros r ->.
  destruct (Hstat (length (tr s)) x Ex) as [Hr Hd].
  rewrite (proj2 (Z.eqb_neq _ _) Hr), (proj2 (Z.eqb_neq _ _) Hd).
  eapply wp_wand; [by apply IH, scan_dir_scanned|].
  intros o s' (sc' & -> & Hsc' & Hst). exists sc'. rewrite <-app_assoc in Hsc'. done.
Qed.

Lemma scanned_start : scanned dir 0 [] (Scan 0 "" LONG_MAX 0).
Proof using. split_and!; cbn; [done..|constructor|lia]. Qed.
End Backups.

Lemma path_of_slash_ne dir x : dir <> "" -> str_eq (path_of (slash dir x)) "" = false.
Proof. intros Hd. by destruct dir. Qed.

(** A pass up to the decision. *)
Lemma cleardir_pass fuel dir max_count ret e s :
  let o := e (length (tr s)) (Opendir dir) in
  r_ret o <> 0 ->
  (forall s0, wp (cleardir_scan dir (dir_entries o) (Scan 0 "" LONG_MAX ret)) e s0 (fun a s' =>
     exists sc, a = Some sc /\ scanned dir ret (backups (dir_entries o)) sc /\ st s' = st s0)) ->
  exists sc s1, st s1 = st s /\ scanned dir ret (backups (dir_entries o)) sc /\
    cleardir_loop (S fuel) dir max_count ret e s =
    (if (max_count - 1 <? sc_count sc) && negb (str_eq (sc_oldest sc) "") then
       r <~ aplogd_remove_dir fuel (sc_oldest sc);
       if r =? -1 then mret (Done (-1)) else
       if max_count - 1 <? sc_count sc - 1
       then cleardir_loop fuel dir max_count (sc_ret sc) else mret (Done (sc_ret sc))
     else
       if max_count - 1 <? sc_count sc
       then cleardir_loop fuel dir max_count (sc_ret sc) else mret (Done (sc_ret sc))) e s1.
Proof.
  intros o Ho Hscan. specialize (Hscan (Sys _ _ (st s) (tr s ++ [(Opendir dir, o)]))).
  unfold wp in Hscan. cbn [cleardir_loop]. unfold mbind, prog_bind at 1. unfold call at 1. fold o.
  rewrite (proj2 (Z.eqb_neq _ _) Ho). unfold prog_bind at 1.
  destruct (cleardir_scan _ _ _ e _) as [a s'] eqn:E. cbn in Hscan.
  destruct Hscan as (sc & -> & Hsc & Hst).
  exists sc, (call (Closedir dir) e s').2. split_and!; [by rewrite <-Hst|done|].
  unfold prog_bind at 1. by destruct (call (Closedir dir) e s').
Qed.

(** One pass over the backup folders.  With fewer than [max_count] folders
    the clean-up removes none and answers with a number that no folder exceeds;
    with exactly [max_count] of them (not all numbered LONG_MAX) it removes one
    folder, whose number is the smallest, and answers likewise. *)
Theorem cleardir_keeps_newest fuel dir max_count e s :
  (forall n x, is_backup x = true ->
    let r := e n (Stat (path_of (slash dir x))) in r_ret r <> -1 /\ aux 0 r <> 0) ->
  dir <> "" -> 0 < max_count ->
  let o := e (length (tr s)) (Opendir dir) in
  let bs := backups (dir_entries o) in
  r_ret o <> 0 ->
  exists s1 num, st s1 = st s /\ Forall (fun x => backup_num x <= num) bs /\
  (Z.of_nat (length bs) < max_count ->
    aplogd_util_cleardir (S fuel) dir max_count e s = (Done num, s1)) /\
  (Z.of_nat (length bs) = max_count -> Exists (fun x => backup_num x < LONG_MAX) bs ->
    exists old, old ∈ bs /\ Forall (fun x => backup_num old <= backup_num x) bs /\
    aplogd_util_cleardir (S fuel) dir max_count e s =
    andthen (aplogd_remove_dir fuel (path_of (slash dir old)))
      (fun r => mret (Done (if r =? -1 then -1 else num))) e s1).
Proof.
  intros Hstat Hdir Hmax o bs Ho.
  destruct (cleardir_pass fuel dir max_count 0 e s Ho) as (sc & s1 & Hst & Hsc & Hrun).
  { intros s0. by apply (cleardir_scan_spec e dir Hstat 0 []), scanned_start. }
  destruct Hsc as (H1 & H2 & H3 & H4 & H5). exists s1, (sc_ret sc).
  fold o bs in H1, H4, H5. cbn [app] in *.
  split; [done|]. split; [eapply Forall_impl; [exact H4|]; cbn; lia|].
  unfold aplogd_util_cleardir. rewrite Hrun, H1. split.
  - intros Hl. by rewrite (proj2 (Z.ltb_ge _ _)) by lia.
  - intros Hl Hex.
    assert (sc_tnum sc < LONG_MAX) as Ht.
    { apply Exists_exists in Hex as (x & Hx & Hn). rewrite Forall_forall in H4.
      specialize (H4 x Hx). lia. }
    destruct (H5 Ht) as (old & Hin & Hnum & Hold). exists old. split; [done|].
    split; [eapply Forall_impl; [exact H4|]; cbn; lia|].
    rewrite Hold, path_of_slash_ne by done. cbn [negb].
    rewrite (proj2 (Z.ltb_lt _ _)) by lia. cbn [andb].
    unfold andthen, mbind, prog_bind.
    destruct (aplogd_remove_dir fuel (path_of (slash dir old)) e s1) as [[r| |] s2]; try done.
    rewrite (proj2 (Z.ltb_ge (max_count - 1) _)) by lia. by destruct (r =? -1).
Qed.

(** ** Dropping root *)

(** The calls made before the change of identity is complete: the clean-up of
    the old files, and the changes themselves. *)
Definition start_call (c : apl_call) : Prop :=
  match c with
  | Stat _ | Opendir _ | Closedir _ | Remove _ | Getuid | Prctl_keepcaps => True
  | _ => c ∈ drop_sequence
  end.

Definition started (s : sys apl_call apl_vars) : Prop := Forall start_call (calls s).

Lemma started_call e c : start_call c -> Keeps e started (call c).
Proof.
  intros Hc. apply keeps_call. intros s r Hs. unfold started, calls in *. cbn [tr].
  rewrite fmap_app. apply Forall_app. split; [done|]. by repeat constructor.
Qed.

#[local] Hint Extern 1 (Keeps _ started (call _)) => apply started_call; exact I : typeclass_instances.

#[export] Instance erase_started e d l : Keeps e started (erase_entries d l).
Proof. induction l; cbn [erase_entries]; keeps. Qed.

#[export] Instance erase_legacy_started e : Keeps e started aplogd_erase_legacy_files.
Proof. unfold aplogd_erase_legacy_files, aplogd_erase_dir_contents. keeps. Qed.

Lemma drop_each_spec l e s :
  started s -> l ⊆ drop_sequence ->
  wp (drop_each l) e s (fun o s' => st s' = st s /\ started s' /\
    (o = Exited \/ o = Done tt /\ exists rs, tr s' = tr s ++ zip l rs /\ length rs = length l /\
       Forall (fun r => r_ret r <> -1) rs)).
Proof.
  revert s. induction l as [|c l IH]; intros s Hs Hl.
  { apply wp_ret. split_and!; [done..|]. right. split; [done|]. exists [].
    cbn. rewrite app_nil_r. by repeat constructor. }
  cbn [drop_each]. apply wp_bind, wp_call. intros r Hr.
  assert (started (Sys _ _ (st s) (tr s ++ [(c, r)]))) as H1.
  { assert (start_call c) as Hc.
    { assert (c ∈ drop_sequence) as Hin by (apply Hl; left). by destruct c. }
    unfold started, calls in *. cbn [tr]. rewrite fmap_app. apply Forall_app.
    split; [done|]. by repeat constructor. }
  case_match; [apply wp_ret; split_and!; [done..|by left]|].
  eapply wp_wand; [apply (IH _ H1); intros x Hx; apply Hl; by right|].
  intros o s' (H2 & H3 & H4). split_and!; [done..|].
  destruct H4 as [->|(-> & rs & Ht & Hn & Hf)]; [by left|]. right. split; [done|].
  exists (r :: rs). cbn [zip zip_with length]. split_and!.
  - rewrite Ht. cbn [tr]. by rewrite <-app_assoc.
  - by rewrite Hn.
  - constructor; [lia|done].
Qed.

(** C32.  Root is dropped first: started as root, the daemon either exits, or it
    goes on to open, create and read its files only after [setgroups],
    [setgid], [setuid] and [capset] have all succeeded, in this order; before
    that it makes no call but those and the ones of the clean-up. *)
Theorem root_dropped_first getopt_long fuel argv e s0 :
  (forall n, r_ret (e n Getuid) = 0) -> tr s0 = [] ->
  exists s1, Forall start_call (calls s1) /\
    (main_start getopt_long fuel argv e s0 = (Exited, s1) \/
     main_start getopt_long fuel argv e s0 = main_rest getopt_long fuel argv e s1 /\
     exists t rs, tr s1 = t ++ zip drop_sequence rs /\ length rs = 4%nat /\
       Forall (fun r => r_ret r <> -1) rs).
Proof.
  intros Hroot H0. unfold main_start, mbind, prog_bind.
  pose proof (keeps_inv (e := e) (I := started) (m := aplogd_erase_legacy_files) s0) as H1.
  destruct (aplogd_erase_legacy_files e s0) as [[] s1]. cbn [snd] in H1.
  specialize (H1 ltac:(unfold started, calls; rewrite H0; constructor)).
  assert (wp aplogd_drop_root e s1 (fun o s' => started s' /\
    (o = Exited \/ o = Done tt /\ exists t rs, tr s' = t ++ zip drop_sequence rs /\
      length rs = 4%nat /\ Forall (fun r => r_ret r <> -1) rs))) as H2.
  { unfold aplogd_drop_root. apply wp_bind.
    eapply wp_wand; [apply (wp_and _ _ _ (fun u _ => r_ret u = 0));
      [apply wp_call; intros r ->; exact (Hroot _)
      |exact (wp_keeps e started (call Getuid) s1 H1)]|].
    intros u s2 [Hu H2]. rewrite Hu. cbn [Z.eqb negb]. apply wp_bind.
    eapply wp_wand; [exact (wp_keeps e started (call Prctl_keepcaps) s2 H2)|].
    intros p s3 H3. eapply wp_wand; [by apply drop_each_spec|].
    intros o s4 (_ & H4 & [->|(-> & rs & Ht & Hl & Hf)]); (split; [done|]); [by left|right].
    split; [done|]. by exists (tr s3), rs. }
  unfold wp in H2. unfold andthen, mbind, prog_bind.
  destruct (aplogd_drop_root e s1) as [o s2]. cbn in H2.
  destruct H2 as [H2 H3]. exists s2. split; [done|].
  destruct H3 as [->|(-> & H3)]; [by left|right]. by split.
Qed.

(** ** A hang-up of vold *)

(** A lost connection to vold stays lost: after a hang-up the descriptor is
    closed and leaves the poll list, but [input_fd] keeps its value, so that the
    test of the main loop that reconnects ([input_fd < 0]) does not hold. *)
Theorem vold_hangup_stale fuel fd ev e s :
  buffers_ok (st s) -> 0 <= fd -> input_fd (io_at VOLD_INDEX (st s)) = fd ->
  poll_at VOLD_INDEX (st s) = PollFd fd ev POLLHUP ->
  wp (aplogd_io_handle_poll fuel VOLD_INDEX) e s (fun o s' =>
    o = Done true /\ calls s' = calls s ++ [Close fd] /\
    poll_at VOLD_INDEX (st s') = PollFd (-1) 0 0 /\
    input_fd (io_at VOLD_INDEX (st s')) = fd /\
    (input_fd (io_at VOLD_INDEX (st s')) <? 0) = false).
Proof.
  intros (_ & Hlen & _) Hfd Hin Hp.
  assert (exists a0 a1 a2 a3 a4, io_fd (st s) = [a0; a1; a2; a3; a4; PollFd fd ev POLLHUP])
    as (a0 & a1 & a2 & a3 & a4 & Hio).
  { unfold poll_at in Hp. destruct (io_fd (st s)) as [|a0 [|a1 [|a2 [|a3 [|a4 [|a5 [|]]]]]]];
      try done. cbn in Hp. subst. by do 5 eexists. }
  unfold aplogd_io_handle_poll. apply wp_bind, wp_gets. rewrite Hp. cbn [p_revents].
  change (has_flag POLLHUP POLLIN) with false. cbv iota. apply wp_andthen, wp_ret.
  apply wp_bind, wp_gets. rewrite Hp. cbn [p_revents].
  change (has_flag POLLHUP POLLERR || has_flag POLLHUP POLLHUP) with true. cbv iota.
  unfold aplogd_io_handle_pollerr, aplogd_io_remove_poll_fd, clear_revents, set_poll.
  wp_go; [discriminate|].
  rewrite Hp. unfold calls. cbn [tr st]. rewrite fmap_app. split_and!; try done.
  - unfold poll_at. cbn. by rewrite Hio.
  - unfold io_at in *. cbn in *. rewrite Hin. by apply Z.ltb_ge.
Qed.
