(* ===== verification/AplogWitness.v ===== *)
(** * aplogd: the theorems on concrete runs *)

From S2P Require Import Prelude.
From S2P Require Import CString.
From S2P Require Import AplogState.
From S2P Require Import AplogUtil.
From S2P Require Import AplogBuf.
From S2P Require Import AplogIo.
From S2P Require Import AplogMain.
From S2P Require Import AplogInv.
From S2P Require Import AplogThms.
From S2P Require Import AplogFd.
From S2P Require Import AplogStorage.
From Stdlib Require Import Ascii.

(** A phone with a memory card and one backup folder on it: every call
    succeeds, writes are complete. *)
Definition demo_env : env apl_call := fun n c =>
  match c with
  | Opendir _ => Resp 1 0 "./../No.3_20120101000000" []
  | Stat _ => Resp 0 0 "" [1; 4096; 1007]
  | Lstat _ => Resp 0 0 "" [0; 4096; 1007]
  | Open_append _ => answer (Z.of_nat n + 3)
  | Open_read _ => answer (Z.of_nat n + 3)
  | Socket_local_client _ => answer (Z.of_nat n + 3)
  | Write _ b => answer (Z.max 1 (strlen b))
  | Getenv _ => Resp 1 0 "/mnt/sdcard" []
  | Malloc | Localtime => answer 1
  | _ => answer 0
  end.

Definition no_options : list string -> list (ascii * string) := fun _ => [].

Definition demo_run : outcome bool * sys apl_call apl_vars :=
  main_start no_options 3 ["aplogd"] demo_env (Sys _ _ apl_start []).

(** The daemon logs to the card; a line waits in the buffer of the main log. *)
Definition demo_state : apl_vars :=
  (st demo_run.2) <| io_array :=
    alter (fun x => LogIo (input_fd x) 9 true (Some "boot ok")) 0%nat (io_array (st demo_run.2)) |>.

(** Decide [buffers_ok] of a closed state. *)
Ltac buffers_compute :=
  split; [by vm_compute|]; split; [by vm_compute|];
  apply (bool_decide_unpack (Forall _ _)); by vm_compute.

Lemma demo_state_ok : buffers_ok demo_state.
Proof. buffers_compute. Qed.

Definition demo_sys : sys apl_call apl_vars := Sys _ _ demo_state [].

Lemma demo_pending : pending 0 9 "boot ok" demo_state.
Proof. eexists. split; [by vm_compute|]. by vm_compute. Qed.

Lemma demo_storage : storage_env demo_env.
Proof. split; [intros n q; cbn; lia|by left]. Qed.

Lemma demo_opens n q : 0 <= r_ret (demo_env n (Open_append q)).
Proof. cbn. lia. Qed.

(** Two iterations of the main loop after the start, the second one after
    SIGUSR1. *)
Definition demo_iterations : sys apl_call apl_vars :=
  let s := (aplogd_iteration 3 demo_env demo_run.2).2 in
  (aplogd_iteration 3 demo_env (Sys _ _ ((st s) <| config_changed := true |>) (tr s))).2.

Lemma apl_buffers_bounded_witness :
  buffers_ok (st demo_iterations) /\
  (forall i, 0 <= aplogd_rambuf_space i (st demo_iterations) <= 8192).
Proof.
  apply (apl_buffers_bounded no_options demo_env 3 ["aplogd"]).
  exists demo_run.2. split; [by vm_compute|].
  eapply rtc_l; [apply step_iteration; vm_compute; reflexivity|].
  eapply rtc_l; [apply step_sigusr1|].
  apply rtc_once, step_iteration. vm_compute. reflexivity.
Defined.

Lemma outputall_terminates_witness :
  wp (aplogd_rambuf_outputall (Z.to_nat 8192)) demo_env demo_sys
    (fun o s' => o = Done tt /\ buffers_ok (st s')).
Proof.
  apply (outputall_terminates (Z.to_nat 8192) demo_env demo_sys demo_state_ok).
  - intros n fd b. cbn. lia.
  - rewrite Z2Nat.id; [reflexivity|lia].
Defined.

Lemma rambuf_output_delivers_witness :
  aplogd_rambuf_output 1 0 demo_env demo_sys =
    (Done 0, Sys _ _
      (demo_state <| total_write_size := total_write_size demo_state + 7 |>
                  <| io_array := emptied 0 demo_state |>)
      [(Write 9 "boot ok", answer 7)]).
Proof.
  apply (rambuf_output_delivers 1 0 9 "boot ok" demo_env demo_sys demo_pending);
    [lia|vm_compute; congruence..|reflexivity].
Defined.

(** The first write accepts two bytes, the second one the rest. *)
Definition short_env : env apl_call := fun n c =>
  match c with Write _ b => answer (if (n =? 0)%nat then 2 else strlen b) | _ => answer 0 end.

Lemma short_write_resends_witness :
  wp (write_loop 2 0 7) short_env demo_sys (fun o s' =>
    o = Done true /\ exists t, tr s' = [] ++ t /\ accepted 9 t = "boboot ").
Proof.
  apply (short_write_resends 2 0 9 "boot ok" 2 short_env demo_sys demo_pending);
    [lia|by vm_compute|reflexivity|reflexivity].
Defined.

Lemma outputs_accounted_witness :
  wp (aplogd_rambuf_output 1 0) demo_env demo_sys (fun _ s' => ledger 9 s' = ledger 9 demo_sys) /\
  wp (switch_storage STORAGE_EXTERNAL STORAGE_USERDATA) demo_env demo_sys
    (fun _ s' => ledger 9 s' = ledger 9 demo_sys).
Proof.
  apply (outputs_accounted 9 1 0 STORAGE_EXTERNAL STORAGE_USERDATA demo_env demo_sys demo_state_ok);
    [lia|apply demo_opens|done].
Defined.

Definition removal : string :=
  "605 Volume sdcard /mnt/sdcard state changed from 4 (Mounted) to 5 (Unmounting)".

Definition demo_external : sys apl_call apl_vars :=
  Sys _ _ (demo_state <| current_storage := STORAGE_EXTERNAL |>) [].

Lemma vold_gone_leaves_witness :
  wp (handle_vold 3 removal) demo_env demo_external (fun o s' =>
    o = Done tt /\ current_storage (st s') <> STORAGE_EXTERNAL /\
    outputs_open log_indexes (st s')).
Proof.
  apply (vold_gone_leaves STORAGE_EXTERNAL removal 3 demo_env demo_external demo_storage);
    [buffers_compute|discriminate|reflexivity|vm_compute; reflexivity|vm_compute; reflexivity
    |intros n; reflexivity].
Defined.

Lemma vold_msg_whole_path_witness :
  is_vold_msg_for STORAGE_EXTERNAL ("605 Volume x " +:+ "/mnt/sdcard" +:+ "-ext state") demo_state
    = false.
Proof.
  apply (vold_msg_whole_path STORAGE_EXTERNAL "/mnt/sdcard" "605 Volume x " "-" "ext state" demo_state);
    by vm_compute.
Defined.

Lemma cleardir_keeps_newest_witness : exists s1 num,
  st s1 = demo_state /\ Forall (fun x => backup_num x <= num) ["No.3_20120101000000"] /\
  (1 < 1 -> aplogd_util_cleardir 2 "/x" 1 demo_env demo_sys = (Done num, s1)) /\
  (1 = 1 -> Exists (fun x => backup_num x < LONG_MAX) ["No.3_20120101000000"] ->
    exists old, old ∈ ["No.3_20120101000000"] /\
      Forall (fun x => backup_num old <= backup_num x) ["No.3_20120101000000"] /\
      aplogd_util_cleardir 2 "/x" 1 demo_env demo_sys =
      andthen (aplogd_remove_dir 1 (path_of (slash "/x" old)))
        (fun r => mret (Done (if r =? -1 then -1 else num))) demo_env s1).
Proof.
  apply (cleardir_keeps_newest 1 "/x" 1 demo_env demo_sys); [done|done|lia|done].
Defined.

Lemma root_dropped_first_witness : exists s1, Forall start_call (calls s1) /\
  (main_start no_options 3 ["aplogd"] demo_env (Sys _ _ apl_start []) = (Exited, s1) \/
   main_start no_options 3 ["aplogd"] demo_env (Sys _ _ apl_start []) =
     main_rest no_options 3 ["aplogd"] demo_env s1 /\
   exists t rs, tr s1 = t ++ zip drop_sequence rs /\ length rs = 4%nat /\
     Forall (fun r => r_ret r <> -1) rs).
Proof.
  apply (root_dropped_first no_options 3 ["aplogd"] demo_env (Sys _ _ apl_start [])); done.
Defined.

(** The connection to vold has hung up. *)
Definition hangup_state : apl_vars :=
  demo_state <| io_fd := <[VOLD_INDEX := PollFd (input_fd (io_at VOLD_INDEX demo_state)) POLLIN
                                           POLLHUP]> (io_fd demo_state) |>.

Lemma vold_hangup_stale_witness : exists fd, 0 <= fd /\
  wp (aplogd_io_handle_poll 1 VOLD_INDEX) demo_env (Sys _ _ hangup_state []) (fun o s' =>
    o = Done true /\ calls s' = [Close fd] /\
    poll_at VOLD_INDEX (st s') = PollFd (-1) 0 0 /\
    input_fd (io_at VOLD_INDEX (st s')) = fd /\
    (input_fd (io_at VOLD_INDEX (st s')) <? 0) = false).
Proof.
  exists (input_fd (io_at VOLD_INDEX demo_state)). split; [by vm_compute|].
  apply (vold_hangup_stale 1 (input_fd (io_at VOLD_INDEX demo_state)) POLLIN demo_env
    (Sys _ _ hangup_state [])); [|by vm_compute..].
  buffers_compute.
Defined.
