(* ===== verification/HdmiHal.v ===== *)
(** * The HDMI audio HAL ([src/audio/hdmi_audio_hw.c])

    The framework opens output streams on the HAL, writes sound to them, puts
    them in standby and closes them.  A stream is an object on the heap of the
    process; the variables of the model are the streams that are allocated, by
    address, and the field the module sets in its descriptor.  What the Android
    headers define is the class [AudioPlatform]; tinyalsa and the parameter
    strings of cutils are calls. *)

From S2P Require Import Prelude.
From S2P Require Import CString.
From S2P Require Import Edid.
From Stdlib Require Import Ascii.
From stdpp Require Import relations.
#[local] Open Scope Z_scope.

(** ** What the Android headers define *)

Class AudioPlatform := {
  OUT_FRONT_LEFT : Z;
  OUT_FRONT_RIGHT : Z;
  OUT_FRONT_CENTER : Z;
  OUT_BACK_CENTER : Z;
  AUDIO_CHANNEL_OUT_STEREO : Z;
  AUDIO_CHANNEL_OUT_QUAD : Z;
  AUDIO_CHANNEL_OUT_5POINT1 : Z;
  AUDIO_CHANNEL_OUT_7POINT1 : Z;
  AUDIO_FORMAT_DEFAULT : Z;
  AUDIO_FORMAT_PCM_16_BIT : Z;
  AUDIO_DEVICE_OUT_AUX_DIGITAL : Z;
  PCM_FORMAT_S16_LE : Z;
  AUDIO_PARAMETER_STREAM_SUP_CHANNELS : string;
  AUDIO_HARDWARE_INTERFACE : string;
  (* [audio_stream_frame_size] of a stream with a channel mask and a format *)
  audio_stream_frame_size : Z -> Z -> Z }.

Definition EINVAL : Z := 22.
Definition ENOMEM : Z := 12.
Definition ENOSYS : Z := 38.

Definition HDMI_PCM_DEV : Z := 0.
Definition HDMI_SAMPLING_RATE : Z := 44100.
Definition HDMI_PERIOD_SIZE : Z := 1920.
Definition HDMI_PERIOD_COUNT : Z := 4.
Definition HDMI_EDID_PATH : string := "/sys/devices/omapdss/display1/edid".

(** ** Data *)

Record audio_config := AudioConfig { sample_rate : Z; channel_mask : Z; format : Z }.

#[export] Instance eta_audio_config : Eta audio_config := fun c =>
  AudioConfig (sample_rate c) (channel_mask c) (format c).

Record pcm_config := PcmConfig {
  pcm_channels : Z; pcm_rate : Z; period_size : Z; period_count : Z; pcm_format : Z }.

#[export] Instance eta_pcm_config : Eta pcm_config := fun c =>
  PcmConfig (pcm_channels c) (pcm_rate c) (period_size c) (period_count c) (pcm_format c).

(** A stream; [pcm] is 0 for NULL. *)
Record hdmi_out_t := HdmiOut {
  config : pcm_config;
  pcm : Z;
  android_config : audio_config;
  up : bool }.

#[export] Instance eta_hdmi_out : Eta hdmi_out_t := fun o =>
  HdmiOut (config o) (pcm o) (android_config o) (up o).

(** The zeros of [calloc] *)
Definition zeroed : hdmi_out_t := HdmiOut (PcmConfig 0 0 0 0 0) 0 (AudioConfig 0 0 0) false.

Inductive hal_call :=
  | Calloc                                   (* address or 0 *)
  | Free (p : Z)
  | PcmOpen (card dev : Z) (c : pcm_config)  (* handle or 0 *)
  | PcmIsReady (p : Z)
  | PcmClose (p : Z)
  | PcmWrite (p : Z) (bytes : string)
  | PcmGetError (p : Z)
  | ParmsCreateStr (keys : string)
  | ParmsCreate
  | ParmsGetStr (query : Z) (key : string)
  | ParmsAddStr (reply : Z) (key value : string)
  | ParmsToStr (reply : Z)
  | ParmsDestroy (p : Z)
  | EdidCall (c : edid_call).

Record hal_vars := HalVars { streams : gmap Z hdmi_out_t; adev_module : Z }.

#[export] Instance eta_hal_vars : Eta hal_vars := fun v => HalVars (streams v) (adev_module v).

Definition hal_start : hal_vars := HalVars ∅ 0.

Abbreviation hal A := (prog hal_call hal_vars A).

(** A program of another component, run with its calls as calls of this one. *)
Definition embed {C1 C2 S A} (inj : C1 -> C2) (m : prog C1 unit A) : prog C2 S A :=
  fun e s =>
    let '(a, s1) := m (fun n c => e (length (tr s) + n)%nat (inj c)) (Sys _ _ tt []) in
    (a, Sys _ _ (st s) (tr s ++ (prod_map inj id <$> tr s1))).

Lemma wp_embed {C1 C2 S A} (inj : C1 -> C2) (m : prog C1 unit A) e (s : sys C2 S) a t Q :
  m (fun n c => e (length (tr s) + n)%nat (inj c)) (Sys _ _ tt []) = (a, Sys _ _ tt t) ->
  Q a (Sys _ _ (st s) (tr s ++ (prod_map inj id <$> t))) -> wp (embed inj m) e s Q.
Proof. intros E H. unfold wp, embed. by rewrite E. Qed.

(** The object a stream pointer points to *)
Definition out_of (stream : Z) (v : hal_vars) : hdmi_out_t := default zeroed (streams v !! stream).

Definition set_out (stream : Z) (f : hdmi_out_t -> hdmi_out_t) : hal unit :=
  modify (fun v => v <| streams := <[stream := f (out_of stream v)]> (streams v) |>).

Section Hal.
  Context {AP : AudioPlatform}.

Definition HDMI_AUDIO_CHANNEL_OUT_SURROUND : Z :=
  Z.lor (Z.lor (Z.lor OUT_FRONT_LEFT OUT_FRONT_RIGHT) OUT_FRONT_CENTER) OUT_BACK_CENTER.

(** ** The stream *)

Definition hdmi_out_get_sample_rate (out : hdmi_out_t) : Z := pcm_rate (config out).

Definition hdmi_out_set_sample_rate (rate : Z) : Z := - EINVAL.

Definition hdmi_out_get_channels (out : hdmi_out_t) : Z := channel_mask (android_config out).

Definition hdmi_out_get_format (out : hdmi_out_t) : Z := format (android_config out).

Definition hdmi_out_set_format (format : Z) : Z := - EINVAL.

Definition hdmi_out_get_buffer_size (out : hdmi_out_t) : Z :=
  u32 (audio_stream_frame_size (hdmi_out_get_channels out) (hdmi_out_get_format out)
       * period_size (config out)).

Definition hdmi_out_standby (stream : Z) : hal Z :=
  out ← gets (out_of stream);
  (if up out && negb (pcm out =? 0) then
     set_out stream (fun o => o <| up := false |>) ;;
     call (PcmClose (pcm out)) ;;
     set_out stream (fun o => o <| pcm := 0 |>)
   else mret tt) ;;
  mret 0.

Definition hdmi_out_get_device : Z := AUDIO_DEVICE_OUT_AUX_DIGITAL.

(** ** The layouts of the display *)

Definition CEA_SPKR_FLFR : Z := 1.
Definition CEA_SPKR_LFE : Z := 2.
Definition CEA_SPKR_FC : Z := 4.
Definition CEA_SPKR_RLRR : Z := 8.
Definition CEA_SPKR_RC : Z := 16.
Definition CEA_SPKR_RLCRRC : Z := 64.

Definition MASK_CEA_QUAD : Z := Z.lor CEA_SPKR_FLFR CEA_SPKR_RLRR.
Definition MASK_CEA_SURROUND : Z := Z.lor (Z.lor CEA_SPKR_FLFR CEA_SPKR_FC) CEA_SPKR_RC.
Definition MASK_CEA_5POINT1 : Z :=
  Z.lor (Z.lor (Z.lor CEA_SPKR_FLFR CEA_SPKR_FC) CEA_SPKR_LFE) CEA_SPKR_RLRR.
Definition MASK_CEA_7POINT1 : Z :=
  Z.lor (Z.lor (Z.lor (Z.lor CEA_SPKR_FLFR CEA_SPKR_FC) CEA_SPKR_LFE) CEA_SPKR_RLRR)
    CEA_SPKR_RLCRRC.

Definition SUPPORTS_ARR (spkalloc profile : Z) : bool := Z.land spkalloc profile =? profile.

(** [strcat] into [value[256]]; [None] is a write past its end. *)
Definition strcat (value s : string) : option string :=
  if (String.length (value +:+ s) <? 256)%nat then Some (value +:+ s) else None.

(** One of the four [if]s that build [value]; the state is [first] and [value]. *)
Definition add_layout (sa profile : Z) (name : string) (st : bool * string)
    : option (bool * string) :=
  let '(first, value) := st in
  if SUPPORTS_ARR sa profile then
    value ← (if first then Some value else strcat value "|");
    value ← strcat value name;
    Some (false, value)
  else Some (first, value).

Definition channels_value (sa : Z) : option string :=
  x ← add_layout sa MASK_CEA_QUAD "AUDIO_CHANNEL_OUT_QUAD" (true, "");
  x ← add_layout sa MASK_CEA_SURROUND "AUDIO_CHANNEL_OUT_SURROUND" x;
  x ← add_layout sa MASK_CEA_5POINT1 "AUDIO_CHANNEL_OUT_5POINT1" x;
  x ← add_layout sa MASK_CEA_7POINT1 "AUDIO_CHANNEL_OUT_7POINT1" x;
  Some x.2.

(** The string that is returned; [None] is an access outside an array. *)
Definition hdmi_out_get_parameters (keys : string) : hal (option string) :=
  q ← call (ParmsCreateStr keys);
  r ← call ParmsCreate;
  let query := r_ret q in
  let reply := r_ret r in
  o ← embed EdidCall (hdmi_query_audio_caps HDMI_EDID_PATH);
  str ← match o with
        | None => mret None
        | Some (status, caps) =>
            if negb (status =? 0) then mret (Some "") else
            p ← call (ParmsGetStr query AUDIO_PARAMETER_STREAM_SUP_CHANNELS);
            if 0 <=? r_ret p then
              match channels_value (speaker_alloc (default (HdmiCaps 0 0) caps)) with
              | None => mret None
              | Some value =>
                  call (ParmsAddStr reply AUDIO_PARAMETER_STREAM_SUP_CHANNELS value) ;;
                  t ← call (ParmsToStr reply);
                  mret (Some (r_data t))
              end
            else mret (Some keys)
        end;
  call (ParmsDestroy query) ;;
  call (ParmsDestroy reply) ;;
  mret str.

(** Milliseconds; the product is [unsigned]. *)
Definition hdmi_out_get_latency (out : hdmi_out_t) : Z :=
  u32 (1000 * period_size (config out) * period_count (config out)) / pcm_rate (config out).

Definition hdmi_out_set_volume : Z := - ENOSYS.

Definition hdmi_out_find_card : Z := 1.

(** ** Playing *)

(** 0 when the PCM is open, 1 when it is not *)
Definition hdmi_out_open_pcm (stream : Z) : hal Z :=
  out ← gets (out_of stream);
  if up out then mret 0 else
  p ← call (PcmOpen hdmi_out_find_card HDMI_PCM_DEV (config out));
  let h := r_ret p in
  set_out stream (fun o => o <| pcm := h |>) ;;
  ready ← (if h =? 0 then mret false
           else r ← call (PcmIsReady h); mret (negb (r_ret r =? 0)));
  if ready : bool then set_out stream (fun o => o <| up := true |>) ;; mret 0
  else
    call (PcmGetError h) ;;
    call (PcmClose h) ;;
    set_out stream (fun o => o <| pcm := 0 |>) ;;
    set_out stream (fun o => o <| up := false |>) ;;
    mret 1.

(** The second half of [hdmi_out_write], with the PCM open *)
Definition write_open (stream : Z) (buffer : string) : hal Z :=
  out ← gets (out_of stream);
  w ← call (PcmWrite (pcm out) buffer);
  let ret := r_ret w in
  if negb (ret =? 0) then
    call (PcmGetError (pcm out)) ;;
    hdmi_out_standby stream ;;
    mret (if ret <? 0 then ret else - ret)
  else mret (strlen buffer).

Definition hdmi_out_write (stream : Z) (buffer : string) : hal Z :=
  out ← gets (out_of stream);
  if negb (up out) then
    r ← hdmi_out_open_pcm stream;
    if negb (r =? 0) then mret (- ENOSYS) else write_open stream buffer
  else write_open stream buffer.

Definition hdmi_out_get_render_position : Z := - EINVAL.
Definition hdmi_out_get_next_write_timestamp : Z := - EINVAL.

(** ** The device *)

Definition hdmi_adev_get_supported_devices : Z := AUDIO_DEVICE_OUT_AUX_DIGITAL.

(** The PCM configuration and the two Android configurations (of the stream and
    of the caller) that [hdmi_adev_open_output_stream] computes; [None] is the
    jump to [fail]. *)
Definition stream_config (cfg : audio_config) : option (pcm_config * audio_config * audio_config) :=
  let a := cfg in
  let p := PcmConfig 0 0 HDMI_PERIOD_SIZE HDMI_PERIOD_COUNT 0 in
  let '(p, a) :=
    if negb (sample_rate a =? 0) then (p <| pcm_rate := sample_rate cfg |>, a)
    else (p <| pcm_rate := HDMI_SAMPLING_RATE |>, a <| sample_rate := HDMI_SAMPLING_RATE |>) in
  f ← (if format a =? AUDIO_FORMAT_DEFAULT then
         Some (p <| pcm_format := PCM_FORMAT_S16_LE |>,
               a <| format := AUDIO_FORMAT_PCM_16_BIT |>)
       else if format a =? AUDIO_FORMAT_PCM_16_BIT then
         Some (p <| pcm_format := PCM_FORMAT_S16_LE |>, a)
       else None);
  let '(p, a) := f in
  let a := a <| channel_mask := channel_mask cfg |> in
  let m := channel_mask cfg in
  Some (if m =? AUDIO_CHANNEL_OUT_STEREO then (p <| pcm_channels := 2 |>, a, cfg)
        else if (m =? AUDIO_CHANNEL_OUT_QUAD) || (m =? HDMI_AUDIO_CHANNEL_OUT_SURROUND) then
          (p <| pcm_channels := 4 |>, a, cfg)
        else if m =? AUDIO_CHANNEL_OUT_5POINT1 then (p <| pcm_channels := 6 |>, a, cfg)
        else if m =? AUDIO_CHANNEL_OUT_7POINT1 then (p <| pcm_channels := 8 |>, a, cfg)
        else (p <| pcm_channels := 8 |>,
              a <| channel_mask := AUDIO_CHANNEL_OUT_7POINT1 |>,
              cfg <| channel_mask := AUDIO_CHANNEL_OUT_7POINT1 |>)).

(** The return value, the caller's configuration and [*stream_out] *)
Definition hdmi_adev_open_output_stream (cfg : audio_config)
    : hal (Z * audio_config * option Z) :=
  a ← call Calloc;
  let out := r_ret a in
  if out =? 0 then mret (- ENOMEM, cfg, None) else
  match stream_config cfg with
  | None => call (Free out) ;; mret (- ENOSYS, cfg, None)
  | Some (p, a, cfg) =>
      modify (fun v => v <| streams := <[out := HdmiOut p 0 a false]> (streams v) |>) ;;
      mret (0, cfg, Some out)
  end.

Definition hdmi_adev_close_output_stream (stream_out : Z) : hal unit :=
  hdmi_out_standby stream_out ;;
  call (Free stream_out) ;;
  modify (fun v => v <| streams := delete stream_out (streams v) |>).

(** The return value; the device is the descriptor of the module. *)
Definition hdmi_adev_open (module : Z) (name : string) : hal Z :=
  if negb (str_eq name AUDIO_HARDWARE_INTERFACE) then mret (- EINVAL)
  else modify (fun v => v <| adev_module := module |>) ;; mret 0.

(** ** The HAL and its client *)

Inductive hal_op :=
  | OpOpen (module : Z) (name : string)
  | OpOpenStream (cfg : audio_config)
  | OpWrite (stream : Z) (buffer : string)
  | OpStandby (stream : Z)
  | OpGetParameters (stream : Z) (keys : string)
  | OpCloseStream (stream : Z).

Definition run_op (o : hal_op) : hal unit :=
  match o with
  | OpOpen m n => hdmi_adev_open m n ;; mret tt
  | OpOpenStream cfg => hdmi_adev_open_output_stream cfg ;; mret tt
  | OpWrite p b => hdmi_out_write p b ;; mret tt
  | OpStandby p => hdmi_out_standby p ;; mret tt
  | OpGetParameters p keys => hdmi_out_get_parameters keys ;; mret tt
  | OpCloseStream p => hdmi_adev_close_output_stream p
  end.

(** The client uses streams that are open; [calloc] does not hand out the
    address of an object that is allocated. *)
Definition op_allowed (e : env hal_call) (s : sys hal_call hal_vars) (o : hal_op) : Prop :=
  match o with
  | OpOpen _ _ => True
  | OpOpenStream _ => streams (st s) !! r_ret (e (length (tr s)) Calloc) = None
  | OpWrite p _ | OpStandby p | OpGetParameters p _ | OpCloseStream p =>
      is_Some (streams (st s) !! p)
  end.

Inductive hdmi_step (e : env hal_call) : relation (sys hal_call hal_vars) :=
  | hdmi_step_op o s : op_allowed e s o -> hdmi_step e s (run_op o e s).2.

Definition hal_reachable (e : env hal_call) : sys hal_call hal_vars -> Prop :=
  rtc (hdmi_step e) (Sys _ _ hal_start []).
End Hal.
