(* ===== verification/HdmiThms.v ===== *)
(** * The HDMI audio HAL: PCM handles, errors and recovery

    A stream that is up holds an open PCM handle and no other stream does; an
    error puts the stream in standby, and the next write opens it again. *)

From S2P Require Import Prelude.
From S2P Require Import CString.
From S2P Require Import Edid.
From S2P Require Import HdmiHal.
From Stdlib Require Import Ascii.
From stdpp Require Import relations.
#[local] Open Scope Z_scope.

(** ** PCM handles *)

#[export] Instance hal_fd_calls : FdCalls hal_call := fun h x =>
  match x.1 with
  | PcmOpen _ _ _ => if r_ret x.2 =? h then 1 else 0
  | PcmClose q => if q =? h then -1 else 0
  | _ => 0
  end.

(** Does a stream hold handle [h]? *)
Definition holds_pcm (h : Z) (o : hdmi_out_t) : Z := if pcm o =? h then 1 else 0.

(** The number of streams that hold handle [h] *)
Definition held (h : Z) (m : gmap Z hdmi_out_t) : Z :=
  map_fold (fun _ o n => holds_pcm h o + n) 0 m.

Lemma held_insert_new h m k o :
  m !! k = None -> held h (<[k:=o]> m) = holds_pcm h o + held h m.
Proof. intros Hk. unfold held. rewrite map_fold_insert_L; [done | intros; lia | done]. Qed.

Lemma held_delete h m k o : m !! k = Some o -> held h (delete k m) = held h m - holds_pcm h o.
Proof.
  intros Hk. unfold held. rewrite (map_fold_delete_L _ _ k o m); [lia | intros; lia | done].
Qed.

Lemma held_update h m k o o' :
  m !! k = Some o -> held h (<[k:=o']> m) = held h m - holds_pcm h o + holds_pcm h o'.
Proof.
  intros Hk. rewrite <- insert_delete_eq, held_insert_new by apply lookup_delete_eq.
  rewrite (held_delete _ _ _ o) by done. lia.
Qed.

(** A stream is up exactly when it holds a handle. *)
Definition stream_ok (o : hdmi_out_t) : Prop := up o = negb (pcm o =? 0).

Record hal_inv (s : sys hal_call hal_vars) : Prop := {
  inv_streams : map_Forall (fun _ o => stream_ok o) (streams (st s));
  inv_pcm : forall h, h <> 0 -> fd_balance h (tr s) = held h (streams (st s)) }.

(** ** Operations on one stream *)

(** What an operation on a stream does to the streams and to the handles *)
Definition on_stream (stream : Z) (o o' : hdmi_out_t) (s s' : sys hal_call hal_vars) : Prop :=
  st s' = (st s) <| streams := <[stream := o']> (streams (st s)) |>
  /\ stream_ok o' /\ config o' = config o /\ android_config o' = android_config o
  /\ forall h, h <> 0 ->
       fd_balance h (tr s') = fd_balance h (tr s) - holds_pcm h o + holds_pcm h o'.

Lemma on_stream_inv stream o o' s s' :
  streams (st s) !! stream = Some o -> on_stream stream o o' s s' ->
  hal_inv s -> hal_inv s'.
Proof.
  intros Hs (Hst & Hok & _ & _ & Hb) [Hm Hp]. split.
  - rewrite Hst. by apply map_Forall_insert_2.
  - intros h Hh. rewrite Hb, Hp, Hst by done. cbn. by rewrite (held_update h _ _ o o').
Qed.

(** The driver works from position [n] of the trace on. *)
Definition driver_works (e : env hal_call) (n : nat) : Prop :=
  forall k, (n <= k)%nat ->
    (forall card dev c, r_ret (e k (PcmOpen card dev c)) <> 0)
    /\ (forall h, r_ret (e k (PcmIsReady h)) <> 0)
    /\ (forall h b, r_ret (e k (PcmWrite h b)) = 0).

Section Stream.
  Context {AP : AudioPlatform} (e : env hal_call) (stream : Z).
  Implicit Types (m : gmap Z hdmi_out_t).

(** States in which the object of the stream is visible *)
Lemma wp_out o m md t (Q : hdmi_out_t -> sys hal_call hal_vars -> Prop) :
  Q o (Sys _ _ (HalVars (<[stream:=o]> m) md) t) ->
  wp (gets (out_of stream)) e (Sys _ _ (HalVars (<[stream:=o]> m) md) t) Q.
Proof. intros H. apply wp_gets. unfold out_of. cbn. by rewrite lookup_insert_eq. Qed.

Lemma wp_set_out f o m md t (Q : unit -> sys hal_call hal_vars -> Prop) :
  Q tt (Sys _ _ (HalVars (<[stream:=f o]> m) md) t) ->
  wp (set_out stream f) e (Sys _ _ (HalVars (<[stream:=o]> m) md) t) Q.
Proof.
  intros H. apply wp_modify. cbn. unfold set_field, out_of. cbn.
  by rewrite lookup_insert_eq, insert_insert_eq.
Qed.

Lemma broken_open n k card dev c :
  (n <= k)%nat -> r_ret (e k (PcmOpen card dev c)) = 0 -> ~ driver_works e n.
Proof. intros Hk H Hd. destruct (Hd k Hk) as (Ho & _). by apply (Ho card dev c). Qed.

Lemma broken_ready n k h :
  (n <= k)%nat -> r_ret (e k (PcmIsReady h)) = 0 -> ~ driver_works e n.
Proof. intros Hk H Hd. destruct (Hd k Hk) as (_ & Ho & _). by apply (Ho h). Qed.

Lemma broken_write n k h b :
  (n <= k)%nat -> r_ret (e k (PcmWrite h b)) <> 0 -> ~ driver_works e n.
Proof. intros Hk H Hd. destruct (Hd k Hk) as (_ & _ & Ho). by apply H. Qed.

Lemma driver_works_later n k : (n <= k)%nat -> driver_works e n -> driver_works e k.
Proof. intros Hk Hd j Hj. apply Hd. lia. Qed.

Ltac hal_tac :=
  first
    [ lazymatch goal with |- wp (gets (out_of stream)) _ _ _ => apply wp_out end
    | lazymatch goal with |- wp (set_out stream _) _ _ _ => apply wp_set_out end
    | wp_step ].

(** The object after a successful and after a failed [pcm_open] *)
Definition opened (h : Z) (o : hdmi_out_t) : hdmi_out_t := o <| pcm := h |> <| up := true |>.
Definition closed (o : hdmi_out_t) : hdmi_out_t := o <| up := false |> <| pcm := 0 |>.

Lemma closed_idle o : stream_ok o -> up o = false -> closed o = o.
Proof.
  unfold stream_ok. destruct o as [? p ? ?]. cbn. intros -> Hp.
  destruct (Z.eqb_spec p 0); [by subst|done].
Qed.

Lemma closed_holds h o : h <> 0 -> holds_pcm h (closed o) = 0.
Proof. intros Hh. unfold holds_pcm. cbn. by destruct h. Qed.

Lemma idle_holds h o : stream_ok o -> up o = false -> h <> 0 -> holds_pcm h o = 0.
Proof. intros Ho Hu Hh. rewrite <- (closed_idle o Ho Hu). by apply closed_holds. Qed.

Lemma standby_spec o m md t :
  stream_ok o ->
  wp (hdmi_out_standby stream) e (Sys _ _ (HalVars (<[stream:=o]> m) md) t) (fun r s' =>
    r = 0 /\ st s' = HalVars (<[stream:=closed o]> m) md
    /\ (length t <= length (tr s'))%nat
    /\ forall h, h <> 0 -> fd_balance h (tr s') = fd_balance h t - holds_pcm h o).
Proof.
  intros Ho. unfold hdmi_out_standby. repeat hal_tac.
  - split_and!; [done | done | cbn [tr]; rewrite length_app; lia |].
    intros h Hh. unfold holds_pcm. fd_solve.
  - assert (up o = false /\ pcm o = 0) as [Hu Hp].
    { unfold stream_ok in Ho. rewrite Ho in *. destruct (Z.eqb_spec (pcm o) 0); done. }
    split_and!; [done | by rewrite closed_idle | done |].
    intros h Hh. unfold holds_pcm. fd_solve.
Qed.

Lemma open_pcm_spec o m md t :
  stream_ok o -> up o = false ->
  wp (hdmi_out_open_pcm stream) e (Sys _ _ (HalVars (<[stream:=o]> m) md) t) (fun r s' =>
    (exists h, r = 0 /\ h <> 0 /\ st s' = HalVars (<[stream:=opened h o]> m) md
       /\ (length t < length (tr s'))%nat
       /\ forall p, p <> 0 -> fd_balance p (tr s') = fd_balance p t + (if h =? p then 1 else 0))
    \/ (r = 1 /\ st s' = HalVars (<[stream:=o]> m) md
        /\ ~ driver_works e (length t) /\ (length t < length (tr s'))%nat
        /\ forall p, p <> 0 -> fd_balance p (tr s') = fd_balance p t)).
Proof.
  intros Ho Hu. unfold hdmi_out_open_pcm. do 2 hal_tac. rewrite Hu. repeat hal_tac.
  1,3: right; split_and!;
    [done | cbn [st]; do 2 f_equal; exact (closed_idle o Ho Hu) | | cbn [tr]; rewrite !length_app; cbn; lia
    | intros p Hp; fd_solve].
  - eapply broken_open; [done | rewrite <- Hr; lia].
  - eapply broken_ready; [|rewrite <- Hr0; lia]. rewrite length_app. lia.
  - left. exists (r_ret r). split_and!; [done | lia | done | cbn [tr]; rewrite !length_app; cbn; lia |].
    intros p Hp. fd_solve.
Qed.

Lemma opened_ok h o : h <> 0 -> stream_ok (opened h o).
Proof. intros Hh. unfold stream_ok. cbn. by destruct (Z.eqb_spec h 0). Qed.

Lemma closed_ok o : stream_ok (closed o).
Proof. done. Qed.

(** What a write leaves behind, from a state in which the object is [o] and the
    trace is [t]: the sound went to an open handle, or the stream is closed. *)
Definition written (buffer : string) (o o' : hdmi_out_t) (t : list (hal_call * resp)) (r : Z)
    (s' : sys hal_call hal_vars) : Prop :=
  (length t < length (tr s'))%nat
  /\ (forall h, h <> 0 ->
        fd_balance h (tr s') = fd_balance h t - holds_pcm h o + holds_pcm h o')
  /\ ((r = strlen buffer /\ up o' = true
       /\ exists a, last (tr s') = Some (PcmWrite (pcm o') buffer, a) /\ r_ret a = 0)
      \/ (r < 0 /\ up o' = false /\ ~ driver_works e (length t))).

Lemma write_open_spec buffer o m md t :
  stream_ok o -> up o = true ->
  wp (write_open stream buffer) e (Sys _ _ (HalVars (<[stream:=o]> m) md) t) (fun r s' =>
    exists o', st s' = HalVars (<[stream:=o']> m) md /\ (o' = o \/ o' = closed o)
      /\ written buffer o o' t r s').
Proof.
  intros Ho Hu. unfold write_open. do 5 hal_tac; repeat hal_tac.
  - eapply wp_wand; [by apply standby_spec|]. intros r1 s' (-> & Hs & Hl & Hb). apply wp_ret.
    exists (closed o). split_and!; [done | by right |].
    unfold written. rewrite !length_app in Hl. cbn [length] in Hl.
    split_and!; [lia | |].
    + intros h Hh. rewrite Hb, closed_holds by done. fd_solve.
    + right. split_and!; [case_match; lia | done |]. eapply broken_write; [done|].
      rewrite <- Hr. lia.
  - exists o. split_and!; [done | by left |]. unfold written. cbn [tr].
    split_and!; [rewrite length_app; cbn; lia | intros h Hh; fd_solve |].
    left. split_and!; [done..|]. exists r. rewrite last_snoc. split; [done|lia].
Qed.

Lemma on_stream_intro o o' m md t s' :
  st s' = HalVars (<[stream:=o']> m) md -> stream_ok o' ->
  config o' = config o -> android_config o' = android_config o ->
  (forall h, h <> 0 -> fd_balance h (tr s') = fd_balance h t - holds_pcm h o + holds_pcm h o') ->
  on_stream stream o o' (Sys _ _ (HalVars (<[stream:=o]> m) md) t) s'.
Proof.
  intros Hs Ho Hc Ha Hb. split_and!; try done. rewrite Hs. cbn [st].
  unfold set_field. cbn. by rewrite insert_insert_eq.
Qed.

(** A write, from any state of the stream *)
Lemma write_spec buffer o m md t :
  stream_ok o ->
  wp (hdmi_out_write stream buffer) e (Sys _ _ (HalVars (<[stream:=o]> m) md) t) (fun r s' =>
    exists o', on_stream stream o o' (Sys _ _ (HalVars (<[stream:=o]> m) md) t) s'
      /\ written buffer o o' t r s').
Proof.
  intros Ho. unfold hdmi_out_write. do 2 hal_tac. destruct (up o) eqn:Hu; cbn [negb].
  - eapply wp_wand; [by apply write_open_spec|]. intros r s' (o' & Hs & Ho' & Hw).
    exists o'. split; [|done].
    destruct Ho' as [-> | ->]; apply on_stream_intro; try done; apply Hw.
  - apply wp_bind. eapply wp_wand; [by apply open_pcm_spec|].
    intros r s' [(h & -> & Hh & Hs & Hl & Hb) | (-> & Hs & Hd & Hl & Hb)].
    + destruct s' as [v' t']. cbn in Hs. subst v'. cbn [Z.eqb negb].
      eapply wp_wand; [by apply write_open_spec; [apply opened_ok|]|].
      intros r s'' (o' & Hs & Ho' & Hl' & Hb' & Hw). cbn [tr] in *. exists o'.
      assert (forall p, p <> 0 -> fd_balance p (tr s'') = fd_balance p t - holds_pcm p o
                                                         + holds_pcm p o') as Hb''.
      { intros p Hp. rewrite Hb', Hb by done. unfold opened, holds_pcm. cbn.
        pose proof (idle_holds p o Ho Hu Hp). unfold holds_pcm in *. lia. }
      split; [destruct Ho' as [-> | ->]; apply on_stream_intro; try done; by apply opened_ok|].
      split_and!; [lia | done |]. destruct Hw as [Hw | (Hr & Hu' & Hd)]; [by left|right].
      split_and!; [done..|]. intros Hd'. apply Hd.
      apply (driver_works_later (length t)); [lia|done].
    + cbn [Z.eqb negb]. apply wp_ret. exists o.
      assert (forall p, p <> 0 -> fd_balance p (tr s') = fd_balance p t - holds_pcm p o
                                                        + holds_pcm p o) as Hb'.
      { intros p Hp. rewrite Hb by done. lia. }
      split; [by apply on_stream_intro|]. split_and!; [done | done | by right].
Qed.
End Stream.

(** ** The invariant of the HAL *)

Lemma sys_at (s : sys hal_call hal_vars) stream o :
  streams (st s) !! stream = Some o ->
  s = Sys _ _ (HalVars (<[stream:=o]> (streams (st s))) (adev_module (st s))) (tr s).
Proof. intros H. rewrite insert_id by done. by destruct s as [[] ?]. Qed.

Lemma edid_balance h (t : list (edid_call * resp)) :
  fd_balance h (prod_map EdidCall id <$> t) = 0.
Proof. induction t as [|[c r] t IH]; [done|]. unfold fd_balance in *. cbn in *. lia. Qed.

Section Invariant.
  Context {AP : AudioPlatform} (e : env hal_call).
  Implicit Types (s : sys hal_call hal_vars).

Lemma inv_ok s stream o : hal_inv s -> streams (st s) !! stream = Some o -> stream_ok o.
Proof. intros [Hm _] Hs. exact (map_Forall_lookup_1 _ _ _ _ Hm Hs). Qed.

(** An operation that leaves the streams alone and opens no handle *)
Lemma inv_same s s' :
  streams (st s') = streams (st s) -> (forall h, fd_balance h (tr s') = fd_balance h (tr s)) ->
  hal_inv s -> hal_inv s'.
Proof. intros Hs Hb [Hm Hp]. split; [by rewrite Hs|]. intros h Hh. rewrite Hb, Hs. auto. Qed.

Lemma write_keeps s stream buffer :
  is_Some (streams (st s) !! stream) -> hal_inv s ->
  wp (hdmi_out_write stream buffer) e s (fun _ s' => hal_inv s').
Proof.
  intros [o Ho] Hi. rewrite (sys_at s stream o Ho).
  eapply wp_wand; [by eapply write_spec, inv_ok|]. intros r s' (o' & Hon & _).
  rewrite <- (sys_at s stream o Ho) in Hon. by eapply on_stream_inv.
Qed.

Lemma standby_keeps s stream :
  is_Some (streams (st s) !! stream) -> hal_inv s ->
  wp (hdmi_out_standby stream) e s (fun _ s' =>
    hal_inv s' /\ exists o, streams (st s') !! stream = Some o /\ pcm o = 0).
Proof.
  intros [o Ho] Hi. rewrite (sys_at s stream o Ho).
  eapply wp_wand; [by eapply standby_spec, inv_ok|]. intros r s' (_ & Hs & _ & Hb). split.
  - eapply (on_stream_inv stream o (closed o) s); [done | | done].
    rewrite (sys_at s stream o Ho). apply on_stream_intro; try done.
    intros h Hh. rewrite Hb, closed_holds by done. lia.
  - exists (closed o). rewrite Hs. cbn. by rewrite lookup_insert_eq.
Qed.

Lemma close_keeps s stream :
  is_Some (streams (st s) !! stream) -> hal_inv s ->
  wp (hdmi_adev_close_output_stream stream) e s (fun _ s' => hal_inv s').
Proof.
  intros Ho Hi. unfold hdmi_adev_close_output_stream.
  apply wp_bind. eapply wp_wand; [by apply standby_keeps|].
  intros r s' [[Hm Hp] (o & Hs & Hz)]. repeat wp_step. split; cbn.
  - by apply map_Forall_delete.
  - intros h Hh. rewrite (held_delete h _ _ o) by done. unfold holds_pcm. rewrite Hz.
    rewrite <- Hp by done. fd_solve.
Qed.

Lemma open_stream_keeps s cfg :
  streams (st s) !! r_ret (e (length (tr s)) Calloc) = None -> hal_inv s ->
  wp (hdmi_adev_open_output_stream cfg) e s (fun _ s' => hal_inv s').
Proof.
  intros Hf Hi. unfold hdmi_adev_open_output_stream. apply wp_bind, wp_call. intros a ->.
  cbv zeta. wp_step; [|wp_step; [destruct p as [[p a] c]|]]; repeat wp_step.
  1,3: apply (inv_same s); [done | intros h; fd_solve | done].
  destruct Hi as [Hm Hp]. split; cbn.
  - by apply map_Forall_insert_2.
  - intros h Hh. rewrite held_insert_new by done. rewrite <- Hp by done.
    unfold holds_pcm. cbn [pcm]. fd_solve.
Qed.

Lemma get_parameters_keeps s keys :
  hal_inv s -> wp (hdmi_out_get_parameters keys) e s (fun _ s' => hal_inv s').
Proof.
  intros Hi. apply (wp_wand _ _ _ (fun _ s' => st s' = st s /\
    forall h, fd_balance h (tr s') = fd_balance h (tr s))).
  2: { intros a s' [Hs Hb]. apply (inv_same s); [by rewrite Hs | done | done]. }
  unfold hdmi_out_get_parameters. do 4 wp_step. cbv zeta. apply wp_bind.
  unfold wp at 1, embed. destruct (hdmi_query_audio_caps _ _ _) as [o s1]. cbn [fst snd st tr].
  repeat wp_step; (split; [done|]); intros h; cbn [tr];
    autorewrite with fdbal; rewrite edid_balance; fd_solve.
Qed.

Lemma op_keeps s o : op_allowed e s o -> hal_inv s -> hal_inv (run_op o e s).2.
Proof.
  intros Ha Hi. change (wp (run_op o) e s (fun _ s' => hal_inv s')).
  destruct o; cbn [run_op]; cbn in Ha; [apply wp_bind..|].
  - unfold hdmi_adev_open. repeat wp_step; [done|]. by apply (inv_same s).
  - by eapply wp_wand; [apply open_stream_keeps|].
  - by eapply wp_wand; [apply write_keeps|].
  - eapply wp_wand; [by apply standby_keeps|]. by intros ? ? [? _].
  - by eapply wp_wand; [apply get_parameters_keeps|].
  - by apply close_keeps.
Qed.

Lemma start_inv : hal_inv (Sys _ _ hal_start []).
Proof. split; [apply map_Forall_empty|]. intros h Hh. done. Qed.

Lemma steps_inv s s' : rtc (hdmi_step e) s s' -> hal_inv s -> hal_inv s'.
Proof.
  induction 1 as [|x y z Hxy _ IH]; [done|]. intros Hx. apply IH.
  destruct Hxy. by apply op_keeps.
Qed.

Lemma hal_reachable_inv s : hal_reachable e s -> hal_inv s.
Proof. intros Hr. exact (steps_inv _ _ Hr start_inv). Qed.

(** C22. PCM handles are neither leaked nor closed twice, in every state the HAL
    reaches by any sequence of operations of its client and with any answers of
    the driver: a stream is up exactly when it holds a handle, and for every
    handle the number of times it was opened and not yet closed is the number of
    open streams that hold it. *)
Theorem hdmi_pcm_balanced s :
  hal_reachable e s ->
  (forall stream o, streams (st s) !! stream = Some o -> (up o = true <-> pcm o <> 0))
  /\ (forall h, h <> 0 -> fd_balance h (tr s) = held h (streams (st s))).
Proof.
  intros Hr%hal_reachable_inv. split; [|apply Hr]. intros stream o Ho.
  pose proof (inv_ok _ _ _ Hr Ho) as Hk. unfold stream_ok in Hk. rewrite Hk.
  destruct (Z.eqb_spec (pcm o) 0); cbn; split; done.
Qed.

(** A write at a reachable state, in terms of that state *)
Lemma write_at s stream o buffer :
  hal_inv s -> streams (st s) !! stream = Some o ->
  wp (hdmi_out_write stream buffer) e s (fun r s' =>
    exists o', on_stream stream o o' s s' /\ written e buffer o o' (tr s) r s').
Proof.
  intros Hi Ho. pose proof (sys_at s stream o Ho) as Es. rewrite Es at 1.
  eapply wp_wand; [by eapply write_spec, inv_ok|].
  intros r s' (o' & Hon & Hw). exists o'. by rewrite Es.
Qed.

(** C25. A write answers the number of bytes exactly when they went out: then the
    stream is up and the last call was a [pcm_write] of them that answered 0 to
    its own open handle.  Otherwise the answer is negative, and the stream is in
    standby with no handle.  The configuration of the stream and the other
    streams do not change. *)
Theorem hdmi_write_outcome s stream o buffer :
  hal_reachable e s -> streams (st s) !! stream = Some o ->
  wp (hdmi_out_write stream buffer) e s (fun r s' =>
    exists o', streams (st s') = <[stream := o']> (streams (st s))
      /\ config o' = config o /\ android_config o' = android_config o
      /\ ((r = strlen buffer /\ up o' = true /\ pcm o' <> 0
           /\ exists a, last (tr s') = Some (PcmWrite (pcm o') buffer, a) /\ r_ret a = 0)
          \/ (r < 0 /\ up o' = false /\ pcm o' = 0))).
Proof.
  intros Hr%hal_reachable_inv Ho. eapply wp_wand; [by apply write_at|].
  intros r s' (o' & (Hs & Hk & Hc & Ha & _) & _ & _ & Hw). exists o'.
  split_and!; [by rewrite Hs | done | done |]. unfold stream_ok in Hk.
  destruct Hw as [(-> & Hu & Hl) | (Hn & Hu & _)]; rewrite Hu in Hk;
    [left | right]; split_and!; try done; destruct (Z.eqb_spec (pcm o') 0); done.
Qed.

(** A client that repeats a write until it is accepted *)
Fixpoint play (fuel : nat) (stream : Z) (buffer : string) : hal bool :=
  match fuel with
  | O => mret false
  | S fuel =>
      r ← hdmi_out_write stream buffer;
      if 0 <=? r then mret true else play fuel stream buffer
  end.

Lemma play_accepted k : forall s stream o buffer n,
  hal_inv s -> streams (st s) !! stream = Some o ->
  driver_works e n -> (n <= length (tr s) + k)%nat ->
  wp (play (S k) stream buffer) e s (fun r s' =>
    r = true /\ exists o' a, streams (st s') !! stream = Some o' /\ up o' = true
      /\ last (tr s') = Some (PcmWrite (pcm o') buffer, a) /\ r_ret a = 0).
Proof.
  induction k as [|k IH]; intros s stream o buffer n Hi Ho Hd Hn; cbn [play];
    apply wp_bind; (eapply wp_wand; [by apply write_at|]);
    intros r s' (o' & Hon & Hl & _ & [(-> & Hu & a & Hlast & Ha) | (Hneg & Hu & Hnd)]).
  1,3: rewrite (proj2 (Z.leb_le 0 (strlen buffer))) by (unfold strlen; lia);
    apply wp_ret; split; [done|]; exists o', a; split_and!; try done;
    rewrite (proj1 Hon); cbn; by rewrite lookup_insert_eq.
  - destruct Hnd. by apply (driver_works_later e n); [lia|].
  - rewrite (proj2 (Z.leb_gt 0 r)) by lia.
    destruct (decide (n <= length (tr s))%nat) as [Hle|Hgt].
    { destruct Hnd. by apply (driver_works_later e n). }
    apply (IH s' stream o' buffer n); [by eapply on_stream_inv | | done | lia].
    rewrite (proj1 Hon). cbn. by rewrite lookup_insert_eq.
Qed.

(** C23. Errors do not wedge a stream: from every reachable state, however many
    writes and opens have failed before, a client that repeats its write plays
    the sound once the driver works again.  If the driver works from position
    [n] of the trace on, one attempt more than the calls missing to [n] is
    enough, and the last call is the [pcm_write] that took the buffer. *)
Theorem hdmi_play_recovers s stream o buffer n k :
  hal_reachable e s -> streams (st s) !! stream = Some o ->
  driver_works e n -> (n <= length (tr s) + k)%nat ->
  wp (play (S k) stream buffer) e s (fun r s' =>
    r = true /\ exists o' a, streams (st s') !! stream = Some o' /\ up o' = true
      /\ last (tr s') = Some (PcmWrite (pcm o') buffer, a) /\ r_ret a = 0).
Proof. intros Hr%hal_reachable_inv. by apply play_accepted. Qed.

End Invariant.

(** ** The layouts that are offered *)

(** Every speaker of [profile] is in [sa]. *)
Lemma supports_bits sa profile :
  SUPPORTS_ARR sa profile = true <->
  forall i, 0 <= i -> Z.testbit profile i = true -> Z.testbit sa i = true.
Proof.
  unfold SUPPORTS_ARR. rewrite Z.eqb_eq. split.
  - intros E i Hi Hp. rewrite <- E, Z.land_spec in Hp. by apply andb_true_iff in Hp as [? _].
  - intros H. apply Z.bits_inj'. intros i Hi. rewrite Z.land_spec.
    destruct (Z.testbit profile i) eqn:Ep; [|by rewrite andb_false_r].
    by rewrite (H i Hi Ep).
Qed.

Definition layouts : list (Z * string) :=
  [(MASK_CEA_QUAD, "AUDIO_CHANNEL_OUT_QUAD"); (MASK_CEA_SURROUND, "AUDIO_CHANNEL_OUT_SURROUND");
   (MASK_CEA_5POINT1, "AUDIO_CHANNEL_OUT_5POINT1"); (MASK_CEA_7POINT1, "AUDIO_CHANNEL_OUT_7POINT1")].

(** The names of the layouts whose speakers the display has, between bars *)
Definition offered (sa : Z) : list string :=
  (filter (fun l => SUPPORTS_ARR sa l.1 = true) layouts).*2.

Lemma channels_value_offered sa : channels_value sa = Some (String.concat "|" (offered sa)).
Proof.
  unfold channels_value, add_layout, offered, layouts. cbn [mbind option_bind].
  rewrite !filter_cons, filter_nil. cbn [fst].
  destruct (SUPPORTS_ARR sa MASK_CEA_QUAD), (SUPPORTS_ARR sa MASK_CEA_SURROUND),
    (SUPPORTS_ARR sa MASK_CEA_5POINT1), (SUPPORTS_ARR sa MASK_CEA_7POINT1); by vm_compute.
Qed.

(** What the framework is offered comes from the display: when the E-EDID that
    the kernel delivers is well formed, [hdmi_out_get_parameters] answers a query
    for the channel masks with the names of exactly those multichannel layouts
    whose speakers its last speaker block announces, in the order quad, surround,
    5.1, 7.1; the text fits in its 256 bytes, the file is closed and both
    parameter objects are destroyed. *)
Theorem hdmi_offers_layouts {AP : AudioPlatform} e s keys base flags bs post fd query reply :
  let n := length (tr s) in
  let key := AUDIO_PARAMETER_STREAM_SUP_CHANNELS in
  let rd := e (n + 3)%nat (EdidCall (Read fd HDMI_MAX_EDID)) in
  fd = r_ret (e (n + 2)%nat (EdidCall (Open HDMI_EDID_PATH))) -> fd <> -1 -> r_ret rd <> -1 ->
  byte_list (buf_bytes 512 (received HDMI_MAX_EDID rd)) = cea_edid base flags bs post ->
  cea_ok base flags bs post ->
  query = r_ret (e n (ParmsCreateStr keys)) -> reply = r_ret (e (n + 1)%nat ParmsCreate) ->
  0 <= r_ret (e (n + 5)%nat (ParmsGetStr query key)) ->
  wp (hdmi_out_get_parameters keys) e s (fun r s' =>
    st s' = st s /\ r = Some (r_data (e (n + 7)%nat (ParmsToStr reply)))
    /\ calls s' = calls s
         ++ [ParmsCreateStr keys; ParmsCreate; EdidCall (Open HDMI_EDID_PATH);
             EdidCall (Read fd HDMI_MAX_EDID); EdidCall (Close fd); ParmsGetStr query key;
             ParmsAddStr reply key (String.concat "|" (offered (announced 0 bs)));
             ParmsToStr reply; ParmsDestroy query; ParmsDestroy reply]).
Proof.
  intros n key rd Hfd Hne Hrd Hdata Hok -> -> Hkey. subst n key rd.
  unfold hdmi_out_get_parameters. do 4 wp_step. cbv zeta. apply wp_bind.
  eapply wp_embed; [apply (hdmi_query_reads _ _ fd (HdmiCaps 1 (announced 0 bs)))|].
  all: cbn [tr]; rewrite ?length_app, <- ?Nat.add_assoc; cbn [length Nat.add]; try done.
  { by rewrite Hdata, parse_cea_edid. }
  rewrite length_app in Hr0. cbn [length] in Hr0. rewrite <- Hr0, <- Hr in *.
  cbn [Z.eqb negb default from_option id speaker_alloc]. rewrite channels_value_offered.
  do 2 apply wp_bind. apply wp_call. intros g Hg.
  cbn [tr] in Hg. rewrite !length_app, <- !Nat.add_assoc in Hg. cbn in Hg. rewrite Hg.
  rewrite (proj2 (Z.leb_le _ _) Hkey).
  apply wp_bind, wp_call. intros a _. apply wp_bind, wp_call. intros t Ht.
  cbn [tr] in Ht. rewrite !length_app, <- !Nat.add_assoc in Ht. cbn in Ht.
  repeat wp_step. split_and!; [done | by rewrite Ht |].
  unfold calls. cbn [tr]. rewrite !fmap_app, <- !app_assoc. done.
Qed.

(** ** The theorems on concrete runs *)

(** The values of the Android headers *)
Definition android_audio : AudioPlatform := {|
  OUT_FRONT_LEFT := 1; OUT_FRONT_RIGHT := 2; OUT_FRONT_CENTER := 4; OUT_BACK_CENTER := 0x100;
  AUDIO_CHANNEL_OUT_STEREO := 3; AUDIO_CHANNEL_OUT_QUAD := 0x33;
  AUDIO_CHANNEL_OUT_5POINT1 := 0x3F; AUDIO_CHANNEL_OUT_7POINT1 := 0x63F;
  AUDIO_FORMAT_DEFAULT := 0; AUDIO_FORMAT_PCM_16_BIT := 1;
  AUDIO_DEVICE_OUT_AUX_DIGITAL := 0x400; PCM_FORMAT_S16_LE := 0;
  AUDIO_PARAMETER_STREAM_SUP_CHANNELS := "sup_channels";
  AUDIO_HARDWARE_INTERFACE := "audio_hw_if";
  audio_stream_frame_size m f := 2 * Z.of_nat (length (filter (fun i => Z.testbit m i = true) (seqZ 0 12)))
|}.
#[local] Existing Instance android_audio.

Definition cfg_5_1 : audio_config := AudioConfig 48000 0x3F 0.

(** A driver that fails until the third call and then works *)
Definition flaky : env hal_call := fun n c =>
  match c with
  | Calloc => answer 100
  | PcmOpen _ _ _ => answer 7
  | PcmIsReady _ => answer (if (n <? 3)%nat then 0 else 1)
  | PcmWrite _ _ => answer (if (n <? 3)%nat then -5 else 0)
  | _ => answer 0
  end.

(** The stream is open, nothing was written yet. *)
Definition idle_state : sys hal_call hal_vars :=
  (run_op (OpOpenStream cfg_5_1) flaky (Sys _ _ hal_start [])).2.

(** One write was tried. *)
Definition tried_state : sys hal_call hal_vars := (run_op (OpWrite 100 "snd") flaky idle_state).2.

(** And another one, which succeeded. *)
Definition playing_state : sys hal_call hal_vars := (run_op (OpWrite 100 "snd") flaky tried_state).2.

Definition stream_5_1 : hdmi_out_t :=
  HdmiOut (PcmConfig 6 48000 1920 4 0) 0 (AudioConfig 48000 0x3F 1) false.

Lemma idle_reachable : hal_reachable flaky idle_state.
Proof. apply rtc_once. by apply (hdmi_step_op _ (OpOpenStream cfg_5_1)). Qed.

Lemma tried_reachable : hal_reachable flaky tried_state.
Proof.
  eapply rtc_r; [apply idle_reachable|]. apply (hdmi_step_op _ (OpWrite 100 "snd")).
  by exists stream_5_1.
Qed.

Lemma playing_reachable : hal_reachable flaky playing_state.
Proof.
  eapply rtc_r; [apply tried_reachable|]. apply (hdmi_step_op _ (OpWrite 100 "snd")).
  by exists stream_5_1.
Qed.

Lemma hdmi_pcm_balanced_witness :
  fd_balance 7 (tr playing_state) = held 7 (streams (st playing_state))
  /\ held 7 (streams (st playing_state)) = 1.
Proof. split; [|done]. by apply (hdmi_pcm_balanced flaky playing_state playing_reachable). Defined.

Lemma hdmi_write_outcome_witness :
  wp (hdmi_out_write 100 "snd") flaky idle_state (fun r s' =>
    exists o', streams (st s') = <[100 := o']> (streams (st idle_state))
      /\ config o' = config stream_5_1 /\ android_config o' = android_config stream_5_1
      /\ ((r = strlen "snd" /\ up o' = true /\ pcm o' <> 0
           /\ exists a, last (tr s') = Some (PcmWrite (pcm o') "snd", a) /\ r_ret a = 0)
          \/ (r < 0 /\ up o' = false /\ pcm o' = 0))).
Proof. by apply (hdmi_write_outcome flaky idle_state 100 stream_5_1 "snd" idle_reachable). Defined.

Lemma flaky_works : driver_works flaky 3.
Proof.
  intros k Hk. unfold flaky. rewrite (proj2 (Nat.ltb_ge k 3) Hk).
  split_and!; done.
Qed.

Lemma hdmi_play_recovers_witness :
  wp (play 3 100 "snd") flaky idle_state (fun r s' =>
    r = true /\ exists o' a, streams (st s') !! 100 = Some o' /\ up o' = true
      /\ last (tr s') = Some (PcmWrite (pcm o') "snd", a) /\ r_ret a = 0).
Proof.
  apply (hdmi_play_recovers flaky idle_state 100 stream_5_1 "snd" 3 2 idle_reachable);
    [done | apply flaky_works | vm_compute; lia].
Defined.

(** The bytes of an E-EDID as the kernel delivers them *)
Definition edid_text (l : list Z) : string :=
  String.string_of_list_ascii ((fun z => ascii_of_N (Z.to_N z)) <$> l).

Definition demo_edid : list Z := cea_edid demo_base 64 demo_blocks (replicate 368 0).

Definition display_env : env hal_call := fun _ c =>
  match c with
  | EdidCall (Read _ _) => Resp 512 0 (edid_text demo_edid) []
  | ParmsToStr _ => Resp 0 0 "reply" []
  | ParmsCreate => answer 2
  | _ => answer 3
  end.

Lemma demo_edid_ok : cea_ok demo_base 64 demo_blocks (replicate 368 0).
Proof.
  split; try reflexivity; [|vm_compute; lia].
  repeat constructor; cbn; try lia; try congruence. intros _. by exists 1%nat.
Qed.

Example demo_layouts : String.concat "|" (offered (announced 0 demo_blocks))
  = "AUDIO_CHANNEL_OUT_QUAD|AUDIO_CHANNEL_OUT_5POINT1|AUDIO_CHANNEL_OUT_7POINT1".
Proof. by vm_compute. Qed.

Lemma hdmi_offers_layouts_witness :
  wp (hdmi_out_get_parameters "sup_channels") display_env (Sys _ _ hal_start []) (fun r s' =>
    st s' = hal_start /\ r = Some "reply"
    /\ calls s' = calls (Sys _ _ hal_start []) ++ [ParmsCreateStr "sup_channels"; ParmsCreate;
         EdidCall (Open HDMI_EDID_PATH); EdidCall (Read 3 HDMI_MAX_EDID); EdidCall (Close 3);
         ParmsGetStr 3 AUDIO_PARAMETER_STREAM_SUP_CHANNELS;
         ParmsAddStr 2 AUDIO_PARAMETER_STREAM_SUP_CHANNELS
           (String.concat "|" (offered (announced 0 demo_blocks)));
         ParmsToStr 2; ParmsDestroy 3; ParmsDestroy 2]).
Proof.
  apply (hdmi_offers_layouts display_env (Sys _ _ hal_start []) "sup_channels" demo_base 64
    demo_blocks (replicate 368 0) 3 3 2); try apply demo_edid_ok; vm_compute; done.
Defined.
