(* ===== verification/AudioCond.v ===== *)
(** * The condition variables of the audio wrapper ([src/audio/wrapper.c], lines 84 to 127)

    [AudioWrap] takes the wait for a stream as a guard.  Here the macros around [in_use]
    are sequences of operations of the thread library, with the mutex of an array, a
    mutex and a condition for each of its elements, and threads that sleep until they
    are signalled.  The theorem justifies the guard: the work behind a wait is done while
    [in_use] is 0, and no wake-up is lost, so every call comes to its end. *)

From S2P Require Import Prelude.
From stdpp Require Import functions relations.

#[local] Open Scope Z_scope.

(** ** Operations and threads *)

(** [in_streams_mutex] or [out_streams_mutex], and [in_use_mutex] of an element *)
Inductive mutex := StreamsMutex | InUseMutex (i : nat).

#[export] Instance mutex_eq_dec : EqDecision mutex.
Proof. solve_decision. Defined.

(** [WaitWhileInUse] is the loop [while (in_use) pthread_cond_wait(...)]. *)
Inductive prim :=
  | Lock (m : mutex)
  | Unlock (m : mutex)
  | AddInUse (i : nat) (n : Z)
  | WaitWhileInUse (i : nat)
  | Signal (i : nat)
  | Vendor.

#[export] Instance prim_eq_dec : EqDecision prim.
Proof. solve_decision. Defined.

Definition INCREMENT_IN_USE (i : nat) : list prim :=
  [Lock (InUseMutex i); AddInUse i 1; Unlock (InUseMutex i)].

Definition DECREMENT_IN_USE (i : nat) : list prim :=
  [Lock (InUseMutex i); AddInUse i (-1); Signal i; Unlock (InUseMutex i)].

Definition WAIT_FOR_FREE (i : nat) : list prim := [Lock (InUseMutex i); WaitWhileInUse i].

Definition UNLOCK_FREE (i : nat) : list prim := [Signal i; Unlock (InUseMutex i)].

(** [wrapper_read] and [wrapper_write], on element [i] of the array *)
Definition transfer_function (i : nat) : list prim :=
  [Lock StreamsMutex] ++ INCREMENT_IN_USE i ++ [Unlock StreamsMutex] ++ [Vendor]
  ++ DECREMENT_IN_USE i.

(** The functions of [_WRAP_STREAM_LOCKED] *)
Definition locked_function (i : nat) : list prim :=
  [Lock StreamsMutex] ++ WAIT_FOR_FREE i ++ [Vendor] ++ UNLOCK_FREE i ++ [Unlock StreamsMutex].

(** A function that finds no stream *)
Definition unknown_function : list prim := [Lock StreamsMutex; Unlock StreamsMutex].

Inductive status := Running | Asleep | Woken.

#[export] Instance status_eq_dec : EqDecision status.
Proof. solve_decision. Defined.

(** A thread: what is left of its call.  A thread that sleeps is about to repeat the test
    of its loop. *)
Record cthread := CThread { c_status : status; c_rest : list prim }.

Record csys := CSys {
  c_threads : list cthread;
  c_owner : mutex -> option nat;
  c_in_use : nat -> Z }.

Definition asleep_on (i : nat) (th : cthread) : bool :=
  match th with CThread Asleep (WaitWhileInUse j :: _) => (i =? j)%nat | _ => false end.

(** A condition wakes one of the threads that wait for it, if there is one. *)
Inductive cond_step : csys -> csys -> Prop :=
  | cs_lock ts own (n : nat -> Z) (t : nat) m r :
      ts !! t = Some (CThread Running (Lock m :: r)) -> own m = None ->
      cond_step (CSys ts own n) (CSys (<[t := CThread Running r]> ts) (<[m := Some t]> own) n)
  | cs_unlock ts own (n : nat -> Z) (t : nat) m r :
      ts !! t = Some (CThread Running (Unlock m :: r)) ->
      cond_step (CSys ts own n) (CSys (<[t := CThread Running r]> ts) (<[m := None]> own) n)
  | cs_add ts own (n : nat -> Z) (t : nat) i k r :
      ts !! t = Some (CThread Running (AddInUse i k :: r)) ->
      cond_step (CSys ts own n) (CSys (<[t := CThread Running r]> ts) own (<[i := n i + k]> n))
  | cs_free ts own (n : nat -> Z) (t : nat) i r :
      ts !! t = Some (CThread Running (WaitWhileInUse i :: r)) -> n i = 0 ->
      cond_step (CSys ts own n) (CSys (<[t := CThread Running r]> ts) own n)
  | cs_sleep ts own (n : nat -> Z) (t : nat) i r :
      ts !! t = Some (CThread Running (WaitWhileInUse i :: r)) -> n i <> 0 ->
      cond_step (CSys ts own n)
        (CSys (<[t := CThread Asleep (WaitWhileInUse i :: r)]> ts) (<[InUseMutex i := None]> own) n)
  | cs_wake ts own (n : nat -> Z) (t : nat) i r u r' :
      ts !! t = Some (CThread Running (Signal i :: r)) ->
      ts !! u = Some (CThread Asleep (WaitWhileInUse i :: r')) ->
      cond_step (CSys ts own n)
        (CSys (<[u := CThread Woken (WaitWhileInUse i :: r')]> (<[t := CThread Running r]> ts)) own n)
  | cs_signal ts own (n : nat -> Z) (t : nat) i r :
      ts !! t = Some (CThread Running (Signal i :: r)) -> existsb (asleep_on i) ts = false ->
      cond_step (CSys ts own n) (CSys (<[t := CThread Running r]> ts) own n)
  | cs_relock ts own (n : nat -> Z) (t : nat) i r :
      ts !! t = Some (CThread Woken (WaitWhileInUse i :: r)) -> own (InUseMutex i) = None ->
      cond_step (CSys ts own n)
        (CSys (<[t := CThread Running (WaitWhileInUse i :: r)]> ts)
              (<[InUseMutex i := Some t]> own) n)
  | cs_vendor ts own (n : nat -> Z) (t : nat) r :
      ts !! t = Some (CThread Running (Vendor :: r)) ->
      cond_step (CSys ts own n) (CSys (<[t := CThread Running r]> ts) own n).

(** [pthread_cond_wait] may also return without a signal. *)
Inductive spurious : csys -> csys -> Prop :=
  | spurious_wake ts own n (t : nat) r :
      ts !! t = Some (CThread Asleep r) ->
      spurious (CSys ts own n) (CSys (<[t := CThread Woken r]> ts) own n).

Definition wrapper_step (x y : csys) : Prop := cond_step x y \/ spurious x y.

(** The calls of the framework, each in a thread of its own *)
Inductive wrapper_function : list prim -> Prop :=
  | wf_transfer i : wrapper_function (transfer_function i)
  | wf_locked i : wrapper_function (locked_function i)
  | wf_unknown : wrapper_function unknown_function.

Definition cond_start (calls : list (list prim)) : csys :=
  CSys (CThread Running <$> calls) (fun _ => None) (fun _ => 0).

(** ** What is left of a call *)

(** The mutex is released before it is taken again: the thread has it. *)
Fixpoint will_unlock (m : mutex) (l : list prim) : bool :=
  match l with
  | [] => false
  | Lock m' :: r => if decide (m = m') then false else will_unlock m r
  | Unlock m' :: r => if decide (m = m') then true else will_unlock m r
  | _ :: r => will_unlock m r
  end.

(** What the rest adds to [in_use] of an element *)
Fixpoint pending (i : nat) (l : list prim) : Z :=
  match l with
  | [] => 0
  | AddInUse j n :: r => (if decide (i = j) then n else 0) + pending i r
  | _ :: r => pending i r
  end.

(** The call of the vendor behind a wait for element [i] *)
Definition serves (i : nat) (l : list prim) : Prop := exists r, l = Vendor :: Signal i :: r.

(** The discipline of the macros, at the operation [p] before the rest [r] *)
Definition disciplined_here (p : prim) (r : list prim) : Prop :=
  match p with
  | Lock StreamsMutex => will_unlock StreamsMutex r = true /\
      forall j, pending j r = 0 /\ will_unlock (InUseMutex j) r = false
  | Lock (InUseMutex i) => will_unlock (InUseMutex i) r = true /\
      forall j, j <> i -> will_unlock (InUseMutex j) r = false
  | Unlock m => will_unlock m r = false
  | AddInUse i n => will_unlock (InUseMutex i) r = true /\
      ((exists r', r = Signal i :: r') \/ 0 < n /\ will_unlock StreamsMutex r = true)
  | WaitWhileInUse i => will_unlock (InUseMutex i) r = true /\ will_unlock StreamsMutex r = true /\
      forall j, pending j r = 0 /\ (j <> i -> will_unlock (InUseMutex j) r = false)
  | Signal i => will_unlock (InUseMutex i) r = true
  | Vendor => True
  end.

Fixpoint disciplined (l : list prim) : Prop :=
  match l with
  | [] => True
  | p :: r => disciplined_here p r /\ (forall i, serves i r -> p = WaitWhileInUse i)
      /\ (forall j, pending j r <= 0) /\ disciplined r
  end.

Lemma wrapper_function_disciplined l : wrapper_function l -> disciplined l /\
  (forall m, will_unlock m l = false) /\ (forall j, pending j l = 0) /\ forall i, ~ serves i l.
Proof.
  intros H. split_and!.
  - destruct H; cbn; unfold disciplined_here; cbn;
      repeat match goal with
      | |- _ /\ _ => split
      | |- forall _, _ => intros
      | |- True => done
      | H : serves _ _ |- _ => destruct H as [? H]; try discriminate H; injection H as ->; try done
      | |- context [decide ?P] => destruct (decide P); simplify_eq
      | |- exists r, _ => eexists; reflexivity
      end; try done; try lia; auto; left; by eexists.
  - destruct H; intros []; cbn; repeat case_decide; simplify_eq; done.
  - destruct H; intros j; cbn; repeat case_decide; lia.
  - intros i [r E]. destruct H; discriminate E.
Qed.

(** ** The invariant *)

(** A thread that waits has given the mutex of its element back. *)
Definition has_mutex (m : mutex) (th : cthread) : bool :=
  match th with
  | CThread Running r => will_unlock m r
  | CThread _ (WaitWhileInUse i :: r) => bool_decide (m <> InUseMutex i) && will_unlock m r
  | _ => false
  end.

Definition valid (th : cthread) : Prop :=
  disciplined (c_rest th) /\
  (c_status th <> Running -> exists i r, c_rest th = WaitWhileInUse i :: r) /\
  forall j, pending j (c_rest th) <= 0.

Definition owned (own : mutex -> option nat) (ts : list cthread) : Prop :=
  forall m t, own m = Some t <-> exists th, ts !! t = Some th /\ has_mutex m th = true.

(** What all threads together will add to [in_use] *)
Fixpoint total (i : nat) (ts : list cthread) : Z :=
  match ts with [] => 0 | th :: ts => pending i (c_rest th) + total i ts end.

(** The thread that has brought [in_use] to 0 is about to signal it. *)
Definition will_signal (i : nat) (ts : list cthread) : Prop :=
  exists t r, ts !! t = Some (CThread Running (Signal i :: r)).

Record cond_inv (x : csys) : Prop := CondInv {
  ci_valid : Forall valid (c_threads x);
  ci_owned : owned (c_owner x) (c_threads x);
  ci_count : forall i, c_in_use x i = - total i (c_threads x);
  ci_asleep : forall i u th, c_threads x !! u = Some th -> asleep_on i th = true ->
    c_in_use x i <> 0 \/ will_signal i (c_threads x);
  ci_serves : forall t i r, c_threads x !! t = Some (CThread Running r) -> serves i r ->
    c_in_use x i = 0 }.

Lemma total_insert i ts t th th' : ts !! t = Some th ->
  total i (<[t := th']> ts) = total i ts - pending i (c_rest th) + pending i (c_rest th').
Proof.
  revert t. induction ts as [|z ts IH]; intros [|t] Ht; cbn in Ht; simplify_eq; [cbn; lia|].
  change (<[S t := th']> (z :: ts)) with (z :: <[t := th']> ts). cbn [total]. rewrite (IH t Ht). lia.
Qed.

Lemma total_zero i ts : Forall (fun th => pending i (c_rest th) = 0) ts -> total i ts = 0.
Proof. induction 1 as [|th ts H _ IH]; cbn; lia. Qed.

(** One thread goes on. *)
Lemma owned_step own own' ts t th th' : owned own ts -> ts !! t = Some th ->
  (forall m, has_mutex m th' = has_mutex m th /\ own' m = own m
     \/ has_mutex m th' = true /\ own m = None /\ own' m = Some t
     \/ has_mutex m th = true /\ has_mutex m th' = false /\ own' m = None) ->
  owned own' (<[t := th']> ts).
Proof.
  intros Ho Ht Hm m u. pose proof (lookup_lt_Some _ _ _ Ht) as Hlt. specialize (Ho m).
  destruct (decide (t = u)) as [<- | Hne].
  - rewrite list_lookup_insert_eq by done.
    transitivity (has_mutex m th' = true).
    2: { split; [intros H; by exists th'|]. by intros (? & [= <-] & ?). }
    assert (own m = Some t <-> has_mutex m th = true) as Hi.
    { rewrite Ho. split; [|intros H; by exists th]. intros (? & E & ?). by simplify_eq. }
    destruct (Hm m) as [(-> & ->) | [(-> & _ & ->) | (_ & -> & ->)]]; [done | done|].
    split; discriminate.
  - rewrite list_lookup_insert_ne by done. rewrite <- (Ho u).
    destruct (Hm m) as [(_ & ->) | [(_ & -> & ->) | (H & _ & ->)]]; [done | |].
    + split; [congruence | discriminate].
    + assert (own m = Some t) as -> by (apply Ho; by exists th). split; [discriminate | congruence].
Qed.

(** At most one thread sleeps: it holds the mutex of the array. *)
Lemma asleep_holds th i : valid th -> asleep_on i th = true ->
  has_mutex StreamsMutex th = true.
Proof.
  intros [Hd _] Ha. destruct th as [[] [|[] r]]; try done. cbn in *.
  apply andb_true_iff. split; [by apply bool_decide_eq_true|]. apply Hd.
Qed.

Lemma owned_once own ts t u th th' m : owned own ts -> ts !! t = Some th -> ts !! u = Some th' ->
  has_mutex m th = true -> has_mutex m th' = true -> t = u.
Proof.
  intros Ho Ht Hu H1 H2. assert (own m = Some t) by (apply Ho; by exists th).
  assert (own m = Some u) by (apply Ho; by exists th'). congruence.
Qed.

(** ** Every step keeps the invariant *)

Section Steps.
Context (ts : list cthread) (own : mutex -> option nat) (n : nat -> Z).
Hypothesis HI : cond_inv (CSys ts own n).

Lemma thread_disciplined t s l : ts !! t = Some (CThread s l) -> disciplined l.
Proof using HI. intros Ht. apply (Forall_lookup_1 _ _ _ _ (ci_valid _ HI) Ht). Qed.

Lemma signal_stays i t th' : will_signal i ts ->
  (forall r, ts !! t <> Some (CThread Running (Signal i :: r))) -> will_signal i (<[t := th']> ts).
Proof using.
  intros (u & r & Hu) Ht. exists u, r. rewrite list_lookup_insert_ne; [done|]. intros <-. by eapply Ht.
Qed.

(** An operation that leaves [in_use] alone *)
Lemma advance_inv t p r own' :
  ts !! t = Some (CThread Running (p :: r)) -> owned own' (<[t := CThread Running r]> ts) ->
  (forall i k, p <> AddInUse i k) -> (forall i, p = WaitWhileInUse i -> n i = 0) ->
  (forall i, p = Signal i -> existsb (asleep_on i) ts = false) ->
  cond_inv (CSys (<[t := CThread Running r]> ts) own' n).
Proof using HI.
  intros Ht Ho Ha Hw Hs. pose proof (thread_disciplined _ _ _ Ht) as (_ & Hv & Hp & Hr).
  split; cbn.
  - apply Forall_insert; [apply HI|]. by split_and!.
  - done.
  - intros i. rewrite (total_insert _ _ _ _ _ Ht). cbn [c_rest].
    pose proof (ci_count _ HI i) as E. cbn in E. rewrite E.
    replace (pending i (p :: r)) with (pending i r); [lia|]. destruct p; try done. by edestruct Ha.
  - intros i u th Hu Hsl. destruct (decide (t = u)) as [<- |Hne].
    { rewrite list_lookup_insert_eq in Hu by by eapply lookup_lt_Some. by injection Hu as <-. }
    rewrite list_lookup_insert_ne in Hu by done.
    destruct (ci_asleep _ HI i u th Hu Hsl) as [H|H]; [by left | right].
    apply signal_stays; [done|]. intros r' E. rewrite Ht in E. injection E as -> ->.
    specialize (Hs i eq_refl). apply not_true_iff_false in Hs. apply Hs, existsb_exists.
    exists th. split; [|done]. apply list_elem_of_In. by eapply list_elem_of_lookup_2.
  - intros u i l Hu Hl. destruct (decide (t = u)) as [<- |Hne].
    { rewrite list_lookup_insert_eq in Hu by by eapply lookup_lt_Some. injection Hu as <-.
      apply Hw, Hv, Hl. }
    rewrite list_lookup_insert_ne in Hu by done. by apply (ci_serves _ HI u i l).
Qed.

(** Falling asleep, waking up and taking the mutex again *)
Lemma status_inv t s s' i r own' :
  ts !! t = Some (CThread s (WaitWhileInUse i :: r)) ->
  owned own' (<[t := CThread s' (WaitWhileInUse i :: r)]> ts) -> (s' = Asleep -> n i <> 0) ->
  cond_inv (CSys (<[t := CThread s' (WaitWhileInUse i :: r)]> ts) own' n).
Proof using HI.
  intros Ht Ho Hs. pose proof (thread_disciplined _ _ _ Ht) as Hd.
  assert (forall j, will_signal j ts ->
    will_signal j (<[t := CThread s' (WaitWhileInUse i :: r)]> ts)) as Hsig.
  { intros j H. apply signal_stays; [done|]. intros r'. rewrite Ht. congruence. }
  split; cbn.
  - apply Forall_insert; [apply HI|]. split_and!; [exact Hd | cbn; eauto|].
    apply (Forall_lookup_1 _ _ _ _ (ci_valid _ HI) Ht).
  - done.
  - intros j. rewrite (total_insert _ _ _ _ _ Ht). cbn [c_rest].
    pose proof (ci_count _ HI j) as E. cbn in E. lia.
  - intros j u th Hu Hsl. destruct (decide (t = u)) as [<- |Hne].
    { rewrite list_lookup_insert_eq in Hu by by eapply lookup_lt_Some. injection Hu as <-. left.
      destruct s'; try done. cbn in Hsl. apply Nat.eqb_eq in Hsl as ->. by apply Hs. }
    rewrite list_lookup_insert_ne in Hu by done.
    destruct (ci_asleep _ HI j u th Hu Hsl) as [H|H]; [by left | right; by apply Hsig].
  - intros u j l Hu Hl. destruct (decide (t = u)) as [<- |Hne].
    { rewrite list_lookup_insert_eq in Hu by by eapply lookup_lt_Some. injection Hu as -> <-.
      by destruct Hl. }
    rewrite list_lookup_insert_ne in Hu by done. by apply (ci_serves _ HI u j l).
Qed.

(** [in_use] changes under the mutex of its element. *)
Lemma add_inv t i k r : ts !! t = Some (CThread Running (AddInUse i k :: r)) ->
  cond_inv (CSys (<[t := CThread Running r]> ts) own (<[i := n i + k]> n)).
Proof using HI.
  intros Ht. pose proof (thread_disciplined _ _ _ Ht) as ((Hm & Hk) & Hv & Hp & Hr).
  pose proof (lookup_lt_Some _ _ _ Ht) as Hlt.
  split; cbn.
  - apply Forall_insert; [apply HI|]. by split_and!.
  - eapply owned_step; [apply HI | exact Ht|]. intros m. left. done.
  - intros j. rewrite (total_insert _ _ _ _ _ Ht). cbn [c_rest pending].
    pose proof (ci_count _ HI j) as E. cbn in E. destruct (decide (j = i)) as [->|Hne].
    + rewrite fn_lookup_insert. lia.
    + rewrite fn_lookup_insert_ne by done. lia.
  - intros j u th Hu Hsl. destruct (decide (t = u)) as [<- |Hne].
    { rewrite list_lookup_insert_eq in Hu by done. by injection Hu as <-. }
    rewrite list_lookup_insert_ne in Hu by done.
    destruct (decide (j = i)) as [->|Hj].
    + destruct Hk as [[r' ->] | [_ Hst]].
      * right. exists t, r'. by apply list_lookup_insert_eq.
      * exfalso. apply Hne. apply (owned_once own ts _ _ _ _ StreamsMutex (ci_owned _ HI) Ht Hu); [done|].
        apply (asleep_holds _ i); [|done]. by apply (Forall_lookup_1 _ _ _ _ (ci_valid _ HI) Hu).
    + rewrite fn_lookup_insert_ne by done.
      destruct (ci_asleep _ HI j u th Hu Hsl) as [H|H]; [by left | right].
      apply signal_stays; [done|]. intros r'. rewrite Ht. congruence.
  - intros u j l Hu Hl. destruct (decide (t = u)) as [<- |Hne].
    { rewrite list_lookup_insert_eq in Hu by done. injection Hu as <-. by specialize (Hv j Hl). }
    rewrite list_lookup_insert_ne in Hu by done. destruct (decide (j = i)) as [->|Hj].
    + exfalso. apply Hne. destruct Hl as [r' ->].
      apply (owned_once own ts _ _ _ _ (InUseMutex i) (ci_owned _ HI) Ht Hu); [exact Hm|].
      pose proof (thread_disciplined _ _ _ Hu) as (_ & _ & _ & H & _). exact H.
    + rewrite fn_lookup_insert_ne by done. by apply (ci_serves _ HI u j l).
Qed.
End Steps.

Lemma wait_mutex s m i r : s <> Running ->
  has_mutex m (CThread s (WaitWhileInUse i :: r)) = bool_decide (m <> InUseMutex i) && will_unlock m r.
Proof. by destruct s. Qed.

Lemma spurious_inv x y : spurious x y -> cond_inv x -> cond_inv y.
Proof.
  intros [ts own n t r Ht] HI.
  pose proof (Forall_lookup_1 _ _ _ _ (ci_valid _ HI) Ht) as (_ & H & _). cbn in H.
  destruct H as (i & r' & ->); [done|]. apply (status_inv _ _ _ HI _ Asleep); [done| |done].
  eapply owned_step; [apply HI | exact Ht|]. intros m. left. by rewrite !wait_mutex.
Qed.

Lemma cond_step_inv x y : cond_step x y -> cond_inv x -> cond_inv y.
Proof.
  intros Hs HI. destruct Hs as [ts own n t m r Ht Hm|ts own n t m r Ht|ts own n t i k r Ht
    |ts own n t i r Ht Hn|ts own n t i r Ht Hn|ts own n t i r u r' Ht Hu|ts own n t i r Ht Hno
    |ts own n t i r Ht Hm|ts own n t r Ht];
    pose proof (thread_disciplined _ _ _ HI _ _ _ Ht) as (Hd & _ & _ & Hr).
  - apply (advance_inv _ _ _ HI _ (Lock m)); [done| |done..].
    eapply owned_step; [apply HI | exact Ht|]. intros m'. destruct (decide (m' = m)) as [->|Hne].
    + right. left. rewrite fn_lookup_insert. split_and!; [|done..]. cbn in *. by destruct m; apply Hd.
    + left. rewrite fn_lookup_insert_ne by done. cbn. by rewrite decide_False.
  - apply (advance_inv _ _ _ HI _ (Unlock m)); [done| |done..].
    eapply owned_step; [apply HI | exact Ht|]. intros m'. destruct (decide (m' = m)) as [->|Hne].
    + right. right. rewrite fn_lookup_insert. split_and!; [|exact Hd|done]. cbn. by rewrite decide_True.
    + left. rewrite fn_lookup_insert_ne by done. cbn. by rewrite decide_False.
  - by apply add_inv.
  - apply (advance_inv _ _ _ HI _ (WaitWhileInUse i)); [done| |done| |done].
    + eapply owned_step; [apply HI | exact Ht|]. intros m. by left.
    + by intros j [= ->].
  - apply (status_inv _ _ _ HI _ Running); [done| |done].
    eapply owned_step; [apply HI | exact Ht|]. intros m.
    rewrite (wait_mutex Asleep) by done. destruct (decide (m = InUseMutex i)) as [->|Hne].
    + right. right. rewrite fn_lookup_insert. split_and!; [apply Hd | by rewrite bool_decide_eq_false_2 by auto | done].
    + left. rewrite fn_lookup_insert_ne, bool_decide_eq_true_2 by done. done.
  - assert (t <> u) as Hne by congruence. rewrite list_insert_insert_ne by done.
    assert (cond_inv (CSys (<[u := CThread Woken (WaitWhileInUse i :: r')]> ts) own n)) as HI'.
    { apply (spurious_inv (CSys ts own n)); [by constructor | done]. }
    apply (advance_inv _ _ _ HI' _ (Signal i)); [by rewrite list_lookup_insert_ne| |done|done|].
    + eapply owned_step; [apply HI' | by rewrite list_lookup_insert_ne|]. intros m. by left.
    + intros j [= <-]. apply not_true_iff_false. intros (th & Hin & Ha)%existsb_exists.
      apply list_elem_of_In, list_elem_of_lookup in Hin as [v Hv].
      destruct (decide (u = v)) as [<- |Huv].
      { rewrite list_lookup_insert_eq in Hv by by eapply lookup_lt_Some. by injection Hv as <-. }
      rewrite list_lookup_insert_ne in Hv by done. apply Huv.
      pose proof (Forall_lookup_1 _ _ _ _ (ci_valid _ HI) Hu) as Hvu.
      pose proof (Forall_lookup_1 _ _ _ _ (ci_valid _ HI) Hv) as Hvv.
      apply (owned_once own ts _ _ _ _ StreamsMutex (ci_owned _ HI) Hu Hv).
      * apply (asleep_holds _ i); [done | apply Nat.eqb_refl].
      * by apply (asleep_holds _ i).
  - apply (advance_inv _ _ _ HI _ (Signal i)); [done| |done|done|by intros j [= <-]].
    eapply owned_step; [apply HI | exact Ht|]. intros m. by left.
  - apply (status_inv _ _ _ HI _ Woken); [done| |done].
    eapply owned_step; [apply HI | exact Ht|]. intros m.
    rewrite (wait_mutex Woken) by done. destruct (decide (m = InUseMutex i)) as [->|Hne].
    + right. left. rewrite fn_lookup_insert. split_and!; [cbn; apply Hd | exact Hm | done].
    + left. rewrite fn_lookup_insert_ne, bool_decide_eq_true_2 by done. done.
  - apply (advance_inv _ _ _ HI _ Vendor); [done| |done..].
    eapply owned_step; [apply HI | exact Ht|]. intros m. by left.
Qed.

Lemma cond_start_inv calls : Forall wrapper_function calls -> cond_inv (cond_start calls).
Proof.
  intros Hc. assert (forall t th, (CThread Running <$> calls) !! t = Some th ->
    exists l, th = CThread Running l /\ wrapper_function l) as Hth.
  { intros t th H. rewrite list_lookup_fmap in H. apply fmap_Some in H as (l & H & ->). exists l. split; [done|].
    by apply (Forall_lookup_1 _ _ _ _ Hc H). }
  split; cbn.
  - apply Forall_fmap. eapply Forall_impl; [exact Hc|]. intros l Hl.
    apply wrapper_function_disciplined in Hl as (Hd & _ & Hz & _).
    split_and!; [done..|]. intros j. cbn. by rewrite Hz.
  - intros m t. split; [done|]. intros (th & (l & -> & Hl)%Hth & H). cbn in H.
    apply wrapper_function_disciplined in Hl as (_ & Hm & _). by rewrite Hm in H.
  - intros i. rewrite total_zero; [done|]. apply Forall_fmap. eapply Forall_impl; [exact Hc|].
    intros l Hl. cbn. by apply wrapper_function_disciplined.
  - intros i u th (l & -> & _)%Hth. done.
  - intros t i r (l & [= ->] & Hl)%Hth Hr.
    apply wrapper_function_disciplined in Hl as (_ & _ & _ & H). by destruct (H i).
Qed.

(** ** No deadlock *)

Lemma total_nonzero i ts : total i ts <> 0 ->
  exists u th, ts !! u = Some th /\ pending i (c_rest th) <> 0.
Proof.
  induction ts as [|th ts IH]; cbn; [done|]. intros H.
  destruct (decide (pending i (c_rest th) = 0)) as [E|E]; [|by exists 0%nat, th].
  destruct IH as (u & th' & Hu & ?); [lia|]. by exists (S u), th'.
Qed.

(** Only a thread that wants a mutex has to wait. *)
Lemma runs_on ts own n t p r : ts !! t = Some (CThread Running (p :: r)) ->
  (forall m, p = Lock m -> own m = None) -> red cond_step (CSys ts own n).
Proof.
  intros Ht Hp. destruct p as [m|m|i k|i|i|].
  - eexists. by eapply cs_lock with (t := t) (m := m) (r := r); auto.
  - eexists. by eapply cs_unlock.
  - eexists. by eapply cs_add.
  - destruct (decide (n i = 0)); eexists; [by eapply cs_free | by eapply cs_sleep].
  - destruct (existsb (asleep_on i) ts) eqn:E; [|eexists; by eapply cs_signal].
    apply existsb_exists in E as (th & [u Hu]%list_elem_of_In%list_elem_of_lookup & Ha).
    destruct th as [[] [|[] r']]; try done. cbn in Ha. apply Nat.eqb_eq in Ha as ->.
    eexists. by eapply cs_wake.
  - eexists. by eapply cs_vendor.
Qed.

(** A thread that has the mutex of an element is not held up. *)
Lemma element_runs x i t : cond_inv x -> c_owner x (InUseMutex i) = Some t -> red cond_step x.
Proof.
  destruct x as [ts own n]. intros HI (th & Ht & Hm)%(ci_owned _ HI). cbn in *.
  pose proof (Forall_lookup_1 _ _ _ _ (ci_valid _ HI) Ht) as (Hd & Hw & _).
  destruct th as [s l]. cbn in Hd, Hw. destruct (decide (s = Running)) as [->|Hs].
  - destruct l as [|p r]; [done|]. destruct Hd as (Hd & _). cbn in Hm.
    apply (runs_on _ _ _ _ _ _ Ht). intros m ->. exfalso. cbn in Hm, Hd.
    case_decide as Hne; [done|]. destruct m as [|j]; [by destruct Hd as [_ H]; destruct (H i); congruence|].
    destruct Hd as [_ H]. rewrite H in Hm; [done|]. congruence.
  - destruct (Hw Hs) as (j & r & ->). destruct Hd as ((_ & _ & H) & _).
    rewrite wait_mutex in Hm by done. apply andb_true_iff in Hm as [Hne Hm].
    apply bool_decide_eq_true in Hne. destruct (H i) as [_ H']. rewrite H' in Hm; [done|]. congruence.
Qed.

(** Where nothing can go on, all calls have ended. *)
Lemma stuck_finished x : cond_inv x -> nf cond_step x ->
  Forall (fun th => c_rest th = []) (c_threads x).
Proof.
  intros HI Hnf. destruct x as [ts own n].
  assert (forall i, own (InUseMutex i) = None) as Hel.
  { intros i. destruct (own (InUseMutex i)) as [t|] eqn:E; [|done].
    destruct Hnf. by apply (element_runs _ i t HI). }
  assert (forall t th, ts !! t = Some th -> c_rest th = []
    \/ (exists r, th = CThread Running (Lock StreamsMutex :: r)) \/ exists i, asleep_on i th = true) as Hall.
  { intros t [s l] Ht. pose proof (Forall_lookup_1 _ _ _ _ (ci_valid _ HI) Ht) as (_ & Hw & _). cbn in Hw.
    destruct s.
    - destruct l as [|p r]; [by left|]. right. left. destruct (decide (p = Lock StreamsMutex)) as [->|Hp]; [eauto|].
      destruct Hnf. apply (runs_on _ _ _ _ _ _ Ht). intros [|i] ->; [done | apply Hel].
    - destruct Hw as (i & r & ->); [done|]. right. right. exists i. apply Nat.eqb_refl.
    - destruct Hw as (i & r & ->); [done|]. destruct Hnf. eexists. apply cs_relock; [exact Ht | apply Hel]. }
  assert (forall i t th, ts !! t = Some th -> asleep_on i th = true -> False) as Hno.
  { intros i t th Ht Ha. destruct (ci_asleep _ HI i t th Ht Ha) as [Hn | (u & r & Hu)].
    - pose proof (ci_count _ HI i) as Hc. cbn in Hn, Hc.
      destruct (total_nonzero i ts) as (u & thu & Hu & Hp); [lia|].
      pose proof (Forall_lookup_1 _ _ _ _ (ci_valid _ HI) Hu) as [Hd _].
      destruct (Hall u thu Hu) as [E | [[r ->] | [j Hj]]].
      + by rewrite E in Hp.
      + destruct Hd as ((_ & H) & _). by destruct (H i).
      + destruct thu as [[] [|[] r]]; try done. destruct Hd as ((_ & _ & H) & _). by destruct (H i).
    - by destruct (Hall u _ Hu) as [E | [[r' E] | [j Hj]]]. }
  apply Forall_lookup_2. intros t th Ht. destruct (Hall t th Ht) as [E | [[r ->] | [i Hi]]]; [done| |by destruct (Hno i t th)].
  destruct (own StreamsMutex) as [u|] eqn:E.
  - apply (ci_owned _ HI) in E as (thu & Hu & Hm). cbn in Hu.
    destruct (Hall u thu Hu) as [El | [[r' ->] | [i Hi]]]; [|done|by destruct (Hno i u thu)].
    destruct thu as [[] l]; cbn in El; by subst.
  - destruct Hnf. apply (runs_on _ _ _ _ _ _ Ht). by intros m [= <-].
Qed.

(** ** Every call ends *)

(** A signal pays for the three steps of the thread that it wakes. *)
Definition cost (p : prim) : Z := match p with Signal _ => 4 | _ => 1 end.

Definition effort (th : cthread) : Z :=
  match c_status th with Running => 2 | Asleep => 1 | Woken => 3 end
  + foldr (fun p k => cost p + k) 0 (c_rest th).

Fixpoint total_effort (ts : list cthread) : Z :=
  match ts with [] => 0 | th :: ts => effort th + total_effort ts end.

Lemma effort_nonneg th : 0 <= effort th.
Proof.
  assert (0 <= foldr (fun p k => cost p + k) 0 (c_rest th)) as H.
  { induction (c_rest th) as [|[] l IH]; cbn in *; lia. }
  unfold effort. destruct (c_status th); lia.
Qed.

Lemma total_effort_nonneg ts : 0 <= total_effort ts.
Proof. induction ts as [|th ts IH]; cbn; [done|]. pose proof (effort_nonneg th). lia. Qed.

Lemma total_effort_insert ts t th th' : ts !! t = Some th ->
  total_effort (<[t := th']> ts) = total_effort ts - effort th + effort th'.
Proof.
  revert t. induction ts as [|z ts IH]; intros [|t] Ht; cbn in Ht; simplify_eq; [cbn; lia|].
  change (<[S t := th']> (z :: ts)) with (z :: <[t := th']> ts). cbn [total_effort].
  rewrite (IH t Ht). lia.
Qed.

Lemma cond_step_effort x y : cond_step x y ->
  total_effort (c_threads y) < total_effort (c_threads x).
Proof.
  destruct 1 as [ts own n t m r Ht|ts own n t m r Ht|ts own n t i k r Ht|ts own n t i r Ht
    |ts own n t i r Ht|ts own n t i r u r' Ht Hu|ts own n t i r Ht|ts own n t i r Ht|ts own n t r Ht];
    cbn [c_threads]; try (rewrite (total_effort_insert _ _ _ _ Ht); unfold effort; cbn; lia).
  rewrite (total_effort_insert _ u (CThread Asleep (WaitWhileInUse i :: r'))),
    (total_effort_insert _ _ _ _ Ht); [unfold effort; cbn; lia|].
  rewrite list_lookup_insert_ne; [done|]. congruence.
Qed.

Lemma cond_step_terminates x : sn cond_step x.
Proof.
  remember (Z.to_nat (total_effort (c_threads x))) as k eqn:Ek. revert x Ek.
  induction (lt_wf k) as [k _ IH]. intros x ->. constructor. intros y Hy.
  pose proof (cond_step_effort _ _ Hy). pose proof (total_effort_nonneg (c_threads y)).
  eapply IH; [|reflexivity]. lia.
Qed.

Lemma total_nonpos i ts : Forall valid ts -> total i ts <= 0 /\
  (total i ts = 0 -> Forall (fun th => pending i (c_rest th) = 0) ts).
Proof.
  induction 1 as [|th ts (_ & _ & Hp) _ [IH1 IH2]]; cbn; [done|]. specialize (Hp i).
  split; [lia|]. intros H. constructor; [lia|]. apply IH2. lia.
Qed.

(** C17. Every call comes to its end: take any number of calls of the framework (transfers
    and functions that wait for a stream, on any elements of an array), in any
    interleaving, with threads that [pthread_cond_wait] wakes without a signal; the calls
    of the vendor return.  From
    every state that is reached, only finitely many further steps are possible without
    such wake-ups; where no step is left, every call has returned and every [in_use] is
    0: there is no deadlock and no lost wake-up.  And while a function that has waited
    for a stream calls the vendor, no transfer is counted on that stream. *)
Theorem wrapper_calls_end calls x :
  Forall wrapper_function calls -> rtc wrapper_step (cond_start calls) x ->
  sn cond_step x /\
  (forall y, rtc cond_step x y -> nf cond_step y ->
     Forall (fun th => c_rest th = []) (c_threads y) /\ forall i, c_in_use y i = 0) /\
  (forall t i r, c_threads x !! t = Some (CThread Running (Vendor :: Signal i :: r)) ->
     Forall (fun th => pending i (c_rest th) = 0) (c_threads x)).
Proof.
  intros Hc Hr. assert (cond_inv x) as HI.
  { pose proof (cond_start_inv calls Hc) as H0.
    induction Hr as [|a b c [Hs|Hs] _ IH]; [done|..]; apply IH.
    - by eapply cond_step_inv.
    - by eapply spurious_inv. }
  split_and!.
  - apply cond_step_terminates.
  - intros y Hy Hnf. assert (cond_inv y) as HIy.
    { clear Hr Hnf. induction Hy as [|a b c Hs _ IH]; [done|]. apply IH. by eapply cond_step_inv. }
    pose proof (stuck_finished y HIy Hnf) as Hf. split; [done|]. intros i.
    rewrite (ci_count _ HIy i), total_zero; [done|].
    eapply Forall_impl; [exact Hf|]. by intros th ->.
  - intros t i r Ht. apply total_nonpos; [apply HI|].
    pose proof (ci_count _ HI i) as E. rewrite (ci_serves _ HI t i _ Ht) in E by by eexists. lia.
Qed.

(** A write and a standby on the same stream: the standby has gone to sleep. *)
Definition demo_asleep : csys :=
  CSys [CThread Running (Vendor :: DECREMENT_IN_USE 0);
        CThread Asleep (WaitWhileInUse 0 :: Vendor :: UNLOCK_FREE 0 ++ [Unlock StreamsMutex])]
    (<[InUseMutex 0 := None]> (<[InUseMutex 0 := Some 1%nat]> (<[StreamsMutex := Some 1%nat]>
      (<[StreamsMutex := None]> (<[InUseMutex 0 := None]> (<[InUseMutex 0 := Some 0%nat]>
      (<[StreamsMutex := Some 0%nat]> (fun _ => None))))))))
    (<[0%nat := 0 + 1]> (fun _ => 0)).

Ltac demo_step u := eapply rtc_l; [left; first
  [ eapply cs_lock with (t := u); [reflexivity | vm_compute; reflexivity]
  | eapply cs_unlock with (t := u); reflexivity | eapply cs_add with (t := u); reflexivity
  | eapply cs_sleep with (t := u); [reflexivity | vm_compute; discriminate] ]|]; cbn.

Lemma demo_asleep_reached :
  rtc wrapper_step (cond_start [transfer_function 0; locked_function 0]) demo_asleep.
Proof.
  unfold cond_start, transfer_function, locked_function. cbn.
  do 5 demo_step 0%nat. do 3 demo_step 1%nat. apply rtc_refl.
Qed.

Lemma wrapper_calls_end_witness : sn cond_step demo_asleep /\
  (forall y, rtc cond_step demo_asleep y -> nf cond_step y ->
     Forall (fun th => c_rest th = []) (c_threads y) /\ forall i, c_in_use y i = 0).
Proof.
  destruct (wrapper_calls_end [transfer_function 0; locked_function 0] demo_asleep) as (H1 & H2 & _).
  - repeat constructor.
  - exact demo_asleep_reached.
  - exact (conj H1 H2).
Defined.
