(* ===== verification/AudioWrap.v ===== *)
(** * The wrapper around the audio HAL of the vendor ([src/audio/wrapper.c])

    The framework opens streams; the wrapper opens a stream of the vendor's HAL for
    each and keeps the pairs in two arrays, one for input and one for output.  A
    transfer ([wrapper_read], [wrapper_write]) holds the mutex of the array only while
    it looks the stream up and counts itself in [in_use]; it then works through a
    pointer to the array element.  Every other function keeps the mutex, waits until
    [in_use] is 0 and calls the vendor.

    The functions below are the parts between which other threads can run; the step
    relation [wrap_step] interleaves them, with the mutexes and the wait for [in_use] as
    guards; [AudioCond] models the mutexes and conditions of the elements themselves and
    shows that the guard is what they implement.  Memory is
    modelled as far as the code depends on it: the arrays have an address, which
    [realloc] may change, and an access through a pointer to a former array sets
    [undefined]. *)

From S2P Require Import Prelude.
From S2P Require Import CString.

(** ** Data *)

Inductive direction := DIn | DOut.

#[export] Instance direction_eq_dec : EqDecision direction.
Proof. solve_decision. Defined.

(** [struct wrapper_in_stream] and [struct wrapper_out_stream]; the mutex and the
    condition are those of [AudioCond]. *)
Record wrapper_stream := WrapperStream { ws_stream : Z; jb_stream : Z; ws_in_use : Z }.

(** The functions of a stream that take the generic wrapper, with their arguments;
    numbers and addresses are [Z]. *)
Inductive stream_fn :=
  | StandBy | SetParameters (kv_pairs : string) | GetSampleRate | SetSampleRate (rate : Z)
  | GetBufferSize | GetChannels | GetFormat | SetFormat (format : Z) | Dump (fd : Z)
  | GetDevice | SetDevice (device : Z) | GetParameters (keys : string)
  | AddAudioEffect (effect : Z) | RemoveAudioEffect (effect : Z)
  | SetGain (gain : Z) | SetVolume (left right : Z) | GetLatency
  | GetRenderPosition (dsp_frames : Z) | GetNextWriteTimestamp (timestamp : Z).

Inductive hal_fn :=
  | SetMasterVolume (volume : Z) | SetVoiceVolume (volume : Z) | SetHalParameters (kv_pairs : string)
  | SetMicMute (state : bool) | SetMode (mode : Z)
  | GetSupportedDevices | InitCheck | GetMasterVolume (volume : Z) | GetMicMute (state : Z)
  | GetHalParameters (keys : string) | GetInputBufferSize (config : Z) | DumpHal (fd : Z).

Inductive wrap_call :=
  | JbOpenStream (d : direction) (handle devices flags config : Z)   (* the stream is in the answer *)
  | JbCloseStream (d : direction) (jb : Z)
  | JbTransfer (d : direction) (jb bytes : Z)
  | JbStream (d : direction) (fn : stream_fn) (jb : Z)
  | JbHal (fn : hal_fn)
  | JbClose (device : Z)
  | IcsHal (fn : hal_fn)
  | IcsClose
  | Realloc (block : Z) (elements : Z)
  | Malloc
  | Free (p : Z)
  | Dlopen (path : string)
  | Dlsym (handle : Z)
  | Dlclose (handle : Z)
  | AudioHwDeviceOpen (hmi : Z)                                      (* the device is in the answer *)
  | MixerOpen
  | MixerGetCtl (mixer : Z)
  | MixerCtlGetValue (ctl : Z)
  | MixerCtlSetEnum (ctl : Z) (value : string)
  | MixerCtlSetValue (ctl value : Z)
  | MixerClose (mixer : Z).

(** The static variables.  [n_in_streams] and [n_out_streams] are the lengths of the
    lists; address 0 is NULL. *)
Record wrap_vars := WrapVars {
  in_streams : list wrapper_stream;
  in_block : Z;
  out_streams : list wrapper_stream;
  out_block : Z;
  jb_hw_dev : Z;
  dso_handle : Z;
  in_use : Z;
  last_mute_ctl_value : Z;
  hal_audio_mode : Z;
  ics_hw_dev : Z;
  ics_dso_handle : Z;
  undefined : bool
}.

#[export] Instance eta_wrap_vars : Eta wrap_vars := fun v =>
  WrapVars (in_streams v) (in_block v) (out_streams v) (out_block v) (jb_hw_dev v) (dso_handle v)
    (in_use v) (last_mute_ctl_value v) (hal_audio_mode v) (ics_hw_dev v) (ics_dso_handle v)
    (undefined v).

Definition wrap_start : wrap_vars := WrapVars [] 0 [] 0 0 0 0 (-1) 0 0 0 false.

Abbreviation wrap A := (prog wrap_call wrap_vars A).

Definition ENODEV : Z := 19.
Definition ENOMEM : Z := 12.
Definition EINVAL : Z := 22.
Definition AUDIO_MODE_NORMAL : Z := 0.
Definition AUDIO_MODE_IN_CALL : Z := 2.

Definition streams (d : direction) (v : wrap_vars) : list wrapper_stream :=
  match d with DIn => in_streams v | DOut => out_streams v end.
Definition block (d : direction) (v : wrap_vars) : Z :=
  match d with DIn => in_block v | DOut => out_block v end.
Definition set_streams (d : direction) (l : list wrapper_stream) (v : wrap_vars) : wrap_vars :=
  match d with DIn => v <| in_streams := l |> | DOut => v <| out_streams := l |> end.
Definition set_block (d : direction) (b : Z) (v : wrap_vars) : wrap_vars :=
  match d with DIn => v <| in_block := b |> | DOut => v <| out_block := b |> end.

(** ** Looking a stream up *)

(** The loop over the array: the first element of the stream *)
Fixpoint index_of (stream : Z) (l : list wrapper_stream) : option nat :=
  match l with
  | [] => None
  | w :: l => if ws_stream w =? stream then Some O else S <$> index_of stream l
  end.

Definition lookup_stream (d : direction) (stream : Z) : wrap (option nat) :=
  l ← gets (streams d);
  b ← gets (block d);
  if (b =? 0) && negb (Z.of_nat (length l) =? 0) then
    modify (fun v => v <| undefined := true |>) ;; mret None
  else mret (index_of stream l).

(** [in_use += n] of an element of the array *)
Definition add_in_use (n : Z) (w : wrapper_stream) : wrapper_stream :=
  WrapperStream (ws_stream w) (jb_stream w) (ws_in_use w + n).

(** A pointer to an element: the address of its array, and its index *)
Abbreviation pointer := (Z * nat)%type.

Definition at_pointer (d : direction) (p : pointer) (v : wrap_vars) : option wrapper_stream :=
  if p.1 =? block d v then streams d v !! p.2 else None.

(** ** Transfers: [wrapper_read] and [wrapper_write] *)

(** The part under the mutex of the array: INCREMENT_IN_USE *)
Definition transfer_begin (d : direction) (stream : Z) : wrap (option pointer) :=
  o ← lookup_stream d stream;
  match o with
  | Some i =>
      modify (fun v => set_streams d (alter (add_in_use 1) i (streams d v)) v) ;;
      b ← gets (block d);
      mret (Some (b, i))
  | None => mret None
  end.

Definition wrapper_hal_is_resampling (expected real : Z) : bool := real =? 192.

(** [size_t] to [int] *)
Definition to_int (n : Z) : Z := let m := n mod 2 ^ 32 in if m <? 2 ^ 31 then m else m - 2 ^ 32.

(** What a transfer of [bytes] answers when the vendor has answered [ret] *)
Definition transfer_result (d : direction) (bytes ret : Z) : Z :=
  match d with
  | DIn => ret
  | DOut => if (0 <? ret) && negb (ret =? bytes) && wrapper_hal_is_resampling bytes ret
            then to_int bytes else ret
  end.

(** The call of the vendor, without the mutex *)
Definition transfer_call (d : direction) (p : pointer) (bytes : Z) : wrap Z :=
  w ← gets (at_pointer d p);
  match w with
  | Some w => r ← call (JbTransfer d (jb_stream w) bytes); mret (transfer_result d bytes (r_ret r))
  | None => modify (fun v => v <| undefined := true |>) ;; mret 0
  end.

(** DECREMENT_IN_USE *)
Definition transfer_end (d : direction) (p : pointer) : wrap unit :=
  w ← gets (at_pointer d p);
  match w with
  | Some w => modify (fun v => set_streams d (alter (add_in_use (-1)) p.2 (streams d v)) v)
  | None => modify (fun v => v <| undefined := true |>)
  end.

(** A transfer that no other thread disturbs *)
Definition transfer (d : direction) (stream bytes : Z) : wrap Z :=
  o ← transfer_begin d stream;
  match o with
  | Some p => ret ← transfer_call d p bytes; transfer_end d p ;; mret ret
  | None => mret (- ENODEV)
  end.

Definition wrapper_read (stream bytes : Z) : wrap Z := transfer DIn stream bytes.
Definition wrapper_write (stream bytes : Z) : wrap Z := transfer DOut stream bytes.

(** ** The microphone route in a call *)

Definition MUTE_VALUE : string := "Off".

Definition alsa_set_mic_mute (state : bool) : wrap Z :=
  last ← gets last_mute_ctl_value;
  if negb state && (last =? -1) then mret 0 else
  mixer ← call MixerOpen;
  if r_ret mixer =? 0 then mret 0 else
  ctl ← call (MixerGetCtl (r_ret mixer));
  if r_ret ctl =? 0 then call (MixerClose (r_ret mixer)) ;; mret 0 else
  ret ← (if state then
           (if last =? -1 then
              x ← call (MixerCtlGetValue (r_ret ctl));
              modify (fun v => v <| last_mute_ctl_value := r_ret x |>)
            else mret tt) ;;
           x ← call (MixerCtlSetEnum (r_ret ctl) MUTE_VALUE);
           mret (if negb (r_ret x =? 0) then 0 else 1)
         else
           x ← call (MixerCtlSetValue (r_ret ctl) last);
           modify (fun v => v <| last_mute_ctl_value := -1 |>) ;;
           mret (if negb (r_ret x =? 0) then 0 else 1));
  call (MixerClose (r_ret mixer)) ;;
  mret ret.

Definition restore_mute : wrap unit :=
  mode ← gets hal_audio_mode;
  when (mode =? AUDIO_MODE_IN_CALL)
    (last ← gets last_mute_ctl_value;
     when (negb (last =? -1)) (alsa_set_mic_mute true ;; mret tt)).

(** ** Functions of a stream under the mutex *)

(** The answer for a stream that is not wrapped; 0 is also the NULL pointer. *)
Definition stream_err (fn : stream_fn) : Z :=
  match fn with
  | GetSampleRate | GetBufferSize | GetChannels | GetFormat | GetDevice | GetParameters _
  | GetLatency => 0
  | _ => - ENODEV
  end.

(** The work after WAIT_FOR_FREE *)
Definition stream_call (d : direction) (fn : stream_fn) (i : nat) : wrap Z :=
  w ← gets (fun v => streams d v !! i);
  match w with
  | Some w =>
      r ← call (JbStream d fn (jb_stream w));
      match d, fn with DOut, SetParameters _ => restore_mute | _, _ => mret tt end ;;
      mret (r_ret r)
  | None => mret (stream_err fn)
  end.

(** [close_input_stream] and [close_output_stream] after WAIT_FOR_FREE *)
Definition close_stream (d : direction) (i : nat) : wrap unit :=
  w ← gets (fun v => streams d v !! i);
  match w with
  | Some w =>
      call (Free (ws_stream w)) ;;
      modify (fun v => set_streams d (delete i (streams d v)) v) ;;
      b ← gets (block d);
      n ← gets (fun v => Z.of_nat (length (streams d v)));
      r ← call (Realloc b n);
      modify (set_block d (r_ret r)) ;;
      call (JbCloseStream d (jb_stream w)) ;;
      mret tt
  | None => mret tt
  end.

(** The whole functions, for a thread that does not have to wait *)
Definition stream_locked (d : direction) (fn : stream_fn) (stream : Z) : wrap Z :=
  o ← lookup_stream d stream;
  match o with Some i => stream_call d fn i | None => mret (stream_err fn) end.

Definition close_locked (d : direction) (stream : Z) : wrap unit :=
  o ← lookup_stream d stream;
  match o with Some i => close_stream d i | None => mret tt end.

Definition wrapper_close_input_stream (stream_in : Z) : wrap unit := close_locked DIn stream_in.
Definition wrapper_close_output_stream (stream_out : Z) : wrap unit := close_locked DOut stream_out.

(** ** Opening a stream *)

(** Input devices as the old HAL numbers them; [devices] is unsigned. *)
Definition jb_devices (devices : Z) : Z :=
  if negb (Z.land devices (2 ^ 31) =? 0) then
    let devices := Z.land devices (2 ^ 31 - 1) in
    if devices <? 0x2000 then u32 (devices * 0x10000) else Z.lor devices 0x10000
  else devices.

(** The new element of the array; the stream is filled with the functions above. *)
Definition add_stream (d : direction) (jb : Z) : wrap (Z * Z) :=
  b ← gets (block d);
  n ← gets (fun v => Z.of_nat (length (streams d v)));
  r ← call (Realloc b (n + 1));
  if r_ret r =? 0 then mret (- ENOMEM, 0) else
  modify (set_block d (r_ret r)) ;;
  m ← call Malloc;
  if r_ret m =? 0 then mret (- ENOMEM, 0) else
  modify (fun v => set_streams d (streams d v ++ [WrapperStream (r_ret m) jb 0]) v) ;;
  mret (0, r_ret m).

Definition open_stream (d : direction) (handle devices flags config : Z) : wrap (Z * Z) :=
  r ← call (JbOpenStream d handle devices flags config);
  if r_ret r =? 0 then add_stream d (aux 0 r) else mret (r_ret r, 0).

Definition wrapper_open_input_stream (handle devices config : Z) : wrap (Z * Z) :=
  open_stream DIn handle (jb_devices devices) 0 config.
Definition wrapper_open_output_stream (handle devices flags config : Z) : wrap (Z * Z) :=
  open_stream DOut handle devices flags config.

(** ** The device *)

Section Device.
(** ICS_VOICE_BLOB of the build *)
Context (ics : bool).

(** WRAP_HAL_LOCKED; nothing ever counts in the global [in_use]. *)
Definition hal_call (fn : hal_fn) : wrap Z := r ← call (JbHal fn); mret (r_ret r).

Definition wrapper_set_master_volume (volume : Z) : wrap Z := hal_call (SetMasterVolume volume).

(** The functions of WRAP_HAL, which take no mutex *)
Definition unlocked_fn (fn : hal_fn) : bool :=
  match fn with
  | GetSupportedDevices | InitCheck | GetMasterVolume _ | GetMicMute _ | GetHalParameters _
  | GetInputBufferSize _ | DumpHal _ => true
  | _ => false
  end.

Definition wrapper_set_voice_volume (volume : Z) : wrap Z :=
  if ics then r ← call (IcsHal (SetVoiceVolume volume)); mret (r_ret r)
  else hal_call (SetVoiceVolume volume).

Definition wrapper_set_mic_mute (state : bool) : wrap Z :=
  r ← call (JbHal (SetMicMute state));
  mode ← gets hal_audio_mode;
  when (mode =? AUDIO_MODE_IN_CALL) (alsa_set_mic_mute state ;; mret tt) ;;
  mret (r_ret r).

Definition wrapper_set_mode (mode : Z) : wrap Z :=
  r ← call (JbHal (SetMode mode));
  old ← gets hal_audio_mode;
  last ← gets last_mute_ctl_value;
  when ((old =? AUDIO_MODE_IN_CALL) && negb (mode =? AUDIO_MODE_IN_CALL) && negb (last =? -1))
    (alsa_set_mic_mute false ;; modify (fun v => v <| last_mute_ctl_value := -1 |>)) ;;
  modify (fun v => v <| hal_audio_mode := mode |>) ;;
  mret (r_ret r).

Definition wrapper_set_mode_ics (mode : Z) : wrap Z :=
  call (IcsHal (SetMode mode)) ;; wrapper_set_mode mode.

Definition wrapper_set_parameters (kv_pairs : string) : wrap Z := hal_call (SetHalParameters kv_pairs).

Definition wrapper_set_parameters_ics (kv_pairs : string) : wrap Z :=
  call (IcsHal (SetHalParameters kv_pairs)) ;; wrapper_set_parameters kv_pairs.

(** [free] of an array that is not NULL *)
Definition free_array (d : direction) : wrap unit :=
  b ← gets (block d);
  when (negb (b =? 0))
    (call (Free b) ;;
     modify (set_block d 0) ;;
     modify (set_streams d [])).

Definition wrapper_close (device : Z) : wrap Z :=
  r ← call (JbClose device);
  h ← gets dso_handle;
  call (Dlclose h) ;;
  modify (fun v => v <| dso_handle := 0 |>) ;;
  jb ← gets jb_hw_dev;
  call (Free jb) ;;
  modify (fun v => v <| jb_hw_dev := 0 |>) ;;
  free_array DOut ;;
  free_array DIn ;;
  when ics
    (call IcsClose ;;
     modify (fun v => v <| ics_hw_dev := 0 |>) ;;
     h ← gets ics_dso_handle;
     call (Dlclose h) ;;
     modify (fun v => v <| ics_dso_handle := 0 |>)) ;;
  mret (r_ret r).

(** Loading a HAL: the library, its symbol, its device.  The answer is the status and
    the device; the variable of the library is cleared on errors after [dlopen]. *)
Definition load_hal (path : string) (set_dso : Z -> wrap_vars -> wrap_vars) : wrap (Z * Z) :=
  dso ← call (Dlopen path);
  modify (set_dso (r_ret dso)) ;;
  if r_ret dso =? 0 then mret (- EINVAL, 0) else
  hmi ← call (Dlsym (r_ret dso));
  if r_ret hmi =? 0 then
    call (Dlclose (r_ret dso)) ;; modify (set_dso 0) ;; mret (- EINVAL, 0)
  else
    r ← call (AudioHwDeviceOpen (r_ret hmi));
    if negb (r_ret r =? 0) then
      call (Dlclose (r_ret dso)) ;; modify (set_dso 0) ;; mret (r_ret r, 0)
    else mret (0, aux 0 r).

Definition set_dso_handle (h : Z) (v : wrap_vars) : wrap_vars := v <| dso_handle := h |>.
Definition set_ics_dso_handle (h : Z) (v : wrap_vars) : wrap_vars := v <| ics_dso_handle := h |>.

(** The device that is handed out: its functions are the ones of this file. *)
Definition new_device : wrap (Z * Z) :=
  m ← call Malloc;
  if r_ret m =? 0 then
    h ← gets dso_handle;
    call (Dlclose h) ;;
    modify (set_dso_handle 0) ;;
    when ics
      (h ← gets ics_dso_handle;
       call (Dlclose h) ;;
       modify (set_ics_dso_handle 0)) ;;
    mret (- ENOMEM, 0)
  else mret (0, r_ret m).

Definition wrapper_open : wrap (Z * Z) :=
  dev ← gets jb_hw_dev;
  if negb (dev =? 0) then mret (- ENODEV, 0) else
  '(ret, dev) ← load_hal "/system/lib/hw/audio.primary.omap4.so" set_dso_handle;
  if negb (ret =? 0) then mret (ret, 0) else
  modify (fun v => v <| jb_hw_dev := dev |>) ;;
  if ics then
    '(ret, dev) ← load_hal "/system/lib/hw/audio.primary.ics.so" set_ics_dso_handle;
    if negb (ret =? 0) then mret (ret, 0) else
    modify (fun v => v <| ics_hw_dev := dev |>) ;;
    new_device
  else new_device.
End Device.

(** ** Threads *)

(** What the framework can ask for: a locked function of a stream, or to close it *)
Inductive locked_op := LockedCall (d : direction) (fn : stream_fn) | LockedClose (d : direction).

Definition op_direction (op : locked_op) : direction :=
  match op with LockedCall d _ | LockedClose d => d end.

(** A thread is outside, in a transfer (before or after the call of the vendor), or holds
    the mutex of an array and waits for an element to become free. *)
Inductive wthread :=
  | Outside
  | Begun (d : direction) (p : pointer) (bytes : Z)
  | Called (d : direction) (p : pointer)
  | Waiting (op : locked_op) (i : nat).

Record wsys := WSys { wthreads : list wthread; shared : sys wrap_call wrap_vars }.

Definition holds_mutex (d : direction) (t : wthread) : bool :=
  match t with Waiting op _ => bool_decide (op_direction op = d) | _ => false end.
Definition mutex_free (d : direction) (ts : list wthread) : bool :=
  negb (existsb (holds_mutex d) ts).

Definition transfers (d : direction) (t : wthread) : bool :=
  match t with Begun d' _ _ | Called d' _ => bool_decide (d' = d) | _ => false end.
Definition quiet (d : direction) (ts : list wthread) : bool := negb (existsb (transfers d) ts).

Definition is_free (d : direction) (i : nat) (v : wrap_vars) : bool :=
  match streams d v !! i with Some w => ws_in_use w =? 0 | None => true end.

Definition run_op (op : locked_op) (i : nat) : wrap unit :=
  match op with
  | LockedCall d fn => stream_call d fn i ;; mret tt
  | LockedClose d => close_stream d i
  end.

(** Functions of the device that take both mutexes *)
Inductive hal_op := HalMasterVolume (volume : Z) | HalMicMute (state : bool) | HalMode (mode : Z)
  | HalVoiceVolume (volume : Z) | HalParameters (kv_pairs : string).

Definition run_hal (ics : bool) (op : hal_op) : wrap Z :=
  match op with
  | HalMasterVolume volume => wrapper_set_master_volume volume
  | HalMicMute state => wrapper_set_mic_mute state
  | HalMode mode => if ics then wrapper_set_mode_ics mode else wrapper_set_mode mode
  | HalVoiceVolume volume => wrapper_set_voice_volume ics volume
  | HalParameters kv => if ics then wrapper_set_parameters_ics kv else wrapper_set_parameters kv
  end.

(** What a step does to the arrays *)
Inductive label := LOpen (d : direction) | LClose (d : direction) | LTeardown | LNone.

Definition op_label (op : locked_op) : label :=
  match op with LockedCall _ _ => LNone | LockedClose d => LClose d end.

Inductive wrap_step (ics : bool) (e : env wrap_call) : label -> wsys -> wsys -> Prop :=
  | step_begin ts t s d stream bytes :
      ts !! t = Some Outside -> mutex_free d ts = true ->
      wrap_step ics e LNone (WSys ts s)
        (WSys (<[t := match (transfer_begin d stream e s).1 with
                      | Some p => Begun d p bytes | None => Outside end]> ts)
              (transfer_begin d stream e s).2)
  | step_call ts t s d p bytes :
      ts !! t = Some (Begun d p bytes) ->
      wrap_step ics e LNone (WSys ts s)
        (WSys (<[t := Called d p]> ts) (transfer_call d p bytes e s).2)
  | step_end ts t s d p :
      ts !! t = Some (Called d p) ->
      wrap_step ics e LNone (WSys ts s)
        (WSys (<[t := Outside]> ts) (transfer_end d p e s).2)
  | step_lock ts t s op stream :
      ts !! t = Some Outside -> mutex_free (op_direction op) ts = true ->
      wrap_step ics e LNone (WSys ts s)
        (WSys (<[t := match (lookup_stream (op_direction op) stream e s).1 with
                      | Some i => Waiting op i | None => Outside end]> ts)
              (lookup_stream (op_direction op) stream e s).2)
  | step_run ts t s op i :
      ts !! t = Some (Waiting op i) -> is_free (op_direction op) i (st s) = true ->
      wrap_step ics e (op_label op) (WSys ts s)
        (WSys (<[t := Outside]> ts) (run_op op i e s).2)
  | step_open ts t s d handle devices flags config :
      ts !! t = Some Outside -> mutex_free d ts = true ->
      wrap_step ics e (LOpen d) (WSys ts s)
        (WSys ts (open_stream d handle devices flags config e s).2)
  | step_hal ts t s op :
      ts !! t = Some Outside -> mutex_free DOut ts = true -> mutex_free DIn ts = true ->
      wrap_step ics e LNone (WSys ts s) (WSys ts (run_hal ics op e s).2)
  | step_unlocked ts t s fn :
      ts !! t = Some Outside -> unlocked_fn fn = true ->
      wrap_step ics e LNone (WSys ts s) (WSys ts (hal_call fn e s).2)
  | step_ics_volume ts t s volume :
      ts !! t = Some Outside -> ics = true ->
      wrap_step ics e LNone (WSys ts s) (WSys ts (wrapper_set_voice_volume ics volume e s).2)
  | step_load ts t s :
      ts !! t = Some Outside ->
      wrap_step ics e LNone (WSys ts s) (WSys ts (wrapper_open ics e s).2)
  | step_unload ts t s device :
      ts !! t = Some Outside -> mutex_free DOut ts = true -> mutex_free DIn ts = true ->
      wrap_step ics e LTeardown (WSys ts s) (WSys ts (wrapper_close ics device e s).2).

(** Streams are opened and closed while no transfer of their direction is under way. *)
Definition calm (l : label) (ts : list wthread) : bool :=
  match l with
  | LOpen d | LClose d => quiet d ts
  | LTeardown => quiet DIn ts && quiet DOut ts
  | LNone => true
  end.

Definition calm_step (ics : bool) (e : env wrap_call) (x y : wsys) : Prop :=
  exists l, wrap_step ics e l x y /\ calm l (wthreads x) = true.

Definition any_step (ics : bool) (e : env wrap_call) (x y : wsys) : Prop :=
  exists l, wrap_step ics e l x y.
