(* ===== verification/AudioWrapThms.v ===== *)
(** * The audio wrapper under concurrency

    When streams are opened and closed only while no transfer of their direction is
    under way, [in_use] counts the transfers of every stream and pointers stay valid.  An
    open during a transfer breaks this. *)

From S2P Require Import Prelude.
From S2P Require Import CString.
From S2P Require Import AudioWrap.

Implicit Types (e : env wrap_call) (s : sys wrap_call wrap_vars) (v : wrap_vars).

(** ** Counting threads *)

Fixpoint tally {A} (f : A -> bool) (l : list A) : Z :=
  match l with [] => 0 | x :: l => (if f x then 1 else 0) + tally f l end.

Lemma tally_insert {A} (f : A -> bool) l i x y : l !! i = Some x ->
  tally f (<[i := y]> l) = tally f l - (if f x then 1 else 0) + (if f y then 1 else 0).
Proof.
  revert i. induction l as [|z l IH]; intros [|i] Hi; cbn in Hi; simplify_eq; [cbn; lia|].
  change (<[S i := y]> (z :: l)) with (z :: <[i := y]> l). cbn [tally]. rewrite (IH i Hi). lia.
Qed.

Lemma tally_nonneg {A} (f : A -> bool) l : 0 <= tally f l.
Proof. induction l as [|x l IH]; cbn; [done|]. destruct (f x); lia. Qed.

Lemma tally_zero {A} (f : A -> bool) l : tally f l = 0 <-> existsb f l = false.
Proof.
  induction l as [|x l IH]; cbn; [done|]. pose proof (tally_nonneg f l).
  destruct (f x); cbn.
  - split; intros; [lia | discriminate].
  - rewrite Z.add_0_l. exact IH.
Qed.

Lemma tally_le {A} (f g : A -> bool) l : (forall x, f x = true -> g x = true) ->
  tally f l <= tally g l.
Proof.
  intros Hfg. induction l as [|x l IH]; cbn; [done|]. specialize (Hfg x).
  destruct (f x), (g x); try lia.
Qed.

(** ** The arrays in calm runs *)

(** The element a thread transfers through *)
Definition uses (d : direction) (i : nat) (t : wthread) : bool :=
  match t with
  | Begun d' p _ | Called d' p => bool_decide (d' = d) && (p.2 =? i)%nat
  | _ => false
  end.

(** The pointer of a transfer points into the array, the element of a waiting thread
    exists. *)
Definition thread_ok v (t : wthread) : Prop :=
  match t with
  | Outside => True
  | Begun d p _ | Called d p => p.1 = block d v /\ (p.2 < length (streams d v))%nat
  | Waiting op i => (i < length (streams (op_direction op) v))%nat
  end.

Record wrap_inv (x : wsys) : Prop := WrapInv {
  wi_threads : Forall (thread_ok (st (shared x))) (wthreads x);
  wi_counts : forall d i w, streams d (st (shared x)) !! i = Some w ->
    ws_in_use w = tally (uses d i) (wthreads x);
  wi_blocks : forall d, streams d (st (shared x)) <> [] -> block d (st (shared x)) <> 0;
  wi_mutex : forall d, tally (holds_mutex d) (wthreads x) <= 1;
  wi_defined : undefined (st (shared x)) = false
}.

(** Programs that leave the arrays and the flag alone *)
Definition same_arrays v v' : Prop :=
  in_streams v' = in_streams v /\ in_block v' = in_block v /\
  out_streams v' = out_streams v /\ out_block v' = out_block v /\ undefined v' = undefined v.

#[export] Instance same_arrays_preorder : PreOrder same_arrays.
Proof. split; [by intros v|]. intros v1 v2 v3 H12 H23. unfold same_arrays in *. intuition congruence. Qed.

#[export] Instance alsa_same state : Framed same_arrays (alsa_set_mic_mute state).
Proof. unfold alsa_set_mic_mute. framed. Qed.

#[export] Instance restore_same : Framed same_arrays restore_mute.
Proof. unfold restore_mute. framed. Qed.

#[export] Instance stream_call_same d fn i : Framed same_arrays (stream_call d fn i).
Proof. unfold stream_call. framed. Qed.

#[export] Instance voice_volume_same ics volume : Framed same_arrays (wrapper_set_voice_volume ics volume).
Proof. unfold wrapper_set_voice_volume, hal_call. framed. Qed.

#[export] Instance run_hal_same ics op : Framed same_arrays (run_hal ics op).
Proof.
  unfold run_hal, wrapper_set_mode_ics, wrapper_set_mode, wrapper_set_parameters_ics,
    wrapper_set_parameters, wrapper_set_master_volume, wrapper_set_mic_mute, hal_call. framed.
Qed.

#[export] Instance load_same path f : (forall h v, same_arrays v (f h v)) ->
  Framed same_arrays (load_hal path f).
Proof. intros Hf. unfold load_hal. framed; apply framed_modify; intros ?; apply Hf. Qed.

#[export] Instance wrapper_open_same ics : Framed same_arrays (wrapper_open ics).
Proof.
  assert (forall h v, same_arrays v (set_dso_handle h v)) by done.
  assert (forall h v, same_arrays v (set_ics_dso_handle h v)) by done.
  unfold wrapper_open, new_device. framed.
Qed.

(** The arrays of one direction change. *)
Definition changed (d : direction) (l : list wrapper_stream) (b : Z) v v' : Prop :=
  streams d v' = l /\ block d v' = b /\ undefined v' = undefined v /\
  forall d', d' <> d -> streams d' v' = streams d' v /\ block d' v' = block d' v.

Lemma changed_refl d v : changed d (streams d v) (block d v) v v.
Proof. done. Qed.

Lemma changed_streams d l v : changed d l (block d v) v (set_streams d l v).
Proof. destruct d; (split_and!; [done..|]); intros [] ?; done. Qed.

Lemma changed_block d b v : changed d (streams d v) b v (set_block d b v).
Proof. destruct d; (split_and!; [done..|]); intros [] ?; done. Qed.

Lemma changed_trans d l1 b1 l2 b2 v1 v2 v3 :
  changed d l1 b1 v1 v2 -> changed d l2 b2 v2 v3 -> changed d l2 b2 v1 v3.
Proof.
  intros (? & ? & U1 & O1) (? & ? & U2 & O2). split_and!; [done..|congruence|].
  intros d' Hd. destruct (O1 d' Hd), (O2 d' Hd). split; congruence.
Qed.

Lemma inv_change d l b ts ts' s s' :
  wrap_inv (WSys ts s) -> changed d l b (st s) (st s') ->
  Forall (thread_ok (st s')) ts' ->
  (forall i w, l !! i = Some w -> ws_in_use w = tally (uses d i) ts') ->
  (forall d' i, d' <> d -> tally (uses d' i) ts' = tally (uses d' i) ts) ->
  (l <> [] -> b <> 0) -> (forall d', tally (holds_mutex d') ts' <= 1) ->
  wrap_inv (WSys ts' s').
Proof.
  intros [_ HC HB _ HD] (Hl & Hb & Hu & Ho) HT HC1 HC2 Hbl HM. cbn in *.
  split; cbn; [done | | | done | congruence].
  - intros d' i w Hw. destruct (decide (d' = d)) as [-> | Hd]; [apply HC1; congruence|].
    rewrite HC2 by done. apply HC. by destruct (Ho d' Hd) as [<- _].
  - intros d'. destruct (decide (d' = d)) as [-> | Hd]; [by rewrite Hl, Hb|].
    destruct (Ho d' Hd) as [-> ->]. apply HB.
Qed.

(** A thread keeps its place when the arrays keep their addresses and lengths. *)
Lemma thread_ok_mono v v' t :
  (forall d, block d v' = block d v /\ length (streams d v') = length (streams d v)) ->
  thread_ok v t -> thread_ok v' t.
Proof.
  intros H. destruct t as [|d p bytes|d p|op i]; cbn; [done|..].
  1,2: by destruct (H d) as [-> ->]. by destruct (H (op_direction op)) as [_ ->].
Qed.

Lemma wrap_inv_same ts s s' : same_arrays (st s) (st s') ->
  wrap_inv (WSys ts s) -> wrap_inv (WSys ts s').
Proof.
  intros (H1 & H2 & H3 & H4 & H5) [HT HC HB HM HD]. cbn in *.
  assert (forall d, streams d (st s') = streams d (st s)) as Hs by (by intros []).
  assert (forall d, block d (st s') = block d (st s)) as Hb by (by intros []).
  split; cbn; [| | | done | congruence].
  - eapply Forall_impl; [exact HT|]. intros t. apply thread_ok_mono. intros d. by rewrite Hs, Hb.
  - intros d i w. rewrite Hs. apply HC.
  - intros d. rewrite Hs, Hb. apply HB.
Qed.

(** A thread that neither transfers nor waits any more *)
Lemma inv_leave ts s t op i : ts !! t = Some (Waiting op i) ->
  wrap_inv (WSys ts s) -> wrap_inv (WSys (<[t := Outside]> ts) s).
Proof.
  intros Ht HI. apply (inv_change (op_direction op) (streams (op_direction op) (st s))
    (block (op_direction op) (st s)) ts _ s s HI); [done | | | | |].
  - apply Forall_insert; [apply HI | done].
  - intros j w Hw. rewrite (tally_insert _ _ _ _ _ Ht). cbn. rewrite Z.sub_0_r, Z.add_0_r. by apply HI.
  - intros d' j _. rewrite (tally_insert _ _ _ _ _ Ht). cbn. lia.
  - apply HI.
  - intros d'. rewrite (tally_insert _ _ _ _ _ Ht). pose proof (wi_mutex _ HI d'). cbn in *.
    case_bool_decide; lia.
Qed.

Lemma index_of_lt stream l i : index_of stream l = Some i -> (i < length l)%nat.
Proof.
  revert i. induction l as [|w l IH]; intros i; cbn; [done|]. case_match; [intros [= <-]; lia|].
  destruct (index_of stream l) as [j|]; cbn; [|done]. intros [= <-]. specialize (IH j eq_refl). lia.
Qed.

Lemma lookup_run ts s d stream e : wrap_inv (WSys ts s) ->
  lookup_stream d stream e s = (index_of stream (streams d (st s)), s).
Proof.
  intros HI. unfold lookup_stream, mbind, prog_bind, gets. cbn beta iota zeta.
  replace ((block d (st s) =? 0) && _) with false; [done|]. symmetry. apply andb_false_iff.
  pose proof (wi_blocks _ HI d) as Hb. cbn in Hb. destruct (streams d (st s)); [right; done|].
  left. apply Z.eqb_neq, Hb. done.
Qed.

Lemma mutex_free_tally d ts : mutex_free d ts = true <-> tally (holds_mutex d) ts = 0.
Proof. unfold mutex_free. rewrite tally_zero, negb_true_iff. done. Qed.

Lemma quiet_tally d ts : quiet d ts = true <-> tally (transfers d) ts = 0.
Proof. unfold quiet. rewrite tally_zero, negb_true_iff. done. Qed.

Lemma quiet_uses d i ts : quiet d ts = true -> tally (uses d i) ts = 0.
Proof.
  intros H%quiet_tally. pose proof (tally_nonneg (uses d i) ts).
  assert (tally (uses d i) ts <= tally (transfers d) ts); [|lia]. apply tally_le.
  intros [|d' p n|d' p|op j]; cbn; try done; case_bool_decide; done.
Qed.

(** *** Transfers *)

Lemma begin_run ts s d stream e : wrap_inv (WSys ts s) ->
  transfer_begin d stream e s =
    match index_of stream (streams d (st s)) with
    | Some i => (Some (block d (st s), i),
        Sys _ _ (set_streams d (alter (add_in_use 1) i (streams d (st s))) (st s)) (tr s))
    | None => (None, s)
    end.
Proof.
  intros HI. unfold transfer_begin, mbind, prog_bind. rewrite (lookup_run ts) by done.
  destruct (index_of _ _) as [i|]; [|done]. by destruct d.
Qed.

Lemma begin_inv ts t s d stream bytes e : ts !! t = Some Outside -> wrap_inv (WSys ts s) ->
  wrap_inv (WSys (<[t := match (transfer_begin d stream e s).1 with
                        | Some p => Begun d p bytes | None => Outside end]> ts)
                 (transfer_begin d stream e s).2).
Proof.
  intros Ht HI. rewrite (begin_run ts) by done.
  destruct (index_of stream (streams d (st s))) as [i|] eqn:Hi; cbn [fst snd].
  2: by rewrite list_insert_id.
  apply index_of_lt in Hi. set (l := alter (add_in_use 1) i (streams d (st s))).
  pose proof (changed_streams d l (st s)) as Hch. set (v' := set_streams d l (st s)) in *.
  eapply (inv_change d l (block d (st s)) ts); [exact HI | exact Hch | | | | |].
  - apply Forall_insert.
    + eapply Forall_impl; [apply HI|]. intros u. apply thread_ok_mono. intros d'. cbn.
      destruct Hch as (E1 & E2 & _ & E3). destruct (decide (d' = d)) as [-> | Hd].
      * rewrite E1, E2. unfold l. by rewrite length_alter.
      * by destruct (E3 d' Hd) as [-> ->].
    + cbn. destruct Hch as (E1 & E2 & _). rewrite E1, E2. unfold l. by rewrite length_alter.
  - intros j w Hw. rewrite (tally_insert _ _ _ _ _ Ht). cbn. rewrite bool_decide_eq_true_2 by done.
    unfold l in Hw. destruct (decide (i = j)) as [<- | Hij].
    + rewrite list_lookup_alter, decide_True in Hw by done. apply fmap_Some in Hw as (w0 & E & ->).
      cbn. rewrite (wi_counts _ HI d i w0 E). cbn.
      replace (i =? i)%nat with true by (symmetry; apply Nat.eqb_refl). lia.
    + rewrite list_lookup_alter_ne in Hw by done. rewrite (wi_counts _ HI d j w Hw). cbn.
      replace (i =? j)%nat with false by (symmetry; by apply Nat.eqb_neq). lia.
  - intros d' j Hd. rewrite (tally_insert _ _ _ _ _ Ht). cbn. rewrite bool_decide_eq_false_2 by done.
    cbn. lia.
  - intros _. apply (wi_blocks _ HI d). cbn. intros E. rewrite E in Hi. cbn in Hi. lia.
  - intros d'. rewrite (tally_insert _ _ _ _ _ Ht). pose proof (wi_mutex _ HI d'). cbn in *. lia.
Qed.

Lemma at_pointer_some v d (p : pointer) : p.1 = block d v -> (p.2 < length (streams d v))%nat ->
  exists w, at_pointer d p v = Some w /\ streams d v !! p.2 = Some w.
Proof.
  intros Hb Hi. unfold at_pointer. rewrite Hb, Z.eqb_refl.
  apply lookup_lt_is_Some in Hi as [w Hw]. by exists w.
Qed.

Lemma call_inv ts t s d p bytes e : ts !! t = Some (Begun d p bytes) -> wrap_inv (WSys ts s) ->
  wrap_inv (WSys (<[t := Called d p]> ts) (transfer_call d p bytes e s).2).
Proof.
  intros Ht HI. pose proof (Forall_lookup_1 _ _ _ _ (wi_threads _ HI) Ht) as [Hb Hp].
  destruct (at_pointer_some _ _ _ Hb Hp) as (w & Hw & _).
  apply (wrap_inv_same _ s).
  { change (wp (transfer_call d p bytes) e s (fun _ s' => same_arrays (st s) (st s'))).
    unfold transfer_call. wp_step. wp_step. cbn in Hw. rewrite Hw. by wp_go. }
  apply (inv_change d (streams d (st s)) (block d (st s)) ts _ s s HI); [done | | | | |].
  - apply Forall_insert; [apply HI | done].
  - intros j u Hu. rewrite (tally_insert _ _ _ _ _ Ht). cbn.
    rewrite (wi_counts _ HI d j u Hu). cbn. lia.
  - intros d' j _. rewrite (tally_insert _ _ _ _ _ Ht). cbn. lia.
  - apply HI.
  - intros d'. rewrite (tally_insert _ _ _ _ _ Ht). pose proof (wi_mutex _ HI d'). cbn in *. lia.
Qed.

Lemma end_inv ts t s d p e : ts !! t = Some (Called d p) -> wrap_inv (WSys ts s) ->
  wrap_inv (WSys (<[t := Outside]> ts) (transfer_end d p e s).2).
Proof.
  intros Ht HI. pose proof (Forall_lookup_1 _ _ _ _ (wi_threads _ HI) Ht) as [Hb Hp].
  destruct (at_pointer_some _ _ _ Hb Hp) as (w & Hw & Hlk). cbn in Hw, Hlk, Hp.
  set (l := alter (add_in_use (-1)) p.2 (streams d (st s))).
  pose proof (changed_streams d l (st s)) as Hch. set (v' := set_streams d l (st s)) in *.
  assert ((transfer_end d p e s).2 = Sys _ _ v' (tr s)) as ->.
  { unfold transfer_end, mbind, prog_bind, gets. by rewrite Hw. }
  eapply (inv_change d l (block d (st s)) ts); [exact HI | exact Hch | | | | |].
  - apply Forall_insert; [|done].
    eapply Forall_impl; [apply HI|]. intros u. apply thread_ok_mono. intros d'. cbn.
    destruct Hch as (E1 & E2 & _ & E3). destruct (decide (d' = d)) as [-> | Hd].
    + rewrite E1, E2. unfold l. by rewrite length_alter.
    + by destruct (E3 d' Hd) as [-> ->].
  - intros j u Hu. rewrite (tally_insert _ _ _ _ _ Ht). cbn. rewrite bool_decide_eq_true_2 by done.
    unfold l in Hu. destruct (decide (p.2 = j)) as [<- | Hij].
    + rewrite list_lookup_alter, decide_True in Hu by done. apply fmap_Some in Hu as (w0 & E & ->).
      cbn. rewrite (wi_counts _ HI d _ w0 E). cbn.
      replace (p.2 =? p.2)%nat with true by (symmetry; apply Nat.eqb_refl). lia.
    + rewrite list_lookup_alter_ne in Hu by done. rewrite (wi_counts _ HI d j u Hu). cbn.
      replace (p.2 =? j)%nat with false by (symmetry; by apply Nat.eqb_neq). lia.
  - intros d' j Hd. rewrite (tally_insert _ _ _ _ _ Ht). cbn. rewrite bool_decide_eq_false_2 by done.
    cbn. lia.
  - intros _. apply (wi_blocks _ HI d). cbn. intros E. by rewrite E in Hlk.
  - intros d'. rewrite (tally_insert _ _ _ _ _ Ht). pose proof (wi_mutex _ HI d'). cbn in *. lia.
Qed.

(** *** Functions that keep the mutex *)

Lemma lock_inv ts t s op stream e : ts !! t = Some Outside ->
  mutex_free (op_direction op) ts = true -> wrap_inv (WSys ts s) ->
  wrap_inv (WSys (<[t := match (lookup_stream (op_direction op) stream e s).1 with
                        | Some i => Waiting op i | None => Outside end]> ts)
                 (lookup_stream (op_direction op) stream e s).2).
Proof.
  intros Ht Hm%mutex_free_tally HI. rewrite (lookup_run ts) by done. cbn [fst snd].
  destruct (index_of _ _) as [i|] eqn:Hi; [|by rewrite list_insert_id]. apply index_of_lt in Hi.
  set (d := op_direction op) in *.
  apply (inv_change d (streams d (st s)) (block d (st s)) ts _ s s HI); [done | | | | |].
  - apply Forall_insert; [apply HI | done].
  - intros j u Hu. rewrite (tally_insert _ _ _ _ _ Ht). cbn.
    rewrite (wi_counts _ HI d j u Hu). cbn. lia.
  - intros d' j _. rewrite (tally_insert _ _ _ _ _ Ht). cbn. lia.
  - apply HI.
  - intros d'. rewrite (tally_insert _ _ _ _ _ Ht). pose proof (wi_mutex _ HI d'). cbn in *.
    fold d. case_bool_decide; [subst d'|]; lia.
Qed.

(** No thread has to do with the arrays of a direction that is quiet and not locked. *)
Lemma idle_threads d v v' ts : quiet d ts = true -> mutex_free d ts = true ->
  (forall d', d' <> d -> streams d' v' = streams d' v /\ block d' v' = block d' v) ->
  Forall (thread_ok v) ts -> Forall (thread_ok v') ts.
Proof.
  unfold quiet, mutex_free. rewrite !negb_true_iff. intros Hq Hm Ho HF.
  induction ts as [|t ts IH]; [done|]. cbn in Hq, Hm. apply orb_false_iff in Hq as [Hq Hqs].
  apply orb_false_iff in Hm as [Hm Hms]. inversion HF as [|? ? Ht HF']; subst.
  constructor; [|by apply IH]. destruct t as [|d' p n|d' p|op i]; cbn in *; [done|..].
  1,2: case_bool_decide as Hd; [done|]; by destruct (Ho d' Hd) as [-> ->].
  case_bool_decide as Hd; [done|]. by destruct (Ho _ Hd) as [-> _].
Qed.

(** The arrays of a quiet direction are replaced by elements that are not in use. *)
Lemma inv_replace d l b ts s s' : wrap_inv (WSys ts s) -> quiet d ts = true ->
  mutex_free d ts = true -> changed d l b (st s) (st s') ->
  Forall (fun w => ws_in_use w = 0) l -> (l <> [] -> b <> 0) -> wrap_inv (WSys ts s').
Proof.
  intros HI Hq Hm Hch Hl Hb. eapply (inv_change d l b ts); [exact HI | exact Hch | | | done | done | apply HI].
  - eapply idle_threads; [done | done | apply Hch | apply HI].
  - intros i w Hw. rewrite quiet_uses by done. exact (Forall_lookup_1 _ _ _ _ Hl Hw).
Qed.

(** In a quiet direction no element is in use. *)
Lemma quiet_unused ts s d : wrap_inv (WSys ts s) -> quiet d ts = true ->
  Forall (fun w => ws_in_use w = 0) (streams d (st s)).
Proof.
  intros HI Hq. apply Forall_lookup_2. intros i w Hw. rewrite (wi_counts _ HI d i w Hw). cbn.
  by apply quiet_uses.
Qed.

Lemma close_changed d i s e w : streams d (st s) !! i = Some w ->
  exists b, changed d (delete i (streams d (st s))) b (st s) (st (close_stream d i e s).2) /\
    exists k n, b = r_ret (e k (Realloc (block d (st s)) n)) /\
      n = Z.of_nat (length (delete i (streams d (st s)))).
Proof.
  intros Hw. change (wp (close_stream d i) e s (fun _ s' => exists b,
    changed d (delete i (streams d (st s))) b (st s) (st s') /\
    exists k n, b = r_ret (e k (Realloc (block d (st s)) n)) /\
      n = Z.of_nat (length (delete i (streams d (st s)))))).
  unfold close_stream. wp_step. wp_step. rewrite Hw. wp_go. cbn [st tr].
  set (l := delete i (streams d (st s))) in *. pose proof (changed_streams d l (st s)) as H1.
  exists (r_ret r0). split.
  - pose proof (changed_block d (r_ret r0) (set_streams d l (st s))) as H2.
    rewrite (proj1 H1) in H2. by eapply changed_trans.
  - destruct H1 as (E1 & E2 & _). rewrite E1, E2 in Hr0. do 2 eexists. split; [by rewrite Hr0 | done].
Qed.

Lemma add_changed d jb s e :
  let s' := (add_stream d jb e s).2 in
  changed d (streams d (st s)) (block d (st s)) (st s) (st s') \/
  exists b l, b <> 0 /\ (l = [] \/ exists m, l = [WrapperStream m jb 0]) /\
    changed d (streams d (st s) ++ l) b (st s) (st s').
Proof.
  cbn zeta. change (wp (add_stream d jb) e s (fun _ s' =>
    changed d (streams d (st s)) (block d (st s)) (st s) (st s') \/
    exists b l, b <> 0 /\ (l = [] \/ exists m, l = [WrapperStream m jb 0]) /\
      changed d (streams d (st s) ++ l) b (st s) (st s'))).
  unfold add_stream. wp_go; cbn [st tr]; [by left | right..];
    pose proof (changed_block d (r_ret r) (st s)) as H1; exists (r_ret r).
  - exists []. split; [lia|]. split; [by left|]. by rewrite app_nil_r.
  - eexists. split; [lia|]. split; [right; by eexists|].
    eapply changed_trans; [exact H1|]. destruct (H1) as (E1 & E2 & _). rewrite E1.
    pose proof (changed_streams d (streams d (st s) ++ [WrapperStream (r_ret r0) jb 0])
      (set_block d (r_ret r) (st s))) as H2. by rewrite E2 in H2.
Qed.

Lemma open_inv ts d handle devices flags config s e : wrap_inv (WSys ts s) ->
  quiet d ts = true -> mutex_free d ts = true ->
  wrap_inv (WSys ts (open_stream d handle devices flags config e s).2).
Proof.
  intros HI Hq Hm.
  change (wp (open_stream d handle devices flags config) e s (fun _ s' => wrap_inv (WSys ts s'))).
  unfold open_stream. wp_step. wp_step. destruct (r_ret r =? 0); [|by apply (wrap_inv_same ts s)].
  set (s1 := Sys _ _ (st s) _). pose proof (quiet_unused _ _ _ HI Hq) as Hun. cbn in Hun.
  destruct (add_changed d (aux 0 r) s1 e) as [Hch | (b & l & Hb & Hl & Hch)].
  - eapply inv_replace; [exact HI | done | done | exact Hch | done | apply HI].
  - eapply inv_replace; [exact HI | done | done | exact Hch | | done].
    apply Forall_app. split; [done|]. destruct Hl as [-> | [m ->]]; [done|]. by repeat constructor.
Qed.

Lemma free_array_changed d s e :
  exists b, changed d (if block d (st s) =? 0 then streams d (st s) else []) b (st s)
    (st (free_array d e s).2).
Proof.
  change (wp (free_array d) e s (fun _ s' => exists b,
    changed d (if block d (st s) =? 0 then streams d (st s) else []) b (st s) (st s'))).
  unfold free_array. wp_step. wp_step. destruct (block d (st s) =? 0); cbn [negb].
  - apply wp_ret. eexists. apply changed_refl.
  - unfold when. wp_go. cbn [st tr]. eexists.
    eapply changed_trans; [apply changed_block | apply changed_streams].
Qed.

Lemma free_array_inv ts d s e : wrap_inv (WSys ts s) -> quiet d ts = true ->
  mutex_free d ts = true -> wrap_inv (WSys ts (free_array d e s).2).
Proof.
  intros HI Hq Hm. destruct (free_array_changed d s e) as [b Hch].
  assert ((if block d (st s) =? 0 then streams d (st s) else []) = []) as E.
  { case_match eqn:Hb; [|done]. apply Z.eqb_eq in Hb. pose proof (wi_blocks _ HI d) as H. cbn in H.
    destruct (streams d (st s)); [done|]. by destruct (H ltac:(done)). }
  rewrite E in Hch. by eapply inv_replace.
Qed.

Lemma unload_inv ics ts device s e : wrap_inv (WSys ts s) ->
  (forall d, quiet d ts = true) -> (forall d, mutex_free d ts = true) ->
  wrap_inv (WSys ts (wrapper_close ics device e s).2).
Proof.
  intros HI Hq Hm.
  change (wp (wrapper_close ics device) e s (fun _ s' => wrap_inv (WSys ts s'))).
  unfold wrapper_close. do 14 wp_step. cbn [st tr].
  match goal with |- wp (mbind _ _) _ ?s1 _ => assert (wrap_inv (WSys ts s1)) as H1
    by (by apply (wrap_inv_same ts s)) end.
  wp_step. eapply wp_wand; [apply wp_self|]. cbn beta. intros [] s2 [_ ->].
  apply (free_array_inv _ DOut _ e) in H1; [|done..].
  wp_step. eapply wp_wand; [apply wp_self|]. cbn beta. intros [] s3 [_ ->].
  apply (free_array_inv _ DIn _ e) in H1; [|done..].
  wp_go; (eapply wrap_inv_same; [|exact H1]); done.
Qed.

(** *** Every calm step *)

Section Calm.
Context (ics : bool) (e : env wrap_call).

(** Memory does not run out when an array that is not empty is resized. *)
Hypothesis realloc_ok : forall k b n, 0 < n -> r_ret (e k (Realloc b n)) <> 0.

Lemma close_inv ts t s d i : ts !! t = Some (Waiting (LockedClose d) i) ->
  quiet d ts = true -> wrap_inv (WSys ts s) ->
  wrap_inv (WSys (<[t := Outside]> ts) (close_stream d i e s).2).
Proof.
  intros Ht Hq HI. pose proof (inv_leave _ _ _ _ _ Ht HI) as HI'.
  assert (mutex_free d (<[t := Outside]> ts) = true) as Hm.
  { apply mutex_free_tally. rewrite (tally_insert _ _ _ _ _ Ht). cbn.
    rewrite bool_decide_eq_true_2 by done. pose proof (wi_mutex _ HI d). cbn in *.
    pose proof (tally_nonneg (holds_mutex d) (<[t := Outside]> ts)) as Hn.
    rewrite (tally_insert _ _ _ _ _ Ht) in Hn. cbn in Hn. rewrite bool_decide_eq_true_2 in Hn by done. lia. }
  assert (quiet d (<[t := Outside]> ts) = true) as Hq'.
  { apply quiet_tally. rewrite (tally_insert _ _ _ _ _ Ht). cbn. apply quiet_tally in Hq. lia. }
  pose proof (Forall_lookup_1 _ _ _ _ (wi_threads _ HI) Ht) as Hi. cbn in Hi.
  apply lookup_lt_is_Some in Hi as [w Hw].
  destruct (close_changed d i s e w Hw) as (b & Hch & k & n & -> & Hn).
  eapply inv_replace; [exact HI' | done | done | exact Hch | |].
  - apply Forall_delete. by eapply quiet_unused.
  - intros Hne. apply realloc_ok. destruct (delete i _); [done|]. cbn in Hn. lia.
Qed.

Lemma calm_step_inv x y : calm_step ics e x y -> wrap_inv x -> wrap_inv y.
Proof.
  intros (l & Hs & Hc) HI. destruct Hs; cbn [wthreads] in *.
  - by apply begin_inv.
  - by apply call_inv.
  - by apply end_inv.
  - by apply lock_inv.
  - destruct op as [d fn|d]; cbn in *; [|by eapply close_inv].
    apply (inv_leave _ _ _ _ _ H). eapply wrap_inv_same; [|exact HI].
    change (wp (stream_call d fn i ;; mret tt) e s (fun _ s' => same_arrays (st s) (st s'))).
    apply wp_framed; framed.
  - by apply open_inv.
  - eapply wrap_inv_same; [|exact HI]. apply (wp_framed _ (run_hal ics op)).
  - eapply wrap_inv_same; [|exact HI]. done.
  - eapply wrap_inv_same; [|exact HI]. apply (wp_framed _ (wrapper_set_voice_volume ics volume)).
  - eapply wrap_inv_same; [|exact HI]. apply (wp_framed _ (wrapper_open ics)).
  - apply andb_true_iff in Hc as [Hc1 Hc2]. apply unload_inv; [done | by intros [] | by intros []].
Qed.
End Calm.

(** Threads outside, nothing open *)
Definition wrap_init (n : nat) : wsys := WSys (replicate n Outside) (Sys _ _ wrap_start []).

Lemma wrap_init_inv n : wrap_inv (wrap_init n).
Proof.
  assert (forall f : wthread -> bool, f Outside = false -> tally f (replicate n Outside) = 0) as Hz.
  { intros f Hf. induction n as [|n IH]; [done|]. cbn. by rewrite Hf, IH. }
  split; cbn.
  - by apply Forall_replicate.
  - by intros [] i w.
  - by intros [].
  - intros d. by rewrite Hz.
  - done.
Qed.

Section Reachable.
Context (ics : bool) (e : env wrap_call) (n : nat).
Hypothesis realloc_ok : forall k b n, 0 < n -> r_ret (e k (Realloc b n)) <> 0.

Lemma calm_reachable_inv x : rtc (calm_step ics e) (wrap_init n) x -> wrap_inv x.
Proof.
  intros Hr. pose proof (wrap_init_inv n) as H0.
  induction Hr as [|y z x Hs _ IH]; [done|]. apply IH. by eapply calm_step_inv.
Qed.
End Reachable.

(** C10. In every calm interleaving of the threads that use the wrapper, [in_use] of a
    stream is the number of transfers that are under way on it, every transfer works
    through a pointer to the array as it is, and no access is undefined.  So when a
    function that waits for a stream goes on, no transfer on that stream is under way.
    Calm: streams are opened and closed while no transfer of their direction is under
    way.  Memory suffices for the arrays. *)
Theorem wrap_in_use ics e n x :
  (forall k b m, 0 < m -> r_ret (e k (Realloc b m)) <> 0) ->
  rtc (calm_step ics e) (wrap_init n) x ->
  let v := st (shared x) in
  undefined v = false /\
  (forall d i w, streams d v !! i = Some w -> ws_in_use w = tally (uses d i) (wthreads x)) /\
  (forall t d p m, wthreads x !! t = Some (Begun d p m) \/ wthreads x !! t = Some (Called d p) ->
     exists w, at_pointer d p v = Some w) /\
  (forall t op i, wthreads x !! t = Some (Waiting op i) -> is_free (op_direction op) i v = true ->
     existsb (uses (op_direction op) i) (wthreads x) = false).
Proof.
  intros He Hr. pose proof (calm_reachable_inv ics e n He x Hr) as HI. cbn zeta. split_and!.
  - apply HI.
  - apply HI.
  - intros t d p m Ht.
    assert (thread_ok (st (shared x)) (Called d p)) as [Hb Hp].
    { by destruct Ht as [Ht | Ht]; apply (Forall_lookup_1 _ _ _ _ (wi_threads _ HI) Ht). }
    destruct (at_pointer_some _ _ _ Hb Hp) as (w & Hw & _). by exists w.
  - intros t op i Ht Hf. pose proof (Forall_lookup_1 _ _ _ _ (wi_threads _ HI) Ht) as Hi. cbn in Hi.
    apply lookup_lt_is_Some in Hi as [w Hw]. unfold is_free in Hf. rewrite Hw in Hf.
    apply tally_zero. rewrite <- (wi_counts _ HI _ _ _ Hw). lia.
Qed.

(** ** A run, and a race *)

(** The first array is at 101, one of two elements at 102. *)
Definition demo_audio : env wrap_call := fun k c =>
  match c with
  | Realloc _ m => answer (100 + m)
  | Malloc => answer (500 + Z.of_nat k)
  | JbOpenStream _ _ _ _ _ => Resp 0 0 "" [900]
  | JbTransfer _ _ bytes => answer bytes
  | _ => answer 0
  end.

Lemma demo_realloc k b m : 0 < m -> r_ret (demo_audio k (Realloc b m)) <> 0.
Proof. cbn. lia. Qed.

Definition demo_opened : sys wrap_call wrap_vars :=
  (open_stream DOut 1 2 0 0 demo_audio (Sys _ _ wrap_start [])).2.
Definition demo_begun : sys wrap_call wrap_vars := (transfer_begin DOut 502 demo_audio demo_opened).2.

(** Thread 0 writes, thread 1 wants to put the stream in standby. *)
Definition demo_waiting : wsys :=
  WSys [Begun DOut (101, 0%nat) 64; Waiting (LockedCall DOut StandBy) 0] demo_begun.

Lemma demo_writing_reachable :
  rtc (calm_step false demo_audio) (wrap_init 2) (WSys [Begun DOut (101, 0%nat) 64; Outside] demo_begun).
Proof.
  apply rtc_l with (WSys [Outside; Outside] demo_opened).
  - exists (LOpen DOut). split; [by apply (step_open _ _ _ 0) | done].
  - apply rtc_once. exists LNone. split; [by apply (step_begin _ _ [_; _] 0 demo_opened DOut 502 64) | done].
Qed.

Lemma demo_waiting_reachable : rtc (calm_step false demo_audio) (wrap_init 2) demo_waiting.
Proof.
  eapply rtc_r; [exact demo_writing_reachable|]. exists LNone.
  split; [by apply (step_lock _ _ [_; _] 1 demo_begun (LockedCall DOut StandBy) 502) | done].
Qed.

Lemma wrap_in_use_witness : undefined (st (shared demo_waiting)) = false /\
  forall w, out_streams (st (shared demo_waiting)) !! 0%nat = Some w -> ws_in_use w = 1.
Proof.
  destruct (wrap_in_use false demo_audio 2 demo_waiting demo_realloc demo_waiting_reachable)
    as (H1 & H2 & _).
  split; [exact H1|]. intros w Hw. by rewrite (H2 DOut 0%nat w Hw).
Defined.

(** The race that calm runs exclude: while one thread writes, another opens a second
    output stream; [realloc] moves the array, and the first thread goes on through a
    pointer to the array that was freed. *)
Theorem open_during_write_undefined : exists x,
  rtc (any_step false demo_audio) (wrap_init 2) x /\ undefined (st (shared x)) = true.
Proof.
  set (s1 := (open_stream DOut 1 2 0 0 demo_audio demo_begun).2).
  exists (WSys [Called DOut (101, 0%nat); Outside] (transfer_call DOut (101, 0%nat) 64 demo_audio s1).2).
  split; [|by vm_compute]. etrans.
  - eapply rtc_subrel; [|exact demo_writing_reachable]. intros a b (l & Hs & _). by exists l.
  - apply rtc_l with (WSys [Begun DOut (101, 0%nat) 64; Outside] s1).
    + exists (LOpen DOut). by apply (step_open _ _ _ 1).
    + apply rtc_once. exists LNone. by apply (step_call _ _ [_; _] 0).
Qed.
