(* ===== verification/AudioMute.v ===== *)
(** * The audio wrapper: microphone route, vendor streams, devices

    In every interleaving the route of the microphone is set back to the value that was
    read before it was muted, and a value is kept only during a call.  No stream of the
    vendor is leaked or closed twice while memory suffices.  How device numbers are
    converted, and what a failed start leaves behind. *)

From S2P Require Import Prelude.
From S2P Require Import CString.
From S2P Require Import AudioWrap.
From S2P Require Import AudioWrapThms.

Implicit Types (e : env wrap_call) (s : sys wrap_call wrap_vars) (v : wrap_vars).

(** ** The route of the microphone *)

(** What a trace tells: the mode of the phone, and the value of the route from before it
    was muted in this call, until it is written back *)
Definition track_call (mk : Z * option Z) (x : wrap_call * resp) : Z * option Z :=
  match x.1 with
  | JbHal (SetMode mode) => (mode, if mk.1 =? AUDIO_MODE_IN_CALL then mk.2 else None)
  | MixerCtlGetValue _ => (mk.1, if r_ret x.2 =? -1 then None else Some (r_ret x.2))
  | MixerCtlSetValue _ _ => (mk.1, None)
  | _ => mk
  end.

Definition track (t : list (wrap_call * resp)) : Z * option Z :=
  foldl track_call (AUDIO_MODE_NORMAL, None) t.

(** The route is read only when no value is known, and written back with that value. *)
Definition route_ok (k : option Z) (c : wrap_call) : Prop :=
  match c with
  | MixerCtlGetValue _ => k = None
  | MixerCtlSetValue _ value => k = Some value
  | _ => True
  end.

Definition undoes (t : list (wrap_call * resp)) : Prop :=
  forall t1 x t2, t = t1 ++ x :: t2 -> route_ok (track t1).2 x.1.

Definition kept (last : Z) : option Z := if last =? -1 then None else Some last.

(** The variables agree with the trace. *)
Definition mute_inv s : Prop :=
  (track (tr s)).1 = hal_audio_mode (st s) /\
  (if hal_audio_mode (st s) =? AUDIO_MODE_IN_CALL
   then (track (tr s)).2 = kept (last_mute_ctl_value (st s))
   else last_mute_ctl_value (st s) = -1) /\
  undoes (tr s).

Definition route_call (c : wrap_call) : bool :=
  match c with
  | MixerCtlGetValue _ | MixerCtlSetValue _ _ | JbHal (SetMode _) => true
  | _ => false
  end.

Lemma track_snoc t x : track (t ++ [x]) = track_call (track t) x.
Proof. unfold track. by rewrite foldl_app. Qed.

Lemma undoes_snoc t x : undoes t -> route_ok (track t).2 x.1 -> undoes (t ++ [x]).
Proof.
  intros Ht Hx t1 y t2 E. destruct t2 as [|z t3 _] using rev_ind.
  - by apply app_inj_tail in E as [-> ->].
  - rewrite app_comm_cons, app_assoc in E. by apply app_inj_tail in E as [-> _]; eapply Ht.
Qed.

Lemma mute_call e c : route_call c = false -> Keeps e mute_inv (call c).
Proof.
  intros Hc. apply keeps_call. intros s r (H1 & H2 & H3). unfold mute_inv. cbn [st tr].
  assert (track (tr s ++ [(c, r)]) = track (tr s)) as ->.
  { rewrite track_snoc. by destruct c as [| | | |[]| | | | | | | | | | | | | | | |]. }
  split_and!; [done | done|]. apply undoes_snoc; [done|].
  by destruct c as [| | | |[]| | | | | | | | | | | | | | | |].
Qed.

#[local] Hint Extern 1 (Keeps _ mute_inv (call _)) => apply mute_call; reflexivity : typeclass_instances.

#[local] Instance keep_set_streams e d f : Keeps e mute_inv (modify (fun v => set_streams d (f v) v)).
Proof. apply keeps_modify. intros s H. by destruct d. Qed.
#[local] Instance keep_set_streams_to e d l : Keeps e mute_inv (modify (set_streams d l)).
Proof. apply keeps_modify. intros s H. by destruct d. Qed.
#[local] Instance keep_set_block e d b : Keeps e mute_inv (modify (set_block d b)).
Proof. apply keeps_modify. intros s H. by destruct d. Qed.

(** [alsa_set_mic_mute] where the value that is kept is the one the trace tells *)
Lemma alsa_tracks e s state :
  (track (tr s)).2 = kept (last_mute_ctl_value (st s)) -> undoes (tr s) ->
  wp (alsa_set_mic_mute state) e s (fun _ s' =>
    (track (tr s')).1 = (track (tr s)).1 /\
    (track (tr s')).2 = kept (last_mute_ctl_value (st s')) /\
    undoes (tr s') /\ hal_audio_mode (st s') = hal_audio_mode (st s)).
Proof.
  intros H1 H2. unfold alsa_set_mic_mute. wp_go; cbn [st tr]; rewrite ?track_snoc; cbn;
    (split_and!; [done | try done | | done]); repeat (apply undoes_snoc; [|try done]); try done.
  all: rewrite ?track_snoc; cbn; rewrite H1; unfold kept.
  - by rewrite E3.
  - by replace (last_mute_ctl_value (st s) =? -1) with false by (cbn in E; lia).
Qed.

Lemma restore_inv e s : mute_inv s -> wp restore_mute e s (fun _ s' => mute_inv s').
Proof.
  intros H. destruct (H) as (H1 & H2 & H3). unfold restore_mute. wp_step. wp_step. wp_step; [|done].
  rewrite E in H2. wp_step. wp_step. wp_step; [|done]. wp_step.
  eapply wp_wand; [by apply alsa_tracks|]. cbn beta. intros _ s' (G1 & G2 & G3 & G4). wp_step.
  unfold mute_inv. rewrite G4, E. split_and!; [congruence | done | done].
Qed.

Lemma keeps_of_wp {A} e (I : sys wrap_call wrap_vars -> Prop) (m : wrap A) :
  (forall s, I s -> wp m e s (fun _ s' => I s')) -> Keeps e I m.
Proof. intros H s Hs. by apply H. Qed.

#[local] Instance keep_restore e : Keeps e mute_inv restore_mute.
Proof. apply keeps_of_wp. intros s H. eapply wp_wand; [by apply restore_inv|]. done. Qed.

#[local] Instance keep_undefined e : Keeps e mute_inv (modify (fun v => v <| undefined := true |>)).
Proof. by apply keeps_modify. Qed.

#[local] Instance keep_mic_mute e state : Keeps e mute_inv (wrapper_set_mic_mute state).
Proof.
  apply keeps_of_wp. intros s H. unfold wrapper_set_mic_mute. wp_step.
  eapply wp_wand; [exact (wp_keeps e mute_inv (call _) s H)|]. intros r s1 (H1 & H2 & H3).
  wp_step. wp_step. wp_step. wp_step; [|by wp_step]. rewrite E in H2. wp_step.
  eapply wp_wand; [by apply alsa_tracks|]. cbn beta. intros _ s2 (G1 & G2 & G3 & G4). wp_go.
  unfold mute_inv. rewrite G4, E. split_and!; [congruence | done | done].
Qed.

#[local] Instance keep_mode e mode : Keeps e mute_inv (wrapper_set_mode mode).
Proof.
  apply keeps_of_wp. intros s (H1 & H2 & H3). unfold wrapper_set_mode. do 6 wp_step. wp_step.
  set (t := tr s ++ [(JbHal (SetMode mode), r)]).
  assert (undoes t) as Hu by (by apply undoes_snoc).
  assert (track t = (mode, if hal_audio_mode (st s) =? AUDIO_MODE_IN_CALL
    then (track (tr s)).2 else None)) as Ht by (unfold t; rewrite track_snoc; cbn; by rewrite H1).
  wp_step.
  - apply andb_true_iff in E as [E Hl]. apply andb_true_iff in E as [E Hm]. rewrite E in *.
    wp_step. eapply wp_wand; [apply alsa_tracks; cbn [st tr]; fold t; [by rewrite Ht | done]|].
    cbn beta. intros _ s2 (G1 & G2 & G3 & G4). wp_go. unfold mute_inv.
    cbn -[track undoes AUDIO_MODE_IN_CALL Z.eqb]. rewrite G1. cbn [tr]. fold t. rewrite Ht.
    replace (mode =? AUDIO_MODE_IN_CALL) with false by (by destruct (mode =? AUDIO_MODE_IN_CALL)).
    done.
  - wp_go. unfold mute_inv. cbn [st tr]. fold t. rewrite Ht.
    change (hal_audio_mode ((st s) <| hal_audio_mode := mode |>)) with mode.
    change (last_mute_ctl_value ((st s) <| hal_audio_mode := mode |>)) with (last_mute_ctl_value (st s)).
    split; [done|]. split; [|done]. cbn [snd].
    destruct (hal_audio_mode (st s) =? AUDIO_MODE_IN_CALL), (mode =? AUDIO_MODE_IN_CALL); cbn in E;
      try done; [lia | by rewrite H2].
Qed.

#[local] Instance keep_load e path f : (forall h v, last_mute_ctl_value (f h v) = last_mute_ctl_value v /\
  hal_audio_mode (f h v) = hal_audio_mode v) -> Keeps e mute_inv (load_hal path f).
Proof.
  intros Hf. assert (forall h, Keeps e mute_inv (modify (f h))).
  { intros h. apply keeps_modify. intros s H. unfold mute_inv. cbn [st tr].
    destruct (Hf h (st s)) as [-> ->]. done. }
  unfold load_hal. keeps.
Qed.

#[local] Instance keep_begin e d stream : Keeps e mute_inv (transfer_begin d stream).
Proof. unfold transfer_begin, lookup_stream. keeps. Qed.
#[local] Instance keep_transfer_call e d p bytes : Keeps e mute_inv (transfer_call d p bytes).
Proof. unfold transfer_call. keeps. Qed.
#[local] Instance keep_end e d p : Keeps e mute_inv (transfer_end d p).
Proof. unfold transfer_end. keeps. Qed.
#[local] Instance keep_lookup e d stream : Keeps e mute_inv (lookup_stream d stream).
Proof. unfold lookup_stream. keeps. Qed.
#[local] Instance keep_run_op e op i : Keeps e mute_inv (run_op op i).
Proof. unfold run_op, stream_call, close_stream. keeps. Qed.
#[local] Instance keep_open e d handle devices flags config :
  Keeps e mute_inv (open_stream d handle devices flags config).
Proof. unfold open_stream, add_stream. keeps. Qed.
#[local] Instance keep_voice_volume ics e volume : Keeps e mute_inv (wrapper_set_voice_volume ics volume).
Proof. unfold wrapper_set_voice_volume, hal_call. keeps. Qed.
#[local] Instance keep_run_hal ics e op : Keeps e mute_inv (run_hal ics op).
Proof.
  unfold run_hal, wrapper_set_mode_ics, wrapper_set_parameters_ics, wrapper_set_parameters,
    wrapper_set_master_volume, hal_call. keeps.
Qed.
#[local] Instance keep_new_device ics e : Keeps e mute_inv (new_device ics).
Proof. unfold new_device. keeps. Qed.
#[local] Instance keep_wrapper_open ics e : Keeps e mute_inv (wrapper_open ics).
Proof.
  assert (forall h v, last_mute_ctl_value (set_dso_handle h v) = last_mute_ctl_value v /\
    hal_audio_mode (set_dso_handle h v) = hal_audio_mode v) by done.
  assert (forall h v, last_mute_ctl_value (set_ics_dso_handle h v) = last_mute_ctl_value v /\
    hal_audio_mode (set_ics_dso_handle h v) = hal_audio_mode v) by done.
  unfold wrapper_open. keeps.
Qed.
#[local] Instance keep_wrapper_close ics e device : Keeps e mute_inv (wrapper_close ics device).
Proof. unfold wrapper_close, free_array. keeps. Qed.

Lemma any_step_mute ics e x y : any_step ics e x y -> mute_inv (shared x) -> mute_inv (shared y).
Proof.
  intros [l Hs]. destruct Hs; cbn [shared]; try apply keeps_inv.
  destruct fn; try done; unfold hal_call; apply keeps_inv.
Qed.

(** C13. Muting is undone: in every interleaving, calm or not, and whatever the mixer
    answers, the route of the microphone is read only when no value from before is known,
    so that the mute is not taken for it, and what is written back is that value; a value
    is kept only while the phone is in a call. *)
Theorem mute_undone ics e n x : rtc (any_step ics e) (wrap_init n) x ->
  (forall t1 c r t2, tr (shared x) = t1 ++ (c, r) :: t2 -> route_ok (track t1).2 c) /\
  (last_mute_ctl_value (st (shared x)) <> -1 ->
     hal_audio_mode (st (shared x)) = AUDIO_MODE_IN_CALL /\
     (track (tr (shared x))).2 = Some (last_mute_ctl_value (st (shared x)))).
Proof.
  intros Hr. assert (mute_inv (shared (wrap_init n))) as H0.
  { split_and!; [done | done |]. intros t1 y t2 E. by destruct t1. }
  assert (mute_inv (shared x)) as (H1 & H2 & H3).
  { induction Hr as [|x y z Hs _ IH]; [done|]. apply IH. by eapply any_step_mute. }
  split; [by intros t1 c r t2 E; apply (H3 t1 (c, r) t2)|]. intros Hl.
  destruct (hal_audio_mode (st (shared x)) =? AUDIO_MODE_IN_CALL) eqn:E; [|done].
  split; [lia|]. rewrite H2. unfold kept. by replace (_ =? -1) with false by lia.
Qed.

Definition demo_mixer : env wrap_call := fun _ c =>
  match c with MixerOpen => answer 3 | MixerGetCtl _ => answer 4 | MixerCtlGetValue _ => answer 6
  | _ => answer 0 end.

(** A call begins, the microphone is muted twice, the call ends. *)
Definition demo_call : sys wrap_call wrap_vars :=
  ((run_hal false (HalMode 2) ;; run_hal false (HalMicMute true) ;; run_hal false (HalMicMute true) ;;
    run_hal false (HalMode 0)) demo_mixer (Sys _ _ wrap_start [])).2.

Lemma demo_call_reachable : rtc (any_step false demo_mixer) (wrap_init 1) (WSys [Outside] demo_call).
Proof.
  assert (forall op s, any_step false demo_mixer (WSys [Outside] s)
    (WSys [Outside] (run_hal false op demo_mixer s).2)) as Hop.
  { intros op s. exists LNone. by apply (step_hal _ _ _ 0). }
  eapply rtc_l; [apply (Hop (HalMode 2))|]. eapply rtc_l; [apply (Hop (HalMicMute true))|].
  eapply rtc_l; [apply (Hop (HalMicMute true))|]. apply rtc_once, (Hop (HalMode 0)).
Qed.

Lemma mute_undone_witness : exists x, x = WSys [Outside] demo_call /\
  (forall t1 c r t2, tr (shared x) = t1 ++ (c, r) :: t2 -> route_ok (track t1).2 c) /\
  In (MixerCtlSetValue 4 6) (calls (shared x)) /\ last_mute_ctl_value (st (shared x)) = -1.
Proof.
  destruct (ex_intro (fun x => x = WSys [Outside] demo_call) _ eq_refl) as [x Hx].
  exists x. split; [exact Hx|]. split; [|rewrite Hx; split; [vm_compute; tauto | by vm_compute]].
  apply (mute_undone false demo_mixer 1). rewrite Hx. exact demo_call_reachable.
Defined.

(** ** The streams of the vendor *)

Section Vendor.
Context (d : direction).

(** Opens and closes of a vendor stream of this direction *)
#[local] Instance jb_calls : FdCalls wrap_call := fun h x =>
  match x.1 with
  | JbOpenStream d' _ _ _ _ =>
      if bool_decide (d' = d) && (r_ret x.2 =? 0) && (aux 0 x.2 =? h) then 1 else 0
  | JbCloseStream d' jb => if bool_decide (d' = d) && (jb =? h) then -1 else 0
  | _ => 0
  end.

Definition holds_jb (h : Z) (w : wrapper_stream) : bool := jb_stream w =? h.

(** Every vendor stream that is open belongs to an element of the array. *)
Definition jb_inv s : Prop := forall h, fd_balance h (tr s) = tally (holds_jb h) (streams d (st s)).

Lemma tally_app {A} (f : A -> bool) l1 l2 : tally f (l1 ++ l2) = tally f l1 + tally f l2.
Proof. induction l1 as [|x l1 IH]; cbn; [done|]. rewrite IH. lia. Qed.

Lemma tally_delete {A} (f : A -> bool) l i x : l !! i = Some x ->
  tally f (delete i l) = tally f l - (if f x then 1 else 0).
Proof.
  revert i. induction l as [|y l IH]; intros [|i] Hi; cbn in Hi; simplify_eq; [cbn; lia|].
  change (delete (S i) (y :: l)) with (y :: delete i l). cbn [tally]. rewrite (IH i Hi). lia.
Qed.

Lemma tally_alter_in_use h n i l :
  tally (holds_jb h) (alter (add_in_use n) i l) = tally (holds_jb h) l.
Proof.
  revert i. induction l as [|w l IH]; intros [|i]; try done.
  change (alter (add_in_use n) (S i) (w :: l)) with (w :: alter (add_in_use n) i l).
  cbn [tally]. by rewrite IH.
Qed.

Definition jb_call (c : wrap_call) : bool :=
  match c with JbOpenStream _ _ _ _ _ | JbCloseStream _ _ => true | _ => false end.

Lemma jb_keeps_call e c : jb_call c = false -> Keeps e jb_inv (call c).
Proof.
  intros Hc. apply keeps_call. intros s r H h. cbn [st tr]. rewrite fd_balance_app, H, fd_balance_one.
  destruct c; try done; cbn; lia.
Qed.

(** Programs that neither open nor close vendor streams, nor change the arrays *)
#[local] Hint Extern 1 (Keeps _ jb_inv (call _)) => apply jb_keeps_call; reflexivity : typeclass_instances.
#[local] Hint Extern 2 (Keeps _ jb_inv (modify _)) =>
  apply keeps_modify; intros s H; solve [exact H] : typeclass_instances.

#[local] Instance jb_alter e d' n i :
  Keeps e jb_inv (modify (fun v => set_streams d' (alter (add_in_use n) i (streams d' v)) v)).
Proof.
  apply keeps_modify. intros s H h. cbn [st tr]. rewrite H.
  destruct (decide (d' = d)) as [-> | Hd].
  - destruct (changed_streams d (alter (add_in_use n) i (streams d (st s))) (st s)) as (-> & _).
    by rewrite tally_alter_in_use.
  - destruct (changed_streams d' (alter (add_in_use n) i (streams d' (st s))) (st s)) as (_ & _ & _ & Ho).
    by destruct (Ho d ltac:(congruence)) as [-> _].
Qed.

#[local] Instance jb_set_block e d' b : Keeps e jb_inv (modify (set_block d' b)).
Proof. apply keeps_modify. intros s H h. cbn [st tr]. rewrite H. by destruct d, d'. Qed.

#[local] Instance jb_alsa e state : Keeps e jb_inv (alsa_set_mic_mute state).
Proof. unfold alsa_set_mic_mute. keeps. Qed.
#[local] Instance jb_lookup e d' stream : Keeps e jb_inv (lookup_stream d' stream).
Proof. unfold lookup_stream. keeps. Qed.
#[local] Instance jb_begin e d' stream : Keeps e jb_inv (transfer_begin d' stream).
Proof. unfold transfer_begin. keeps. Qed.
#[local] Instance jb_transfer_call e d' p bytes : Keeps e jb_inv (transfer_call d' p bytes).
Proof. unfold transfer_call. keeps. Qed.
#[local] Instance jb_end e d' p : Keeps e jb_inv (transfer_end d' p).
Proof. unfold transfer_end. keeps. Qed.
#[local] Instance jb_stream_call e d' fn i : Keeps e jb_inv (stream_call d' fn i).
Proof. unfold stream_call, restore_mute. keeps. Qed.
#[local] Instance jb_voice_volume ics e volume : Keeps e jb_inv (wrapper_set_voice_volume ics volume).
Proof. unfold wrapper_set_voice_volume, hal_call. keeps. Qed.
#[local] Instance jb_run_hal ics e op : Keeps e jb_inv (run_hal ics op).
Proof.
  unfold run_hal, wrapper_set_mode_ics, wrapper_set_mode, wrapper_set_parameters_ics,
    wrapper_set_parameters, wrapper_set_master_volume, wrapper_set_mic_mute, hal_call. keeps.
Qed.
#[local] Instance jb_load e path f : (forall h v, streams d (f h v) = streams d v) ->
  Keeps e jb_inv (load_hal path f).
Proof.
  intros Hf. assert (forall h, Keeps e jb_inv (modify (f h))).
  { intros h. apply keeps_modify. intros s H x. cbn [st tr]. by rewrite Hf. }
  unfold load_hal. keeps.
Qed.
#[local] Instance jb_new_device ics e : Keeps e jb_inv (new_device ics).
Proof. unfold new_device. keeps. Qed.
#[local] Instance jb_wrapper_open ics e : Keeps e jb_inv (wrapper_open ics).
Proof.
  assert (forall h v, streams d (set_dso_handle h v) = streams d v) by (by destruct d).
  assert (forall h v, streams d (set_ics_dso_handle h v) = streams d v) by (by destruct d).
  unfold wrapper_open. keeps.
Qed.

#[local] Instance jb_close e d' i : Keeps e jb_inv (close_stream d' i).
Proof.
  apply keeps_of_wp. intros s H. unfold close_stream. wp_step. wp_step.
  destruct (streams d' (st s) !! i) as [w|] eqn:Hw; [|by wp_step]. wp_go. intros h. cbn [st tr].
  autorewrite with fdbal. rewrite H. set (l := delete i (streams d' (st s))).
  assert (forall b, streams d (set_block d' b (set_streams d' l (st s))) =
    if bool_decide (d' = d) then l else streams d (st s)) as Hs by (by destruct d, d').
  rewrite Hs. cbn. unfold holds_jb. case_bool_decide as Hd; cbn.
  - subst d'. unfold l. rewrite (tally_delete _ _ _ _ Hw). cbn. fold (holds_jb h). case_match; lia.
  - lia.
Qed.

(** Memory suffices. *)
Definition memory e : Prop :=
  (forall k b n, 0 < n -> r_ret (e k (Realloc b n)) <> 0) /\ (forall k, r_ret (e k Malloc) <> 0).

Lemma jb_open e d' handle devices flags config : memory e ->
  Keeps e jb_inv (open_stream d' handle devices flags config).
Proof.
  intros [He1 He2]. apply keeps_of_wp. intros s H. unfold open_stream, add_stream.
  wp_go; intros h; cbn [st tr]; autorewrite with fdbal; rewrite H.
  - exfalso. eapply He1; [|apply Z.eqb_eq in E0; rewrite Hr0 in E0; exact E0]. lia.
  - exfalso. apply (He2 (length ((tr s ++ [(JbOpenStream d' handle devices flags config, r)]) ++
      [(Realloc (block d' (st s)) (Z.of_nat (length (streams d' (st s))) + 1), r0)]))).
    rewrite <- Hr1. lia.
  - assert (forall b w, streams d (set_streams d' (streams d' (set_block d' b (st s)) ++ [w])
      (set_block d' b (st s))) = if bool_decide (d' = d) then streams d (st s) ++ [w]
      else streams d (st s)) as Hs by (by destruct d, d').
    rewrite Hs. cbn. rewrite E, andb_true_r. case_bool_decide; cbn; [|lia].
    rewrite tally_app. cbn. unfold holds_jb. cbn. lia.
  - cbn. rewrite E, andb_false_r. cbn. lia.
Qed.

Lemma step_jb ics e l x y : memory e -> wrap_step ics e l x y -> l <> LTeardown ->
  jb_inv (shared x) -> jb_inv (shared y).
Proof.
  intros He Hs Hl. destruct Hs; cbn [shared]; try apply keeps_inv; try done.
  - destruct op; cbn [run_op]; apply keeps_inv.
  - by apply jb_open.
Qed.
End Vendor.

(** Steps other than the end of the module *)
Definition live_step ics e (x y : wsys) : Prop := exists l, wrap_step ics e l x y /\ l <> LTeardown.

(** C28. Resource balance of the wrapper: until the module is closed, in every
    interleaving, calm or not, a vendor stream has been opened as often as it has been
    closed, plus once for every element of the array that holds it: none is leaked and
    none is closed twice.  Memory suffices. *)
Theorem vendor_streams_balanced ics e n d x : memory e ->
  rtc (live_step ics e) (wrap_init n) x ->
  forall h, @fd_balance _ (jb_calls d) h (tr (shared x)) =
    tally (holds_jb h) (streams d (st (shared x))).
Proof.
  intros He Hr. change (jb_inv d (shared x)).
  assert (jb_inv d (shared (wrap_init n))) as H0 by (by destruct d).
  induction Hr as [|x y z (l & Hs & Hl) _ IH]; [done|]. apply IH. by eapply step_jb.
Qed.

Lemma vendor_streams_balanced_witness : memory demo_audio /\
  @fd_balance _ (jb_calls DOut) 900 (tr demo_opened) = 1.
Proof.
  assert (memory demo_audio) as Hm by (split; [exact demo_realloc | intros k; cbn; lia]).
  split; [exact Hm|].
  pose proof (vendor_streams_balanced false demo_audio 2 DOut (WSys [Outside; Outside] demo_opened) Hm) as H.
  cbn [shared] in H. rewrite H; [by vm_compute|]. apply rtc_once. exists (LOpen DOut).
  split; [by apply (step_open _ _ _ 0) | done].
Defined.

(** ** Device numbers *)

(** An input device of the new numbering keeps its bits, sixteen places higher, while
    they fit; otherwise they stay where they are, beside the bit of the default device.
    The bit of the new numbering is gone, other devices are passed on as they are. *)
Theorem jb_devices_converted devices : 0 <= devices < 2 ^ 32 ->
  let low := Z.land devices (2 ^ 31 - 1) in
  0 <= jb_devices devices < 2 ^ 32 /\
  jb_devices devices =
    if Z.testbit devices 31 then if low <? 0x2000 then Z.shiftl low 16 else Z.lor low (2 ^ 16)
    else devices.
Proof.
  intros Hd. cbn zeta.
  assert ((Z.land devices (2 ^ 31) =? 0) = negb (Z.testbit devices 31)) as Hb.
  { destruct (Z.testbit devices 31) eqn:E; cbn.
    - apply Z.eqb_neq. intros H0. apply (f_equal (fun n => Z.testbit n 31)) in H0.
      rewrite Z.land_spec, E in H0. done.
    - apply Z.eqb_eq, Z.bits_inj'. intros k Hk. rewrite Z.land_spec, Z.bits_0, Z.pow2_bits_eqb by lia.
      destruct (Z.eqb_spec 31 k) as [<-|]; [by rewrite E | by rewrite andb_false_r]. }
  assert (0 <= Z.land devices (2 ^ 31 - 1) < 2 ^ 31) as Hlow.
  { replace (2 ^ 31 - 1) with (Z.ones 31) by done. rewrite Z.land_ones by lia. apply Z.mod_pos_bound. lia. }
  unfold jb_devices. rewrite Hb, negb_involutive. destruct (Z.testbit devices 31); [|done].
  set (low := Z.land devices (2 ^ 31 - 1)) in *. destruct (low <? 0x2000) eqn:E.
  - rewrite Z.shiftl_mul_pow2 by lia. unfold u32. rewrite Z.mod_small by lia. lia.
  - split; [|done]. split; [apply Z.lor_nonneg; lia|].
    apply Z.log2_lt_pow2; [|rewrite Z.log2_lor by lia; apply Z.max_lub_lt; [|done]].
    + assert (Z.lor low 65536 <> 0); [|pose proof (proj2 (Z.lor_nonneg low 65536)); lia].
      intros H0. apply Z.lor_eq_0_iff in H0. lia.
    + destruct (decide (low = 0)) as [-> | Hz]; [done|]. apply Z.log2_lt_pow2; lia.
Qed.

(** ** A transfer as steps, and its answer *)

(** The parts of a transfer, run one after the other by one thread, are the function. *)
Theorem transfer_simulated ics e s d stream bytes :
  rtc (any_step ics e) (WSys [Outside] s) (WSys [Outside] (transfer d stream bytes e s).2).
Proof.
  unfold transfer, mbind at 1, prog_bind at 1.
  pose proof (step_begin ics e [Outside] 0 s d stream bytes eq_refl eq_refl) as S1.
  destruct (transfer_begin d stream e s) as [[p|] s1]; cbn in S1; [|by apply rtc_once; eexists].
  unfold mbind, prog_bind. destruct (transfer_call d p bytes e s1) as [ret s2] eqn:E2.
  pose proof (step_call ics e [Begun d p bytes] 0 s1 d p bytes eq_refl) as S2. rewrite E2 in S2.
  pose proof (step_end ics e [Called d p] 0 s2 d p eq_refl) as S3.
  eapply rtc_l; [by eexists|]. eapply rtc_l; [by eexists|].
  destruct (transfer_end d p e s2) as [[] s3]. apply rtc_once. by eexists.
Qed.

(** A stream that is not in use, or not wrapped *)
Definition unused (d : direction) (stream : Z) v : Prop :=
  forall i, index_of stream (streams d v) = Some i -> is_free d i v = true.

Lemma op_simulated ics e s op stream : unused (op_direction op) stream (st s) ->
  block (op_direction op) (st s) <> 0 ->
  rtc (any_step ics e) (WSys [Outside] s)
    (WSys [Outside] ((o ← lookup_stream (op_direction op) stream;
      match o with Some i => run_op op i | None => mret tt end) e s).2).
Proof.
  intros Hu Hb. set (d := op_direction op) in *.
  pose proof (step_lock ics e [Outside] 0 s op stream eq_refl eq_refl) as S1. fold d in S1.
  assert (lookup_stream d stream e s = (index_of stream (streams d (st s)), s)) as E.
  { unfold lookup_stream, mbind, prog_bind, gets. by replace (block d (st s) =? 0) with false by lia. }
  unfold mbind, prog_bind. rewrite E in S1 |- *. cbn [fst snd] in S1. unfold unused in Hu.
  destruct (index_of stream (streams d (st s))) as [i|]; [|by apply rtc_once; eexists].
  eapply rtc_l; [by eexists|]. apply rtc_once. eexists.
  apply (step_run ics e [Waiting op i] 0); [done | by apply Hu].
Qed.

(** A locked function of a stream, run alone, is a sequence of steps; so is closing it. *)
Theorem locked_simulated ics e s d fn stream : unused d stream (st s) -> block d (st s) <> 0 ->
  rtc (any_step ics e) (WSys [Outside] s) (WSys [Outside] (stream_locked d fn stream e s).2) /\
  rtc (any_step ics e) (WSys [Outside] s) (WSys [Outside] (close_locked d stream e s).2).
Proof.
  intros Hu Hb. split; [|exact (op_simulated ics e s (LockedClose d) stream Hu Hb)].
  pose proof (op_simulated ics e s (LockedCall d fn) stream Hu Hb) as H.
  unfold stream_locked, mbind, prog_bind in *. cbn [op_direction run_op] in H.
  destruct (lookup_stream d stream e s) as [[i|] s1]; [|exact H].
  unfold mbind, prog_bind in H. by destruct (stream_call d fn i e s1).
Qed.

Lemma in_use_back (l : list wrapper_stream) i :
  alter (add_in_use (-1)) i (alter (add_in_use 1) i l) = l.
Proof.
  apply list_eq. intros j. destruct (decide (i = j)) as [<- | Hij].
  - rewrite !list_lookup_alter, !decide_True by done. destruct (l !! i) as [[a b n]|]; [|done].
    cbn. unfold add_in_use. cbn. do 2 f_equal. lia.
  - by rewrite !list_lookup_alter_ne.
Qed.

(** What a write answers: the error for a stream that is not wrapped; otherwise what the
    vendor answers, except that its 192 counts as everything. *)
Theorem wrapper_write_answers e s stream bytes : 0 <= bytes < 2 ^ 31 ->
  out_block (st s) <> 0 ->
  wp (wrapper_write stream bytes) e s (fun ret s' =>
    match index_of stream (out_streams (st s)) with
    | None => ret = - ENODEV /\ s' = s
    | Some i => exists w r, out_streams (st s) !! i = Some w /\
        tr s' = tr s ++ [(JbTransfer DOut (jb_stream w) bytes, r)] /\
        st s' = st s /\ ret = (if r_ret r =? 192 then bytes else r_ret r)
    end).
Proof.
  intros Hb Hne. destruct s as [v t]. cbn [st tr] in *.
  unfold wrapper_write, transfer, transfer_begin, lookup_stream.
  do 3 wp_step. apply wp_gets. wp_step. apply wp_gets. cbn [st block streams].
  replace (out_block v =? 0) with false by lia. cbn [andb]. apply wp_ret.
  destruct (index_of stream (out_streams v)) as [i|] eqn:Hi; [|by wp_go].
  apply index_of_lt, lookup_lt_is_Some in Hi as [w Hw].
  set (v1 := v <| out_streams := alter (add_in_use 1) i (out_streams v) |>).
  assert (at_pointer DOut (out_block v, i) v1 = Some (add_in_use 1 w)) as Hp.
  { unfold at_pointer. cbn. rewrite Z.eqb_refl, list_lookup_alter, decide_True, Hw by done. done. }
  unfold transfer_call, transfer_end. wp_go.
  all: try (change (at_pointer DOut (out_block v, i) v1 = None) in E; congruence).
  all: try (change (at_pointer DOut (out_block v, i) v1 = None) in E0; congruence).
  injection E as <-. change (at_pointer DOut (out_block v, i) v1 = Some w1) in E0.
  rewrite Hp in E0. injection E0 as <-.
  exists w, r. split; [done|]. split; [done|]. split.
  - cbn. rewrite in_use_back. by destruct v.
  - unfold transfer_result, wrapper_hal_is_resampling, to_int. rewrite Z.mod_small by lia.
    repeat case_match; lia.
Qed.

(** ** A start that fails *)

(** The vendor's library and its device are there. *)
Definition vendor_ok e : Prop :=
  (forall k path, r_ret (e k (Dlopen path)) <> 0) /\ (forall k h, r_ret (e k (Dlsym h)) <> 0) /\
  (forall k hmi, r_ret (e k (AudioHwDeviceOpen hmi)) = 0 /\ aux 0 (e k (AudioHwDeviceOpen hmi)) <> 0).

Lemma load_hal_ok e path f s : vendor_ok e ->
  wp (load_hal path f) e s (fun r s' => r.1 = 0 /\ r.2 <> 0 /\ exists h, st s' = f h (st s)).
Proof.
  intros (H1 & H2 & H3). unfold load_hal. wp_step. wp_step. subst r. wp_step. wp_step.
  specialize (H1 (length (tr s)) path). wp_step; [lia|]. wp_step. wp_step. subst r.
  wp_step; [exfalso; by apply (H2 _ _ (proj1 (Z.eqb_eq _ _) E0))|].
  wp_step. wp_step. subst r.
  match goal with |- context [e ?k (AudioHwDeviceOpen ?h)] => destruct (H3 k h) as [-> Hd] end.
  cbn [Z.eqb negb]. wp_step. cbn [fst snd st]. eauto.
Qed.

(** When memory for the device runs out, the vendor's library is unloaded but its device
    stays in [jb_hw_dev]: from then on the module cannot be opened. *)
Theorem failed_start_sticks e s : jb_hw_dev (st s) = 0 -> vendor_ok e ->
  (forall k, r_ret (e k Malloc) = 0) ->
  wp (wrapper_open false ;; wrapper_open false) e s (fun r s' => r = (- ENODEV, 0) /\
    dso_handle (st s') = 0).
Proof.
  intros Hdev Hv Hm. wp_step.
  apply wp_wand with (Q1 := fun _ s' => jb_hw_dev (st s') <> 0 /\ dso_handle (st s') = 0).
  - unfold wrapper_open. wp_step. wp_step. rewrite Hdev. cbn [Z.eqb negb]. wp_step.
    eapply wp_wand; [by apply load_hal_ok|]. cbn beta. intros [ret dev] s1 (Hr & Hd & h & Hs).
    cbn [fst snd] in *. subst ret. cbn [Z.eqb negb]. wp_step. wp_step. unfold new_device.
    wp_step. wp_step. subst r. rewrite Hm. cbn [Z.eqb]. by wp_go.
  - intros r s1 [Hj Hd]. unfold wrapper_open. wp_step. wp_step.
    replace (jb_hw_dev (st s1) =? 0) with false by lia. by wp_step.
Qed.
