(* ===== verification/MotoBox.v ===== *)
(** * The tools of [motobox] ([src/motobox])

    [motobox] is one program that runs the tool its first argument names.
    [getconfig] prints the configuration of the phone, [setconfig] asks the
    recovery system to install another one, [masterclear] asks it to wipe the
    phone, [ptf] prints properties, and [mkswap], [swapon], [swapoff] handle swap
    devices.  The tools have no variables that live on between calls.  The
    bootloader message is read and written by a library of the recovery system,
    which is not part of this tree: its two functions are calls. *)

From S2P Require Import Prelude.
From S2P Require Import CString.
From Stdlib Require Import Ascii.

(** ** Data *)

Inductive MOTOBOX_CONFIG_ERR_T :=
  | ERR_NONE | ERR_INVALID_PARAM | ERR_FILE_OPERATION | ERR_INVALID_FORMAT
  | ERR_REPEAT_ID | ERR_SET_RECOVERY | ERR_NEEDS_RECONFIG | ERR_NOT_MULTICONFIG.

#[export] Instance err_eq_dec : EqDecision MOTOBOX_CONFIG_ERR_T.
Proof. solve_decision. Defined.

Definition err_code (r : MOTOBOX_CONFIG_ERR_T) : Z :=
  match r with
  | ERR_NONE => 0 | ERR_INVALID_PARAM => 0x51 | ERR_FILE_OPERATION => 0x52
  | ERR_INVALID_FORMAT => 0x53 | ERR_REPEAT_ID => 0x54 | ERR_SET_RECOVERY => 0x55
  | ERR_NEEDS_RECONFIG => 0x56 | ERR_NOT_MULTICONFIG => 0x57
  end.

Definition is_none (r : MOTOBOX_CONFIG_ERR_T) : bool := bool_decide (r = ERR_NONE).

Definition CONFIG_ID_MAX : Z := 2147483647.
Definition CONFIG_ID_INVALID : Z := -2.
Definition CONFIG_ID_UNCONFIGURED : Z := -1.

Inductive open_flags := WriteCreate | WriteAppend | ReadOnly | ReadWrite.

#[export] Instance open_flags_eq_dec : EqDecision open_flags.
Proof. solve_decision. Defined.

Inductive moto_call :=
  | Lstat (path : string)
  | Mkdir (path : string) (mode : Z)
  | Chmod (path : string) (mode : Z)
  | OpenFile (path : string) (flags : open_flags) (mode : Z)
  | Write (fd : Z) (bytes : string)
  | Read (fd len : Z)
  | Close (fd : Z)
  | Unlink (path : string)
  | System (command : string)
  | Fopen (path : string)                  (* 0 for NULL *)
  | Fgets (fp size : Z)                    (* 0 for NULL, else the line *)
  | Fclose (fp : Z)
  | Opendir (path : string)                (* 0 for NULL, else the entries *)
  | Closedir
  | Sync
  | PropertyGet (key default : string)     (* the value *)
  | GetBootloaderMessage                   (* the bytes of [boot.command] *)
  | SetBootloaderMessage (command recovery : string)
  | Fstat (fd : Z)                         (* out-parameter: is a block device *)
  | GetSize (fd : Z)                       (* out-parameter: bytes, BLKGETSIZE64 *)
  | FbScreeninfo (fd : Z)                  (* out-parameters: the 13 fields *)
  | Swapon (device : string) (flags : Z)
  | Swapoff (device : string)
  | Printf (text : string)
  | PrintErr (text : string).

Abbreviation moto A := (prog moto_call unit A).

Definition ENOENT : Z := 2.

(** File modes, octal in the source *)
Definition mode_775 : Z := 509.
Definition mode_664 : Z := 436.
Definition mode_777 : Z := 511.
Definition mode_600 : Z := 384.

Definition CONFIG_FILE : string := "/system/multiconfig/config-id".
Definition MASTER_CONFIG_FILE : string := "/system/multiconfig/master-config-id".
Definition MULTICONFIG_FOLDER : string := "/system/multiconfig".
Definition CONFIG_FOLDERS : string := "/system/multiconfig/ap".

(** ** Validation of a config-id, the same lines in [getconfig] and [setconfig_main] *)

(** [while(confid[leadZeros] == '0') leadZeros++;] *)
Fixpoint skip_zeros (s : string) : string :=
  match s with
  | String c s' => if (c =? "0")%char then skip_zeros s' else s
  | "" => ""
  end.

Definition validate (confid : string) : bool :=
  let value := atoi confid in
  let buf : string := pretty value in
  let rest := if 1 <? strlen confid then skip_zeros confid else confid in
  if negb (str_eq buf rest) then false
  else negb ((value <? CONFIG_ID_UNCONFIGURED) || (CONFIG_ID_MAX <? value)).

(** ** [getconfig.c] *)

(** [snprintf (out, size, "%d", MOTOBOX_CONFIG_ID_INVALID)] *)
Definition invalid_text (size : nat) : string := str_take (size - 1) (pretty CONFIG_ID_INVALID).

(** The status and the text in [out]; the line that [fgets] read has at most 254
    bytes, and [out] has room for them in both callers. *)
Definition getconfig (size : nat) : moto (MOTOBOX_CONFIG_ERR_T * string) :=
  let invalid := invalid_text size in
  m ← call (Lstat MULTICONFIG_FOLDER);
  if r_ret m <? 0 then mret (ERR_NOT_MULTICONFIG, invalid) else
  c ← call (Lstat CONFIG_FILE);
  path ← (if r_ret c <? 0 then
            x ← call (Lstat MASTER_CONFIG_FILE);
            mret (if r_ret x <? 0 then None else Some MASTER_CONFIG_FILE)
          else mret (Some CONFIG_FILE));
  match path with
  | None => mret (ERR_FILE_OPERATION, invalid)
  | Some file_path_buffer =>
      f ← call (Fopen file_path_buffer);
      let fp := r_ret f in
      if fp =? 0 then mret (ERR_FILE_OPERATION, invalid) else
      l ← call (Fgets fp 255);
      call (Fclose fp) ;;
      if r_ret l =? 0 then mret (ERR_FILE_OPERATION, invalid) else
      let confid := c_str (str_take 254 (r_data l)) in
      if validate confid then mret (ERR_NONE, confid)
      else mret (ERR_INVALID_FORMAT, invalid)
  end.

(** [snprintf(buffer, size, "%s ", d_name)] at offset [off] of an array of [size]
    bytes: the bytes of the text that fit in [size] with a NUL; [None] is a
    write past the end of the array. *)
Definition put_name (size off : nat) (d_name : string) : option string :=
  let text := str_take (size - 1) (d_name +:+ " ") in
  if (off + String.length text + 1 <=? size)%nat then Some text else None.

Definition skipped_entry (d_name : string) : bool :=
  str_eq d_name "." || str_eq d_name ".." || str_eq d_name "backup".

(** The loop over the directory: the text in the array after [out], which is as
    long as [off] says. *)
Fixpoint list_entries (size off : nat) (names : list string) : option string :=
  match names with
  | [] => Some ""
  | d_name :: names =>
      if skipped_entry d_name then list_entries size off names
      else
        text ← put_name size off d_name;
        rest ← list_entries size (off + (String.length d_name + 1)) names;
        Some (text +:+ rest)
  end.

(** [None] is a write outside the array, or an array that was not written at all
    because there is no entry. *)
Definition list_configids (size : nat) : moto (MOTOBOX_CONFIG_ERR_T * option string) :=
  d ← call (Opendir CONFIG_FOLDERS);
  if r_ret d =? 0 then mret (ERR_NOT_MULTICONFIG, Some (invalid_text size)) else
  let names := dir_entries d in
  let out := if forallb skipped_entry names then None else list_entries size 0 names in
  call Closedir ;;
  mret (ERR_NONE, out).

Definition getconfig_main (argv : list string) : moto MOTOBOX_CONFIG_ERR_T :=
  r ← match argv with
      | [_; a] => if str_eq a "-list" then list_configids 255
                  else call (PrintErr "use") ;;
                       mret (ERR_INVALID_PARAM, Some (invalid_text 255))
      | [_] => x ← getconfig 255; mret (x.1, Some x.2)
      | _ => call (PrintErr "use") ;; mret (ERR_INVALID_PARAM, Some (invalid_text 255))
      end;
  call (Printf (default "" r.2 +:+ newline)) ;;
  mret r.1.

(** ** [setconfig.c] *)

Definition NO_RECOVERY_PARAM : string := "-norecovery".
Definition MULTICONFIG_COMMAND : string := "--update_package=CACHE:update_config.zip".
Definition RECOVERY_COMMAND : string :=
  "recovery" +:+ newline +:+ "--update_package=CACHE:update_config.zip".
Definition COPY_BOTA_PACKAGE : string :=
  "/system/bin/cp /system/multiconfig/bota/update_config.zip /cache/".
Definition BOTA_PACKAGE : string := "/system/multiconfig/bota/update_config.zip".
Definition CACHE_BOTA_PACKAGE : string := "/cache/update_config.zip".
Definition REMOVE_BOTA_PACKAGE_FROM_CACHE : string := "/system/bin/rm /cache/update_config.zip".
Definition recovery_folder : string := "/cache/recovery".
Definition command_file : string := "/cache/recovery/command".
Definition config_file : string := "/cache/recovery/new-config-id".
Definition noerasefile : string := "/cache/recovery/noerasedata".

Definition create_recovery_folder_if_neccessary : moto MOTOBOX_CONFIG_ERR_T :=
  s ← call (Lstat recovery_folder);
  if r_ret s <? 0 then
    if r_errno s =? ENOENT then
      m ← call (Mkdir recovery_folder mode_775);
      if r_ret m <? 0 then mret ERR_FILE_OPERATION else
      c ← call (Chmod recovery_folder mode_775);
      if r_ret c <? 0 then mret ERR_FILE_OPERATION else mret ERR_NONE
    else mret ERR_FILE_OPERATION
  else mret ERR_NONE.

(** Steps 2 and 3 of [set_cache_command] and [set_wipe_command], which differ in
    the mode of the file, in a [chmod] ([after]) and in where they report errors
    ([say]; log output is not modelled). *)
Definition ensure_command_file (mode : Z) (say : string -> moto unit) (after : moto unit)
    : moto bool :=
  s ← call (Lstat command_file);
  if r_ret s <? 0 then
    if r_errno s =? ENOENT then
      f ← call (OpenFile command_file WriteCreate mode);
      if r_ret f <? 0 then say ("cann't create " +:+ command_file) ;; mret false
      else call (Close (r_ret f)) ;; after ;; mret true
    else say ("cann't stat " +:+ command_file) ;; mret false
  else mret true.

(** [open] with O_APPEND and [write]; the descriptor is not closed. *)
Definition append_command (say : string -> moto unit) (command_buf : string) : moto bool :=
  f ← call (OpenFile command_file WriteAppend 0);
  let fd := r_ret f in
  if fd <? 0 then
    say ("cann't open " +:+ command_file +:+ " with O_WRONLY |O_APPEND") ;; mret false
  else
    w ← call (Write fd command_buf);
    if negb (r_ret w =? strlen command_buf) then
      say ("write " +:+ command_buf +:+ " error ") ;; mret false
    else mret true.

Definition silent (_ : string) : moto unit := mret tt.
Definition print (text : string) : moto unit := call (Printf text) ;; mret tt.

Definition set_cache_command : moto MOTOBOX_CONFIG_ERR_T :=
  r ← create_recovery_folder_if_neccessary;
  if negb (is_none r) then mret ERR_FILE_OPERATION else
  there ← ensure_command_file mode_664 silent (call (Chmod command_file mode_664) ;; mret tt);
  if negb there then mret ERR_FILE_OPERATION else
  done ← append_command silent (str_take 254 MULTICONFIG_COMMAND);
  mret (if done : bool then ERR_NONE else ERR_FILE_OPERATION).

(** [boot.command] after [get_bootloader_message]; the buffer was zeroed before. *)
Definition boot_command (r : resp) : string := c_str (r_data r).

(** [boot.command[0] != 0 && boot.command[0] != 255] *)
Definition boot_busy (r : resp) : bool :=
  negb (char_at (r_data r) 0 =? NUL)%char && negb (char_at (r_data r) 0 =? "255")%char.

Definition set_recovery : moto MOTOBOX_CONFIG_ERR_T :=
  g ← call GetBootloaderMessage;
  if negb (r_ret g =? 0) then mret ERR_SET_RECOVERY else
  if boot_busy g then
    if str_eq (boot_command g) "boot-recovery" then
      c ← set_cache_command;
      mret (if is_none c then ERR_NONE else ERR_SET_RECOVERY)
    else mret ERR_SET_RECOVERY
  else
    b ← call (SetBootloaderMessage "boot-recovery" (str_take 254 RECOVERY_COMMAND));
    mret (if r_ret b =? 0 then ERR_NONE else ERR_SET_RECOVERY).

Definition set_config (confid : string) : moto MOTOBOX_CONFIG_ERR_T :=
  r ← create_recovery_folder_if_neccessary;
  if negb (is_none r) then mret ERR_FILE_OPERATION else
  s ← call (Lstat config_file);
  removed ← (if r_ret s =? 0 then
               u ← call (Unlink config_file); mret (r_ret u =? 0)
             else mret true);
  if negb (removed : bool) then mret ERR_FILE_OPERATION else
  f ← call (OpenFile config_file WriteCreate mode_664);
  let fd := r_ret f in
  if fd <? 0 then mret ERR_FILE_OPERATION else
  w ← call (Write fd confid);
  call (Close fd) ;;
  call (Chmod config_file mode_664) ;;
  mret (if r_ret w =? strlen confid then ERR_NONE else ERR_FILE_OPERATION).

(** [WEXITSTATUS] *)
Definition exit_status (r : Z) : Z := Z.land (Z.shiftr r 8) 255.

Definition copy_bota_package_to_cache : moto MOTOBOX_CONFIG_ERR_T :=
  s ← call (Lstat BOTA_PACKAGE);
  if negb (r_ret s =? 0) then mret ERR_FILE_OPERATION else
  r ← call (System COPY_BOTA_PACKAGE);
  mret (if exit_status (r_ret r) =? 0 then ERR_NONE else ERR_FILE_OPERATION).

Definition remove_bota_package_from_cache : moto unit :=
  s ← call (Lstat CACHE_BOTA_PACKAGE);
  if negb (r_ret s =? 0) then mret tt
  else call (System REMOVE_BOTA_PACKAGE_FROM_CACHE) ;; mret tt.

Definition set_no_erase_data_flag : moto unit :=
  f ← call (OpenFile noerasefile WriteCreate mode_664);
  let fd := r_ret f in
  if fd <? 0 then mret tt else
  w ← call (Write fd "noerasedata");
  if negb (r_ret w =? strlen "noerasedata") then call (Close fd) ;; mret tt
  else call (Close fd) ;; call (Chmod noerasefile mode_664) ;; mret tt.

(** [printf("%d\n", status); return status;] *)
Definition report (status : MOTOBOX_CONFIG_ERR_T) : moto MOTOBOX_CONFIG_ERR_T :=
  call (Printf (pretty (err_code status) +:+ newline)) ;; mret status.

(** The options and the config-id of the command line *)
Record setconfig_args := SetconfigArgs {
  isSetRecovery : bool; dont_erase : bool; confid : string }.

(** [argv[1]] and [argv[2]] of an invocation with two or three arguments *)
Definition parse_args (args : list string) : option setconfig_args :=
  match args with
  | [c] => Some (SetconfigArgs true false c)
  | [o; c] =>
      if str_eq NO_RECOVERY_PARAM o then Some (SetconfigArgs false false c)
      else if str_eq "-no_erase_data" o then Some (SetconfigArgs true true c)
      else None
  | _ => None
  end.

(** The request, and the way back when it fails *)
Definition request_or_revert (a : setconfig_args) (old_confid : option string)
    : moto MOTOBOX_CONFIG_ERR_T :=
  status ← (if isSetRecovery a then set_recovery else set_cache_command);
  if is_none status then
    when (dont_erase a) set_no_erase_data_flag ;; call Sync ;; mret status
  else
    match old_confid with
    | Some old =>
        r ← set_config old; mret (if is_none r then status else ERR_NEEDS_RECONFIG)
    | None => mret status
    end.

(** From the copy of the package on *)
Definition install_config (a : setconfig_args) (old_confid : option string)
    : moto MOTOBOX_CONFIG_ERR_T :=
  status ← copy_bota_package_to_cache;
  if negb (is_none status) then report status else
  status ← set_config (confid a);
  status ← (if is_none status then request_or_revert a old_confid else mret status);
  when (negb (is_none status)) remove_bota_package_from_cache ;;
  report status.

Definition setconfig_main (argv : list string) : moto MOTOBOX_CONFIG_ERR_T :=
  let args := tail argv in
  if ((length argv =? 3) || (length argv =? 2))%nat then
    m ← call (Lstat MULTICONFIG_FOLDER);
    if r_ret m <? 0 then report ERR_NOT_MULTICONFIG else
    match parse_args args with
    | None => report ERR_INVALID_PARAM
    | Some a =>
        if negb (validate (confid a)) then report ERR_INVALID_FORMAT else
        g ← getconfig 255;
        install_config a (if is_none g.1 then Some g.2 else None)
    end
  else report ERR_INVALID_PARAM.

(** ** [masterclear.c] *)

Definition shredding_enabled : moto bool :=
  a ← call (PropertyGet "ro.mot.master_clear.shredsd" "false");
  b ← call (PropertyGet "ro.mot.master_clear.shredsd.dev" "false");
  mret (str_eq (c_str (r_data a)) "true" && str_eq (c_str (r_data b)) "true").

Definition wipe_lines (shred : bool) : string :=
  if shred then "--wipe_data" +:+ newline +:+ "--wipe_sdcard" +:+ newline
                +:+ "--silent" +:+ newline
  else "--wipe_data" +:+ newline.

(** 0 or -1 *)
Definition set_wipe_command : moto Z :=
  shred ← shredding_enabled;
  s ← call (Lstat recovery_folder);
  folder ← (if r_ret s <? 0 then
              if r_errno s =? ENOENT then
                m ← call (Mkdir recovery_folder mode_777);
                if r_ret m <? 0 then print "cann't mkdir /cache/recovery" ;; mret false
                else mret true
              else print "cann't stat /cache/recovery" ;; mret false
            else mret true);
  if negb (folder : bool) then mret (-1) else
  there ← ensure_command_file mode_777 print (mret tt);
  if negb there then mret (-1) else
  done ← append_command print (wipe_lines shred);
  mret (if done : bool then 0 else -1).

Definition masterclear_main : moto Z :=
  shred ← shredding_enabled;
  g ← call GetBootloaderMessage;
  status ← (if boot_busy g then
              if str_eq (boot_command g) "boot-recovery" then set_wipe_command
              else mret (-1)
            else
              b ← call (SetBootloaderMessage "boot-recovery"
                          ("recovery" +:+ newline +:+ wipe_lines shred));
              mret (if r_ret b =? 0 then 0 else -1));
  if negb (status =? 0) then mret (-1) else call Sync ;; mret 0.

(** ** [ptf.c] *)

Definition fb_fields : list string :=
  ["xres"; "yres"; "xres_virtual"; "yres_virtual"; "xoffset"; "yoffset"; "bits_per_pixel";
   "grayscale"; "nonstd"; "activate"; "height"; "width"; "rotate"].

(** [sprintf] into [device[20]]; [None] is a write past its end. *)
Definition fb_device (disp : string) : option string :=
  let device := "/dev/graphics/fb" +:+ disp in
  if (String.length device <? 20)%nat then Some device else None.

(** [false] is a write outside an array. *)
Definition display_properties (disp : string) : moto bool :=
  if 2 <? strlen disp then
    call (Printf ("ERROR: invalid dispprops argument: " +:+ disp +:+ newline)) ;; mret true
  else
    match fb_device disp with
    | None => mret false
    | Some device =>
        f ← call (OpenFile device ReadOnly 0);
        let fb := r_ret f in
        if fb <? 0 then
          call (Printf ("ERROR: cannot open device: " +:+ device +:+ newline)) ;; mret true
        else
          v ← call (FbScreeninfo fb);
          call (Close fb) ;;
          if r_ret v <? 0 then
            call (Printf ("ERROR: ioctl returned: " +:+ pretty (r_ret v) +:+ newline)) ;;
            mret true
          else
            for_each (zip fb_fields (r_aux v)) (fun x =>
              call (Printf (x.1 +:+ ":" +:+ pretty (x.2 mod 4294967296) +:+ newline)) ;;
              mret tt) ;;
            mret true
    end.

(** [version] is PRODUCT_VERSION_STR of the build. *)
Definition ptf_main (version : string) (argv : list string) : moto Z :=
  match argv with
  | [] | [_] => call (Printf ("argument expected" +:+ newline)) ;; mret 0
  | _ :: cmd :: args =>
      if str_eq cmd "swversion" then call (Printf (version +:+ newline)) ;; mret 0
      else if str_eq cmd "dispprops" then
        display_properties (match args with [] => "0" | disp :: _ => disp end) ;; mret 0
      else call (Printf ("ERROR: unexpected command: " +:+ cmd +:+ newline)) ;; mret 0
  end.

(** ** The swap tools *)

Definition SWAP_FLAG_PREFER : Z := 0x8000.
Definition SWAP_FLAG_PRIO_MASK : Z := 0x7fff.

(** What [strtoul] leaves of a string: the text at [endptr], or the whole string
    when there is no number. *)
Definition strtoul_end (s : string) : string :=
  let t := match skip_space s with
           | String c r => if (c =? "-")%char || (c =? "+")%char then r else String c r
           | "" => ""
           end in
  if (String.length (skip_digits t) =? String.length t)%nat then s else skip_digits t.

Definition strtoul (s : string) : Z :=
  match skip_space s with
  | String c r =>
      let n := Z.min 4294967295 in
      if (c =? "-")%char then u32 (- n (digits_val 0 r))
      else if (c =? "+")%char then n (digits_val 0 r)
      else n (digits_val 0 (String c r))
  | "" => 0
  end.

Definition print_usage : moto unit := call (PrintErr "Usage: swapon") ;; mret tt.

Definition enable_swap (swapdevice : string) (swapflags : Z) : moto Z :=
  r ← call (Swapon swapdevice swapflags);
  if r_ret r <? 0 then call (PrintErr "Error: failed to enable swap") ;; mret 1 else mret 0.

Definition swapon_main (argv : list string) : moto Z :=
  match argv with
  | [_; swapdevice] => enable_swap swapdevice 0
  | [_; opt; prio; swapdevice] =>
      if strn_eq 4 opt "-p" then print_usage ;; mret 1 else
      let endptr := strtoul_end prio in
      if str_eq endptr prio || str_eq endptr "" then print_usage ;; mret 1 else
      enable_swap swapdevice
        (Z.lor SWAP_FLAG_PREFER (Z.land (strtoul prio) SWAP_FLAG_PRIO_MASK))
  | _ => print_usage ;; mret 1
  end.

Definition swapoff_main (argv : list string) : moto Z :=
  match argv with
  | [_; device] =>
      r ← call (Swapoff device);
      if r_ret r <? 0 then call (PrintErr "Error: failed to disable swap") ;; mret 1 else mret 0
  | _ => call (PrintErr "Usage: swapoff swapdevice") ;; mret 1
  end.

Definition PAGE_SIZE : Z := 4096.

(** [union swap_header] as its bytes: boot bits, version, last page, no bad
    pages, the UUID, zeros, and the magic at the end of the page. *)
Definition le32 (x : Z) : list Z :=
  [x mod 256; x / 256 mod 256; x / 65536 mod 256; x / 16777216 mod 256].

Definition swap_uuid (random : list Z) : list Z :=
  let u := take 16 (random ++ replicate 16 0) in
  let u := <[6%nat := Z.lor (Z.land (default 0 (u !! 6%nat)) 15) 64]> u in
  <[8%nat := Z.lor (Z.land (default 0 (u !! 8%nat)) 63) 128]> u.

Definition swap_header (last_page : Z) (uuid : list Z) : list Z :=
  replicate 1024 0 ++ le32 1 ++ le32 last_page ++ le32 0 ++ uuid
  ++ replicate 3034 0 ++ byte_list "SWAPSPACE2".

Definition bytes_text (l : list Z) : string :=
  String.string_of_list_ascii ((fun b => ascii_of_N (Z.to_N b)) <$> l).

(** One device: 1 for an error *)
Definition mkswap_one (device : string) : moto Z :=
  f ← call (OpenFile device ReadWrite mode_600);
  let dev_fd := r_ret f in
  if dev_fd <? 0 then call (PrintErr "Error: cannot open") ;; mret 1 else
  st ← call (Fstat dev_fd);
  code ← (if r_ret st <? 0 then call (PrintErr "Error: cannot stat") ;; mret 1
          else if aux 0 st =? 0 then call (PrintErr "Error: not a block device") ;; mret 1
          else
            z ← call (GetSize dev_fd);
            if r_ret z <? 0 then call (PrintErr "Error: ioctl failed") ;; mret 1 else
            rf ← call (OpenFile "/dev/urandom" ReadOnly 0);
            random ← (if r_ret rf <? 0 then
                        call (PrintErr "Warning: cannot open random source") ;; mret []
                      else
                        x ← call (Read (r_ret rf) 16);
                        call (Close (r_ret rf)) ;;
                        mret (byte_list (received 16 x)));
            let hdr := swap_header (u32 (u32 (aux 0 z) / PAGE_SIZE - 1)) (swap_uuid random) in
            w ← call (Write dev_fd (bytes_text hdr));
            if r_ret w <? PAGE_SIZE then call (PrintErr "Error: write failed") ;; mret 1
            else mret 0);
  call (Close dev_fd) ;;
  mret code.

Fixpoint mkswap_each (devices : list string) (exit_code : Z) : moto Z :=
  match devices with
  | [] => mret exit_code
  | d :: devices =>
      c ← mkswap_one d;
      mkswap_each devices (if c =? 0 then exit_code else 1)
  end.

Definition mkswap_main (argv : list string) : moto Z :=
  match argv with
  | [] | [_] => call (PrintErr "Usage: mkswap <blockdev>") ;; mret 1
  | _ :: devices => mkswap_each devices 0
  end.

(** ** [motobox.c] *)

(** The text after the last slash, or the whole string *)
Fixpoint base_name (s : string) : string :=
  match s with
  | "" => ""
  | String c r => if contains s "/" then base_name r else s
  end.

(** The tools of [tools.h]; [devutils] is HAVE_DEVUTILS of the build. *)
Definition tool_names (devutils : bool) : list string :=
  ["["; "test"; "getconfig"; "ptf"] ++ (if devutils then ["setconfig"; "masterclear"] else []).

(** How an invocation ends: a tool runs with its arguments, the name of the
    program is printed, or there is no such tool. *)
Inductive invocation := RunTool (name : string) (argv : list string) | Banner | NoSuchTool
  | OutOfFuel.

(** [main] and [motobox_main] call each other; [argv] has at least one element. *)
Fixpoint motobox_main (fuel : nat) (devutils : bool) (argv : list string) : invocation :=
  match fuel with
  | O => OutOfFuel
  | S fuel =>
      let '(name, argv) :=
        match argv with
        | a0 :: a1 :: rest =>
            if (char_at a1 0 =? "@")%char then (str_drop 1 a1, a1 :: rest)
            else (base_name a0, argv)
        | [a0] => (base_name a0, argv)
        | [] => ("", argv)
        end in
      if str_eq name "motobox" then
        match argv with
        | _ :: a1 :: rest => motobox_main fuel devutils (a1 :: rest)
        | _ => Banner
        end
      else if bool_decide (name ∈ tool_names devutils) then RunTool name argv
      else NoSuchTool
  end.
