(* ===== verification/MotoThms.v ===== *)
(** * The tools of [motobox]: configurations, wiping, dispatch

    Which config-ids are accepted, what [setconfig] and [masterclear] have done
    when they report success or failure, and that every invocation of [motobox]
    comes to a tool. *)

From S2P Require Import Prelude.
From S2P Require Import CString.
From S2P Require Import MotoBox.
From Stdlib Require Import Ascii.


(** [atoi] of a string that starts with a digit *)
Lemma atoi_digit c t : isdigit c = true ->
  atoi (String c t) = clamp INT_MIN LONG_MAX (digits_val 0 (String c t)).
Proof.
  intros Hc. destruct (digit_plain c Hc) as (Hs & Hm & Hp).
  unfold atoi, strtol. cbn [skip_space]. by rewrite Hs, Hm, Hp.
Qed.

Fixpoint zeros (k : nat) : string := match k with O => "" | S k => String "0" (zeros k) end.

Lemma digits_val_zeros k s : digits_val 0 (zeros k +:+ s) = digits_val 0 s.
Proof. induction k as [|k IH]; [done|]. cbn. exact IH. Qed.

Lemma skip_zeros_split s : exists k, s = zeros k +:+ skip_zeros s.
Proof.
  induction s as [|c s [k IH]]; [by exists 0%nat|]. cbn [skip_zeros].
  destruct (Ascii.eqb_spec c "0"); [|by exists 0%nat].
  exists (S k). cbn. by f_equal.
Qed.

Lemma skip_zeros_app k s : skip_zeros (zeros k +:+ s) = skip_zeros s.
Proof. induction k as [|k IH]; [done|]. cbn. exact IH. Qed.

Lemma skip_zeros_nonzero c t : digit_val c <> 0 -> skip_zeros (String c t) = String c t.
Proof. intros Hc. cbn. by destruct (Ascii.eqb_spec c "0") as [-> |]. Qed.

Lemma skip_zeros_no_zero s t : skip_zeros s <> String "0" t.
Proof.
  induction s as [|c s IH]; [done|]. cbn [skip_zeros].
  destruct (Ascii.eqb_spec c "0"); [done|]. congruence.
Qed.

(** ** Config-ids *)

(** The numeral of a number in the range of [int], after any zeros *)
Lemma atoi_zeros_pretty k v : 0 < v <= INT_MAX -> atoi (zeros k +:+ pretty v) = v.
Proof.
  intros [Hv Hm]. destruct (pretty_positive v Hv) as (c & t & -> & Hc & _ & Hd).
  assert (exists c' t', zeros k +:+ String c t = String c' t' /\ isdigit c' = true)
    as (c' & t' & E & Hc').
  { destruct k as [|k]; cbn; eauto. }
  rewrite E, atoi_digit, <- E, digits_val_zeros, Hd by done.
  unfold clamp, INT_MIN, LONG_MAX, INT_MAX in *. lia.
Qed.

Lemma validate_zeros_pretty k v : 0 < v <= INT_MAX -> validate (zeros k +:+ pretty v) = true.
Proof.
  intros Hv. unfold validate. rewrite atoi_zeros_pretty by done.
  destruct (pretty_positive v ltac:(lia)) as (c & t & Ep & _ & Hz & _).
  assert ((if 1 <? strlen (zeros k +:+ pretty v) then skip_zeros (zeros k +:+ pretty v)
           else zeros k +:+ pretty v) = pretty v) as ->.
  { destruct (Z.ltb_spec 1 (strlen (zeros k +:+ pretty v))) as [_|Hs].
    - by rewrite skip_zeros_app, Ep, skip_zeros_nonzero.
    - destruct k as [|k]; [done|]. unfold strlen in Hs. rewrite Ep in Hs.
      cbn in Hs. rewrite str_length_app in Hs. cbn in Hs. lia. }
  rewrite str_eq_refl. unfold CONFIG_ID_UNCONFIGURED, CONFIG_ID_MAX, INT_MAX in *. cbn. lia.
Qed.

(** What was skipped before the text that is compared *)
Lemma compared_split c : exists k,
  c = zeros k +:+ (if 1 <? strlen c then skip_zeros c else c).
Proof. destruct (1 <? strlen c); [apply skip_zeros_split | by exists 0%nat]. Qed.

(** The config-ids that [setconfig] and [getconfig] accept are exactly the
    decimal numerals of 1 to 2147483647 with any number of leading zeros, the
    single character 0, and -1 for an unconfigured phone; everything else, such
    as trailing characters, signs, blanks, values out of range, a line end, or a
    zero written with more than one digit, is refused. *)
Theorem config_id_accepted c :
  validate c = true <->
  c = "0" \/ c = "-1" \/ exists k v, 0 < v <= INT_MAX /\ c = zeros k +:+ pretty v.
Proof.
  split; [|intros [-> | [-> | (k & v & Hv & ->)]]; [done | done | by apply validate_zeros_pretty]].
  unfold validate. cbv zeta. destruct (str_eq _ _) eqn:E; [|done]. apply str_eq_true in E.
  destruct (compared_split c) as [k Hk]. rewrite <- E in Hk. cbn [negb].
  pose proof (strtol_bounds c) as Hb. change (strtol c) with (atoi c) in Hb.
  unfold CONFIG_ID_UNCONFIGURED. intros Hr.
  assert (atoi c = -1 \/ atoi c = 0 \/ 0 < atoi c) as [Hv | [Hv | Hv]] by lia.
  - right. left. rewrite Hv in Hk. destruct k as [|k]; [done|].
    rewrite Hk in Hv. change (zeros (S k)) with (String "0" (zeros k)) in Hv.
    cbn [String.append] in Hv. rewrite atoi_digit in Hv by done.
    pose proof (digits_val_nonneg (String "0" (zeros k +:+ pretty (-1))) 0 ltac:(lia)).
    unfold clamp, LONG_MAX in Hv. lia.
  - left. rewrite Hv in E. destruct (1 <? strlen c); [|done].
    by destruct (skip_zeros_no_zero c "").
  - right. right. exists k, (atoi c). split; [lia|done].
Qed.

(** ** What the recovery system is asked to do *)

(** A call that completes a request to install [update_config.zip]: a bootloader
    message that was stored, or the whole command line appended. *)
Definition asks (x : moto_call * resp) : bool :=
  match x.1 with
  | SetBootloaderMessage _ _ => r_ret x.2 =? 0
  | Write _ b => str_eq b MULTICONFIG_COMMAND && (r_ret x.2 =? strlen b)
  | _ => false
  end.

Definition asked (t : list (moto_call * resp)) : bool := existsb asks t.

Lemma asked_app t1 t2 : asked (t1 ++ t2) = asked t1 || asked t2.
Proof. apply existsb_app. Qed.

Lemma asked_cons x t : asked (x :: t) = asks x || asked t.
Proof. done. Qed.

(** A program that adds [t] to the trace, with a property of its result and of [t] *)
Definition adds {A} (m : prog moto_call unit A) (P : A -> list (moto_call * resp) -> Prop) : Prop :=
  forall e s, wp m e s (fun r s' => exists t, tr s' = tr s ++ t /\ P r t).

Lemma adds_bind {A B} (m : prog moto_call unit A) (k : A -> prog moto_call unit B) P Q :
  adds m P -> (forall a t, P a t -> adds (k a) (fun b t' => Q b (t ++ t'))) ->
  adds (mbind k m) Q.
Proof.
  intros Hm Hk e s. apply wp_bind. eapply wp_wand; [apply Hm|].
  intros a s' (t & Ht & HP). eapply wp_wand; [by apply (Hk a t HP)|].
  intros b s'' (t' & Ht' & HQ). exists (t ++ t'). by rewrite Ht', Ht, app_assoc.
Qed.

Lemma adds_ret {A} (a : A) (P : A -> list (moto_call * resp) -> Prop) : P a [] -> adds (mret a) P.
Proof. intros H e s. apply wp_ret. exists []. by rewrite app_nil_r. Qed.

Lemma adds_ret_bind {A B} (a : A) (k : A -> prog moto_call unit B) Q :
  adds (k a) Q -> adds (mbind k (mret a)) Q.
Proof. done. Qed.

Lemma adds_call c (P : resp -> list (moto_call * resp) -> Prop) :
  (forall r, P r [(c, r)]) -> adds (call c) P.
Proof. intros H e s. apply wp_call. intros r _. by exists [(c, r)]. Qed.

Lemma adds_call_bind {B} c (k : resp -> prog moto_call unit B) Q :
  (forall r, adds (k r) (fun b t' => Q b ((c, r) :: t'))) -> adds (mbind k (call c)) Q.
Proof.
  intros H. apply (adds_bind _ _ (fun r t => t = [(c, r)])); [by apply adds_call|].
  intros r t ->. apply H.
Qed.

Lemma adds_weaken {A} (m : prog moto_call unit A) (P Q : A -> list (moto_call * resp) -> Prop) :
  adds m P -> (forall a t, P a t -> Q a t) -> adds m Q.
Proof. intros Hm H e s. eapply wp_wand; [apply Hm|]. intros a s' (t & Ht & HP). eauto. Qed.

Lemma adds_and {A} (m : prog moto_call unit A) (P Q : A -> list (moto_call * resp) -> Prop) :
  adds m P -> adds m Q -> adds m (fun a t => P a t /\ Q a t).
Proof.
  intros HP HQ e s. destruct (HP e s) as (t & Ht & H1). destruct (HQ e s) as (t' & Ht' & H2).
  exists t. rewrite Ht in Ht'. apply app_inv_head in Ht' as ->. done.
Qed.

(** Programs that ask for nothing *)
Definition no_request {A} (_ : A) (t : list (moto_call * resp)) : Prop := asked t = false.

(** Walk over a program: a call adds itself, a function adds what the database
    says of it. *)
Create HintDb addsdb.

Ltac adds_step :=
  lazymatch goal with
  | |- adds (mbind _ (call _)) _ => apply adds_call_bind; intros ?
  | |- adds (mbind _ (mret _)) _ => apply adds_ret_bind; cbn [negb Z.eqb]
  | |- adds (mbind _ (if ?b then _ else _)) _ => let E := fresh "E" in destruct b eqn:E
  | |- adds (mbind _ (mbind _ _)) _ => fail
  | |- adds (mret _) _ => apply adds_ret
  | |- adds (if ?b then _ else _) _ => let E := fresh "E" in destruct b eqn:E
  | |- adds (when ?b _) _ => unfold when
  | |- adds (match ?x with _ => _ end) _ => let E := fresh "E" in destruct x eqn:E
  end.

Lemma adds_assoc {A B D} (m : prog moto_call unit A) (k : A -> prog moto_call unit B)
    (h : B -> prog moto_call unit D) Q :
  adds (a ← m; b ← k a; h b) Q -> adds (b ← (a ← m; k a); h b) Q.
Proof.
  intros H e s. specialize (H e s). unfold wp, mbind, prog_bind in *.
  destruct (m e s) as [a s1]. done.
Qed.

Ltac adds_go :=
  repeat first
    [ adds_step
    | lazymatch goal with |- adds (mbind _ (mbind _ _)) _ => apply adds_assoc end ].

Lemma create_folder_quiet : adds create_recovery_folder_if_neccessary no_request.
Proof. unfold create_recovery_folder_if_neccessary. adds_go; done. Qed.

(** A configuration that is read was accepted. *)
Lemma getconfig_spec size :
  adds (getconfig size) (fun r t => asked t = false /\ (r.1 = ERR_NONE -> validate r.2 = true)).
Proof. unfold getconfig. cbv zeta. adds_go; done. Qed.

(** The bytes went to a file that was opened for them. *)
Definition wrote (path : string) (bytes : string) (t : list (moto_call * resp)) : Prop :=
  exists t1 flags mode f w t2,
    t = t1 ++ (OpenFile path flags mode, f) :: (Write (r_ret f) bytes, w) :: t2
    /\ 0 <= r_ret f /\ r_ret w = strlen bytes.

Lemma wrote_here path flags mode f bytes w t :
  0 <= r_ret f -> r_ret w = strlen bytes ->
  wrote path bytes ((OpenFile path flags mode, f) :: (Write (r_ret f) bytes, w) :: t).
Proof. intros. by exists [], flags, mode, f, w, t. Qed.

Lemma wrote_cons path bytes x t : wrote path bytes t -> wrote path bytes (x :: t).
Proof.
  intros (t1 & fl & md & f & w & t2 & -> & ?). by exists (x :: t1), fl, md, f, w, t2.
Qed.

Lemma wrote_app path bytes t1 t2 : wrote path bytes t2 -> wrote path bytes (t1 ++ t2).
Proof. intros H. induction t1; [done|]. by apply wrote_cons. Qed.

#[local] Hint Resolve wrote_here wrote_cons wrote_app : addsdb.

Lemma set_config_spec c :
  str_eq c MULTICONFIG_COMMAND = false ->
  adds (set_config c) (fun r t => asked t = false /\ (r = ERR_NONE -> wrote config_file c t)).
Proof.
  intros Hc. unfold set_config. cbv zeta.
  eapply adds_bind; [apply create_folder_quiet|]. intros r t Ht. unfold no_request in Ht.
  adds_go; rewrite asked_app, Ht; cbn; rewrite ?Hc; cbn; split; try done;
    case_match; try done; intros _; apply wrote_app;
    repeat first [apply wrote_here; lia | apply wrote_cons].
Qed.

(** Both ways of appending to the command file *)
Lemma adds_quiet_ret {A B} (m : prog moto_call unit A) (b : B) Q :
  adds m no_request -> (forall t, asked t = false -> Q b t) -> adds (m ;; mret b) Q.
Proof.
  intros Hm H. eapply adds_bind; [exact Hm|]. intros a t Ht. apply adds_ret.
  rewrite app_nil_r. by apply H.
Qed.

Lemma ensure_quiet mode say after :
  (forall x, adds (say x) no_request) -> adds after no_request ->
  adds (ensure_command_file mode say after) no_request.
Proof.
  intros Hs Ha. unfold ensure_command_file. adds_go; try done;
    by apply adds_quiet_ret.
Qed.

Lemma append_spec say b :
  (forall x, adds (say x) no_request) ->
  adds (append_command say b) (fun r t =>
    asked t = str_eq b MULTICONFIG_COMMAND && r /\ (r = true -> wrote command_file b t)).
Proof.
  intros Hs. unfold append_command. adds_go.
  - apply adds_quiet_ret; [done|]. intros t Ht.
    by rewrite asked_cons, Ht, andb_false_r.
  - apply adds_quiet_ret; [done|]. intros t Ht.
    rewrite !asked_cons, Ht, andb_false_r. cbn.
    destruct (r_ret _ =? _); [done|]. by rewrite andb_false_r.
  - cbn. destruct (r_ret _ =? _) eqn:E2; [|done]. split; [by rewrite orb_false_r|].
    intros _. apply wrote_here; lia.
Qed.

Lemma silent_quiet x : adds (silent x) no_request.
Proof. by apply adds_ret. Qed.

Lemma print_quiet x : adds (print x) no_request.
Proof. unfold print. adds_go. done. Qed.

(** How the installation can have been requested *)
Definition requested (t : list (moto_call * resp)) : Prop :=
  wrote command_file MULTICONFIG_COMMAND t
  \/ exists r, (SetBootloaderMessage "boot-recovery" RECOVERY_COMMAND, r) ∈ t /\ r_ret r = 0.

Lemma set_cache_command_spec :
  adds set_cache_command (fun r t =>
    asked t = is_none r /\ (r = ERR_NONE -> wrote command_file MULTICONFIG_COMMAND t)).
Proof.
  unfold set_cache_command. eapply adds_bind; [apply create_folder_quiet|].
  intros r t Ht. unfold no_request in Ht. adds_step.
  { adds_step. by rewrite app_nil_r. }
  eapply adds_bind.
  { apply ensure_quiet; [apply silent_quiet|]. adds_go. done. }
  intros there t2 Ht2. unfold no_request in Ht2. adds_step.
  { adds_step. by rewrite app_nil_r, asked_app, Ht, Ht2. }
  eapply adds_bind; [apply append_spec, silent_quiet|]. intros done t3 [Ht3 Hw].
  change (str_take 254 MULTICONFIG_COMMAND) with MULTICONFIG_COMMAND in *.
  adds_step. rewrite app_nil_r, !asked_app, Ht, Ht2, Ht3. destruct done; [|done].
  split; [done|]. intros _. auto with addsdb.
Qed.

Lemma set_recovery_spec :
  adds set_recovery (fun r t => asked t = is_none r /\ (r = ERR_NONE -> requested t)).
Proof.
  unfold set_recovery. adds_go; try done.
  - eapply adds_bind; [apply set_cache_command_spec|]. intros c t [Ht Hw].
    apply adds_ret. rewrite app_nil_r, asked_cons, Ht. destruct c; cbn; try done.
    split; [done|]. intros _. left. by apply wrote_cons, Hw.
  - change (str_take 254 RECOVERY_COMMAND) with RECOVERY_COMMAND in *.
    rewrite !asked_cons. cbn. destruct (Z.eqb_spec (r_ret r0) 0) as [E1|]; [|done].
    split; [done|]. intros _. right. exists r0. split; [set_solver|done].
Qed.

(** The package is in the cache partition; it is to be removed from there. *)
Definition copied (t : list (moto_call * resp)) : Prop :=
  exists r, (System COPY_BOTA_PACKAGE, r) ∈ t /\ exit_status (r_ret r) = 0.

Definition removed (t : list (moto_call * resp)) : Prop :=
  exists r, (Lstat CACHE_BOTA_PACKAGE, r) ∈ t
    /\ (r_ret r = 0 -> exists x, (System REMOVE_BOTA_PACKAGE_FROM_CACHE, x) ∈ t).

(** No write of the config-id was complete. *)
Definition unwritten (c : string) (t : list (moto_call * resp)) : Prop :=
  forall f r, (Write f c, r) ∈ t -> r_ret r <> strlen c.

Lemma unwritten_app c t1 t2 : unwritten c t1 -> unwritten c t2 -> unwritten c (t1 ++ t2).
Proof. unfold unwritten. set_solver. Qed.

Lemma copy_spec :
  adds copy_bota_package_to_cache (fun r t => asked t = false
    /\ (forall fl md x, (OpenFile config_file fl md, x) ∉ t)
    /\ (forall c, unwritten c t)
    /\ ((r = ERR_NONE /\ copied t) \/ (r = ERR_FILE_OPERATION /\ ~ copied t))).
Proof.
  unfold copy_bota_package_to_cache. adds_go; split_and!; try done; try (unfold unwritten; set_solver).
  - right. split; [done|]. intros (x & Hx & _). set_solver.
  - destruct (Z.eqb_spec (exit_status (r_ret r0)) 0); [left|right]; (split; [done|]).
    + exists r0. split; [set_solver|done].
    + intros (x & Hx & Hz). assert (x = r0) as -> by set_solver. done.
Qed.

Lemma remove_spec :
  adds remove_bota_package_from_cache (fun _ t =>
    asked t = false /\ removed t /\ forall c, unwritten c t).
Proof.
  unfold remove_bota_package_from_cache. adds_go; (split; [done|]);
    (split; [|intros c; unfold unwritten; set_solver]); exists r.
  - split; [set_solver|]. intros H. lia.
  - split; [set_solver|]. intros _. exists r0. set_solver.
Qed.

Lemma no_erase_quiet : adds set_no_erase_data_flag no_request.
Proof. unfold set_no_erase_data_flag. cbv zeta. adds_go; done. Qed.

Lemma create_folder_unwritten :
  adds create_recovery_folder_if_neccessary (fun _ t => forall c, unwritten c t).
Proof. unfold create_recovery_folder_if_neccessary, unwritten. adds_go; set_solver. Qed.

Lemma set_config_errors c :
  adds (set_config c) (fun r t => r = ERR_NONE \/ (r = ERR_FILE_OPERATION /\ unwritten c t)).
Proof.
  unfold set_config. cbv zeta. eapply adds_bind; [apply create_folder_unwritten|].
  intros r t Ht. adds_go; rewrite ?app_nil_r; try (right; split; [done|]);
    try (apply unwritten_app; [apply Ht|]); try (unfold unwritten; set_solver).
  all: case_match; [by left|right; split; [done|]];
    apply unwritten_app; [apply Ht|]; intros f x; rewrite !elem_of_cons, elem_of_nil; intros; destruct_or!; simplify_eq; lia.
Qed.

(** ** [setconfig] *)

(** What has happened when [setconfig] reports success: in this order the package
    was copied, the new config-id written, the installation requested, and the
    disks synchronised. *)
Definition installed (c : string) (t : list (moto_call * resp)) : Prop :=
  exists t1 t2 t3 t4, t = t1 ++ t2 ++ t3 ++ t4
    /\ copied t1 /\ wrote config_file c t2 /\ requested t3 /\ Sync ∈ t4.*1.

(** And when it reports failure: the package was not copied and the file with the
    config-id left alone; or the new config-id could not be written in full; or the installation could not be requested, and afterwards the old
    config-id, where there is one, was written back or the caller is told that it
    was not.  In the last two cases the package was removed at the end. *)
Definition rolled_back (c : string) (old : option string) (status : MOTOBOX_CONFIG_ERR_T)
    (t : list (moto_call * resp)) : Prop :=
  (status = ERR_FILE_OPERATION /\ ~ copied t /\ forall fl md r, (OpenFile config_file fl md, r) ∉ t)
  \/ (status = ERR_FILE_OPERATION /\ unwritten c t /\ removed t)
  \/ (exists t1 t2 t3, t = t1 ++ t2 ++ t3 /\ wrote config_file c t1 /\ removed t3
      /\ match old with
         | Some o => status = ERR_NEEDS_RECONFIG \/ wrote config_file o t2
         | None => True
         end).

Definition install_done (a : setconfig_args) (old : option string)
    (status : MOTOBOX_CONFIG_ERR_T) (t : list (moto_call * resp)) : Prop :=
  asked t = is_none status
  /\ (status = ERR_NONE -> installed (confid a) t)
  /\ (status <> ERR_NONE -> rolled_back (confid a) old status t).

Lemma removed_app t1 t2 : removed t2 -> removed (t1 ++ t2).
Proof. intros (r & Hr & H). exists r. split; [set_solver|]. intros E. destruct (H E). set_solver. Qed.

Lemma removed_app_l t1 t2 : removed t1 -> removed (t1 ++ t2).
Proof. intros (r & Hr & H). exists r. split; [set_solver|]. intros E. destruct (H E). set_solver. Qed.

Lemma wrote_app_l path b t1 t2 : wrote path b t1 -> wrote path b (t1 ++ t2).
Proof.
  intros (t & fl & md & f & w & t' & -> & ?). exists t, fl, md, f, w, (t' ++ t2).
  by rewrite <- app_assoc.
Qed.

(** The report at the end changes nothing. *)
Lemma report_spec r : adds (report r) (fun r' t => r' = r /\ exists x,
  t = [(Printf (pretty (err_code r) +:+ newline), x)]).
Proof. unfold report. adds_go. eauto. Qed.

Definition plain (c : string) : Prop := str_eq c MULTICONFIG_COMMAND = false.

Lemma request_either a :
  adds (if isSetRecovery a then set_recovery else set_cache_command)
    (fun r t => asked t = is_none r /\ (r = ERR_NONE -> requested t)).
Proof.
  destruct (isSetRecovery a); [apply set_recovery_spec|].
  eapply adds_weaken; [apply set_cache_command_spec|]. intros r t [Ht Hw].
  split; [done|]. intros E. left. auto.
Qed.

Lemma when_quiet b m : adds m no_request -> adds (when b m) no_request.
Proof. intros H. destruct b; [done|]. by apply adds_ret. Qed.

Lemma is_none_false r : is_none r = false -> r <> ERR_NONE.
Proof. by intros H ->. Qed.

Lemma is_none_true r : is_none r = true -> r = ERR_NONE.
Proof. by destruct r. Qed.

Lemma request_or_revert_spec a old :
  (forall o, old = Some o -> plain o) ->
  adds (request_or_revert a old) (fun st t =>
    asked t = is_none st
    /\ (st = ERR_NONE -> exists t3 t4, t = t3 ++ t4 /\ requested t3 /\ Sync ∈ t4.*1)
    /\ (st <> ERR_NONE -> match old with
                          | Some o => st = ERR_NEEDS_RECONFIG \/ wrote config_file o t
                          | None => True
                          end)).
Proof.
  intros Hold. unfold request_or_revert.
  eapply adds_bind; [apply request_either|]. intros st t [Ht Hr]. adds_step.
  - apply is_none_true in E as ->.
    eapply adds_bind; [apply when_quiet, no_erase_quiet|]. intros u t2 Ht2. unfold no_request in Ht2.
    adds_go. rewrite !asked_app, Ht, Ht2. split_and!; [done| |done]. intros _.
    exists t, (t2 ++ [(Sync, r)]). split_and!; [done | by apply Hr |].
    rewrite fmap_app. set_solver.
  - adds_step.
    + eapply adds_bind; [by apply set_config_spec, Hold|]. intros r t2 [Ht2 Hw]. adds_step.
      rewrite app_nil_r, asked_app, Ht, Ht2. cbn [orb]. destruct (is_none r) eqn:Er;
        [|split_and!; [done | done | by left]].
      split_and!; [by rewrite ?E | by intros -> |]. intros _. right.
      apply wrote_app, Hw. by apply is_none_true.
    + adds_step. rewrite app_nil_r, Ht. split_and!; [done | by intros -> | done].
Qed.

Lemma install_config_spec a old :
  plain (confid a) -> (forall o, old = Some o -> plain o) ->
  adds (install_config a old) (fun st t => exists x t',
    t = t' ++ [(Printf (pretty (err_code st) +:+ newline), x)] /\ install_done a old st t').
Proof.
  intros Hc Hold. unfold install_config.
  eapply adds_bind; [apply copy_spec|]. intros st1 t1 (Ht1 & Hno & Hu1 & Hst1). adds_step.
  { eapply adds_weaken; [apply report_spec|]. intros st t [-> [x ->]]. exists x, t1.
    split; [done|]. destruct Hst1 as [[-> _] | [-> Hnc]]; [done|].
    split_and!; [done | done |]. intros _. by left. }
  destruct Hst1 as [[-> Hcop] | [-> _]]; [|done]. clear E.
  eapply adds_bind; [apply adds_and; [by apply set_config_spec | apply set_config_errors]|].
  intros st2 t2 [[Ht2 Hw] He].
  apply (adds_bind _ _ (fun st t => asked t = is_none st
    /\ (st = ERR_NONE -> st2 = ERR_NONE /\
          exists t3 t4, t = t3 ++ t4 /\ requested t3 /\ Sync ∈ t4.*1)
    /\ (st <> ERR_NONE -> (st2 = ERR_NONE /\ match old with
          | Some o => st = ERR_NEEDS_RECONFIG \/ wrote config_file o t | None => True end)
        \/ (st = ERR_FILE_OPERATION /\ unwritten (confid a) (t2 ++ t))))).
  { destruct He as [-> | [-> Hu]]; cbn [is_none bool_decide].
    - eapply adds_weaken; [by apply request_or_revert_spec|].
      intros st t (Ht & Hok & Hbad). split_and!; [done | by auto |]. intros E. left. split; [done|]. by apply Hbad.
    - apply adds_ret. rewrite app_nil_r. split_and!; [done | done | intros _; by right]. }
  intros st t3 (Ht3 & Hok & Hbad).
  apply (adds_bind _ _ (fun _ t => asked t = false /\
    (st <> ERR_NONE -> removed t /\ forall c, unwritten c t))).
  { destruct st; try (eapply adds_weaken; [apply remove_spec|]; naive_solver). by apply adds_ret. }
  intros u t4 [Ht4 Hrm]. eapply adds_weaken; [apply report_spec|].
  intros st' t [-> [x ->]]. exists x, (t1 ++ t2 ++ t3 ++ t4). split; [by rewrite <- !app_assoc|].
  split_and!.
  - rewrite !asked_app, Ht1, Ht2, Ht3, Ht4. cbn. by rewrite orb_false_r.
  - intros E. destruct (Hok E) as (E2 & t5 & t6 & -> & Hreq & Hsync).
    exists t1, t2, t5, (t6 ++ t4). split_and!; auto; [by rewrite <- !app_assoc|].
    rewrite fmap_app. set_solver.
  - intros E. right. destruct (Hrm E) as [Hrm1 Hrm2].
    destruct (Hbad E) as [[E2 Ho] | [-> Hu]].
    + right. exists (t1 ++ t2), t3, t4. split_and!; auto; [by rewrite <- !app_assoc|].
      by apply wrote_app, Hw.
    + left. split; [done|]. split; [|rewrite !app_assoc; by apply removed_app].
      rewrite (app_assoc t2). apply unwritten_app; [done|]. by apply unwritten_app.
Qed.

Lemma validate_plain c : validate c = true -> plain c.
Proof.
  intros H. unfold plain. destruct (str_eq c MULTICONFIG_COMMAND) eqn:E; [|done].
  apply str_eq_true in E. by subst.
Qed.

(** The config-id in force before, as [getconfig] reads it *)
Definition old_config (e : env moto_call) (s : sys moto_call unit) : option string :=
  let g := (getconfig 255 e s).1 in if is_none g.1 then Some g.2 else None.

(** What is known when [setconfig] ends, having added [t] before its report *)
Definition setconfig_done (args : list string) (old : option string)
    (st : MOTOBOX_CONFIG_ERR_T) (t : list (moto_call * resp)) : Prop :=
  asked t = is_none st
  /\ ((st <> ERR_NONE /\ forall fl md r, (OpenFile config_file fl md, r) ∉ t)
      \/ exists a t0 t1, parse_args args = Some a /\ validate (confid a) = true
           /\ t = t0 ++ t1
           /\ (st = ERR_NONE -> installed (confid a) t1)
           /\ (st <> ERR_NONE -> rolled_back (confid a) old st t1)).

Lemma report_failure args old st t e (s : sys moto_call unit) :
  st <> ERR_NONE -> asked t = false ->
  (forall fl md r, (OpenFile config_file fl md, r) ∉ t) ->
  wp (report st) e (Sys _ _ tt (tr s ++ t)) (fun st s' => exists t x,
    tr s' = tr s ++ t ++ [(Printf (pretty (err_code st) +:+ newline), x)]
    /\ setconfig_done args old st t).
Proof.
  intros Hst Ht Hno. eapply wp_wand; [apply report_spec|].
  intros st' s' (t' & Htr & -> & x & ->). exists t, x. rewrite Htr. cbn [tr].
  rewrite <- app_assoc. split; [done|]. split; [by rewrite Ht; destruct st | by left].
Qed.


(** ** [masterclear] *)

(** A call that completes a request to wipe the phone *)
Definition wipes (x : moto_call * resp) : bool :=
  match x.1 with
  | SetBootloaderMessage _ _ => r_ret x.2 =? 0
  | Write _ b => r_ret x.2 =? strlen b
  | _ => false
  end.

(** The two ways of asking, with or without the memory card *)
Definition wipe_requested (shred : bool) (t : list (moto_call * resp)) : Prop :=
  wrote command_file (wipe_lines shred) t
  \/ exists r, (SetBootloaderMessage "boot-recovery" ("recovery" +:+ newline +:+ wipe_lines shred), r) ∈ t
       /\ r_ret r = 0.

(** The card is wiped when both properties say so. *)
Definition shreds (a b : resp) : bool :=
  str_eq (c_str (r_data a)) "true" && str_eq (c_str (r_data b)) "true".

Definition wipe_done (r : Z) (t : list (moto_call * resp)) : Prop :=
  existsb wipes t = (r =? 0) /\ (r = 0 \/ r = -1)
  /\ (r = 0 -> last (t.*1) = Some Sync /\ exists a b,
        (PropertyGet "ro.mot.master_clear.shredsd" "false", a) ∈ t
        /\ (PropertyGet "ro.mot.master_clear.shredsd.dev" "false", b) ∈ t
        /\ wipe_requested (shreds a b) t).

Lemma wipe_failed t : existsb wipes t = false -> wipe_done (-1) t.
Proof. intros H. split_and!; [done | by right | done]. Qed.

Lemma wipe_succeeded t a b :
  existsb wipes t = true -> last (t.*1) = Some Sync ->
  (PropertyGet "ro.mot.master_clear.shredsd" "false", a) ∈ t ->
  (PropertyGet "ro.mot.master_clear.shredsd.dev" "false", b) ∈ t ->
  wipe_requested (shreds a b) t -> wipe_done 0 t.
Proof. intros. split_and!; [done | by left |]. intros _. split; [done|]. by exists a, b. Qed.

Lemma masterclear_adds : adds masterclear_main wipe_done.
Proof.
  unfold masterclear_main, set_wipe_command, shredding_enabled, ensure_command_file,
    append_command, print. cbv zeta. adds_go.
  all: try (apply wipe_failed; cbn; rewrite ?orb_false_r; (done || lia)).
  all: try (eapply wipe_succeeded;
    [ cbn; lia | done | | | left; repeat first [apply wrote_here; lia | apply wrote_cons] ];
    set_solver).
  - apply wipe_failed. cbn. destruct (r_ret r2 =? 0); done.
  - destruct (Z.eqb_spec (r_ret r2) 0) as [Hz|]; [|done].
    apply (wipe_succeeded _ r r0); [by cbn; rewrite Hz | done | set_solver.. |].
    right. exists r2. split; [set_solver|done].
Qed.

(** [masterclear] tells the truth: it answers 0 exactly when the recovery
    system has been asked to wipe the phone, by a bootloader message that was
    stored or, when a recovery was already pending, by whole lines appended to
    its command file; the memory card is included exactly when both properties
    say so, and the disks are synchronised last.  In every other case the answer
    is -1. *)
Theorem masterclear_truthful e s :
  wp masterclear_main e s (fun r s' => exists t, tr s' = tr s ++ t /\ wipe_done r t).
Proof. apply masterclear_adds. Qed.

(** ** Listing the configurations *)

(** The names that are printed *)
Definition listed (names : list string) : list string :=
  filter (fun n => skipped_entry n = false) names.

(** The text that is meant: each name and a blank *)
Definition spaced (names : list string) : string :=
  foldr (fun n s => n +:+ " " +:+ s) "" names.

Lemma spaced_cons n l : spaced (n :: l) = n +:+ " " +:+ spaced l.
Proof. done. Qed.

Lemma put_name_fits size off n :
  (off + String.length n + 2 <= size)%nat -> put_name size off n = Some (n +:+ " ").
Proof.
  intros H. unfold put_name. rewrite str_take_all by (rewrite str_length_app; cbn; lia).
  rewrite str_length_app. cbn [String.length]. by rewrite (proj2 (Nat.leb_le _ _)) by lia.
Qed.

(** [getconfig -list] writes inside its 255 bytes and prints every config-id
    followed by a blank, whenever the names with their blanks and the final NUL
    fit there. *)
Lemma list_entries_fits size names : forall off,
  (off + String.length (spaced (listed names)) < size)%nat ->
  list_entries size off names = Some (spaced (listed names)).
Proof.
  induction names as [|n names IH]; intros off Hs; [done|].
  unfold listed in *. rewrite filter_cons in *. cbn [list_entries].
  destruct (skipped_entry n); case_decide; try done; [by apply IH|].
  rewrite spaced_cons in *. rewrite !str_length_app in Hs. cbn [String.length] in Hs.
  rewrite put_name_fits by lia. cbn [mbind option_bind].
  rewrite IH by lia. cbn [mbind option_bind]. by rewrite <- str_app_assoc.
Qed.

(** Five names of 60 characters, which the comment in the source allows, write
    outside the array. *)
Example list_entries_overruns :
  list_entries 255 0 (replicate 5 (zeros 60)) = None.
Proof. by vm_compute. Qed.

(** ** Dispatch and the swap tools *)

(** [main] and [motobox_main] do not call each other for ever: each call has one
    argument less. *)
Lemma motobox_main_total fuel devutils argv :
  (length argv < fuel)%nat -> motobox_main fuel devutils argv <> OutOfFuel.
Proof.
  revert argv. induction fuel as [|fuel IH]; intros argv Hf; [lia|]. cbn [motobox_main].
  destruct argv as [|a0 [|a1 rest]]; cbn in Hf.
  1,2: repeat case_match; done.
  destruct (char_at a1 0 =? "@")%char; repeat case_match; simplify_eq; try done;
    apply IH; cbn in *; lia.
Qed.

(** [swapon -p PRIORITY DEVICE], as its usage line has it, never enables a device. *)
Lemma swapon_priority_refused name prio device e s :
  wp (swapon_main [name; "-p"; prio; device]) e s (fun r s' =>
    r = 1 /\ calls s' = calls s ++ [PrintErr "Usage: swapon"]).
Proof.
  change (swapon_main _) with (print_usage ;; mret 1). unfold print_usage. repeat wp_step.
  split; [done|]. unfold calls. cbn. by rewrite fmap_app.
Qed.

(** The command line that [setconfig] appends has no line end: what [masterclear]
    appends afterwards becomes part of the same line. *)
Example commands_glued :
  split_on "010" (MULTICONFIG_COMMAND +:+ wipe_lines false)
  = ["--update_package=CACHE:update_config.zip--wipe_data"; ""].
Proof. done. Qed.
