(* ===== verification/TestCmd.v ===== *)
(** * [test] and [\[] of [motobox] ([src/motobox/test.c])

    A recursive-descent evaluator of the expressions of test(1).  Its variables
    are the position [t_wp] in the array of arguments, the number [nargc] of
    arguments from there on, and the operator [t_wp_op] that was lexed last.  An
    access outside the array or through a NULL pointer is the outcome [Fault];
    TestThms shows that it does not occur. *)

From S2P Require Import Prelude.
From S2P Require Import CString.
From S2P Require Import MotoBox.
From Stdlib Require Import Ascii.

(** ** Tokens *)

Inductive test_token :=
  | EOI | FILRD | FILWR | FILEX | FILEXIST | FILREG | FILDIR | FILCDEV | FILBDEV | FILFIFO
  | FILSOCK | FILSYM | FILGZ | FILTT | FILSUID | FILSGID | FILSTCK | FILNT | FILOT | FILEQ
  | FILUID | FILGID | STREZ | STRNZ | STREQ | STRNE | STRLT | STRGT | INTEQ | INTNE | INTGE
  | INTGT | INTLE | INTLT | UNOT | BAND | BOR | LPAREN | RPAREN | OPERAND.

Inductive token_types := UNOP | BINOP | BUNOP | BBINOP | PAREN.

#[export] Instance test_token_eq_dec : EqDecision test_token.
Proof. solve_decision. Defined.
#[export] Instance token_types_eq_dec : EqDecision token_types.
Proof. solve_decision. Defined.

Record t_op := TOp { op_text : string; op_num : test_token; op_type : token_types }.

Definition ops : list t_op :=
  [TOp "-r" FILRD UNOP; TOp "-w" FILWR UNOP; TOp "-x" FILEX UNOP; TOp "-e" FILEXIST UNOP;
   TOp "-f" FILREG UNOP; TOp "-d" FILDIR UNOP; TOp "-c" FILCDEV UNOP; TOp "-b" FILBDEV UNOP;
   TOp "-p" FILFIFO UNOP; TOp "-u" FILSUID UNOP; TOp "-g" FILSGID UNOP; TOp "-k" FILSTCK UNOP;
   TOp "-s" FILGZ UNOP; TOp "-t" FILTT UNOP; TOp "-z" STREZ UNOP; TOp "-n" STRNZ UNOP;
   TOp "-h" FILSYM UNOP; TOp "-O" FILUID UNOP; TOp "-G" FILGID UNOP; TOp "-L" FILSYM UNOP;
   TOp "-S" FILSOCK UNOP; TOp "=" STREQ BINOP; TOp "!=" STRNE BINOP; TOp "<" STRLT BINOP;
   TOp ">" STRGT BINOP; TOp "-eq" INTEQ BINOP; TOp "-ne" INTNE BINOP; TOp "-ge" INTGE BINOP;
   TOp "-gt" INTGT BINOP; TOp "-le" INTLE BINOP; TOp "-lt" INTLT BINOP; TOp "-nt" FILNT BINOP;
   TOp "-ot" FILOT BINOP; TOp "-ef" FILEQ BINOP; TOp "!" UNOT BUNOP; TOp "-a" BAND BBINOP;
   TOp "-o" BOR BBINOP; TOp "(" LPAREN PAREN; TOp ")" RPAREN PAREN].

(** ** Calls, variables, outcomes *)

Inductive test_call :=
  | Stat (path : string)      (* mode, size, uid, gid, dev, ino, mtime, nanoseconds *)
  | Lstat (path : string)
  | Access (path : string) (mode : Z)
  | Geteuid
  | Getegid
  | Isatty (fd : Z)
  | Stderr (text : string).

Record test_vars := TestVars { t_wp : Z; nargc : Z; t_wp_op : option t_op }.

#[export] Instance eta_test_vars : Eta test_vars := fun v =>
  TestVars (t_wp v) (nargc v) (t_wp_op v).

Inductive result (A : Type) := Val (a : A) | Exited | Fault | NoFuel.
Arguments Val {A}.
Arguments Exited {A}.
Arguments Fault {A}.
Arguments NoFuel {A}.

Abbreviation tst A := (prog test_call test_vars (result A)).

Definition val {A} (a : A) : tst A := mret (Val a).

Definition andthen {A B} (m : tst A) (k : A -> tst B) : tst B :=
  r ← m;
  match r with
  | Val a => k a
  | Exited => mret Exited
  | Fault => mret Fault
  | NoFuel => mret NoFuel
  end.

Declare Scope tst_scope.
Notation "x <- m ; k" := (andthen m (fun x => k))
  (at level 100, m at next level, right associativity) : tst_scope.
Open Scope tst_scope.

Definition read {A} (f : test_vars -> A) : tst A := x ← gets f; mret (Val x).
Definition assign (f : test_vars -> test_vars) : tst unit := modify f ;; mret (Val tt).
Definition ask (c : test_call) : tst resp := r ← call c; mret (Val r).

(** [error]: a message and [exit(1)] *)
Definition error {A} (text : string) : tst A := call (Stderr text) ;; mret Exited.

Definition syntax {A} (op : option string) (msg : string) : tst A :=
  match op with
  | Some op => if negb (str_eq op "") then error (op +:+ ": " +:+ msg) else error msg
  | None => error msg
  end.

(** ** Numbers *)

(** [strtol] and [strtoimax] with the tests of the callers: a number with an
    optional sign and blanks around it, in the range of the type, or the message *)
Definition parse_number (lo hi : Z) (s : string) : string + Z :=
  let t := skip_space s in
  let '(neg, t) := match t with
                   | String c r => if (c =? "-")%char then (true, r)
                                   else if (c =? "+")%char then (false, r) else (false, t)
                   | "" => (false, "")
                   end in
  let v := if neg : bool then - digits_val 0 t else digits_val 0 t in
  if (String.length (skip_digits t) =? String.length t)%nat then inl (s +:+ ": bad number")
  else if (v <? lo) || (hi <? v) then inl (s +:+ ": out of range")
  else if str_eq (skip_space (skip_digits t)) "" then inr v
  else inl (s +:+ ": bad number").

(** [long] has 32 bits on the OMAP4. *)
Definition getn (s : string) : tst Z :=
  match parse_number INT_MIN INT_MAX s with
  | inr v => val v
  | inl msg => error msg
  end.

Definition getq (s : string) : tst Z :=
  match parse_number (- 2 ^ 63) (2 ^ 63 - 1) s with
  | inr v => val v
  | inl msg => error msg
  end.

Definition intcmp (s1 s2 : string) : tst Z :=
  q1 <- getq s1;
  q2 <- getq s2;
  val (if q2 <? q1 then 1 else if q1 <? q2 then -1 else 0).

(** ** Files *)

Definition S_IFMT : Z := 61440.
Definition is_kind (kind : Z) (r : resp) : bool := Z.land (aux 0 r) S_IFMT =? kind.
Definition S_IFSOCK : Z := 49152.
Definition S_IFLNK : Z := 40960.
Definition S_IFREG : Z := 32768.
Definition S_IFBLK : Z := 24576.
Definition S_IFDIR : Z := 16384.
Definition S_IFCHR : Z := 8192.
Definition S_IFIFO : Z := 4096.

Definition mode_bit (bit : Z) (r : resp) : bool := negb (Z.land (aux 0 r) bit =? 0).

Definition access_ok (nm : string) (mode : Z) : tst bool :=
  a <- ask (Access nm mode);
  val (r_ret a =? 0).

Definition filstat (nm : string) (mode : test_token) : tst bool :=
  s <- ask (if bool_decide (mode = FILSYM) then Lstat nm else Stat nm);
  if negb (r_ret s =? 0) then val false else
  match mode with
  | FILRD => access_ok nm 4
  | FILWR => access_ok nm 2
  | FILEX =>
      a <- ask (Access nm 1);
      if negb (r_ret a =? 0) then val false else
      if is_kind S_IFDIR s then val true else
      u <- ask Geteuid;
      if negb (r_ret u =? 0) then val true else val (mode_bit 73 s)
  | FILEXIST => access_ok nm 0
  | FILREG => val (is_kind S_IFREG s)
  | FILDIR => val (is_kind S_IFDIR s)
  | FILCDEV => val (is_kind S_IFCHR s)
  | FILBDEV => val (is_kind S_IFBLK s)
  | FILFIFO => val (is_kind S_IFIFO s)
  | FILSOCK => val (is_kind S_IFSOCK s)
  | FILSYM => val (is_kind S_IFLNK s)
  | FILSUID => val (mode_bit 2048 s)
  | FILSGID => val (mode_bit 1024 s)
  | FILSTCK => val (mode_bit 512 s)
  | FILGZ => val (0 <? aux 1 s)
  | FILUID => u <- ask Geteuid; val (aux 2 s =? r_ret u)
  | FILGID => g <- ask Getegid; val (aux 3 s =? r_ret g)
  | _ => val true
  end.

Definition newerf (f1 f2 : string) : tst bool :=
  b1 <- ask (Stat f1);
  if negb (r_ret b1 =? 0) then val false else
  b2 <- ask (Stat f2);
  if negb (r_ret b2 =? 0) then val false else
  if aux 6 b2 <? aux 6 b1 then val true
  else if aux 6 b1 <? aux 6 b2 then val false
  else val (aux 7 b2 <? aux 7 b1).

Definition olderf (f1 f2 : string) : tst bool := newerf f2 f1.

Definition equalf (f1 f2 : string) : tst bool :=
  b1 <- ask (Stat f1);
  if negb (r_ret b1 =? 0) then val false else
  b2 <- ask (Stat f2);
  if negb (r_ret b2 =? 0) then val false else
  val ((aux 4 b1 =? aux 4 b2) && (aux 5 b1 =? aux 5 b2)).

(** The [switch] of [binop]; [Fault] is [abort]. *)
Definition apply_binop (num : test_token) (opnd1 opnd2 : string) : tst bool :=
  match num with
  | STREQ => val (str_eq opnd1 opnd2)
  | STRNE => val (negb (str_eq opnd1 opnd2))
  | STRLT => val (String.ltb opnd1 opnd2)
  | STRGT => val (String.ltb opnd2 opnd1)
  | INTEQ => c <- intcmp opnd1 opnd2; val (c =? 0)
  | INTNE => c <- intcmp opnd1 opnd2; val (negb (c =? 0))
  | INTGE => c <- intcmp opnd1 opnd2; val (0 <=? c)
  | INTGT => c <- intcmp opnd1 opnd2; val (0 <? c)
  | INTLE => c <- intcmp opnd1 opnd2; val (c <=? 0)
  | INTLT => c <- intcmp opnd1 opnd2; val (c <? 0)
  | FILNT => newerf opnd1 opnd2
  | FILOT => olderf opnd1 opnd2
  | FILEQ => equalf opnd1 opnd2
  | _ => mret Fault
  end.

(** The [switch] on a unary operator *)
Definition apply_unop (num : test_token) (opnd : string) : tst bool :=
  match num with
  | STREZ => val (str_eq opnd "")
  | STRNZ => val (negb (str_eq opnd ""))
  | FILTT => n <- getn opnd; r <- ask (Isatty n); val (negb (r_ret r =? 0))
  | _ => filstat opnd num
  end.

(** ** Lexing *)

Fixpoint find_op (l : list t_op) (s : string) : option t_op :=
  match l with
  | [] => None
  | op :: l => if str_eq s (op_text op) then Some op else find_op l s
  end.

Section Words.
(** The arguments; NULL comes after the last one. *)
Context (args : list string).

Definition word_at (i : Z) : option (option string) :=
  if (0 <=? i) && (i <=? Z.of_nat (length args)) then Some (args !! Z.to_nat i) else None.

(** [t_wp[i]], which may be NULL *)
Definition word (i : Z) : tst (option string) :=
  p <- read t_wp;
  match word_at (p + i) with Some w => val w | None => mret Fault end.

(** A string that is used *)
Definition deref (w : option string) : tst string :=
  match w with Some s => val s | None => mret Fault end.

(** [nargc > 0 ? (--nargc, *++t_wp) : NULL] *)
Definition next : tst (option string) :=
  n <- read nargc;
  if 0 <? n then
    assign (fun v => v <| nargc := nargc v - 1 |>) ;;
    assign (fun v => v <| t_wp := t_wp v + 1 |>) ;;
    word 0
  else val None.

(** [t_wp--; nargc++;] *)
Definition back : tst unit :=
  assign (fun v => v <| t_wp := t_wp v - 1 |>) ;;
  assign (fun v => v <| nargc := nargc v + 1 |>).

Definition isoperand : tst bool :=
  n <- read nargc;
  if n =? 1 then val true
  else if n =? 2 then val false
  else
    s <- word 1;
    t <- word 2;
    s <- deref s;
    match find_op ops s with
    | Some op =>
        if bool_decide (op_type op = BINOP) then
          t <- deref t; val (negb (str_eq t ")"))
        else val false
    | None => val false
    end.

Definition set_op (op : option t_op) : tst unit := assign (fun v => v <| t_wp_op := op |>).

Definition t_lex (s : option string) : tst test_token :=
  match s with
  | None => set_op None ;; val EOI
  | Some s =>
      match find_op ops s with
      | None => set_op None ;; val OPERAND
      | Some op =>
          skip <- (if bool_decide (op_type op = UNOP) then isoperand
                   else if bool_decide (op_num op = LPAREN) then
                     n <- read nargc; val (n =? 1)
                   else val false);
          if skip : bool then set_op None ;; val OPERAND
          else set_op (Some op) ;; val (op_num op)
      end
  end.

(** [t_lex(nargc > 0 ? (--nargc, *++t_wp) : NULL)] *)
Definition lex_next : tst test_token := w <- next; t_lex w.

(** Is [t_wp_op] an operator of this type? *)
Definition op_is (ty : token_types) (op : option t_op) : bool :=
  match op with Some op => bool_decide (op_type op = ty) | None => false end.

(** ** Evaluating *)

Definition binop : tst bool :=
  opnd1 <- word 0;
  _ <- lex_next;
  op <- read t_wp_op;
  opnd2 <- next;
  match op with
  | None => mret Fault
  | Some op =>
      match opnd2 with
      | None => syntax (Some (op_text op)) "argument expected"
      | Some opnd2 => opnd1 <- deref opnd1; apply_binop (op_num op) opnd1 opnd2
      end
  end.

Definition unop (n : test_token) (op : option t_op) : tst bool :=
  assign (fun v => v <| nargc := nargc v - 1 |>) ;;
  left <- read nargc;
  if left =? 0 then syntax (op_text <$> op) "argument expected" else
  assign (fun v => v <| t_wp := t_wp v + 1 |>) ;;
  opnd <- word 0;
  opnd <- deref opnd;
  apply_unop n opnd.

Fixpoint oexpr (fuel : nat) (n : test_token) : tst bool :=
  match fuel with
  | O => mret NoFuel
  | S fuel =>
      res <- aexpr fuel n;
      t <- lex_next;
      if bool_decide (t = BOR) then
        t <- lex_next;
        r <- oexpr fuel t;
        val (r || res)
      else _ <- back; val res
  end
with aexpr (fuel : nat) (n : test_token) : tst bool :=
  match fuel with
  | O => mret NoFuel
  | S fuel =>
      res <- nexpr fuel n;
      t <- lex_next;
      if bool_decide (t = BAND) then
        t <- lex_next;
        r <- aexpr fuel t;
        val (r && res)
      else _ <- back; val res
  end
with nexpr (fuel : nat) (n : test_token) : tst bool :=
  match fuel with
  | O => mret NoFuel
  | S fuel =>
      if bool_decide (n = UNOT) then
        t <- lex_next;
        r <- nexpr fuel t;
        val (negb r)
      else primary fuel n
  end
with primary (fuel : nat) (n : test_token) : tst bool :=
  match fuel with
  | O => mret NoFuel
  | S fuel =>
      if bool_decide (n = EOI) then val false else
      if bool_decide (n = LPAREN) then
        nn <- lex_next;
        if bool_decide (nn = RPAREN) then val false else
        res <- oexpr fuel nn;
        t <- lex_next;
        if bool_decide (t = RPAREN) then val res
        else syntax None "closing paren expected"
      else
        op <- read t_wp_op;
        if op_is UNOP op then unop n op else
        k <- read nargc;
        w <- (if 0 <? k then word 1 else val None);
        _ <- t_lex w;
        op <- read t_wp_op;
        if op_is BINOP op then binop
        else w <- word 0; w <- deref w; val (negb (str_eq w ""))
  end.

(** The whole expression: the answer of [oexpr], unless words are left over *)
Definition expression (fuel : nat) : tst bool :=
  w <- word 0;
  t <- t_lex w;
  res <- oexpr fuel t;
  assign (fun v => v <| nargc := nargc v - 1 |>) ;;
  n <- read nargc;
  if 0 <? n then w <- word 0; syntax w "unexpected operator" else val res.
End Words.

(** [argv] is the name of the command and its arguments.  Called as [\[] the last
    argument has to be [\]], and is removed. *)
Definition bracket (name : string) (args : list string) : option (list string) :=
  if str_eq (base_name name) "[" then
    if str_eq (default name (last args)) "]" then Some (take (length args - 1) args)
    else None
  else Some args.

(** The exit status: 0 is true. *)
Definition test_main (fuel : nat) (name : string) (args : list string) : tst Z :=
  match bracket name args with
  | None => error "missing ]"
  | Some [] => val 1
  | Some args =>
      assign (fun v => v <| nargc := Z.of_nat (length args) |>) ;;
      assign (fun v => v <| t_wp := 0 |>) ;;
      res <- expression args fuel;
      val (if res : bool then 0 else 1)
  end.
