(* ===== verification/TestThms.v ===== *)
(** * [test]: every command line is evaluated, and expressions mean what they say

    Whatever the arguments are, the evaluator returns, and reads neither outside
    the array of arguments nor through a NULL pointer.  On the words of an
    expression of the grammar it makes the calls and gives the answer of that
    expression. *)

From S2P Require Import Prelude.
From S2P Require Import CString.
From S2P Require Import MotoBox.
From S2P Require Import TestCmd.
From Stdlib Require Import Ascii.

Implicit Types (s : sys test_call test_vars) (v : test_vars).

(** ** Programs that neither fault nor run out of fuel *)

Definition twp {A} (m : tst A) (e : env test_call) s
    (Q : A -> sys test_call test_vars -> Prop) : Prop :=
  wp m e s (fun r s' => match r with Val a => Q a s' | Exited => True | _ => False end).

Section Outcome.
Context (e : env test_call).

Lemma twp_val {A} (a : A) s (Q : A -> _ -> Prop) : Q a s -> twp (val a) e s Q.
Proof. done. Qed.

Lemma twp_andthen {A B} (m : tst A) (k : A -> tst B) s (Q : B -> _ -> Prop) :
  twp m e s (fun a s' => twp (k a) e s' Q) -> twp (andthen m k) e s Q.
Proof.
  unfold twp. intros H. apply wp_bind. eapply wp_wand; [exact H|]. by intros [a| | |] s'.
Qed.

Lemma twp_wand {A} (m : tst A) s (Q1 Q2 : A -> _ -> Prop) :
  twp m e s Q1 -> (forall a s', Q1 a s' -> Q2 a s') -> twp m e s Q2.
Proof. unfold twp. intros H HQ. eapply wp_wand; [exact H|]. intros []; auto. Qed.

Lemma twp_read {A} (f : test_vars -> A) s (Q : A -> _ -> Prop) :
  Q (f (st s)) s -> twp (read f) e s Q.
Proof. done. Qed.

Lemma twp_assign {B} f (k : tst B) s (Q : B -> _ -> Prop) :
  twp k e (Sys _ _ (f (st s)) (tr s)) Q -> twp (assign f ;; k) e s Q.
Proof. done. Qed.

Lemma twp_last_assign f s (Q : unit -> _ -> Prop) :
  Q tt (Sys _ _ (f (st s)) (tr s)) -> twp (assign f) e s Q.
Proof. done. Qed.

Lemma twp_ask c s (Q : resp -> _ -> Prop) :
  (forall r s', st s' = st s -> Q r s') -> twp (ask c) e s Q.
Proof. intros H. by apply H. Qed.

Lemma twp_error {A} text s (Q : A -> _ -> Prop) : twp (error text) e s Q.
Proof. done. Qed.

Lemma twp_syntax {A} op msg s (Q : A -> _ -> Prop) : twp (syntax op msg) e s Q.
Proof. unfold syntax. repeat case_match; apply twp_error. Qed.
End Outcome.

Ltac twp_step :=
  lazymatch goal with
  | |- twp (andthen _ _) _ _ _ => apply twp_andthen
  | |- twp (val _) _ _ _ => apply twp_val
  | |- twp (read _) _ _ _ => apply twp_read
  | |- twp (assign _ ;; _) _ _ _ => apply twp_assign; cbn [st tr]
  | |- twp (set_op _ ;; _) _ _ _ => apply twp_assign; cbn [st tr]
  | |- twp (ask _) _ _ _ => apply twp_ask; intros ? ? ?
  | |- twp (error _) _ _ _ => apply twp_error
  | |- twp (syntax _ _) _ _ _ => apply twp_syntax
  | |- twp (if ?b then _ else _) _ _ _ => wp_case b
  | |- twp (match ?x with _ => _ end) _ _ _ => wp_case x
  end.
Ltac twp_go := repeat twp_step.

(** The leaves leave the position alone and do not fault. *)
Lemma getn_ok e w s Q : (forall n, Q n s) -> twp (getn w) e s Q.
Proof. intros HQ. unfold getn. twp_go. apply HQ. Qed.

Lemma intcmp_ok e a b s Q : (forall n, Q n s) -> twp (intcmp a b) e s Q.
Proof. intros HQ. unfold intcmp, getq. twp_go; apply HQ. Qed.

Lemma filstat_ok e nm mode s : twp (filstat nm mode) e s (fun _ s' => st s' = st s).
Proof. unfold filstat, access_ok. twp_go; congruence. Qed.

Lemma newerf_ok e a b s : twp (newerf a b) e s (fun _ s' => st s' = st s).
Proof. unfold newerf. twp_go; congruence. Qed.

Lemma equalf_ok e a b s : twp (equalf a b) e s (fun _ s' => st s' = st s).
Proof. unfold equalf. twp_go; congruence. Qed.

Lemma apply_unop_ok e n w s : twp (apply_unop n w) e s (fun _ s' => st s' = st s).
Proof.
  destruct n; try apply filstat_ok; unfold apply_unop; twp_go; try done.
  apply getn_ok. intros n. twp_go. congruence.
Qed.

(** The binary operators of the table are those of the [switch]. *)
Definition binary (num : test_token) : bool :=
  existsb (fun op => bool_decide (op_num op = num) && bool_decide (op_type op = BINOP)) ops.

Lemma apply_binop_ok e n a b s : binary n = true ->
  twp (apply_binop n a b) e s (fun _ s' => st s' = st s).
Proof.
  destruct n; try done; intros _; unfold apply_binop, olderf;
    first [apply newerf_ok | apply equalf_ok | twp_go; done
          | apply twp_andthen, intcmp_ok; intros; by apply twp_val].
Qed.

Lemma find_op_in l w op : find_op l w = Some op -> op ∈ l /\ op_text op = w.
Proof.
  induction l as [|x l IH]; [done|]. cbn. destruct (str_eq w (op_text x)) eqn:E.
  - intros [= <-]. apply str_eq_true in E as ->. split; [left | done].
  - intros H. destruct (IH H). split; [by right | done].
Qed.

Lemma op_binary op : op ∈ ops -> op_type op = BINOP -> binary (op_num op) = true.
Proof.
  intros Hop Hty. apply existsb_exists. exists op. split; [by apply list_elem_of_In|].
  by rewrite !bool_decide_eq_true_2.
Qed.

Lemma op_not_end op : op ∈ ops -> op_num op <> EOI.
Proof.
  intros Hop. repeat (apply elem_of_cons in Hop as [-> | Hop]; [done|]).
  by apply not_elem_of_nil in Hop.
Qed.

Lemma op_binary_not_open op : op ∈ ops -> op_type op = BINOP -> op_num op <> LPAREN.
Proof. intros Hop Hty E. pose proof (op_binary op Hop Hty) as H. by rewrite E in H. Qed.

Lemma find_op_text op : op ∈ ops -> find_op ops (op_text op) = Some op.
Proof.
  intros Hop. repeat (apply elem_of_cons in Hop as [-> | Hop]; [done|]).
  by apply not_elem_of_nil in Hop.
Qed.

(** ** The position in the arguments *)

Section Words.
Context (e : env test_call) (args : list string).
Abbreviation len := (Z.of_nat (length args)).

(** The position is [p], and [nargc] counts the words from there on. *)
Record at_word (p : Z) v : Prop := AtWord {
  aw_wp : t_wp v = p;
  aw_left : nargc v = len - p;
  aw_range : 0 <= p <= len
}.

Lemma word_ok i p s Q : at_word p (st s) -> 0 <= p + i <= len ->
  Q (args !! Z.to_nat (p + i)) s -> twp (word args i) e s Q.
Proof.
  intros [Hp _ _] Hi HQ. apply twp_andthen, twp_read.
  rewrite Hp. unfold word_at.
  by replace ((0 <=? p + i) && (p + i <=? len)) with true by lia.
Qed.

Lemma word_some i : 0 <= i < len -> exists w, args !! Z.to_nat i = Some w.
Proof. intros Hi. apply lookup_lt_is_Some. lia. Qed.

Lemma next_ok p s (Q : option string -> _ -> Prop) : at_word p (st s) ->
  (forall p' s', at_word p' (st s') -> p' = Z.min (p + 1) len -> t_wp_op (st s') = t_wp_op (st s) ->
    Q (args !! Z.to_nat p') s') ->
  twp (next args) e s Q.
Proof.
  intros Hat HQ. destruct (Hat) as [Hp Hn Hr]. unfold next. twp_go; rewrite Hn in *.
  - apply (word_ok _ (p + 1)); [split; cbn; lia | lia |].
    rewrite Z.add_0_r. apply HQ; [split; cbn; lia | lia | done].
  - replace None with (args !! Z.to_nat p) by (apply lookup_ge_None; lia).
    apply HQ; [done | lia | done].
Qed.

Lemma isoperand_ok p s Q : at_word p (st s) -> p < len ->
  (forall b, Q b s) -> twp (isoperand args) e s Q.
Proof.
  intros Hat Hlt HQ. destruct (Hat) as [Hp Hn Hr]. unfold isoperand. twp_go; [apply HQ..|].
  eapply word_ok; [done | lia|]. eapply twp_andthen, word_ok; [done | lia|].
  destruct (word_some (p + 1)) as [w ->]; [lia|].
  destruct (word_some (p + 2)) as [w' ->]; [lia|]. cbn [deref]. twp_go; apply HQ.
Qed.

(** A token is the end of the words exactly at their end. *)
Lemma t_lex_ok w p s (Q : test_token -> _ -> Prop) : at_word p (st s) ->
  (is_Some w -> p < len) ->
  (forall n s', at_word p (st s') -> (n = EOI <-> w = None) ->
    (forall op, t_wp_op (st s') = Some op -> op ∈ ops /\ w = Some (op_text op)) -> Q n s') ->
  twp (t_lex args w) e s Q.
Proof.
  intros Hat Hw HQ. destruct (Hat) as [Hp Hn Hr]. unfold t_lex.
  destruct w as [w|]; [|by twp_go; apply HQ].
  destruct (find_op ops w) as [o|] eqn:E; [|by twp_go; apply HQ].
  apply find_op_in in E as [Hop Htx]. specialize (Hw ltac:(eauto)).
  assert (op_num o <> EOI) as Hnum by (by apply op_not_end).
  assert (forall b : bool, twp (if b then set_op None;; val OPERAND
    else set_op (Some o);; val (op_num o)) e s Q) as Hend.
  { intros b. twp_go; (apply HQ; [by split | by destruct (op_num o) |]); cbn.
    - done.
    - intros op [= <-]. by rewrite Htx. }
  apply twp_andthen. case_match; [by eapply isoperand_ok|].
  case_match; [apply twp_andthen, twp_read, twp_val, (Hend (_ =? 1)) | exact (Hend false)].
Qed.

(** An operator that is neither unary nor an open parenthesis is always taken as one. *)
Lemma t_lex_operator op : op ∈ ops -> op_type op <> UNOP -> op_num op <> LPAREN ->
  t_lex args (Some (op_text op)) = (set_op (Some op) ;; val (op_num op)).
Proof.
  intros Hop Hu Hp. cbn [t_lex]. rewrite find_op_text by done.
  repeat (apply elem_of_cons in Hop as [-> | Hop]; [done|]).
  by apply not_elem_of_nil in Hop.
Qed.

Lemma lex_next_ok p s (Q : test_token -> _ -> Prop) : at_word p (st s) ->
  (forall n p' s', at_word p' (st s') -> p' = Z.min (p + 1) len -> (n = EOI <-> p' = len) -> Q n s') ->
  twp (lex_next args) e s Q.
Proof.
  intros Hat HQ. apply twp_andthen, (next_ok p); [done|]. intros p' s1 H1 Hp' _.
  pose proof (aw_range _ _ H1). apply (t_lex_ok _ p'); [done | |].
  { intros [w Hw]. apply lookup_lt_Some in Hw. lia. }
  intros n s2 H2 Hn _. apply (HQ _ p'); [done..|]. rewrite Hn, lookup_ge_None. lia.
Qed.

(** ** Every expression comes to an end *)

(** Evaluation ends at a position from [lo] on. *)
Definition ends (lo : Z) (_ : bool) s : Prop := exists p, at_word p (st s) /\ lo <= p.

Lemma back_ok p s b lo : at_word p (st s) -> 0 < p -> lo <= p - 1 ->
  twp (_ <- back; val b) e s (ends lo).
Proof.
  intros [Hp Hn Hr] H0 Hlo. apply twp_andthen, twp_assign, twp_last_assign, twp_val. exists (p - 1). split; [|done]. split; cbn; lia.
Qed.

Lemma unop_ok n op p s : at_word p (st s) -> p < len -> twp (unop args n op) e s (ends p).
Proof.
  intros [Hp Hn Hr] Hlt. unfold unop. twp_go.
  change ((nargc (st s) - 1 =? 0) = false) in E.
  apply (word_ok _ (p + 1)); [split; cbn; lia | lia |].
  destruct (word_some (p + 1 + 0)) as [w ->]; [lia|]. cbn [deref].
  apply twp_andthen, twp_val. eapply twp_wand; [apply apply_unop_ok|].
  intros b s' Hs. exists (p + 1). rewrite Hs. split; [|lia]. split; cbn; lia.
Qed.

Lemma binop_ok op p s : at_word p (st s) -> p + 1 < len ->
  op ∈ ops -> op_type op = BINOP -> args !! Z.to_nat (p + 1) = Some (op_text op) ->
  twp (binop args) e s (ends p).
Proof.
  intros Hat Hlt Hop Hty Hw. pose proof (aw_range _ _ Hat). unfold binop, lex_next.
  apply twp_andthen, (word_ok _ p); [done | lia |].
  destruct (word_some (p + 0)) as [w ->]; [lia|].
  apply twp_andthen, twp_andthen, (next_ok p); [done|]. intros p1 s1 H1 Hp1 _.
  replace p1 with (p + 1) in * by lia.
  rewrite Hw, t_lex_operator by (done || by rewrite Hty || by apply op_binary_not_open).
  apply twp_assign, twp_val, twp_andthen, twp_read, twp_andthen, (next_ok (p + 1)).
  { destruct H1. by split. }
  intros p2 s2 H2 Hp2 _.
  destruct (args !! Z.to_nat p2) as [w2|]; [|exact (twp_syntax e (Some (op_text op)) _ _ _)].
  apply (twp_andthen e (deref (Some w)) (fun w1 => apply_binop (op_num op) w1 w2)), twp_val.
  eapply twp_wand; [by apply apply_binop_ok, op_binary|].
  intros b s' Hs. exists p2. rewrite Hs. split; [done | lia].
Qed.

Hypothesis some_word : 0 < len.

(** A token that was read at position [p] *)
Definition lexed (n : test_token) (p : Z) s : Prop := at_word p (st s) /\ (n = EOI <-> p = len).

(** The four functions return with this much fuel: four units per word that is left. *)
Definition returns (f : nat -> test_token -> tst bool) (extra : Z) (lo : Z -> Z) (fuel : nat) :=
  forall n p s, lexed n p s -> 4 * (len - p) + extra <= Z.of_nat fuel ->
    twp (f fuel n) e s (ends (lo p)).

Abbreviation returns_o := (returns (oexpr args) 4 (fun p => Z.min p (len - 1))).
Abbreviation returns_a := (returns (aexpr args) 3 (fun p => Z.min p (len - 1))).
Abbreviation returns_n := (returns (nexpr args) 2 (fun p => p)).
Abbreviation returns_p := (returns (primary args) 1 (fun p => p)).

(** The loop of [oexpr] and [aexpr]: an operand, then another one after the operator *)
Lemma chain_ok (f : tst bool) (self : test_token -> tst bool) (c : bool -> bool -> bool) tok p s :
  at_word p (st s) -> tok <> EOI -> twp f e s (ends (Z.min p (len - 1))) ->
  (forall n p' s', lexed n p' s' -> p < p' -> twp (self n) e s' (ends (Z.min p' (len - 1)))) ->
  twp (res <- f; t <- lex_next args;
       if bool_decide (t = tok) then
         t <- lex_next args; r <- self t; val (c r res)
       else _ <- back; val res) e s (ends (Z.min p (len - 1))).
Proof.
  intros Hat Htok Hf Hself. apply twp_andthen. eapply twp_wand; [exact Hf|].
  intros res s1 (q & H1 & Hq). apply twp_andthen, (lex_next_ok q); [done|].
  intros n q1 s2 H2 Hq1 Hn. pose proof (aw_range _ _ H1) as R1. pose proof (aw_range _ _ H2) as R2.
  case_bool_decide as Ht.
  - assert (q1 <> len) as Hne by (intros E; apply Hn in E; congruence).
    apply twp_andthen, (lex_next_ok q1); [done|]. intros n2 q2 s3 H3 Hq2 Hn2.
    apply twp_andthen. eapply twp_wand; [apply (Hself n2 q2); [by split | lia]|].
    intros b s4 (r & H4 & Hr). apply twp_val. exists r. split; [done | lia].
  - apply (back_ok q1); [done | lia | lia].
Qed.

Lemma oexpr_ok fuel : returns_a fuel -> returns_o fuel -> returns_o (S fuel).
Proof.
  intros Ha Ho n p s [Hat Hn] Hf. apply (chain_ok _ _ orb); [done | done | |].
  - apply Ha; [by split | lia].
  - intros n' p' s' Hl Hp. apply Ho; [done | lia].
Qed.

Lemma aexpr_ok fuel : returns_n fuel -> returns_a fuel -> returns_a (S fuel).
Proof.
  intros Hne Ha n p s [Hat Hn] Hf. apply (chain_ok _ _ andb); [done | done | |].
  - eapply twp_wand; [apply Hne; [by split | lia]|].
    intros b s' (q & Hq & Hle). exists q. split; [done | lia].
  - intros n' p' s' Hl Hp. apply Ha; [done | lia].
Qed.

Lemma nexpr_ok fuel : returns_p fuel -> returns_n fuel -> returns_n (S fuel).
Proof.
  intros Hp Hne n p s [Hat Hn] Hf. cbn [nexpr]. case_bool_decide as Ht.
  - pose proof (aw_range _ _ Hat). assert (p <> len) by (intros E; apply Hn in E; congruence).
    apply twp_andthen, (lex_next_ok p); [done|]. intros n' p' s' H' Hp' Hn'.
    apply twp_andthen. eapply twp_wand; [apply (Hne _ p'); [by split | lia]|].
    intros b s2 (q & Hq & Hle). apply twp_val. exists q. split; [done | lia].
  - apply Hp; [by split | lia].
Qed.

(** An expression in parentheses *)
Lemma group_ok fuel p s : returns_o fuel -> at_word p (st s) -> p < len ->
  4 * (len - p) <= Z.of_nat fuel ->
  twp (nn <- lex_next args;
       if bool_decide (nn = RPAREN) then val false else
       res <- oexpr args fuel nn;
       t <- lex_next args;
       if bool_decide (t = RPAREN) then val res
       else syntax None "closing paren expected") e s (ends p).
Proof.
  intros Ho Hat Hlt Hf. apply twp_andthen, (lex_next_ok p); [done|].
  intros n p1 s1 H1 Hp1 Hn. case_bool_decide.
  { apply twp_val. exists p1. split; [done | lia]. }
  apply twp_andthen. eapply twp_wand; [apply (Ho _ p1); [by split | lia]|].
  intros b s2 (q & Hq & Hle). apply twp_andthen, (lex_next_ok q); [done|].
  intros n' q' s3 H3 Hq' Hn'. case_bool_decide; [|apply twp_syntax].
  apply twp_val. exists q'. split; [done | lia].
Qed.

(** An operand, alone or before a binary operator *)
Lemma operand_ok p s : at_word p (st s) -> p < len ->
  twp (k <- read nargc;
       w <- (if 0 <? k then word args 1 else val None);
       _ <- t_lex args w;
       op <- read t_wp_op;
       if op_is BINOP op then binop args
       else w <- word args 0; w <- deref w; val (negb (str_eq w ""))) e s (ends p).
Proof.
  intros Hat Hlt. destruct (Hat) as [Hp Hn Hr]. apply twp_andthen, twp_read.
  rewrite Hn. replace (0 <? len - p) with true by lia.
  apply twp_andthen, (word_ok _ p); [done | lia|].
  apply twp_andthen, (t_lex_ok _ p); [done..|]. intros n s1 H1 _ Hop.
  apply twp_andthen, twp_read. unfold op_is. destruct (t_wp_op (st s1)) as [op|].
  - destruct (Hop op eq_refl) as [Hin Hw]. pose proof (lookup_lt_Some _ _ _ Hw).
    case_bool_decide; [by apply (binop_ok op); [|lia|..]|].
    apply twp_andthen, (word_ok _ p); [done | lia|].
    destruct (word_some (p + 0)) as [w ->]; [lia|].
    apply twp_andthen, twp_val, twp_val. exists p. split; [done | lia].
  - apply twp_andthen, (word_ok _ p); [done | lia|].
    destruct (word_some (p + 0)) as [w ->]; [lia|].
    apply twp_andthen, twp_val, twp_val. exists p. split; [done | lia].
Qed.

Lemma primary_ok fuel : returns_o fuel -> returns_p (S fuel).
Proof.
  intros Ho n p s [Hat Hn] Hf. cbn [primary]. pose proof (aw_range _ _ Hat).
  case_bool_decide as He; [apply twp_val; exists p; split; [done | lia]|].
  assert (p < len) by (destruct (decide (p = len)); [tauto | lia]).
  case_bool_decide; [apply group_ok; [done..|lia]|].
  apply twp_andthen, twp_read. destruct (op_is UNOP _); [by apply unop_ok | by apply operand_ok].
Qed.

Lemma all_return fuel : returns_o fuel /\ returns_a fuel /\ returns_n fuel /\ returns_p fuel.
Proof.
  induction fuel as [|fuel (Ho & Ha & Hn & Hp)].
  - repeat split; intros n p s [Hat _] Hf; pose proof (aw_range _ _ Hat); lia.
  - split; [by apply oexpr_ok|]. split; [by apply aexpr_ok|].
    split; [by apply nexpr_ok | by apply primary_ok].
Qed.

Lemma expression_ok fuel s : at_word 0 (st s) -> 4 * len + 4 <= Z.of_nat fuel ->
  twp (expression args fuel) e s (fun _ _ => True).
Proof.
  intros Hat Hf. unfold expression. apply twp_andthen, (word_ok _ 0); [done | lia|].
  destruct (word_some (0 + 0)) as [w ->]; [lia|].
  apply twp_andthen, (t_lex_ok _ 0); [done..|]. intros n s1 H1 Hn _.
  apply twp_andthen. eapply twp_wand.
  { apply (proj1 (all_return fuel) n 0); [|lia]. split; [done|]. rewrite Hn. split; [done | lia]. }
  intros b s2 (p & Hp & _). apply twp_assign, twp_andthen, twp_read.
  destruct (0 <? _) eqn:E; [|by apply twp_val].
  destruct Hp as [Hp Hn2 Hr]. apply twp_andthen. unfold word. apply twp_andthen, twp_read.
  unfold word_at. cbn. rewrite Hp. replace ((0 <=? p + 0) && (p + 0 <=? len)) with true by lia.
  apply twp_val, twp_syntax.
Qed.
End Words.

Lemma bracket_shorter name args l :
  bracket name args = Some l -> (length l <= length args)%nat.
Proof.
  unfold bracket. repeat case_match; intros; simplify_eq; rewrite ?length_take; lia.
Qed.

Lemma test_main_ok fuel name args e s : (4 * length args + 4 <= fuel)%nat ->
  twp (test_main fuel name args) e s (fun z _ => z = 0 \/ z = 1).
Proof.
  intros Hf. unfold test_main. destruct (bracket name args) as [l|] eqn:Hb; [|apply twp_error].
  apply bracket_shorter in Hb. destruct l as [|w l]; [by right|].
  do 2 apply twp_assign. apply twp_andthen. eapply twp_wand.
  - apply expression_ok; [cbn; lia | split; cbn; lia | lia].
  - intros [] s' _; apply twp_val; auto.
Qed.

(** C34. Termination and safety of [test] and [\[]: with any arguments, four units of
    fuel per argument and four more are enough, and whatever the files are, the
    command ends with status 0 or 1 or after an error message; it reads neither
    outside the array of arguments nor through a NULL pointer, and does not come
    to [abort]. *)
Theorem test_returns fuel name args e s : (4 * length args + 4 <= fuel)%nat ->
  (test_main fuel name args e s).1 ∈ [Val 0; Val 1; Exited].
Proof.
  intros Hf. pose proof (test_main_ok fuel name args e s Hf) as H. unfold twp, wp in H.
  destruct (test_main fuel name args e s) as [[z| | |] s']; cbn in *; [|set_solver|done..].
  destruct H as [-> | ->]; set_solver.
Qed.

(** Operators where operands should be, and a parenthesis that is not closed *)
Lemma test_returns_witness :
  (test_main 20 "test" ["-a"; "!"; "("; "-r"] (fun _ _ => answer 0) (Sys _ _ (TestVars 0 0 None) [])).1
    ∈ [Val 0; Val 1; Exited].
Proof. apply test_returns. cbn. lia. Defined.
