(* ===== verification/TestExpr.v ===== *)
(** * [test]: the grammar and its meaning

    The grammar that the comment of [src/motobox/test.c] gives, as trees; the words
    of a tree and its meaning.  The meaning of a tree makes the calls of its
    operators from left to right, without cutting [-a] and [-o] short.  On the words
    of a tree [test] does what the tree means. *)

From S2P Require Import Prelude.
From S2P Require Import CString.
From S2P Require Import MotoBox.
From S2P Require Import TestCmd.
From S2P Require Import TestThms.
From Stdlib Require Import Ascii.

(** ** The grammar *)

Inductive oexp :=
  | OOne (a : aexp)
  | OOr (a : aexp) (o : oexp)                              (* a -o o *)
with aexp :=
  | AOne (n : nexp)
  | AAnd (n : nexp) (a : aexp)                             (* n -a a *)
with nexp :=
  | NOne (p : prim)
  | NNot (n : nexp)                                        (* ! n *)
with prim :=
  | POperand (w : string)
  | PUnary (op : t_op) (w : string)
  | PBinary (w1 : string) (op : t_op) (w2 : string)
  | PGroup (o : oexp).                                     (* ( o ) *)

Scheme oexp_mut := Induction for oexp Sort Prop
  with aexp_mut := Induction for aexp Sort Prop
  with nexp_mut := Induction for nexp Sort Prop
  with prim_mut := Induction for prim Sort Prop.
Combined Scheme exp_ind from oexp_mut, aexp_mut, nexp_mut, prim_mut.

Fixpoint owords (o : oexp) : list string :=
  match o with
  | OOne a => awords a
  | OOr a o => awords a ++ "-o" :: owords o
  end
with awords (a : aexp) : list string :=
  match a with
  | AOne n => nwords n
  | AAnd n a => nwords n ++ "-a" :: awords a
  end
with nwords (n : nexp) : list string :=
  match n with
  | NOne p => pwords p
  | NNot n => "!" :: nwords n
  end
with pwords (p : prim) : list string :=
  match p with
  | POperand w => [w]
  | PUnary op w => [op_text op; w]
  | PBinary w1 op w2 => [w1; op_text op; w2]
  | PGroup o => "(" :: owords o ++ [")"]
  end.

(** A word that is no operator *)
Definition plain (w : string) : Prop := find_op ops w = None.

(** Operators of the right kind, words that are not taken for operators.  The second
    operand of a binary operator may be any word. *)
Fixpoint owf (o : oexp) : Prop :=
  match o with
  | OOne a => awf a
  | OOr a o => awf a /\ owf o
  end
with awf (a : aexp) : Prop :=
  match a with
  | AOne n => nwf n
  | AAnd n a => nwf n /\ awf a
  end
with nwf (n : nexp) : Prop :=
  match n with
  | NOne p => pwf p
  | NNot n => nwf n
  end
with pwf (p : prim) : Prop :=
  match p with
  | POperand w => plain w
  | PUnary op w => op ∈ ops /\ op_type op = UNOP /\ plain w
  | PBinary w1 op w2 => plain w1 /\ op ∈ ops /\ op_type op = BINOP
  | PGroup o => owf o
  end.

Fixpoint omeaning (o : oexp) : tst bool :=
  match o with
  | OOne a => ameaning a
  | OOr a o => x <- ameaning a; y <- omeaning o; val (y || x)
  end
with ameaning (a : aexp) : tst bool :=
  match a with
  | AOne n => nmeaning n
  | AAnd n a => x <- nmeaning n; y <- ameaning a; val (y && x)
  end
with nmeaning (n : nexp) : tst bool :=
  match n with
  | NOne p => pmeaning p
  | NNot n => x <- nmeaning n; val (negb x)
  end
with pmeaning (p : prim) : tst bool :=
  match p with
  | POperand w => val (negb (str_eq w ""))
  | PUnary op w => apply_unop (op_num op) w
  | PBinary w1 op w2 => apply_binop (op_num op) w1 w2
  | PGroup o => omeaning o
  end.

(** ** Programs that neither read nor write the variables *)

Class Blind {A} (m : tst A) : Prop := blind : forall e v v' t,
  (m e (Sys _ _ v t)).1 = (m e (Sys _ _ v' t)).1 /\
  tr (m e (Sys _ _ v t)).2 = tr (m e (Sys _ _ v' t)).2 /\
  st (m e (Sys _ _ v t)).2 = v.

#[export] Instance blind_ret {A} (r : result A) : Blind (mret r).
Proof. done. Qed.

#[export] Instance blind_val {A} (a : A) : Blind (val a).
Proof. done. Qed.

#[export] Instance blind_ask c : Blind (ask c).
Proof. done. Qed.

#[export] Instance blind_error {A} text : Blind (@error A text).
Proof. done. Qed.

#[export] Instance blind_andthen {A B} (m : tst A) (k : A -> tst B) :
  Blind m -> (forall a, Blind (k a)) -> Blind (andthen m k).
Proof.
  intros Hm Hk e v v' t. unfold andthen, mbind, prog_bind. specialize (Hm e v v' t).
  destruct (m e (Sys _ _ v t)) as [r [v1 t1]], (m e (Sys _ _ v' t)) as [r' [v2 t2]].
  cbn in Hm. destruct Hm as (-> & -> & ->). destruct r'; try done. apply Hk.
Qed.

Ltac blind :=
  repeat first
    [ apply _
    | apply blind_andthen; [|intros ?]
    | match goal with
      | |- Blind (if ?b then _ else _) => destruct b
      | |- Blind (match ?x with _ => _ end) => destruct x
      end ].

#[export] Instance blind_unop n w : Blind (apply_unop n w).
Proof. unfold apply_unop, getn, filstat, access_ok. blind. Qed.

#[export] Instance blind_binop n w1 w2 : Blind (apply_binop n w1 w2).
Proof. unfold apply_binop, olderf, newerf, equalf, intcmp, getq. blind. Qed.

Lemma meaning_blind :
  (forall o, Blind (omeaning o)) /\ (forall a, Blind (ameaning a)) /\
  (forall n, Blind (nmeaning n)) /\ (forall p, Blind (pmeaning p)).
Proof. apply exp_ind; intros; cbn; blind. Qed.

#[export] Instance omeaning_blind o : Blind (omeaning o).
Proof. apply meaning_blind. Qed.
#[export] Instance ameaning_blind a : Blind (ameaning a).
Proof. apply meaning_blind. Qed.
#[export] Instance nmeaning_blind n : Blind (nmeaning n).
Proof. apply meaning_blind. Qed.
#[export] Instance pmeaning_blind p : Blind (pmeaning p).
Proof. apply meaning_blind. Qed.

(** ** Running on the words of a tree *)

Section Words.
Context (e : env test_call) (args : list string).
Abbreviation len := (Z.of_nat (length args)).

(** At position [p], with the operator and the trace so far *)
Definition pos (p : Z) (op : option t_op) t : sys test_call test_vars :=
  Sys _ _ (TestVars p (len - p) op) t.

(** The run of [m] has the outcome and the calls of [ev]; it ends at position [q]. *)
Definition sim (m ev : tst bool) (q : Z) (s : sys test_call test_vars) : Prop :=
  (m e s).1 = (ev e s).1 /\ tr (m e s).2 = tr (ev e s).2 /\
  forall b, (ev e s).1 = Val b -> exists op, (m e s).2 = pos q op (tr (ev e s).2).

Lemma sim_val b q op t : sim (val b) (val b) q (pos q op t).
Proof. split; [done|]. split; [done|]. intros _ _. by exists op. Qed.

(** A program that leaves the variables alone does what it does. *)
Lemma sim_self ev q op t : Blind ev -> sim ev ev q (pos q op t).
Proof.
  intros Hev. split; [done|]. split; [done|]. intros _ _. exists op.
  destruct (Hev e (TestVars q (len - q) op) (TestVars q (len - q) op) t) as (_ & _ & B).
  fold (pos q op t) in B. destruct (ev e (pos q op t)) as [r [v' t']]. cbn in *. by subst v'.
Qed.

(** A run that moves on and then does what [ev] does *)
Lemma sim_jump m ev q p op op' t : Blind ev ->
  m e (pos p op t) = ev e (pos q op' t) -> sim m ev q (pos p op t).
Proof.
  intros Hev Hm. unfold sim. rewrite Hm.
  destruct (Hev e (TestVars p (len - p) op) (TestVars q (len - q) op') t) as (B1 & B2 & _).
  unfold pos in *. rewrite B1, B2. by apply sim_self.
Qed.

Lemma sim_bind m ev k kv q q' s : (forall b, Blind (kv b)) -> sim m ev q s ->
  (forall b op t, sim (k b) (kv b) q' (pos q op t)) ->
  sim (andthen m k) (andthen ev kv) q' s.
Proof.
  intros Hkv (Hr & Ht & Hq) Hk. unfold sim, andthen, mbind, prog_bind.
  destruct (m e s) as [r s1], (ev e s) as [r' [v0 t0]]. cbn in Hr, Ht, Hq. subst r'.
  destruct r as [b| | |]; [|done..].
  destruct (Hq b eq_refl) as [op ->]. destruct (Hk b op t0) as (Er & Et & Eq).
  destruct (Hkv b e (TestVars q (len - q) op) v0 t0) as (B1 & B2 & _). fold (pos q op t0) in B1, B2.
  rewrite <- B1, <- B2. done.
Qed.

Lemma andthen_val (m : tst bool) s : andthen m val e s = m e s.
Proof.
  unfold andthen, mbind, prog_bind. by destruct (m e s) as [[] s'].
Qed.

(** Nothing more to evaluate after [m] *)
Lemma sim_last m ev k q q' s : sim m ev q s ->
  (forall b op t, sim (k b) (val b) q' (pos q op t)) -> sim (andthen m k) ev q' s.
Proof.
  intros Hm Hk. unfold sim. rewrite <- (andthen_val ev s). by apply (sim_bind _ _ _ _ q).
Qed.

(** A step that only moves the position *)
Lemma sim_step {A} (m : tst A) k ev a q p op op' p' t : Blind ev ->
  m e (pos p op t) = (Val a, pos p' op' t) ->
  sim (k a) ev q (pos p' op' t) -> sim (andthen m k) ev q (pos p op t).
Proof.
  intros Hev Hm (Hr & Ht & Hq). unfold sim, andthen, mbind, prog_bind. rewrite Hm.
  destruct (Hev e (TestVars p (len - p) op) (TestVars p' (len - p') op') t) as (B1 & B2 & _).
  unfold pos in *. by rewrite B1, B2.
Qed.

(** The words from position [p] on *)
Definition from (p : Z) (l : list string) : Prop := 0 <= p /\ drop (Z.to_nat p) args = l.

Lemma from_len p l : from p l -> l <> [] -> len = p + Z.of_nat (length l).
Proof.
  intros [Hp <-] Hne. rewrite length_drop.
  destruct (decide (Z.to_nat p < length args)%nat); [lia|].
  rewrite drop_ge in Hne by lia. done.
Qed.

Lemma from_word p w l : from p (w :: l) -> args !! Z.to_nat p = Some w.
Proof.
  intros [Hp Hd]. rewrite <- (Nat.add_0_r (Z.to_nat p)), <- lookup_drop, Hd. done.
Qed.

Lemma from_app p l1 l2 : from p (l1 ++ l2) -> from (p + Z.of_nat (length l1)) l2.
Proof.
  intros [Hp Hd]. split; [lia|]. rewrite Z2Nat.inj_add, Nat2Z.id, <- drop_drop, Hd by lia.
  by rewrite drop_app_length.
Qed.

Lemma from_cons p w l : from p (w :: l) -> from (p + 1) l.
Proof. apply (from_app p [w]). Qed.

Lemma word_pos i p op t :
  word args i e (pos p op t) =
    (match word_at args (p + i) with Some w => Val w | None => Fault end, pos p op t).
Proof.
  change (word args i e (pos p op t)) with
    ((match word_at args (p + i) with Some w => val w | None => mret Fault end) e (pos p op t)).
  by destruct (word_at args (p + i)).
Qed.

Lemma word_at_pos p op t i l1 w l : from p (l1 ++ w :: l) -> i = Z.of_nat (length l1) ->
  word args i e (pos p op t) = (Val (Some w), pos p op t).
Proof.
  intros Hf ->. pose proof (from_app _ _ _ Hf) as Hw. pose proof (from_word _ _ _ Hw) as E.
  apply from_len in Hw; [|done]. destruct Hf as [Hp _]. cbn [length] in Hw.
  rewrite word_pos. unfold word_at. rewrite E. by replace (_ && _) with true by lia.
Qed.

Lemma next_pos p op t : p < len ->
  next args e (pos p op t) = word args 0 e (pos (p + 1) op t).
Proof.
  intros Hp.
  change (next args e (pos p op t)) with
    ((if 0 <? len - p then
        assign (fun v => v <| nargc := nargc v - 1 |>) ;;
        assign (fun v => v <| t_wp := t_wp v + 1 |>) ;;
        word args 0
      else val None) e (pos p op t)).
  replace (0 <? len - p) with true by lia.
  change (word args 0 e (Sys _ _ (TestVars (p + 1) (len - p - 1) op) t) =
    word args 0 e (pos (p + 1) op t)).
  unfold pos. do 3 f_equal. lia.
Qed.

Lemma next_some p op t w0 w l : from p (w0 :: w :: l) ->
  next args e (pos p op t) = (Val (Some w), pos (p + 1) op t).
Proof.
  intros Hf. pose proof (from_len _ _ Hf) as Hl. cbn [length] in Hl.
  rewrite next_pos by (specialize (Hl ltac:(done)); lia).
  apply from_cons in Hf. by apply (word_at_pos _ _ _ _ [] _ l).
Qed.

Lemma next_none p op t w0 : from p [w0] ->
  next args e (pos p op t) = (Val None, pos (p + 1) op t).
Proof.
  intros Hf. pose proof (from_len _ _ Hf ltac:(done)) as Hl. cbn [length] in Hl.
  destruct Hf as [Hp _]. rewrite next_pos, word_pos by lia. unfold word_at.
  replace (_ && _) with true by lia. by rewrite lookup_ge_None_2 by lia.
Qed.

(** *** Lexing *)

Lemma andthen_step {A B} (m : tst A) (k : A -> tst B) a s s' :
  m e s = (Val a, s') -> andthen m k e s = k a e s'.
Proof. intros H. unfold andthen, mbind, prog_bind. by rewrite H. Qed.

Lemma andthen_run {A B} (m : tst A) (k : A -> tst B) s :
  andthen m k e s =
    match m e s with
    | (Val a, s') => k a e s'
    | (Exited, s') => (Exited, s')
    | (Fault, s') => (Fault, s')
    | (NoFuel, s') => (NoFuel, s')
    end.
Proof. unfold andthen, mbind, prog_bind. by destruct (m e s) as [[] s']. Qed.

Lemma t_lex_end p op t : t_lex args None e (pos p op t) = (Val EOI, pos p None t).
Proof. done. Qed.

Lemma t_lex_plain w p op t : plain w ->
  t_lex args (Some w) e (pos p op t) = (Val OPERAND, pos p None t).
Proof. intros Hw. unfold t_lex. by rewrite Hw. Qed.

Lemma t_lex_op o p op t : o ∈ ops -> op_type o <> UNOP -> op_num o <> LPAREN ->
  t_lex args (Some (op_text o)) e (pos p op t) = (Val (op_num o), pos p (Some o) t).
Proof. intros. by rewrite t_lex_operator. Qed.

Lemma isoperand_plain p op t w0 w l : from p (w0 :: w :: l) -> plain w ->
  isoperand args e (pos p op t) = (Val false, pos p op t).
Proof.
  intros Hf Hw. pose proof (from_len _ _ Hf ltac:(done)) as Hl. cbn [length] in Hl.
  unfold isoperand. rewrite (andthen_step _ _ (len - p) _ (pos p op t)) by done.
  replace (len - p =? 1) with false by lia.
  destruct (len - p =? 2) eqn:E; [done|]. destruct l as [|w2 l]; [cbn in Hl; lia|].
  erewrite andthen_step by (eapply (word_at_pos _ _ _ _ [w0]); [exact Hf | done]).
  erewrite andthen_step by (eapply (word_at_pos _ _ _ _ [w0; w]); [exact Hf | done]).
  rewrite (andthen_step _ _ w _ (pos p op t)) by done. by rewrite Hw.
Qed.

Lemma t_lex_unary o w l p op t : o ∈ ops -> op_type o = UNOP -> plain w ->
  from p (op_text o :: w :: l) ->
  t_lex args (Some (op_text o)) e (pos p op t) = (Val (op_num o), pos p (Some o) t).
Proof.
  intros Ho Hty Hw Hf. cbn [t_lex]. rewrite find_op_text, Hty by done.
  rewrite bool_decide_eq_true_2 by done.
  by erewrite andthen_step by (by eapply isoperand_plain).
Qed.

Definition open_paren : t_op := TOp "(" LPAREN PAREN.
Definition close_paren : t_op := TOp ")" RPAREN PAREN.

Lemma t_lex_open w l p op t : from p ("(" :: w :: l) ->
  t_lex args (Some "(") e (pos p op t) = (Val LPAREN, pos p (Some open_paren) t).
Proof.
  intros Hf. pose proof (from_len _ _ Hf ltac:(done)) as Hl. cbn [length] in Hl.
  cbn [t_lex]. replace (find_op ops "(") with (Some open_paren) by done.
  rewrite bool_decide_eq_false_2, bool_decide_eq_true_2 by done.
  erewrite andthen_step; [|erewrite andthen_step by done; done].
  change (nargc (st (pos p op t))) with (len - p). by replace (len - p =? 1) with false by lia.
Qed.

(** The first token of a tree, and its operator *)
Definition nlead (n : nexp) : test_token * option t_op :=
  match n with
  | NOne (POperand _) | NOne (PBinary _ _ _) => (OPERAND, None)
  | NOne (PUnary op _) => (op_num op, Some op)
  | NOne (PGroup _) => (LPAREN, Some open_paren)
  | NNot _ => (UNOT, Some (TOp "!" UNOT BUNOP))
  end.
Definition alead (a : aexp) := match a with AOne n | AAnd n _ => nlead n end.
Definition olead (o : oexp) := match o with OOne a | OOr a _ => alead a end.

Lemma unary_token o : o ∈ ops -> op_type o = UNOP ->
  op_num o ∉ [EOI; UNOT; LPAREN; RPAREN].
Proof.
  intros Hop Hty.
  repeat (apply elem_of_cons in Hop as [-> | Hop]; [first [done | apply (bool_decide_unpack _); by vm_compute]|]).
  by apply not_elem_of_nil in Hop.
Qed.

Lemma nlead_lex n l p op t : nwf n -> from p (nwords n ++ l) ->
  exists w r, nwords n = w :: r /\
    t_lex args (Some w) e (pos p op t) = (Val (nlead n).1, pos p (nlead n).2 t).
Proof.
  destruct n as [[w|o w|w1 o w2|o]|n]; cbn; intros Hwf Hf; do 2 eexists; (split; [done|]).
  - by apply t_lex_plain.
  - destruct Hwf as (? & ? & ?). by eapply t_lex_unary.
  - destruct Hwf as (? & ? & ?). by apply t_lex_plain.
  - destruct (owords o) as [|w r]; cbn in Hf; by eapply t_lex_open.
  - apply (t_lex_op (TOp "!" UNOT BUNOP)); [set_solver | done | done].
Qed.

(** Going on to a tree that begins at the next word *)
Lemma lex_next_word w0 w l p op op' tok t : from p (w0 :: w :: l) ->
  t_lex args (Some w) e (pos (p + 1) op t) = (Val tok, pos (p + 1) op' t) ->
  lex_next args e (pos p op t) = (Val tok, pos (p + 1) op' t).
Proof.
  intros Hf Hlex. unfold lex_next. by erewrite andthen_step by (by eapply next_some).
Qed.

Lemma lex_next_n w0 n l p op t : nwf n -> from p (w0 :: nwords n ++ l) ->
  lex_next args e (pos p op t) = (Val (nlead n).1, pos (p + 1) (nlead n).2 t).
Proof.
  intros Hwf Hf. destruct (nlead_lex n l (p + 1) op t) as (w & r & Hw & Hl); [done | by eapply from_cons|].
  rewrite Hw in Hf. by eapply lex_next_word.
Qed.

Lemma lex_next_a w0 a l p op t : awf a -> from p (w0 :: awords a ++ l) ->
  lex_next args e (pos p op t) = (Val (alead a).1, pos (p + 1) (alead a).2 t).
Proof.
  destruct a as [n|n a]; cbn; [apply lex_next_n|]. intros [Hn _]. rewrite <- app_assoc.
  by apply lex_next_n.
Qed.

Lemma lex_next_o w0 o l p op t : owf o -> from p (w0 :: owords o ++ l) ->
  lex_next args e (pos p op t) = (Val (olead o).1, pos (p + 1) (olead o).2 t).
Proof.
  destruct o as [a|a o]; cbn; [apply lex_next_a|]. intros [Ha _]. rewrite <- app_assoc.
  by apply lex_next_a.
Qed.

Lemma olead_lex o l p op t : owf o -> from p (owords o ++ l) ->
  exists w r, owords o = w :: r /\
    t_lex args (Some w) e (pos p op t) = (Val (olead o).1, pos p (olead o).2 t).
Proof.
  intros Hwf Hf.
  assert (exists n r, owords o = nwords n ++ r /\ olead o = nlead n /\ nwf n) as (n & r & E & -> & Hn).
  { destruct o as [[n|n a]|[n|n a] o]; cbn in *; exists n;
      [exists [] | exists ("-a" :: awords a) | exists ("-o" :: owords o)
      | exists ("-a" :: awords a ++ "-o" :: owords o)];
      (split; [by rewrite ?app_nil_r, <- ?app_assoc | tauto]). }
  rewrite E, <- app_assoc in Hf. destruct (nlead_lex n _ p op t Hn Hf) as (w & r' & Hw & Hl).
  exists w, (r' ++ r). by rewrite E, Hw.
Qed.

(** *** What may come after a tree *)

Definition follow (toks : list test_token) (l : list string) : Prop :=
  l = [] \/ exists o r, l = op_text o :: r /\ o ∈ ops /\ op_num o ∈ toks /\
    op_type o <> UNOP /\ op_type o <> BINOP /\ op_num o <> LPAREN.

Lemma lex_next_follow toks w0 l p op t : from p (w0 :: l) -> follow toks l ->
  exists tok op', lex_next args e (pos p op t) = (Val tok, pos (p + 1) op' t) /\
    (tok = EOI \/ tok ∈ toks).
Proof.
  intros Hf [-> | (o & r & -> & Ho & Htok & Hu & Hb & Hp)].
  - exists EOI, None. split; [|by left]. unfold lex_next.
    by erewrite andthen_step by (by eapply next_none).
  - exists (op_num o), (Some o). split; [|by right]. eapply lex_next_word; [done|].
    by apply t_lex_op.
Qed.

(** Looking at the word after an operand: it is no binary operator. *)
Lemma lookahead_run w toks l p op t : from p (w :: l) -> follow toks l ->
  exists w' tok op', word args 1 e (pos p op t) = (Val w', pos p op t) /\
    t_lex args w' e (pos p op t) = (Val tok, pos p op' t) /\ op_is BINOP op' = false.
Proof.
  intros Hf [-> | (o & r & -> & Ho & Htok & Hu & Hb & Hp)].
  - exists None, EOI, None. split; [|done]. pose proof (from_len _ _ Hf ltac:(done)) as Hl.
    destruct Hf as [H0 _]. cbn [length] in Hl. rewrite word_pos. unfold word_at.
    replace (_ && _) with true by lia. by rewrite lookup_ge_None_2 by lia.
  - exists (Some (op_text o)), (op_num o), (Some o). split; [|split].
    + by apply (word_at_pos _ _ _ _ [w] _ r).
    + by apply t_lex_op.
    + by apply bool_decide_eq_false_2.
Qed.

Lemma back_pos p op t : back e (pos (p + 1) op t) = (Val tt, pos p op t).
Proof.
  change (back e (pos (p + 1) op t)) with
    (@Val unit tt, Sys _ _ (TestVars (p + 1 - 1) (len - (p + 1) + 1) op) t).
  unfold pos. do 3 f_equal; lia.
Qed.

(** The end of a chain: the next token is not its operator. *)
Lemma chain_end toks tok (X : tst bool) res w0 l p op t : from p (w0 :: l) -> follow toks l ->
  tok ∉ EOI :: toks ->
  sim (n <- lex_next args; if bool_decide (n = tok) then X else (_ <- back; val res))
    (val res) p (pos p op t).
Proof.
  intros Hf Hfo Htok. destruct (lex_next_follow toks w0 l p op t Hf Hfo) as (n & o & Hl & Hn).
  eapply sim_step; [apply _ | exact Hl|]. rewrite bool_decide_eq_false_2 by set_solver.
  eapply sim_step; [apply _ | apply back_pos | apply sim_val].
Qed.

(** The chain goes on: the operator is read. *)
Lemma chain_go o (k : tst bool) (Y ev : tst bool) w0 l q p op t : Blind ev ->
  from p (w0 :: op_text o :: l) -> o ∈ ops -> op_type o <> UNOP -> op_num o <> LPAREN ->
  sim k ev q (pos (p + 1) (Some o) t) ->
  sim (n <- lex_next args; if bool_decide (n = op_num o) then k else Y) ev q (pos p op t).
Proof.
  intros Hev Hf Ho Hu Hp Hk. eapply sim_step; [done | |].
  - eapply lex_next_word; [done|]. by apply t_lex_op.
  - by rewrite bool_decide_eq_true_2.
Qed.

Lemma chain_more o c (first : tst bool) (self : test_token -> tst bool) (Y : bool -> tst bool)
    evx evy tok op' w0 l q1 q2 s :
  o ∈ ops -> op_type o <> UNOP -> op_num o <> LPAREN -> Blind evy ->
  sim first evx q1 s -> from q1 (w0 :: op_text o :: l) ->
  (forall op t, lex_next args e (pos (q1 + 1) op t) = (Val tok, pos (q1 + 1 + 1) op' t)) ->
  (forall t, sim (self tok) evy q2 (pos (q1 + 1 + 1) op' t)) ->
  sim (res <- first;
       n <- lex_next args;
       if bool_decide (n = op_num o) then
         (n <- lex_next args; r <- self n; val (c r res : bool))
       else Y res)
    (x <- evx; y <- evy; val (c y x)) q2 s.
Proof.
  intros Ho Hu Hp Hy Hf Hfrom Hlex Hself. eapply sim_bind; [intros; apply _ | exact Hf|].
  intros b op t. eapply chain_go; [apply _ | exact Hfrom | done..|].
  eapply sim_step; [apply _ | apply Hlex|].
  eapply sim_bind; [intros; apply _ | apply Hself|]. intros; apply sim_val.
Qed.

(** *** The four functions *)

Lemma words_nonempty :
  (forall o, owords o <> []) /\ (forall a, awords a <> []) /\
  (forall n, nwords n <> []) /\ (forall p, pwords p <> []).
Proof.
  apply exp_ind; intros; cbn; try done;
    match goal with |- ?l ++ _ <> _ => by destruct l end.
Qed.

Definition owords_ne := proj1 words_nonempty.
Definition awords_ne := proj1 (proj2 words_nonempty).
Definition nwords_ne := proj1 (proj2 (proj2 words_nonempty)).
Definition pwords_ne := proj2 (proj2 (proj2 words_nonempty)).

(** The last word of a tree *)
Lemma from_last p l1 l2 : from p (l1 ++ l2) -> l1 <> [] ->
  exists w, from (p + Z.of_nat (length l1) - 1) (w :: l2).
Proof.
  intros Hf Hne. destruct (exists_last Hne) as (l & w & ->). exists w.
  rewrite <- app_assoc in Hf. apply from_app in Hf. rewrite length_app. cbn [length].
  by replace (p + _ - 1) with (p + Z.of_nat (length l)) by lia.
Qed.

Lemma follow_mono toks toks' l : (forall n, n ∈ toks -> n ∈ toks') -> follow toks l -> follow toks' l.
Proof.
  intros Hs [-> | (o & r & -> & ? & ? & ?)]; [by left | right]. exists o, r. by auto.
Qed.

Lemma follow_op o r toks : o ∈ ops -> op_num o ∈ toks -> op_type o ∈ [BBINOP; PAREN] ->
  op_num o <> LPAREN -> follow toks (op_text o :: r).
Proof.
  intros ? ? Hty ?. right. exists o, r.
  repeat split; try done; intros E; rewrite E in Hty; set_solver.
Qed.

(** Fuel, in units per word that is left, as in [returns] *)
Definition enough (extra p : Z) (fuel : nat) : Prop := 4 * (len - p) + extra <= Z.of_nat fuel.

Definition osim o := forall l p fuel t, owf o -> from p (owords o ++ l) ->
  follow [RPAREN] l -> enough 4 p fuel ->
  sim (oexpr args fuel (olead o).1) (omeaning o) (p + Z.of_nat (length (owords o)) - 1)
    (pos p (olead o).2 t).

Definition asim a := forall l p fuel t, awf a -> from p (awords a ++ l) ->
  follow [RPAREN; BOR] l -> enough 3 p fuel ->
  sim (aexpr args fuel (alead a).1) (ameaning a) (p + Z.of_nat (length (awords a)) - 1)
    (pos p (alead a).2 t).

Definition nsim n := forall l p fuel t, nwf n -> from p (nwords n ++ l) ->
  follow [RPAREN; BOR; BAND] l -> enough 2 p fuel ->
  sim (nexpr args fuel (nlead n).1) (nmeaning n) (p + Z.of_nat (length (nwords n)) - 1)
    (pos p (nlead n).2 t).

Definition psim x := forall l p fuel t, pwf x -> from p (pwords x ++ l) ->
  follow [RPAREN; BOR; BAND] l -> enough 1 p fuel ->
  sim (primary args fuel (nlead (NOne x)).1) (pmeaning x) (p + Z.of_nat (length (pwords x)) - 1)
    (pos p (nlead (NOne x)).2 t).

(** There is a unit of fuel for a tree. *)
Lemma enough_S extra p l1 l2 fuel : from p (l1 ++ l2) -> l1 <> [] -> 0 <= extra ->
  enough extra p fuel -> exists k, fuel = S k.
Proof.
  intros Hf Hne Hx He. pose proof (from_len _ _ Hf) as Hl. unfold enough in He.
  destruct fuel as [|k]; [|by exists k]. destruct l1; [done|]. specialize (Hl ltac:(done)).
  cbn [app length] in Hl. lia.
Qed.

Lemma osim_one a : asim a -> osim (OOne a).
Proof.
  intros Ha l p fuel t Hwf Hf Hl Hfu. cbn in Hwf, Hf.
  destruct (from_last _ _ _ Hf (awords_ne a)) as [w Hw].
  destruct (enough_S 4 p _ _ fuel Hf (awords_ne a)) as [k ->]; [done | done |].
  eapply sim_last.
  - apply (Ha l); [done | done | eapply follow_mono, Hl; set_solver | unfold enough in *; lia].
  - intros b op t'. eapply chain_end; [exact Hw | exact Hl | set_solver].
Qed.

Lemma osim_or a o : asim a -> osim o -> osim (OOr a o).
Proof.
  intros Ha Ho l p fuel t [Hwa Hwo] Hf Hl Hfu. cbn [owords] in Hf |- *. rewrite <- app_assoc in Hf.
  destruct (from_last _ _ _ Hf (awords_ne a)) as [w Hw].
  destruct (enough_S 4 p _ _ fuel Hf (awords_ne a)) as [k ->]; [done | done |].
  set (q := p + Z.of_nat (length (awords a)) - 1) in *.
  assert (0 <= p) by apply Hf. rewrite length_app. cbn [length].
  eapply (chain_more (TOp "-o" BOR BBINOP) orb); [set_solver | done | done | apply _ | ..].
  - apply (Ha (["-o"] ++ owords o ++ l)); [done | done | | unfold enough in *; lia].
    apply (follow_op (TOp "-o" BOR BBINOP)); set_solver.
  - exact Hw.
  - intros op t'. eapply lex_next_o; [done | by eapply from_cons].
  - intros t'. replace (p + _ - 1) with (q + 1 + 1 + Z.of_nat (length (owords o)) - 1) by lia.
    assert (awords a <> []) by apply awords_ne.
    apply (Ho l); [done | by do 2 eapply from_cons | done |].
    unfold enough in *. destruct (awords a); [done|]. cbn [length] in q. lia.
Qed.

Lemma asim_one n : nsim n -> asim (AOne n).
Proof.
  intros Hn l p fuel t Hwf Hf Hl Hfu. cbn in Hwf, Hf.
  destruct (from_last _ _ _ Hf (nwords_ne n)) as [w Hw].
  destruct (enough_S 3 p _ _ fuel Hf (nwords_ne n)) as [k ->]; [done | done |].
  eapply sim_last.
  - apply (Hn l); [done | done | eapply follow_mono, Hl; set_solver | unfold enough in *; lia].
  - intros b op t'. eapply chain_end; [exact Hw | exact Hl | set_solver].
Qed.

Lemma asim_and n a : nsim n -> asim a -> asim (AAnd n a).
Proof.
  intros Hn Ha l p fuel t [Hwn Hwa] Hf Hl Hfu. cbn [awords] in Hf |- *. rewrite <- app_assoc in Hf.
  destruct (from_last _ _ _ Hf (nwords_ne n)) as [w Hw].
  destruct (enough_S 3 p _ _ fuel Hf (nwords_ne n)) as [k ->]; [done | done |].
  set (q := p + Z.of_nat (length (nwords n)) - 1) in *.
  assert (0 <= p) by apply Hf. rewrite length_app. cbn [length].
  eapply (chain_more (TOp "-a" BAND BBINOP) andb); [set_solver | done | done | apply _ | ..].
  - apply (Hn (["-a"] ++ awords a ++ l)); [done | done | | unfold enough in *; lia].
    apply (follow_op (TOp "-a" BAND BBINOP)); set_solver.
  - exact Hw.
  - intros op t'. eapply lex_next_a; [done | by eapply from_cons].
  - intros t'. replace (p + _ - 1) with (q + 1 + 1 + Z.of_nat (length (awords a)) - 1) by lia.
    assert (nwords n <> []) by apply nwords_ne.
    apply (Ha l); [done | by do 2 eapply from_cons | done |].
    unfold enough in *. destruct (nwords n); [done|]. cbn [length] in q. lia.
Qed.

Lemma nsim_not n : nsim n -> nsim (NNot n).
Proof.
  intros Hn l p fuel t Hwf Hf Hl Hfu. cbn [nwords nwf app] in *.
  destruct (enough_S 2 p ["!"] _ fuel Hf) as [k ->]; [done.. |]. assert (0 <= p) by apply Hf.
  cbn [nlead fst snd nexpr nmeaning length]. rewrite bool_decide_eq_true_2 by done.
  eapply sim_step; [apply _ | by eapply lex_next_n |].
  replace (p + _ - 1) with (p + 1 + Z.of_nat (length (nwords n)) - 1) by lia.
  eapply sim_bind; [intros; apply _ | | intros; apply sim_val].
  apply (Hn l); [done | by eapply from_cons | done | unfold enough in *; lia].
Qed.

Lemma nsim_one x : psim x -> nsim (NOne x).
Proof.
  intros Hx l p fuel t Hwf Hf Hl Hfu. cbn [nwords nwf] in *.
  destruct (enough_S 2 p _ _ fuel Hf (pwords_ne x)) as [k ->]; [done | done |].
  assert ((nlead (NOne x)).1 <> UNOT) as Hne.
  { destruct x as [|o w| |]; try done. destruct Hwf as (Ho & Hu & _).
    pose proof (unary_token o Ho Hu). cbn. set_solver. }
  cbn [nexpr nmeaning]. rewrite bool_decide_eq_false_2 by done.
  apply (Hx l); [done | done | done | unfold enough in *; lia].
Qed.

Lemma olead_opens o : owf o -> (olead o).1 <> RPAREN.
Proof.
  assert (forall n, nwf n -> (nlead n).1 <> RPAREN) as Hn.
  { intros [[|op w| |]|]; try done. intros (Ho & Hu & _).
    pose proof (unary_token op Ho Hu). cbn. set_solver. }
  destruct o as [[n|n a]|[n|n a] o]; cbn; naive_solver.
Qed.

Lemma psim_group o : osim o -> psim (PGroup o).
Proof.
  intros Ho l p fuel t Hwf Hf Hl Hfu. cbn [pwords pwf app] in *. rewrite <- app_assoc in Hf.
  destruct (enough_S 1 p ["("] _ fuel Hf) as [k ->]; [done.. |]. assert (0 <= p) by apply Hf.
  cbn [nlead fst snd pmeaning length]. rewrite length_app. cbn [length primary].
  rewrite (bool_decide_eq_false_2 (LPAREN = EOI)), (bool_decide_eq_true_2 (LPAREN = LPAREN)) by done.
  eapply sim_step; [apply _ | by eapply lex_next_o |].
  rewrite bool_decide_eq_false_2 by (by apply olead_opens).
  destruct (from_last _ _ _ (from_cons _ _ _ Hf) (owords_ne o)) as [w Hw].
  eapply sim_last.
  - apply (Ho (")" :: l)); [done | by eapply from_cons | | unfold enough in *; lia].
    apply (follow_op close_paren); set_solver.
  - intros b op t'. eapply sim_step; [apply _ | |].
    + eapply lex_next_word; [exact Hw|]. apply (t_lex_op close_paren); [set_solver | done | done].
    + cbn [op_num close_paren]. rewrite bool_decide_eq_true_2 by done.
      replace (p + _ - 1) with (p + 1 + Z.of_nat (length (owords o)) - 1 + 1) by lia.
      apply sim_val.
Qed.

Lemma psim_unary o w : psim (PUnary o w).
Proof.
  intros l p fuel t (Ho & Hu & Hw) Hf Hl Hfu. cbn [pwords app] in Hf.
  destruct (enough_S 1 p [op_text o] _ fuel Hf) as [k ->]; [done.. |].
  pose proof (unary_token o Ho Hu) as Hno. pose proof (from_len _ _ Hf ltac:(done)) as Hlen.
  cbn [length] in Hlen. cbn [nlead fst snd pmeaning length pwords primary].
  rewrite (bool_decide_eq_false_2 (op_num o = EOI)), (bool_decide_eq_false_2 (op_num o = LPAREN))
    by set_solver.
  apply (sim_step _ _ _ (Some o) _ _ _ (Some o) p); [apply _ | done |].
  unfold op_is. rewrite bool_decide_eq_true_2 by done. replace (p + _ - 1) with (p + 1) by lia.
  apply (sim_jump _ _ (p + 1) _ _ (Some o)); [apply _|].
  change ((left <- read nargc; if left =? 0 then syntax (op_text <$> Some o) "argument expected" else
    assign (fun v => v <| t_wp := t_wp v + 1 |>) ;;
    opnd <- word args 0; opnd <- deref opnd; apply_unop (op_num o) opnd) e
      (Sys _ _ (TestVars p (len - p - 1) (Some o)) t) = 
      apply_unop (op_num o) w e (pos (p + 1) (Some o) t)).
  erewrite andthen_step by done. cbn [nargc st]. replace (len - p - 1 =? 0) with false by lia.
  replace (len - p - 1) with (len - (p + 1)) by lia.
  change ((opnd <- word args 0; opnd <- deref opnd; apply_unop (op_num o) opnd) e
      (pos (p + 1) (Some o) t) = apply_unop (op_num o) w e (pos (p + 1) (Some o) t)).
  apply from_cons in Hf.
  erewrite andthen_step by (eapply (word_at_pos _ _ _ _ []); [exact Hf | done]).
  by erewrite andthen_step by done.
Qed.

Lemma binop_run w1 o w2 l p op t : o ∈ ops -> op_type o = BINOP ->
  from p (w1 :: op_text o :: w2 :: l) ->
  binop args e (pos p op t) = apply_binop (op_num o) w1 w2 e (pos (p + 2) (Some o) t).
Proof.
  intros Ho Hty Hf. unfold binop.
  erewrite andthen_step by (eapply (word_at_pos _ _ _ _ []); [exact Hf | done]).
  erewrite andthen_step by (eapply lex_next_word; [exact Hf|];
    apply t_lex_op; [done | by rewrite Hty | by apply op_binary_not_open]).
  erewrite andthen_step by done. apply from_cons in Hf.
  erewrite andthen_step by (by eapply next_some). replace (p + 1 + 1) with (p + 2) by lia.
  cbn [t_wp_op st pos]. by erewrite andthen_step by done.
Qed.

(** The word after an operand is looked at. *)
Lemma psim_operand w : psim (POperand w).
Proof.
  intros l p fuel t Hw Hf Hl Hfu. cbn [pwords app] in Hf.
  destruct (enough_S 1 p [w] _ fuel Hf) as [k ->]; [done.. |].
  pose proof (from_len _ _ Hf ltac:(done)) as Hlen. cbn [length] in Hlen.
  cbn [nlead fst snd pmeaning length pwords primary].
  rewrite !bool_decide_eq_false_2 by done. replace (p + _ - 1) with p by lia.
  apply (sim_step _ _ _ None _ _ _ None p); [apply _ | done |]. cbn [op_is].
  apply (sim_step _ _ _ (len - p) _ _ _ None p); [apply _ | done |].
  replace (0 <? len - p) with true by lia.
  destruct (lookahead_run w _ l p None t Hf Hl) as (w' & n & op' & E1 & E2 & E3).
  eapply sim_step; [apply _ | exact E1 |]. eapply sim_step; [apply _ | exact E2 |].
  eapply sim_step; [apply _ | done |]. cbn [t_wp_op st pos]. rewrite E3.
  eapply sim_step; [apply _ | eapply (word_at_pos _ _ _ _ []); [exact Hf | done] |].
  eapply sim_step; [apply _ | done | apply sim_val].
Qed.

Lemma psim_binary w1 o w2 : psim (PBinary w1 o w2).
Proof.
  intros l p fuel t (Hw & Ho & Hty) Hf Hl Hfu. cbn [pwords app] in Hf.
  destruct (enough_S 1 p [w1] _ fuel Hf) as [k ->]; [done.. |].
  pose proof (from_len _ _ Hf ltac:(done)) as Hlen. cbn [length] in Hlen.
  cbn [nlead fst snd pmeaning length pwords primary].
  rewrite !bool_decide_eq_false_2 by done. replace (p + _ - 1) with (p + 2) by lia.
  apply (sim_step _ _ _ None _ _ _ None p); [apply _ | done |]. cbn [op_is].
  apply (sim_step _ _ _ (len - p) _ _ _ None p); [apply _ | done |].
  replace (0 <? len - p) with true by lia.
  eapply sim_step; [apply _ | eapply (word_at_pos _ _ _ _ [w1]); [exact Hf | done] |].
  eapply sim_step; [apply _ | |].
  { apply t_lex_op; [done | by rewrite Hty | by apply op_binary_not_open]. }
  eapply sim_step; [apply _ | done |]. cbn [t_wp_op st pos op_is].
  rewrite bool_decide_eq_true_2 by done.
  eapply sim_jump; [apply _ | by eapply binop_run].
Qed.

Lemma all_sim : (forall o, osim o) /\ (forall a, asim a) /\ (forall n, nsim n) /\ (forall x, psim x).
Proof.
  apply exp_ind; eauto using osim_one, osim_or, asim_one, asim_and, nsim_one, nsim_not,
    psim_operand, psim_unary, psim_binary, psim_group.
Qed.
End Words.

(** ** The command *)

(** The arguments with which an expression is passed to the command of this name *)
Definition command (name : string) (o : oexp) : list string :=
  if str_eq (base_name name) "[" then owords o ++ ["]"] else owords o.

Definition status (r : result bool) : result Z :=
  match r with
  | Val b => Val (if b : bool then 0 else 1)
  | Exited => Exited
  | Fault => Fault
  | NoFuel => NoFuel
  end.

Lemma bracket_command name o : bracket name (command name o) = Some (owords o).
Proof.
  unfold bracket, command. destruct (str_eq (base_name name) "["); [|done].
  rewrite last_snoc. cbn. rewrite length_app, Nat.add_sub, take_app_length. done.
Qed.

(** At the last word nothing is left over. *)
Lemma expression_end e args (b : bool) q op t : Z.of_nat (length args) - q - 1 <= 0 ->
  (assign (fun v => v <| nargc := nargc v - 1 |>) ;;
   n <- read nargc;
   if 0 <? n then w <- word args 0; syntax w "unexpected operator" else val b) e (pos args q op t) =
  (Val b, Sys _ _ (TestVars q (Z.of_nat (length args) - q - 1) op) t).
Proof.
  intros Hq.
  change ((if 0 <? Z.of_nat (length args) - q - 1 then
      w <- word args 0; syntax w "unexpected operator" else val b) e
    (Sys _ _ (TestVars q (Z.of_nat (length args) - q - 1) op) t) =
    (Val b, Sys _ _ (TestVars q (Z.of_nat (length args) - q - 1) op) t)).
  by replace (0 <? _) with false by lia.
Qed.

Lemma expression_sim fuel o e op t : owf o -> (4 * length (owords o) + 4 <= fuel)%nat ->
  let s := pos (owords o) 0 op t in
  (expression (owords o) fuel e s).1 = (omeaning o e s).1 /\
  tr (expression (owords o) fuel e s).2 = tr (omeaning o e s).2.
Proof.
  intros Hwf Hfu. cbn zeta. set (args := owords o). set (s := pos args 0 op t).
  assert (from args 0 (owords o ++ [])) as Hf by (split; [done|]; by rewrite app_nil_r).
  destruct (olead_lex e args o [] 0 op t Hwf Hf) as (w & r & Hw & Hlex).
  destruct (proj1 (all_sim e args) o [] 0 fuel t) as (Hr & Ht & Hq);
    [done | done | by left | unfold enough, args; lia|].
  unfold expression. rewrite Hw in Hf.
  erewrite andthen_step by (eapply (word_at_pos _ _ _ _ _ _ []); [exact Hf | done]).
  erewrite andthen_step by exact Hlex.
  destruct (blind (m := omeaning o) e (st s) (st (pos args 0 (olead o).2 t)) t) as (B1 & B2 & _).
  change (Sys _ _ (st s) t) with s in *. change (Sys _ _ _ t) with (pos args 0 (olead o).2 t) in *.
  rewrite B1, B2, andthen_run.
  destruct (oexpr args fuel _ e _) as [r1 s1]. cbn [fst snd] in Hr, Ht, Hq. rewrite <- Hr, <- Ht in *.
  destruct r1 as [b| | |]; [|done..]. destruct (Hq b eq_refl) as [op' ->]. fold args.
  rewrite expression_end by lia. done.
Qed.

Lemma test_main_command fuel name o e v t :
  test_main fuel name (command name o) e (Sys _ _ v t) =
  (res <- expression (owords o) fuel; val (if res : bool then 0 else 1)) e
    (pos (owords o) 0 (t_wp_op v) t).
Proof.
  unfold test_main. rewrite bracket_command. pose proof (owords_ne o) as Hne.
  destruct (owords o) as [|w l]; [done|]. unfold pos. by rewrite Z.sub_0_r.
Qed.

(** C7. Refinement of the grammar: called with the words of an expression of the
    grammar whose operands are no operators ([test] as such, [\[] with the closing
    bracket), the command makes exactly the calls of the expression, from left to
    right and without cutting [-a] and [-o] short, and its exit status is the value
    of the expression; [-a] binds tighter than [-o] and [!] tighter than both.  An
    ill-formed number ends both. *)
Theorem test_means fuel name o e s : owf o -> (4 * length (owords o) + 4 <= fuel)%nat ->
  (test_main fuel name (command name o) e s).1 = status (omeaning o e s).1 /\
  tr (test_main fuel name (command name o) e s).2 = tr (omeaning o e s).2.
Proof.
  intros Hwf Hfu. destruct s as [v t].
  destruct (expression_sim fuel o e (t_wp_op v) t Hwf Hfu) as [Hr Ht].
  set (args := owords o) in *. set (v' := TestVars 0 (Z.of_nat (length args) - 0) (t_wp_op v)).
  destruct (blind (m := omeaning o) e v v' t) as (B1 & B2 & _).
  change (Sys _ _ v' t) with (pos args 0 (t_wp_op v) t) in *. rewrite B1, B2, <- Hr, <- Ht.
  rewrite test_main_command. fold args. rewrite andthen_run.
  by destruct (expression args fuel e _) as [[] s'].
Qed.

(** An expression with every connective, and a file f *)
Definition demo_expr : oexp :=
  let un t w := NOne (PUnary t w) in
  OOr (AAnd (NNot (un (TOp "-d" FILDIR UNOP) "f")) (AOne (NOne (PBinary "3" (TOp "-lt" INTLT BINOP) "10"))))
    (OOne (AOne (NOne (PGroup (OOne (AOne (NOne (POperand "word")))))))).

Definition demo_files : env test_call := fun _ c =>
  match c with Stat _ => Resp 0 0 "" [S_IFREG] | _ => answer 0 end.

Lemma test_means_witness :
  let run := test_main 100 "/sbin/[" (command "/sbin/[" demo_expr) demo_files
    (Sys _ _ (TestVars 0 0 None) []) in
  command "/sbin/[" demo_expr = ["!"; "-d"; "f"; "-a"; "3"; "-lt"; "10"; "-o"; "("; "word"; ")"; "]"] /\
  run.1 = Val 0 /\ calls run.2 = [Stat "f"].
Proof.
  cbn zeta. split; [done|]. unfold calls.
  destruct (test_means 100 "/sbin/[" demo_expr demo_files (Sys _ _ (TestVars 0 0 None) [])) as [-> ->].
  - cbn. repeat split; try done; set_solver.
  - cbn. lia.
  - by vm_compute.
Defined.
