(* ===== verification/Motorild.v ===== *)
(** * The radio helper: [src/motorild]

    [motorilc] sends a request to [motorild] over a local socket: a [struct
    motoril_call] of 132 bytes that asks for a route or for full speed when the
    phone rings.  The struct is modelled as its bytes: the command in four bytes,
    the lowest first, and two fields of 64 bytes.  A string that runs out of the
    object it is in is the outcome [Overrun]. *)

From S2P Require Import Prelude.
From S2P Require Import CString.
From Stdlib Require Import Ascii.

Inductive ril_call :=
  | GetControlSocket
  | Listen (fd backlog : Z)
  | Accept (fd : Z)
  | Read (fd len : Z)
  | Write (fd : Z) (data : string)
  | Close (fd : Z)
  | Open (path : string) (flags : Z)
  | Fork
  | Execl (path : string) (argv : list string)
  | Exit (status : Z)
  | Waitpid (pid : Z)                  (* the status is in the answer *)
  | SocketLocalClient
  | Complain (text : string)
  | Print (text : string).

(** The bytes of [struct motoril_call call] of [main] *)
Record ril_vars := RilVars { call_mem : string }.

#[export] Instance eta_ril_vars : Eta ril_vars := fun v => RilVars (call_mem v).

(** How a function ends: it returns; it ends the child process; it reads past the end
    of an object; it needs more fuel *)
Inductive ril_result (A : Type) := Done (a : A) | ChildEnds | Overrun | NoFuel.
Arguments Done {A}.
Arguments ChildEnds {A}.
Arguments Overrun {A}.
Arguments NoFuel {A}.

Abbreviation ril A := (prog ril_call ril_vars (ril_result A)).

Definition MOTORIL_CMD_ROUTE : Z := 0.
Definition MOTORIL_CMD_RING : Z := 1.
Definition sizeof_call : Z := 132.
Definition dev_offset : nat := 4.
Definition gw_offset : nat := 68.

(** The C string at an offset of an object *)
Definition string_at (off : nat) (mem : string) : option string :=
  let s := str_drop off mem in
  if (String.length (c_str s) <? String.length s)%nat then Some (c_str s) else None.

Definition put_bytes (pos : nat) (bytes mem : string) : string :=
  str_take pos mem +:+ bytes +:+ str_drop (pos + String.length bytes) mem.

(** The answer of [read] or [write] to a request of [len] bytes is at most [len]. *)
Definition transferred (len : Z) (r : resp) : Z := Z.min len (r_ret r).
Definition bytes_read (len : Z) (r : resp) : string :=
  buf_bytes (Z.to_nat (transferred len r)) (r_data r).

Definition O_RDONLY : Z := 0.
Definition O_WRONLY : Z := 1.
Definition O_RDWR : Z := 2.

(** ** The server *)

Definition WEXITSTATUS (status : Z) : Z := Z.land (Z.shiftr status 8) 255.

(** [while (waitpid(child, &ret, 0) != child);] *)
Fixpoint wait_child (fuel : nat) (child : Z) : ril Z :=
  match fuel with
  | O => mret NoFuel
  | S fuel =>
      w ← call (Waitpid child);
      if r_ret w =? child then mret (Done (WEXITSTATUS (aux 0 w))) else wait_child fuel child
  end.

Definition set_gw (fuel : nat) (iface gw : string) : ril Z :=
  c ← call Fork;
  if r_ret c <? 0 then mret (Done (-1))
  else if r_ret c =? 0 then
    x ← call (Execl "/system/bin/ip" ["ip"; "route"; "add"; gw; "dev"; iface]);
    when (r_ret x =? -1) (call (Exit 1) ;; mret tt) ;;
    mret ChildEnds
  else wait_child fuel (r_ret c).

Definition FREQUENCIES_PATH : string :=
  "/sys/devices/system/cpu/cpu0/cpufreq/scaling_available_frequencies".
Definition MAXFREQ_PATH : string := "/sys/devices/system/cpu/cpu0/cpufreq/scaling_max_freq".
Definition CPU1_ONLINE_PATH : string := "/sys/devices/system/cpu/cpu1/online".
Definition BOOSTPULSE_PATH : string := "/sys/devices/system/cpu/cpufreq/interactive/boostpulse".

(** The tokens that [strtok(s, " \r\n")] finds one after the other *)
Definition freq_delim (c : ascii) : bool :=
  (c =? " ")%char || (c =? "013")%char || (c =? "010")%char.

Definition one_token (cur : string) : list string := if str_eq cur "" then [] else [cur].

Fixpoint strtok_all (s cur : string) : list string :=
  match s with
  | "" => one_token cur
  | String c s =>
      if freq_delim c then one_token cur ++ strtok_all s ""
      else strtok_all s (cur +:+ String c "")
  end.

(** The last frequency of the list; [buf] has 1024 bytes and starts as zeros. *)
Definition last_token (r : resp) : ril_result (option string) :=
  if 0 <? r_ret r then
    match string_at 0 (put_bytes 0 (bytes_read 1024 r) (buf_bytes 1024 "")) with
    | Some s => Done (last (strtok_all s ""))
    | None => Overrun
    end
  else Done None.

Definition max_freq : ril (option string) :=
  fd ← call (Open FREQUENCIES_PATH O_RDONLY);
  if negb (r_ret fd =? -1) then
    r ← call (Read (r_ret fd) 1024);
    match last_token r with
    | Done m => call (Close (r_ret fd)) ;; mret (Done m)
    | o => mret o
    end
  else mret (Done None).

(** Open a file for writing, write a text, close it. *)
Definition write_file (path text : string) : prog ril_call ril_vars unit :=
  fd ← call (Open path O_WRONLY);
  when (negb (r_ret fd =? -1))
    (call (Write (r_ret fd) text) ;; call (Close (r_ret fd)) ;; mret tt).

Definition cpu1_online : prog ril_call ril_vars unit :=
  fd ← call (Open CPU1_ONLINE_PATH O_RDWR);
  when (negb (r_ret fd =? -1))
    (r ← call (Read (r_ret fd) 1024);
     when ((0 <? r_ret r) && negb (char_at (bytes_read 1024 r) 0 =? "1")%char)
       (call (Write (r_ret fd) "1") ;; mret tt) ;;
     call (Close (r_ret fd)) ;; mret tt).

Definition ring : ril Z :=
  m ← max_freq;
  match m with
  | Done m =>
      match m with Some f => write_file MAXFREQ_PATH f | None => mret tt end ;;
      write_file BOOSTPULSE_PATH "1" ;;
      cpu1_online ;;
      mret (Done 0)
  | ChildEnds => mret ChildEnds
  | Overrun => mret Overrun
  | NoFuel => mret NoFuel
  end.

(** The loop that fills [call]; it answers [pos]. *)
Fixpoint read_call (fuel : nat) (client pos : Z) : ril Z :=
  match fuel with
  | O => mret NoFuel
  | S fuel =>
      r ← call (Read client (sizeof_call - pos));
      let ret := transferred (sizeof_call - pos) r in
      if ret <=? 0 then mret (Done pos)
      else
        modify (fun v => v <| call_mem :=
          put_bytes (Z.to_nat pos) (bytes_read (sizeof_call - pos) r) (call_mem v) |>) ;;
        if pos + ret <? sizeof_call then read_call fuel client (pos + ret)
        else mret (Done (pos + ret))
  end.

(** An unsigned number of four bytes, the lowest first *)
Definition le32 (mem : string) : Z := foldr (fun b n => b + 256 * n) 0 (byte_list (str_take 4 mem)).

(** The [switch] on the command *)
Definition run_command (fuel : nat) (mem : string) : ril Z :=
  if le32 mem =? MOTORIL_CMD_ROUTE then
    match string_at dev_offset mem, string_at gw_offset mem with
    | Some dev, Some gw => set_gw fuel dev gw
    | _, _ => mret Overrun
    end
  else if le32 mem =? MOTORIL_CMD_RING then ring
  else mret (Done 1).

(** The answer to the client after a command *)
Definition reply (client : Z) (m : ril Z) : ril unit :=
  r ← m;
  match r with
  | Done ret =>
      call (Write client (if ret =? 0 then "OK" else "KO")) ;;
      call (Close client) ;;
      mret (Done tt)
  | ChildEnds => mret ChildEnds
  | Overrun => mret Overrun
  | NoFuel => mret NoFuel
  end.

(** One iteration of the loop of [main] *)
Definition motorild_iter (fuel : nat) (fd : Z) : ril unit :=
  client ← call (Accept fd);
  if r_ret client =? -1 then mret (Done tt) else
  p ← read_call (Z.to_nat sizeof_call) (r_ret client) 0;
  match p with
  | Done pos =>
      if pos <? sizeof_call then call (Close (r_ret client)) ;; mret (Done tt)
      else mem ← gets call_mem; reply (r_ret client) (run_command fuel mem)
  | ChildEnds => mret ChildEnds
  | Overrun => mret Overrun
  | NoFuel => mret NoFuel
  end.

Definition motorild_start : prog ril_call ril_vars Z :=
  fd ← call GetControlSocket;
  call (Listen (r_ret fd) 10) ;;
  mret (r_ret fd).

(** ** The client *)

(** [strncpy] of an argument into a field of zeros *)
Definition field (arg : string) : string := buf_bytes 64 (str_take 63 (c_str arg)).

Definition le32_bytes (n : Z) : string :=
  String (ascii_of_N (Z.to_N n)) (buf_bytes 3 "").

(** The bytes of [call] for the arguments *)
Definition request (args : list string) : option string :=
  match args with
  | [a] => if str_eq a "ring" then Some (le32_bytes MOTORIL_CMD_RING +:+ buf_bytes 128 "") else None
  | [a; b] => Some (le32_bytes MOTORIL_CMD_ROUTE +:+ field a +:+ field b)
  | _ => None
  end.

(** [None] is an error of [write]. *)
Fixpoint send_call (fuel : nat) (fd pos : Z) (mem : string) : ril (option unit) :=
  if pos <? sizeof_call then
    match fuel with
    | O => mret NoFuel
    | S fuel =>
        w ← call (Write fd (str_drop (Z.to_nat pos) mem));
        let ret := transferred (sizeof_call - pos) w in
        if ret <? 0 then call (Complain "write") ;; mret (Done None)
        else send_call fuel fd (pos + ret) mem
    end
  else mret (Done (Some tt)).

(** What arrives until the end of the stream or until [buf] is full; [None] is an error
    of [read]. *)
Fixpoint receive_answer (fuel : nat) (fd : Z) (buf : string) : ril (option string) :=
  match fuel with
  | O => mret NoFuel
  | S fuel =>
      let left := 256 - strlen buf in
      r ← call (Read fd left);
      let ret := transferred left r in
      if ret =? 0 then mret (Done (Some buf))
      else if ret <? 0 then call (Complain "read") ;; mret (Done None)
      else receive_answer fuel fd (buf +:+ bytes_read left r)
  end.

(** The status: 0 is EXIT_SUCCESS, 1 is EXIT_FAILURE. *)
Definition motorilc_main (fuel : nat) (name : string) (args : list string) : ril Z :=
  match request args with
  | None => call (Complain (name +:+ " [ring|if gw]" +:+ newline)) ;; mret (Done 1)
  | Some mem =>
      modify (fun v => v <| call_mem := mem |>) ;;
      fd ← call SocketLocalClient;
      if r_ret fd <? 0 then call (Complain "socket_local_client") ;; mret (Done 1) else
      w ← send_call fuel (r_ret fd) 0 mem;
      match w with
      | Done (Some _) =>
          b ← receive_answer 257 (r_ret fd) "";
          match b with
          | Done (Some buf) => call (Print (buf +:+ newline)) ;; mret (Done 0)
          | Done None => mret (Done 1)
          | ChildEnds => mret ChildEnds
          | Overrun => mret Overrun
          | NoFuel => mret NoFuel
          end
      | Done None => mret (Done 1)
      | ChildEnds => mret ChildEnds
      | Overrun => mret Overrun
      | NoFuel => mret NoFuel
      end
  end.
