(* ===== verification/MotorildThms.v ===== *)
(** * A request of [motorilc] is carried out by [motorild]

    The 132 bytes of a request may be written and read in pieces of any sizes; the
    server runs the command that the client was given.  The server closes the
    connection and every file on all paths. *)

From S2P Require Import Prelude.
From S2P Require Import CString.
From S2P Require Import Motorild.
From Stdlib Require Import Ascii.

Implicit Types (e : env ril_call) (s : sys ril_call ril_vars).

(** ** Requests *)

Lemma request_length args msg : request args = Some msg -> String.length msg = 132%nat.
Proof.
  unfold request. repeat case_match; intros; simplify_eq; [done|].
  rewrite !str_length_app. unfold field. by rewrite !buf_bytes_length.
Qed.

(** What the client is asked to do *)
Definition command (fuel : nat) (args : list string) : ril Z :=
  match args with
  | [a; b] => set_gw fuel (str_take 63 a) (str_take 63 b)
  | _ => ring
  end.

Lemma string_at_field off pre x rest : String.length pre = off -> lacks NUL x ->
  string_at off (pre +:+ field x +:+ rest) = Some (str_take 63 x).
Proof.
  intros <- Hx. unfold string_at. rewrite str_drop_app_len.
  assert (c_str (field x +:+ rest) = str_take 63 x) as E.
  { unfold field. unfold lacks in Hx. unfold c_str at 2. rewrite Hx.
    apply c_str_field; [by apply lacks_take | rewrite str_take_length; lia]. }
  rewrite E, str_take_length, str_length_app. unfold field. rewrite buf_bytes_length.
  by replace (_ <? _)%nat with true by (symmetry; apply Nat.ltb_lt; lia).
Qed.

(** The server reads a request back. *)
Lemma run_request fuel args msg : request args = Some msg -> Forall (lacks NUL) args ->
  run_command fuel msg = command fuel args.
Proof.
  intros Hr Ha. destruct args as [|a [|b [|? ?]]]; unfold request in Hr; try done.
  - case_match; simplify_eq. done.
  - apply (inj Some) in Hr as <-. inversion Ha as [|? ? Hla Hb]; subst. inversion Hb as [|? ? Hlb _]; subst.
    set (le := le32_bytes MOTORIL_CMD_ROUTE).
    assert (string_at dev_offset (le +:+ field a +:+ field b) = Some (str_take 63 a)) as Ed
      by (by apply string_at_field).
    assert (string_at gw_offset (le +:+ field a +:+ field b) = Some (str_take 63 b)) as Eg.
    { rewrite str_app_assoc, <- (str_app_nil (field b)). apply string_at_field; [|done].
      unfold field. by rewrite str_length_app, buf_bytes_length. }
    unfold run_command. by rewrite Ed, Eg.
Qed.

(** ** The pieces of a request *)

(** The bytes that the calls of [write] in a trace have passed on *)
Definition accepted (x : ril_call * resp) : string :=
  match x.1 with
  | Write _ data => str_take (Z.to_nat (transferred (strlen data) x.2)) data
  | _ => ""
  end.

Definition joined (l : list string) : string := foldr String.append "" l.
Definition sent (t : list (ril_call * resp)) : string := joined (accepted <$> t).

Lemma joined_app l1 l2 : joined (l1 ++ l2) = joined l1 +:+ joined l2.
Proof.
  induction l1 as [|x l1 IH]; [done|]. cbn. fold (joined (l1 ++ l2)). rewrite IH. apply str_app_assoc.
Qed.

Lemma sent_snoc t x : sent (t ++ [x]) = sent t +:+ accepted x.
Proof. unfold sent. rewrite fmap_app, joined_app. cbn. by rewrite str_app_nil. Qed.

(** The client passes on the rest of the request, piece by piece. *)
Lemma send_call_sends fuel fd mem e : String.length mem = 132%nat -> forall pos s, 0 <= pos <= 132 ->
  wp (send_call fuel fd pos mem) e s (fun r s' => r = Done (Some tt) ->
    sent (tr s') = sent (tr s) +:+ str_drop (Z.to_nat pos) mem).
Proof.
  intros Hmem. induction fuel as [|fuel IH]; intros pos s Hpos; cbn [send_call]; unfold sizeof_call in *.
  - destruct (pos <? 132) eqn:E; apply wp_ret; [done|]. intros _.
    replace (str_drop _ mem) with "" by (symmetry; apply str_drop_all; lia). by rewrite str_app_nil.
  - destruct (pos <? 132) eqn:E.
    2: { apply wp_ret. intros _. replace (str_drop _ mem) with "" by (symmetry; apply str_drop_all; lia).
         by rewrite str_app_nil. }
    wp_step. wp_step. set (ret := transferred (132 - pos) r). destruct (ret <? 0) eqn:Er.
    { by wp_go. }
    eapply wp_wand; [apply IH; unfold ret, transferred in *; lia|]. cbn [tr]. intros o s' Hs Ho.
    rewrite Hs, sent_snoc by done. rewrite <- str_app_assoc. f_equal.
    unfold accepted. cbn [fst snd].
    replace (strlen (str_drop (Z.to_nat pos) mem)) with (132 - pos)
      by (unfold strlen; rewrite str_drop_length; lia).
    fold ret. rewrite <- (str_take_drop (Z.to_nat ret) (str_drop (Z.to_nat pos) mem)) at 2.
    f_equal. rewrite str_drop_drop. f_equal. lia.
Qed.

(** Nothing but [write] passes on bytes. *)
Definition writes (c : ril_call) : bool := match c with Write _ _ => true | _ => false end.

Lemma sent_call t c r : writes c = false -> sent (t ++ [(c, r)]) = sent t.
Proof. intros H. rewrite sent_snoc. destruct c; try done; cbn; apply str_app_nil. Qed.

Lemma receive_answer_silent fuel fd e : forall buf s,
  wp (receive_answer fuel fd buf) e s (fun _ s' => sent (tr s') = sent (tr s)).
Proof.
  induction fuel as [|fuel IH]; intros buf s; cbn [receive_answer]; [done|].
  wp_go; cbn [tr] in *; rewrite ?sent_call in * by done; done.
Qed.

(** A client that ends with status 0 has passed on its request. *)
Lemma motorilc_sends fuel name args e s :
  wp (motorilc_main fuel name args) e s (fun r s' => r = Done 0 ->
    exists msg, request args = Some msg /\ sent (tr s') = sent (tr s) +:+ msg).
Proof.
  unfold motorilc_main. destruct (request args) as [msg|] eqn:Hr; [|by wp_go].
  pose proof (request_length _ _ Hr) as Hlen. wp_step. wp_step. wp_step. wp_step.
  destruct (r_ret r <? 0); [by wp_go|]. wp_step.
  eapply wp_wand; [apply send_call_sends; [done | lia]|]. cbn [tr]. intros w s1 Hw.
  destruct w as [[[]|]| | |]; [|by wp_go..]. specialize (Hw eq_refl).
  wp_step. eapply wp_wand; [apply receive_answer_silent|]. cbn beta. intros b s2 Hb.
  destruct b as [[buf|]| | |]; [|by wp_go..]. wp_go. intros _. exists msg. split; [done|].
  cbn [tr]. rewrite (sent_call (tr s2)), Hb, Hw by done. by rewrite sent_call.
Qed.

(** The answers of [read] from position [n] of the trace on are these pieces. *)
Definition delivers e (client : Z) (n : nat) (chunks : list string) : Prop :=
  forall i c len, chunks !! i = Some c -> strlen c <= len ->
    r_ret (e (n + i)%nat (Read client len)) = strlen c /\ r_data (e (n + i)%nat (Read client len)) = c.

Lemma delivers_tail e client n c chunks :
  delivers e client n (c :: chunks) -> delivers e client (n + 1) chunks.
Proof. intros H i c' len Hi. rewrite <- Nat.add_assoc. by apply (H (S i)). Qed.

Definition is_read (client : Z) (x : ril_call * resp) : Prop := exists len, x.1 = Read client len.

(** The bytes before a position, then a piece *)
Lemma put_bytes_take pos c mem : (pos <= String.length mem)%nat ->
  str_take (pos + String.length c) (put_bytes pos c mem) = str_take pos mem +:+ c.
Proof.
  intros Hp. unfold put_bytes. rewrite str_app_assoc, str_take_app_le.
  - apply str_take_all. rewrite str_length_app, str_take_length. lia.
  - rewrite str_length_app, str_take_length. lia.
Qed.

Lemma put_bytes_length pos c mem : (pos + String.length c <= String.length mem)%nat ->
  String.length (put_bytes pos c mem) = String.length mem.
Proof.
  intros H. unfold put_bytes. rewrite !str_length_app, str_take_length, str_drop_length. lia.
Qed.

Lemma read_call_chunks e client chunks : forall fuel pos s,
  chunks <> [] -> Forall (fun c => c <> "") chunks -> 0 <= pos ->
  pos + strlen (joined chunks) = sizeof_call -> String.length (call_mem (st s)) = 132%nat ->
  sizeof_call - pos <= Z.of_nat fuel -> delivers e client (length (tr s)) chunks ->
  wp (read_call fuel client pos) e s (fun r s' => r = Done sizeof_call /\
    call_mem (st s') = str_take (Z.to_nat pos) (call_mem (st s)) +:+ joined chunks /\
    exists t, tr s' = tr s ++ t /\ Forall (is_read client) t).
Proof.
  unfold sizeof_call. induction chunks as [|c chunks IH]; [done|].
  intros fuel pos s _ Hne Hpos Htot Hmem Hfuel Hd. cbn [joined foldr] in Htot.
  fold (joined chunks) in *. inversion Hne as [|? ? Hc Hne']; subst.
  assert (0 < strlen c) as Hlc by (destruct c; [done|]; unfold strlen; cbn; lia).
  unfold strlen in Htot. rewrite str_length_app in Htot. fold (strlen c) in *.
  destruct (Hd 0%nat c (132 - pos)) as [Hret Hdata]; [done | unfold strlen; lia|].
  rewrite Nat.add_0_r in *. destruct fuel as [|fuel]; [unfold strlen in *; lia|].
  cbn [read_call]. unfold sizeof_call. wp_step. wp_step. subst r.
  assert (transferred (132 - pos) (e (length (tr s)) (Read client (132 - pos))) = strlen c) as Et
    by (unfold transferred; rewrite Hret; unfold strlen in *; lia).
  unfold bytes_read. rewrite Et, Hdata. unfold strlen. rewrite Nat2Z.id, buf_bytes_exact.
  replace (Z.of_nat (String.length c) <=? 0) with false by (unfold strlen in *; lia).
  wp_step. wp_step. set (mem := call_mem (st s)) in *.
  assert (Z.to_nat (pos + Z.of_nat (String.length c)) = Z.to_nat pos + String.length c)%nat as Ep by lia.
  assert (joined (c :: chunks) = c +:+ joined chunks) as Ej by done.
  destruct (pos + Z.of_nat (String.length c) <? 132) eqn:E.
  - destruct chunks as [|c' chunks]; [cbn in Htot; lia|].
    eapply wp_wand; [apply IH; try done; cbn [st tr call_mem]|].
    + lia.
    + unfold strlen. lia.
    + cbn. fold mem. rewrite put_bytes_length; lia.
    + unfold strlen in Hlc. lia.
    + rewrite length_app. by eapply delivers_tail.
    + cbn [st tr]. intros r s' (-> & Hm & t & Ht & Hall). split; [done|]. split.
      * rewrite Hm, Ep, Ej. cbn. fold mem. rewrite put_bytes_take by lia. by rewrite <- str_app_assoc.
      * rewrite Ht, <- app_assoc. eexists. split; [done|]. constructor; [by eexists | done].
  - wp_step. destruct chunks as [|c' chunks].
    2: { inversion Hne' as [|? ? Hc' _]; subst. destruct c'; [done|]. cbn in Htot. lia. }
    split; [f_equal; lia|]. split.
    + cbn. fold mem. unfold put_bytes. rewrite str_drop_all by lia. by rewrite !str_app_nil.
    + cbn [tr]. eexists. split; [done|]. constructor; [by eexists | done].
Qed.

(** ** Serving *)

(** C33. A request is carried out: a client that ended with status 0 was given [ring]
    or an interface and a gateway, and when the bytes it has passed on reach the
    server in any pieces, the server runs exactly that command, with the first 63
    characters of the names, and then answers.  The pieces are not empty, the
    arguments are C strings. *)
Theorem motoril_request_served fuel1 fuel2 name args ec sc e s fd client chunks :
  (motorilc_main fuel1 name args ec (Sys _ _ sc [])).1 = Done 0 ->
  Forall (lacks NUL) args ->
  joined chunks = sent (tr (motorilc_main fuel1 name args ec (Sys _ _ sc [])).2) ->
  Forall (fun c => c <> "") chunks ->
  String.length (call_mem (st s)) = 132%nat ->
  r_ret (e (length (tr s)) (Accept fd)) = client -> client <> -1 ->
  delivers e client (length (tr s) + 1) chunks ->
  exists msg t, request args = Some msg /\ Forall (is_read client) t /\
    motorild_iter fuel2 fd e s =
      reply client (command fuel2 args) e
        (Sys _ _ (RilVars msg) ((tr s ++ [(Accept fd, e (length (tr s)) (Accept fd))]) ++ t)).
Proof.
  intros Hc Hargs Hj Hne Hmem Hcl Hcl1 Hd.
  destruct (motorilc_sends fuel1 name args ec (Sys _ _ sc []) Hc) as (msg & Hr & Hs).
  rewrite Hs in Hj. cbn in Hj. pose proof (request_length _ _ Hr) as Hlen. exists msg.
  set (s1 := Sys ril_call ril_vars (st s) (tr s ++ [(Accept fd, e (length (tr s)) (Accept fd))])).
  pose proof (read_call_chunks e client chunks (Z.to_nat sizeof_call) 0 s1) as Hread.
  destruct Hread as (Hp & Hm & t & Ht & Hall); unfold sizeof_call, strlen; cbn [st tr s1]; try done.
  { intros ->. by rewrite <- Hj in Hlen. }
  { rewrite Hj, Hlen. done. }
  { by rewrite length_app. }
  exists t. split; [done|]. split; [done|]. unfold motorild_iter.
  unfold mbind at 1, prog_bind at 1, call at 1. cbn beta iota zeta. rewrite Hcl.
  replace (client =? -1) with false by lia. fold s1.
  unfold mbind at 1, prog_bind at 1. rewrite (surjective_pairing (read_call _ _ _ _ s1)), Hp.
  replace (sizeof_call <? sizeof_call) with false by done.
  unfold mbind at 1, prog_bind at 1, gets. rewrite Hm, Hj, <- (run_request fuel2 args msg) by done.
  f_equal. destruct (read_call _ _ _ _ s1).2 as [[m'] t'] eqn:E. cbn in *. by subst.
Qed.

(** A client with two writes, a server with three reads *)
Definition demo_client : env ril_call := fun n c =>
  match c with
  | SocketLocalClient => answer 5
  | Write _ _ => answer 70
  | Read _ _ => if (n =? 3)%nat then Resp 2 0 "OK" [] else answer 0
  | _ => answer 0
  end.

Definition demo_args : list string := ["rmnet0"; "10.0.0.1"].
Definition demo_msg : string := default "" (request demo_args).
Definition demo_chunks : list string :=
  [str_take 3 demo_msg; str_take 60 (str_drop 3 demo_msg); str_drop 63 demo_msg].

Definition demo_server : env ril_call := fun n c =>
  match c with
  | Accept _ => answer 7
  | Read _ _ => let d := default "" (demo_chunks !! (n - 1)%nat) in Resp (strlen d) 0 d []
  | Fork => answer 40
  | Waitpid _ => answer 40
  | _ => answer 0
  end.

Lemma motoril_request_served_witness :
  let s := Sys ril_call ril_vars (RilVars (buf_bytes 132 "")) [] in
  let s' := (motorild_iter 1 4 demo_server s).2 in
  (motorilc_main 2 "motorilc" demo_args demo_client (Sys _ _ (RilVars "") [])).1 = Done 0 /\
  (exists msg t, request demo_args = Some msg /\ Forall (is_read 7) t /\
     motorild_iter 1 4 demo_server s =
       reply 7 (command 1 demo_args) demo_server
         (Sys _ _ (RilVars msg) (([] ++ [(Accept 4, answer 7)]) ++ t))) /\
  drop 4 (calls s') = [Fork; Waitpid 40; Write 7 "OK"; Close 7].
Proof.
  cbn zeta. split; [by vm_compute|]. split; [|by vm_compute].
  apply (motoril_request_served 2 1 "motorilc" demo_args demo_client (RilVars "") demo_server
    (Sys _ _ (RilVars (buf_bytes 132 "")) []) 4 7 demo_chunks).
  - by vm_compute.
  - by repeat constructor.
  - by vm_compute.
  - by repeat constructor.
  - done.
  - done.
  - lia.
  - intros i c len Hi _. cbn [demo_server tr length]. replace (0 + 1 + i - 1)%nat with i by lia.
    by rewrite Hi.
Defined.

(** ** Descriptors *)

#[export] Instance ril_fd_calls : FdCalls ril_call := fun fd x =>
  match x.1 with
  | Accept _ | Open _ _ => if negb (r_ret x.2 =? -1) && (r_ret x.2 =? fd) then 1 else 0
  | Close f => if f =? fd then -1 else 0
  | _ => 0
  end.

(** The balance of a descriptor is kept by what neither opens nor closes. *)
Definition balanced (f : Z) (b : Z) s : Prop := fd_balance f (tr s) = b.

Lemma wait_child_balanced fuel child f e : forall s,
  wp (wait_child fuel child) e s (fun _ s' => fd_balance f (tr s') = fd_balance f (tr s)).
Proof.
  induction fuel as [|fuel IH]; intros s; cbn [wait_child]; [done|].
  wp_go; try rewrite H; fd_solve.
Qed.

Lemma set_gw_balanced fuel iface gw f e s :
  wp (set_gw fuel iface gw) e s (fun _ s' => fd_balance f (tr s') = fd_balance f (tr s)).
Proof.
  unfold set_gw. wp_go; try fd_solve.
  eapply wp_wand; [apply wait_child_balanced|]. cbn beta. intros a s' ->. fd_solve.
Qed.

Lemma write_file_balanced path text f e s :
  wp (write_file path text) e s (fun _ s' => fd_balance f (tr s') = fd_balance f (tr s)).
Proof. unfold write_file. wp_go; fd_solve. Qed.

Lemma cpu1_online_balanced f e s :
  wp cpu1_online e s (fun _ s' => fd_balance f (tr s') = fd_balance f (tr s)).
Proof. unfold cpu1_online. wp_go; fd_solve. Qed.

Lemma max_freq_balanced f e s :
  wp max_freq e s (fun r s' => (exists m, r = Done m) -> fd_balance f (tr s') = fd_balance f (tr s)).
Proof. unfold max_freq. wp_go; intros [m Hm]; try done; fd_solve. Qed.

Lemma ring_balanced f e s :
  wp ring e s (fun r s' => (exists m, r = Done m) -> fd_balance f (tr s') = fd_balance f (tr s)).
Proof.
  unfold ring. wp_step. eapply wp_wand; [apply max_freq_balanced|]. cbn beta. intros m s1 Hm.
  destruct m as [m| | |]; [|by apply wp_ret; intros []..]. specialize (Hm ltac:(eauto)).
  wp_step. apply wp_wand with (Q1 := fun _ s' => fd_balance f (tr s') = fd_balance f (tr s)).
  { destruct m; [|by apply wp_ret]. eapply wp_wand; [apply write_file_balanced|].
    cbn beta. intros _ s' ->. done. }
  intros [] s2 H2. wp_step. eapply wp_wand; [apply write_file_balanced|]. cbn beta. intros [] s3 H3.
  wp_step. eapply wp_wand; [apply cpu1_online_balanced|]. cbn beta. intros [] s4 H4. wp_step.
  intros _. rewrite H4, H3. exact H2.
Qed.

Lemma run_command_balanced fuel mem f e s :
  wp (run_command fuel mem) e s
    (fun r s' => (exists m, r = Done m) -> fd_balance f (tr s') = fd_balance f (tr s)).
Proof.
  unfold run_command. repeat case_match; try (by apply wp_ret; intros []).
  - eapply wp_wand; [apply (set_gw_balanced _ _ _ f)|]. by intros a s' ->.
  - apply ring_balanced.
Qed.

(** The loop that reads a request ends, opens nothing and closes nothing. *)
Lemma read_call_total client f e : forall fuel pos s, pos < sizeof_call ->
  sizeof_call - pos <= Z.of_nat fuel ->
  wp (read_call fuel client pos) e s (fun r s' => (exists p, r = Done p) /\
    fd_balance f (tr s') = fd_balance f (tr s)).
Proof.
  induction fuel as [|fuel IH]; intros pos s Hpos Hf; [lia|]. cbn [read_call].
  wp_step. wp_step. destruct (_ <=? 0) eqn:E; [wp_step; split; [eauto | fd_solve]|].
  wp_step. wp_step. destruct (_ <? sizeof_call) eqn:E2; [|wp_step; split; [eauto | fd_solve]].
  eapply wp_wand; [apply IH; lia|]. cbn beta. intros o s' [Ho ->]. split; [done | fd_solve].
Qed.

(** Every connection that is served is closed, with every file that was opened for it,
    whatever the client sends and the kernel answers; the request loop ends. *)
Theorem motorild_closes fuel fd e s :
  wp (motorild_iter fuel fd) e s (fun r s' => r = Done tt ->
    forall f, fd_balance f (tr s') = fd_balance f (tr s)).
Proof.
  intros Hr f. revert Hr. change (wp (motorild_iter fuel fd) e s (fun r s' => r = Done tt ->
    fd_balance f (tr s') = fd_balance f (tr s))). unfold motorild_iter. wp_step. wp_step.
  destruct (r_ret r =? -1) eqn:E; [wp_step; intros _; fd_solve|]. wp_step.
  eapply wp_wand; [apply (read_call_total _ f); unfold sizeof_call; lia|].
  cbn beta. intros p s1 [[pos ->] Hb]. destruct (pos <? sizeof_call).
  - wp_go. intros _. cbn [tr] in *. rewrite fd_balance_app, Hb. fd_solve.
  - wp_step. wp_step. unfold reply. wp_step.
    eapply wp_wand; [apply (run_command_balanced _ _ f)|]. cbn beta. intros q s2 Hq.
    destruct q as [ret| | |]; [|by wp_step..]. specialize (Hq ltac:(eauto)).
    wp_go. intros _. cbn [tr] in *. rewrite !fd_balance_app, Hq, Hb. fd_solve.
Qed.

(** ** The client returns *)

Lemma send_call_total mem fd e : String.length mem = 132%nat ->
  (forall n data, data <> "" -> 0 < r_ret (e n (Write fd data))) ->
  forall fuel pos s, 0 <= pos <= 132 -> 132 - pos <= Z.of_nat fuel ->
  wp (send_call fuel fd pos mem) e s (fun r _ => r = Done (Some tt)).
Proof.
  intros Hmem He. induction fuel as [|fuel IH]; intros pos s Hpos Hf; cbn [send_call];
    unfold sizeof_call; (destruct (pos <? 132) eqn:E; [|by apply wp_ret]); [lia|].
  wp_step. wp_step.
  assert (0 < r_ret r) as Hpr.
  { subst r. apply He. intros E0. apply (f_equal String.length) in E0.
    rewrite str_drop_length in E0. cbn in E0. lia. }
  unfold transferred. replace (Z.min (132 - pos) (r_ret r) <? 0) with false by lia.
  apply IH; lia.
Qed.

Lemma receive_answer_total fd e : forall fuel buf s, strlen buf <= 256 ->
  256 - strlen buf < Z.of_nat fuel ->
  wp (receive_answer fuel fd buf) e s (fun r _ => exists o, r = Done o).
Proof.
  induction fuel as [|fuel IH]; intros buf s Hb Hf; [lia|]. cbn [receive_answer].
  wp_step. wp_step. destruct (_ =? 0) eqn:E; [wp_step; eauto|].
  destruct (_ <? 0) eqn:E2; [wp_go; eauto|].
  assert (strlen (buf +:+ bytes_read (256 - strlen buf) r) =
    strlen buf + transferred (256 - strlen buf) r) as El.
  { unfold strlen at 1, bytes_read. rewrite str_length_app, buf_bytes_length. unfold strlen in *. lia. }
  apply IH; rewrite El; unfold transferred in *; lia.
Qed.

(** When [write] makes progress the client returns, whatever the server answers; 132
    units of fuel are enough. *)
Theorem motorilc_returns fuel name args e s :
  (forall n fd data, data <> "" -> 0 < r_ret (e n (Write fd data))) -> (132 <= fuel)%nat ->
  wp (motorilc_main fuel name args) e s (fun r _ => r ∈ [Done 0; Done 1]).
Proof.
  intros He Hf. unfold motorilc_main. destruct (request args) as [msg|] eqn:Hr; [|wp_go; set_solver].
  wp_step. wp_step. wp_step. wp_step. destruct (r_ret r <? 0); [wp_go; set_solver|].
  wp_step. eapply wp_wand.
  { apply send_call_total; [by eapply request_length | intros n data; apply He | lia | lia]. }
  cbn beta. intros w s1 ->. wp_step.
  eapply wp_wand; [apply receive_answer_total; unfold strlen; cbn [String.length]; lia|].
  cbn beta. intros b s2 [[buf|] ->]; wp_go; set_solver.
Qed.

(** The server does not look for the end of the names: a gateway without a NUL byte makes
    it read past the struct. *)
Theorem unterminated_overruns fuel mem : le32 mem = MOTORIL_CMD_ROUTE ->
  lacks NUL (str_drop gw_offset mem) -> run_command fuel mem = mret Overrun.
Proof.
  intros Hc Hg. unfold run_command. rewrite Hc. cbn [MOTORIL_CMD_ROUTE Z.eqb].
  assert (string_at gw_offset mem = None) as ->; [|by case_match].
  unfold string_at, c_str. unfold lacks in Hg. rewrite Hg.
  by replace (_ <? _)%nat with false by (symmetry; apply Nat.ltb_irrefl).
Qed.
