(* ===== verification/Wrigleyd.v ===== *)
(** * The watcher of the routing rule: [src/wrigleyd/wrigleyd.c]

    [wrigleyd] adds the rule with preference 9999 and adds it again when the kernel
    reports that it was deleted.  A message of the kernel is its header and its bytes;
    receiving it and calling [watcher] is the work of libnl. *)

From S2P Require Import Prelude.
From S2P Require Import CString.

Inductive wrigley_call :=
  | System (command : string)
  | NlSocketAlloc
  | NlSocketDisableSeqCheck (sk : Z)
  | NlSocketModifyCb (sk : Z)
  | NlConnect (sk protocol : Z)
  | NlSocketAddMemberships (sk group : Z).

Abbreviation wrigley A := (prog wrigley_call unit A).

(** [nlmsg_len] counts the 16 bytes of the header; the payload are the bytes after it. *)
Record nlmsghdr := NlMsg { nlmsg_len : Z; nlmsg_type : Z; payload : list Z }.

Definition RTM_NEWRULE : Z := 32.
Definition RTM_DELRULE : Z := 33.
Definition NETLINK_ROUTE : Z := 0.
Definition RTNLGRP_IPV4_RULE : Z := 8.

Definition add_rule : wrigley unit :=
  call (System "/system/bin/ip rule add pref 9999 lookup main") ;; mret tt.

(** [None] is a read outside the message. *)
Definition keep_rule (hdr : nlmsghdr) : wrigley (option Z) :=
  if nlmsg_len hdr <? 44 then mret (Some 0) else
  match payload hdr !! 24%nat, payload hdr !! 25%nat with
  | Some d24, Some d25 =>
      if negb (d24 =? 15) || negb (d25 =? 39) then mret (Some 0)
      else add_rule ;; mret (Some 0)
  | _, _ => mret None
  end.

Definition watcher (msg : option nlmsghdr) : wrigley (option Z) :=
  match msg with
  | None => mret (Some 0)
  | Some hdr => if nlmsg_type hdr =? RTM_DELRULE then keep_rule hdr else mret (Some 0)
  end.

Definition wrigleyd_start : wrigley Z :=
  add_rule ;;
  sk ← call NlSocketAlloc;
  call (NlSocketDisableSeqCheck (r_ret sk)) ;;
  call (NlSocketModifyCb (r_ret sk)) ;;
  call (NlConnect (r_ret sk) NETLINK_ROUTE) ;;
  call (NlSocketAddMemberships (r_ret sk) RTNLGRP_IPV4_RULE) ;;
  mret (r_ret sk).

(** ** When the rule is added again *)

(** A message as the kernel builds it *)
Definition nl_wf (hdr : nlmsghdr) : Prop :=
  nlmsg_len hdr = 16 + Z.of_nat (length (payload hdr)) /\
  Forall (fun b => 0 <= b < 256) (payload hdr).

(** The number of four bytes at an offset of the payload *)
Definition u32_at (off : nat) (l : list Z) : Z :=
  foldr (fun b n => b + 256 * n) 0 (take 4 (drop off l)).

(** A message of the kernel is read inside its bounds, and the rule is added again
    exactly when a rule is deleted whose number at offset 24 has the low 16 bits 9999:
    9999 itself, but 75535 as well. *)
Theorem watcher_restores hdr e s : nl_wf hdr ->
  let again := (nlmsg_type hdr =? RTM_DELRULE) && (44 <=? nlmsg_len hdr) &&
    (u32_at 24 (payload hdr) mod 65536 =? 9999) in
  wp (watcher (Some hdr)) e s (fun r s' => r = Some 0 /\
    calls s' = calls s ++
      (if again then [System "/system/bin/ip rule add pref 9999 lookup main"] else [])).
Proof.
  intros [Hlen Hb]. cbn zeta. unfold watcher, keep_rule, add_rule.
  destruct (nlmsg_type hdr =? RTM_DELRULE); [|by rewrite app_nil_r].
  destruct (nlmsg_len hdr <? 44) eqn:E.
  { replace (44 <=? nlmsg_len hdr) with false by lia. by rewrite app_nil_r. }
  replace (44 <=? nlmsg_len hdr) with true by lia. cbn [andb].
  rewrite Hlen in E. unfold u32_at.
  assert (payload hdr !! 24%nat = drop 24 (payload hdr) !! 0%nat) as -> by (by rewrite lookup_drop).
  assert (payload hdr !! 25%nat = drop 24 (payload hdr) !! 1%nat) as -> by (by rewrite lookup_drop).
  pose proof (Forall_drop _ 24 _ Hb) as Hd. pose proof (length_drop (payload hdr) 24) as Hl.
  destruct (drop 24 (payload hdr)) as [|a [|b [|c [|d l]]]]; cbn in Hl; [lia..|].
  cbn [lookup list_lookup take foldr].
  inversion Hd as [|? ? Ha Hd1]; subst. inversion Hd1 as [|? ? Hb1 _]; subst.
  destruct (negb (a =? 15) || negb (b =? 39)) eqn:Eab; wp_go.
  - replace (_ =? 9999) with false by dlia. by rewrite app_nil_r.
  - replace (_ =? 9999) with true by dlia. split; [done|]. unfold calls. cbn [tr]. by rewrite fmap_app.
Qed.
