(* ===== verification/Modemlog.v ===== *)
(** * modemlog: panic reports ([src/aplogd/modemlog.c], [modemlog.h])

    At start-up [modemlog] looks whether the last run of the phone ended with a
    kernel panic or a watchdog reset, writes a report to /data/kernelpanics, and
    keeps that directory below a size.  Streams for reading are values [infile];
    a buffer is a string of exactly its bytes, with what an uninitialised buffer
    holds chosen by the outside; the list of files lives on a heap. *)

From S2P Require Import Prelude.
From S2P Require Import CString.
From Stdlib Require Import Ascii.

(** ** Data and calls *)

Definition BACKLINES : nat := 10.
Definition MAX_LOG_LEN : nat := 256.
Definition FILENAMELEN : nat := 255.
Definition MAXTOTALSIZE : Z := 102400.
Definition PERSIST_POWERCUTS : string := "persist.motorola.powercuts".
Definition APANIC_STATE_FILE : string := "/data/dontpanic/apanic_console_statinfo".
Definition MODEMFILE : string := "/data/kernelpanics/wdog_ap_reset_boot_info_XXXXXX".
Definition MODEMDIR : string := "/data/kernelpanics".
Definition KERNELDIR : string := "/data/kernelpanics".
Definition LAST_KMSG_PATHNAME : string := "/proc/last_kmsg".
Definition WDRST_REPORT_SIZE : Z := 64 * 1024.
Definition ENOENT : Z := 2.

(** The bits that enable each report, and the properties that set them *)
Definition ENABLE_BOOTLOADER_WDT_REPORT : Z := 1.
Definition ENABLE_KERNEL_WDT_REPORT : Z := 2.
Definition ENABLE_KERNEL_PANIC_REPORT : Z := 4.
Definition ENABLE_POWERCUT_REPORT : Z := 8.

Definition property_and_bit_position : list (string * Z) :=
  [("persist.dbg.btwdt.report", ENABLE_BOOTLOADER_WDT_REPORT);
   ("persist.dbg.kwdt.report", ENABLE_KERNEL_WDT_REPORT);
   ("persist.dbg.kpanic.report", ENABLE_KERNEL_PANIC_REPORT);
   ("persist.dbg.pwrcut.report", ENABLE_POWERCUT_REPORT)].

(** Opening a stream for reading ([Fopen] with mode r, [Fdopen]) answers 0 for NULL and
    otherwise carries the bytes it will deliver; out-parameter 0 tells that they
    end with a read error and not with the end of the file.  [Fputs] stands for every
    formatted output.  [Lstat] and [Fstat] deliver the modification time and the size,
    and when they fail the bytes the struct happens to hold.  [Uninit] is the memory of a
    local array.  [Mkstemp] carries the name it made. *)
Inductive mlog_call :=
  | Uninit (n : nat)
  | Fopen (path mode : string)
  | Fdopen (fd : Z)
  | Ftell (fp : Z)
  | Fseek (fp pos : Z)
  | Fputs (fp : Z) (text : string)
  | Fflush (fp : Z)
  | Fclose (fp : Z)
  | Fchown (fp : Z) (user group : string)
  | Fchmod (fp mode : Z)
  | Mkstemp (template : string)
  | Lstat (path : string)
  | Fstat (fd : Z)
  | Access (path : string)
  | Mkdir (path : string) (mode : Z)
  | Chown (path user group : string)
  | Open_read (path : string)
  | Close (fd : Z)
  | Unlink (path : string)
  | Opendir (path : string)
  | Closedir (path : string)
  | Property_get (key dflt : string)
  | Property_set (key value : string)
  | Malloc (n : Z)
  | Free (address : Z).

Definition stat_mtime (r : resp) : Z := aux 0 r.
Definition stat_size (r : resp) : Z := aux 1 r.

(** A file of the directory: [fr_name] is the address of its name, [fr_text] the name. *)
Record FileRec := MkFileRec {
  fr_next : Z;
  fr_prev : Z;
  fr_name : Z;
  fr_text : string;
  fr_timestamp : Z;
  fr_size : Z }.

#[export] Instance eta_FileRec : Eta FileRec :=
  fun r => MkFileRec (fr_next r) (fr_prev r) (fr_name r) (fr_text r) (fr_timestamp r)
    (fr_size r).

(** The static variables, the records on the heap, and whether the program has read
    memory it must not read. *)
Record mlog_vars := MlogVars {
  first : Z;
  heap : gmap Z FileRec;
  Report_Flag : Z;
  panic_report_config : Z;
  undefined : bool }.

#[export] Instance eta_mlog_vars : Eta mlog_vars :=
  fun v => MlogVars (first v) (heap v) (Report_Flag v) (panic_report_config v) (undefined v).

Definition mlog_init : mlog_vars := MlogVars 0 ∅ 0 0 false.

Abbreviation mlog A := (prog mlog_call mlog_vars A).

Definition mark_undefined : mlog unit := modify (fun v => v <| undefined := true |>).

(** Loops that the outside can prolong answer [None] without enough fuel. *)
Definition loop_then {A B} (m : mlog (option A)) (k : A -> mlog (option B))
    : mlog (option B) :=
  o ← m; match o with Some a => k a | None => mret None end.

Declare Scope mlog_scope.
Notation "x <~ m ; k" := (loop_then m (fun x => k))
  (at level 20, m at level 100, k at level 200, right associativity) : mlog_scope.
#[global] Open Scope mlog_scope.

(** ** Streams and buffers *)

Record infile := InFile { unread : string; broken : bool; at_eof : bool }.

(** The stream of an answer *)
Definition stream (r : resp) : infile := InFile (r_data r) (negb (aux 0 r =? 0)) false.

(** At most [n] bytes, up to and with the first newline; whether one of the two ended
    the line; what remains. *)
Fixpoint cut_line (n : nat) (s : string) : string * bool * string :=
  match n, s with
  | O, _ => ("", true, s)
  | S _, "" => ("", false, "")
  | S n, String c s =>
      if (c =? "010")%char then (String c "", true, s)
      else let '(l, b, r) := cut_line n s in (String c l, b, r)
  end.

(** [fgets(mem + off, MAX_LOG_LEN, f)]: a line that is empty leaves the memory alone; the
    end of the file, but not an error, sets the flag that [feof] reads. *)
Definition fgets (off : nat) (mem : string) (f : infile) : string * infile :=
  let '(l, complete, rest) := cut_line (MAX_LOG_LEN - 1) (unread f) in
  (match l with "" => mem | _ => put_at off (l +:+ String NUL "") mem end,
   InFile rest (broken f) (at_eof f || (negb complete && negb (broken f)))).

(** The C string at an offset of a buffer; without a NUL behind it the string would be
    read past the end of the memory. *)
Definition text (off : nat) (mem : string) : mlog string :=
  let s := str_drop off mem in
  when (bool_decide (lacks NUL s)) mark_undefined ;; mret (c_str s).

(** [char buf[n];] *)
Definition local_buf (n : nat) : mlog string :=
  r ← call (Uninit n); mret (buf_bytes n (r_data r)).

Definition fputs (fp : Z) (s : string) : mlog unit := call (Fputs fp s) ;; mret tt.

(** [while (!feof(f)) { fgets(buf, MAX_LOG_LEN, f); fprintf(out, "%s" ending, buf); }]; the
    buffer is used again. *)
Fixpoint copy_all (fuel : nat) (out : Z) (ending buf : string) (f : infile)
    : mlog (option string) :=
  if at_eof f then mret (Some buf) else
  match fuel with
  | O => mret None
  | S fuel =>
      let '(buf, f) := fgets 0 buf f in
      t ← text 0 buf;
      fputs out (t +:+ ending) ;;
      copy_all fuel out ending buf f
  end.

(** The loop of [append_last_kmsg], which leaves before it prints. *)
Fixpoint copy_tail (fuel : nat) (out : Z) (buf : string) (f : infile) : mlog (option unit) :=
  match fuel with
  | O => mret None
  | S fuel =>
      let '(buf, f) := fgets 0 buf f in
      if at_eof f then mret (Some tt) else
      t ← text 0 buf;
      fputs out t ;;
      copy_tail fuel out buf f
  end.

Definition append_last_kmsg (fuel : nat) (outfile : Z) : mlog (option unit) :=
  statinfo ← call (Lstat LAST_KMSG_PATHNAME);
  if negb (r_ret statinfo =? 0) then
    (if r_errno statinfo =? ENOENT
     then fputs outfile (LAST_KMSG_PATHNAME +:+ " does not exist." +:+ newline)
     else fputs outfile (LAST_KMSG_PATHNAME +:+ " not accessible "
            +:+ pretty (r_errno statinfo) +:+ "." +:+ newline)) ;;
    mret (Some tt)
  else
    pos ← call (Ftell outfile);
    let size := WDRST_REPORT_SIZE - r_ret pos in
    if size <=? 0 then mret (Some tt) else
    i ← call (Fopen LAST_KMSG_PATHNAME "r");
    buf ← local_buf MAX_LOG_LEN;
    if r_ret i =? 0 then mret (Some tt) else
    f ← (if size <? stat_size statinfo then
           let pos := wrap32 (stat_size statinfo - size) in
           r ← call (Fseek (r_ret i) pos);
           mret (if r_ret r =? 0
                 then InFile (str_drop (Z.to_nat pos) (r_data i)) (broken (stream i)) false
                 else stream i)
         else mret (stream i));
    _ <~ copy_tail fuel outfile buf f;
    call (Fclose (r_ret i)) ;; mret (Some tt).

(** ** Reports of resets *)

(** [panic_report_config & bit] *)
Definition enabled (bit : Z) : mlog bool :=
  gets (fun v => negb (Z.land (panic_report_config v) bit =? 0)).

(** The report of a watchdog reset, which both branches of [writePanicData] write *)
Definition wdt_report (fuel : nat) (buf line : string) (f : infile) : mlog (option unit) :=
  m ← call (Mkstemp MODEMFILE);
  o ← call (Fopen (r_data m) "w");
  let outfile := r_ret o in
  if outfile =? 0 then mret (Some tt) else
  call (Fchown outfile "AID_SYSTEM" "AID_LOG") ;;
  call (Fchmod outfile 416) ;;
  fputs outfile ("Type: SYSTEM_WDT_RESET" +:+ newline) ;;
  fputs outfile line ;;
  _ <~ copy_all fuel outfile "" buf f;
  _ <~ append_last_kmsg fuel outfile;
  call (Fclose outfile) ;; mret (Some tt).

Definition count_powercut : mlog unit :=
  r ← call (Property_get PERSIST_POWERCUTS "0");
  let powercuts_count := wrap32 (atoi (c_str (r_data r)) + 1) in
  call (Property_set PERSIST_POWERCUTS (pretty powercuts_count)) ;; mret tt.

(** The loop of [writePanicData] *)
Fixpoint scan_powerup (fuel : nat) (buf : string) (f : infile) : mlog (option unit) :=
  if at_eof f then mret (Some tt) else
  match fuel with
  | O => mret None
  | S n =>
      let '(buf, f) := fgets 0 buf f in
      t ← text 0 buf;
      if contains t "POWERUPREASON : 0x00008000" then
        on ← enabled ENABLE_BOOTLOADER_WDT_REPORT;
        if on : bool then wdt_report fuel buf t f else mret (Some tt)
      else
      flag ← gets Report_Flag;
      if contains t "POWERUPREASON : 0x00020000" && (flag =? 0) then
        a ← call (Access LAST_KMSG_PATHNAME);
        on ← enabled ENABLE_KERNEL_WDT_REPORT;
        if (r_ret a =? -1) && negb on then mret (Some tt) else wdt_report fuel buf t f
      else if contains t "POWERUPREASON : 0x00000200" then
        on ← enabled ENABLE_POWERCUT_REPORT;
        when on count_powercut ;; mret (Some tt)
      else scan_powerup n buf f
  end.

Definition writePanicData (fuel : nat) (pufile : Z) : mlog (option unit) :=
  r ← call (Fdopen pufile);
  buf ← local_buf MAX_LOG_LEN;
  if r_ret r =? 0 then mret (Some tt) else scan_powerup fuel buf (stream r).

(** ** The report of a kernel panic *)

(** The rows of [lastfew] *)
Definition row (i : nat) : nat := (MAX_LOG_LEN * i)%nat.

(** What every line of the console starts with is not printed. *)
Definition STAMP : nat := 18.

(** The loop that looks for the reason of the panic: the memory of [lastfew], [oldline],
    [dumpall] and the stream *)
Fixpoint find_reason (fuel : nat) (lastfew : string) (oldline : nat) (f : infile)
    : mlog (option (string * nat * bool * infile)) :=
  if at_eof f then mret (Some (lastfew, oldline, false, f)) else
  match fuel with
  | O => mret None
  | S fuel =>
      let '(lastfew, f) := fgets (row oldline) lastfew f in
      t ← text (row oldline) lastfew;
      if contains t "PC is at" then mret (Some (lastfew, oldline, false, f))
      else if contains t "Kernel panic -" then mret (Some (lastfew, oldline, true, f))
      else find_reason fuel lastfew ((oldline + 1) mod BACKLINES) f
  end.

(** [for (count = 1; count <= BACKLINES; count++)
     fputs(lastfew[(oldline + count)%BACKLINES] + 18, outfile);] *)
Definition spill (out : Z) (lastfew : string) (oldline : nat) : mlog unit :=
  for_each (seq 1 BACKLINES) (fun count =>
    t ← text (row ((oldline + count) mod BACKLINES) + STAMP) lastfew;
    fputs out t).

(** [for (count = 0; (count < n) && !feof(thefile); count++)] *)
Fixpoint next_lines (n : nat) (out : Z) (lastfew : string) (f : infile)
    : mlog (string * infile) :=
  match n with
  | O => mret (lastfew, f)
  | S n =>
      if at_eof f then mret (lastfew, f) else
      let '(lastfew, f) := fgets 0 lastfew f in
      t ← text STAMP lastfew;
      fputs out t ;;
      next_lines n out lastfew f
  end.

Definition any_of (words : list string) (line : string) : bool :=
  existsb (contains line) words.

(** The lines that start what is left out, and what ends it *)
Definition skipped_words : list string := ["PC: "; "LR: "; "IP: "; "FP: "; "Stack: "].
Definition kept_words : list string :=
  ["R0: "; "R1: "; "R2: "; "R3: "; "R4: "; "R5: "; "R6: "; "R7: "; "R8: "; "R9: "; "SP: ";
   "Code: "; "Backtrace:"; "Kernel panic - "].

Definition discard (d : bool) (line : string) : bool :=
  if any_of skipped_words line then true
  else if any_of kept_words line then false else d.

(** The last loop of [readFile] *)
Fixpoint filter_lines (fuel : nat) (out : Z) (d : bool) (lastfew : string) (f : infile)
    : mlog (option unit) :=
  if at_eof f then mret (Some tt) else
  match fuel with
  | O => mret None
  | S fuel =>
      let '(lastfew, f) := fgets 0 lastfew f in
      line ← text 0 lastfew;
      let d := discard d line in
      if d then filter_lines fuel out d lastfew f else
      t ← text STAMP lastfew;
      fputs out t ;;
      filter_lines fuel out (contains line "Code:") lastfew f
  end.

(** The files of /proc that describe the build, copied at the head of a report *)
Definition copy_info (fuel : nat) (out : Z) : mlog (option unit) :=
  v ← call (Fopen "/proc/version" "r");
  info_buf ← local_buf MAX_LOG_LEN;
  info_buf <~ (if r_ret v =? 0 then mret (Some info_buf) else
               b <~ copy_all fuel out "" info_buf (stream v);
               call (Fclose (r_ret v)) ;; mret (Some b));
  v ← call (Fopen "/proc/mot_version" "r");
  info_buf <~ (if r_ret v =? 0 then mret (Some info_buf) else
               b <~ copy_all fuel out newline info_buf (stream v);
               call (Fclose (r_ret v)) ;; mret (Some b));
  v ← call (Fopen "/proc/bootinfo" "r");
  (if r_ret v =? 0 then mret tt else
   let '(info_buf, f) := fgets 0 info_buf (stream v) in
   t ← text 0 info_buf;
   fputs out t ;;
   let '(info_buf, f) := fgets 0 info_buf f in
   t ← text 0 info_buf;
   fputs out t ;;
   call (Fclose (r_ret v)) ;; mret tt) ;;
  mret (Some tt).

(** What [readFile] takes from the console *)
Definition copy_console (fuel : nat) (out : Z) (lastfew : string) (f : infile)
    : mlog (option unit) :=
  x <~ find_reason fuel lastfew 0 f;
  let '(lastfew, oldline, dumpall, f) := x in
  y ← (if dumpall : bool then mret (lastfew, f)
       else spill out lastfew oldline ;; next_lines 9 out lastfew f);
  filter_lines fuel out false y.1 y.2.

(** [feof] of a NULL stream is undefined. *)
Definition readFile (fuel : nat) (modemfile : string) (filefd : Z) : mlog (option unit) :=
  thefile ← call (Fdopen filefd);
  lastfew ← local_buf (BACKLINES * MAX_LOG_LEN);
  o ← call (Fopen modemfile "w");
  let outfile := r_ret o in
  if outfile =? 0 then mret (Some tt) else
  call (Fchown outfile "AID_SYSTEM" "AID_LOG") ;;
  call (Fchmod outfile 416) ;;
  fputs outfile ("Type: SYSTEM_LAST_KMSG" +:+ newline) ;;
  _ <~ copy_info fuel outfile;
  if r_ret thefile =? 0 then mark_undefined ;; mret (Some tt) else
  _ <~ copy_console fuel outfile lastfew (stream thefile);
  call (Fflush outfile) ;;
  call (Fclose outfile) ;; mret (Some tt).

(** ** The list of the files of a directory *)

(** [*p]: a pointer to no live record is undefined. *)
Definition load_rec (p : Z) (dflt : FileRec) : mlog FileRec :=
  o ← gets (fun v => heap v !! p);
  match o with Some r => mret r | None => mark_undefined ;; mret dflt end.

(** [p->field = x;] *)
Definition store_rec (p : Z) (f : FileRec -> FileRec) : mlog unit :=
  o ← gets (fun v => heap v !! p);
  match o with
  | Some r => modify (fun v => v <| heap := <[p := f r]> (heap v) |>)
  | None => mark_undefined
  end.

Definition null_rec : FileRec := MkFileRec 0 0 0 "" 0 0.

Definition FileRecCopy (n : string) (t s : Z) : mlog Z :=
  filerec ← call (Malloc 20);
  if r_ret filerec =? 0 then gets first else
  let p := r_ret filerec in
  name ← call (Malloc (strlen n + 1));
  if r_ret name =? 0 then call (Free p) ;; gets first else
  modify (fun v => v <| heap := <[p := MkFileRec 0 0 (r_ret name) n t s]> (heap v) |>) ;;
  f ← gets first;
  (if f =? 0 then modify (fun v => v <| first := p |>)
   else
     store_rec p (fun r => r <| fr_next := f |>) ;;
     store_rec f (fun r => r <| fr_prev := p |>) ;;
     modify (fun v => v <| first := p |>)) ;;
  gets first.

Definition FileRecDel (p : Z) : mlog unit :=
  filerec ← load_rec p null_rec;
  (if fr_prev filerec =? 0 then modify (fun v => v <| first := fr_next filerec |>)
   else store_rec (fr_prev filerec) (fun r => r <| fr_next := fr_next filerec |>)) ;;
  (if fr_next filerec =? 0 then mret tt
   else store_rec (fr_next filerec) (fun r => r <| fr_prev := fr_prev filerec |>)) ;;
  store_rec p (fun r => r <| fr_prev := 0 |> <| fr_next := 0 |>) ;;
  call (Free (fr_name filerec)) ;;
  call (Free p) ;;
  modify (fun v => v <| heap := delete p (heap v) |>).

Definition is_dots (name : string) : bool := str_eq "." name || str_eq ".." name.

Definition fullpath (dirname name : string) : string :=
  str_take (FILENAMELEN - 1) (dirname +:+ "/" +:+ name).

(** The [readdir] loop of [checkdir]: the sum of the sizes *)
Fixpoint collect (dirname : string) (names : list string) (totalsize : Z) : mlog Z :=
  match names with
  | [] => mret totalsize
  | name :: names =>
      if is_dots name then collect dirname names totalsize else
      statinfo ← call (Lstat (fullpath dirname name));
      f ← FileRecCopy (fullpath dirname name) (stat_mtime statinfo)
            (wrap32 (stat_size statinfo));
      modify (fun v => v <| first := f |>) ;;
      collect dirname names (wrap32 (totalsize + stat_size statinfo))
  end.

(** The inner loop: from [idx] to the end of the list *)
Fixpoint find_oldest (fuel : nat) (idx oldest : Z) : mlog (option Z) :=
  if idx =? 0 then mret (Some oldest) else
  match fuel with
  | O => mret None
  | S fuel =>
      i ← load_rec idx null_rec;
      oldest' ← (if oldest =? 0 then mret idx
                 else o ← load_rec oldest null_rec;
                      mret (if fr_timestamp i <? fr_timestamp o then idx else oldest));
      find_oldest fuel (fr_next i) oldest'
  end.

(** [while (totalsize > MAXTOTALSIZE)]; [oldest] is NULL whenever its test is reached. *)
Fixpoint shrink (fuel : nat) (totalsize : Z) : mlog (option unit) :=
  if totalsize <=? MAXTOTALSIZE then mret (Some tt) else
  match fuel with
  | O => mret None
  | S n =>
      idx ← gets first;
      oldest <~ find_oldest fuel idx 0;
      if oldest =? 0 then shrink n totalsize else
      r ← load_rec oldest null_rec;
      call (Unlink (fr_text r)) ;;
      FileRecDel oldest ;;
      shrink n (wrap32 (totalsize - fr_size r))
  end.

(** [while (first) { FileRecDel(first); }] *)
Fixpoint delete_all (fuel : nat) : mlog (option unit) :=
  p ← gets first;
  if p =? 0 then mret (Some tt) else
  match fuel with
  | O => mret None
  | S fuel => FileRecDel p ;; delete_all fuel
  end.

Definition checkdir (fuel : nat) (dirname : string) : mlog (option unit) :=
  dirptr ← call (Opendir dirname);
  if r_ret dirptr =? 0 then mret (Some tt) else
  totalsize ← collect dirname (dir_entries dirptr) 0;
  _ <~ shrink fuel totalsize;
  _ <~ delete_all fuel;
  call (Closedir dirname) ;; mret (Some tt).

(** ** The program *)

(** [(unsigned long long) x] *)
Definition u64 (x : Z) : Z := x mod 18446744073709551616.

(** One [%llu] of [fscanf]: its value and the rest of the input. *)
Definition scan_ull (s : string) : option (Z * string) :=
  let s := skip_space s in
  let '(minus, s) :=
    match s with
    | String c r => if (c =? "-")%char then (true, r)
                    else if (c =? "+")%char then (false, r) else (false, s)
    | "" => (false, s)
    end in
  match s with
  | String c _ =>
      if isdigit c then
        let n := digits_val 0 s in
        Some (if 18446744073709551615 <? n then 18446744073709551615
              else if minus : bool then u64 (- n) else n, skip_digits s)
      else None
  | "" => None
  end.

(** [fscanf(f, "%llu\t%llu\n", &size, &time)] over the values they have *)
Definition scan_state (s : string) (size time : Z) : Z * Z :=
  match scan_ull s with
  | None => (size, time)
  | Some (a, s) => (a, match scan_ull s with Some (b, _) => b | None => time end)
  end.

Definition tab : string := String "009" "".

(** What [fprintf(f, "%llu\t%llu\n", size, time)] prints *)
Definition state_text (size time : Z) : string :=
  pretty (u64 size) +:+ tab +:+ pretty (u64 time) +:+ newline.

(** [%lX] of a 32-bit [long] *)
Definition hex_digit_upper (n : Z) : ascii :=
  ascii_of_N (Z.to_N (if n <? 10 then n + 48 else n + 55)).

Fixpoint hex_go (digits : nat) (n : Z) (acc : string) : string :=
  match digits with
  | O => acc
  | S digits =>
      let acc := String (hex_digit_upper (n mod 16)) acc in
      if n <? 16 then acc else hex_go digits (n / 16) acc
  end.

Definition print_lX (n : Z) : string := hex_go 8 (u32 n) "".

Definition make_dir (path : string) : mlog unit :=
  a ← call (Access path);
  when (r_ret a =? -1)
    (call (Mkdir path 509) ;; call (Chown path "AID_SYSTEM" "AID_SYSTEM") ;; mret tt).

(** The loop over the properties *)
Definition read_config : mlog unit :=
  for_each property_and_bit_position (fun '(property_name, bit_position) =>
    r ← call (Property_get property_name "1");
    when (negb (strn_eq 1 (c_str (r_data r)) "0"))
      (modify (fun v => v <| panic_report_config :=
        Z.lor (panic_report_config v) bit_position |>))).

(** The body of the one-time loop of [main]: whether [main] returns here *)
Definition report_apanic (fuel : nat) (f_apanic : Z) : mlog (option bool) :=
  b ← call (Fopen APANIC_STATE_FILE "r");
  let '(pb_size, pb_time) :=
    if r_ret b =? 0 then (0, 0) else scan_state (r_data b) 0 0 in
  when (negb (r_ret b =? 0)) (call (Fclose (r_ret b)) ;; mret tt) ;;
  statinfo ← call (Fstat f_apanic);
  if negb (r_ret statinfo =? 0) then mret (Some false) else
  let size := stat_size statinfo in
  let time := stat_mtime statinfo in
  if (pb_size =? u64 size) && (pb_time =? u64 time) then mret (Some false) else
  w ← call (Fopen APANIC_STATE_FILE "w+");
  when (negb (r_ret w =? 0))
    (fputs (r_ret w) (state_text size time) ;;
     call (Fchown (r_ret w) "AID_SYSTEM" "AID_LOG") ;;
     call (Fchmod (r_ret w) 416) ;;
     call (Fclose (r_ret w)) ;; mret tt) ;;
  let modemfile := str_take 43 ("/data/kernelpanics/ap_kernel_panic_" +:+ print_lX time) in
  a ← call (Access modemfile);
  if negb (r_ret a =? -1) then mret (Some false) else
  modify (fun v => v <| Report_Flag := 1 |>) ;;
  on ← enabled ENABLE_KERNEL_PANIC_REPORT;
  if on : bool then _ <~ readFile fuel modemfile f_apanic; mret (Some true)
  else mret (Some false).

Definition modemlog_main (fuel : nat) : mlog (option Z) :=
  make_dir MODEMDIR ;;
  make_dir KERNELDIR ;;
  read_config ;;
  f ← call (Open_read "/data/dontpanic/apanic_console");
  let f_apanic := r_ret f in
  reported <~ (if f_apanic =? -1 then mret (Some false) else
               b <~ report_apanic fuel f_apanic;
               call (Close f_apanic) ;; mret (Some b));
  if reported : bool then mret (Some 0) else
  p ← call (Open_read "/proc/bootinfo");
  let file_powerup := r_ret p in
  _ <~ (if file_powerup =? -1 then mret (Some tt) else writePanicData fuel file_powerup);
  call (Close file_powerup) ;;
  _ <~ checkdir fuel KERNELDIR;
  mret (Some 0).
