(* ===== verification/ModemThms.v ===== *)
(** * modemlog: what a panic report contains

    A console log whose lines are whole is reported line by line: the ten lines up
    to the reason of the panic, nine more, and of the rest what the filter keeps,
    all without their time stamps.  The tail of /proc/last_kmsg that is appended to the
    report of a watchdog reset keeps the report within 64 KB. *)

From S2P Require Import Prelude.
From S2P Require Import CString.
From S2P Require Import Modemlog.
From Stdlib Require Import Ascii.

Implicit Types (e : env mlog_call) (s : sys mlog_call mlog_vars) (f : infile).

#[global] Arguments Z.of_nat : simpl never.

(** ** Streams of lines *)

(** A line that [fgets] reads at once: it ends with a newline or fills the buffer *)
Definition whole_line (l : string) : Prop :=
  l <> "" /\ cut_line (MAX_LOG_LEN - 1) l = (l, true, "").

#[export] Instance whole_dec l : Decision (whole_line l).
Proof. unfold whole_line. apply _. Defined.

Fixpoint joined_lines (lines : list string) : string :=
  match lines with [] => "" | l :: lines => l +:+ joined_lines lines end.

Lemma cut_line_app n l rest : cut_line n l = (l, true, "") ->
  cut_line n (l +:+ rest) = (l, true, rest).
Proof.
  revert l. induction n as [|n IH]; intros [|c l]; cbn; try done.
  destruct (c =? "010")%char; [intros H; by simplify_eq|].
  destruct (cut_line n l) as [[l' b] r] eqn:E. intros [= -> -> ->]. by rewrite (IH l E).
Qed.

Lemma cut_line_length n x : (String.length (cut_line n x).1.1 <= n)%nat.
Proof.
  revert x. induction n as [|n IH]; intros [|c x]; cbn; try lia.
  destruct (c =? "010")%char; cbn; [lia|]. specialize (IH x).
  destruct (cut_line n x) as [[l b] r]. cbn in *. lia.
Qed.

Lemma whole_line_length l : whole_line l -> (String.length l <= 255)%nat.
Proof.
  intros [_ E]. pose proof (cut_line_length (MAX_LOG_LEN - 1) l) as H. by rewrite E in H.
Qed.

(** The bytes at an offset of a buffer start with a C string. *)
Definition reads (off : nat) (mem l : string) : Prop :=
  lacks NUL l /\ exists tail, str_drop off mem = l +:+ String NUL tail.

Lemma text_reads off mem l e s (Q : string -> sys mlog_call mlog_vars -> Prop) :
  reads off mem l -> Q l s -> wp (text off mem) e s Q.
Proof.
  intros [Hl [tail E]] HQ. unfold text. rewrite E.
  assert (c_str (l +:+ String NUL tail) = l) as Hc by by apply take_until_app.
  wp_step. wp_step.
  - exfalso. apply bool_decide_eq_true in E0. unfold lacks in E0. fold (c_str (l +:+ String NUL tail)) in E0.
    rewrite Hc in E0. apply (f_equal String.length) in E0. rewrite str_length_app in E0. cbn in E0. lia.
  - apply wp_ret. by rewrite Hc.
Qed.

Lemma reads_drop off mem l n : reads off mem l -> (n <= String.length l)%nat ->
  reads (off + n) mem (str_drop n l).
Proof.
  intros [Hl [tail E]] Hn. split; [by apply lacks_drop|]. exists tail.
  by rewrite <- str_drop_drop, E, str_drop_app_le.
Qed.

(** A line is read where it was put ... *)
Lemma reads_put off l mem : lacks NUL l -> (off <= String.length mem)%nat ->
  reads off (put_at off (l +:+ String NUL "") mem) l.
Proof.
  intros Hl Ho. split; [done|]. rewrite str_drop_put by done. eexists.
  by rewrite <- str_app_assoc.
Qed.

(** ... and stays there when other rows are written. *)
Lemma reads_other i j mem l bytes : i <> j -> (String.length l < 256)%nat ->
  (String.length bytes <= 256)%nat -> (row i + 256 <= String.length mem)%nat ->
  reads (row j) mem l -> reads (row j) (put_at (row i) bytes mem) l.
Proof.
  unfold row, MAX_LOG_LEN. intros Hij Hl Hb Hm [Hn [tail E]]. split; [done|].
  unfold put_at. destruct (decide (i < j)%nat) as [Hlt|Hlt].
  - exists tail. rewrite str_app_assoc.
    set (p := str_take (256 * i) mem +:+ bytes).
    assert (String.length p = (256 * i + String.length bytes)%nat) as Hp
      by (unfold p; rewrite str_length_app, str_take_length; lia).
    replace (256 * j)%nat with (String.length p + (256 * j - String.length p))%nat by lia.
    rewrite <- str_drop_drop, str_drop_app_len, str_drop_drop, <- Hp.
    replace (String.length p + (256 * j - String.length p))%nat with (256 * j)%nat by lia. done.
  - rewrite str_drop_app_le by (rewrite str_take_length; lia).
    rewrite (str_take_split (256 * j)) by lia.
    rewrite str_drop_app, E by (rewrite str_take_length; lia).
    rewrite (str_take_app_ge _ l) by lia.
    destruct (256 * i - 256 * j - String.length l)%nat eqn:Ek; [lia|]. eexists.
    by rewrite <- str_app_assoc.
Qed.

(** A line of the console: whole, text, with a time stamp *)
Definition console_line (l : string) : Prop :=
  whole_line l /\ lacks NUL l /\ (STAMP <= String.length l)%nat.

#[export] Instance console_line_dec l : Decision (console_line l).
Proof. unfold console_line. apply _. Defined.

Lemma fgets_whole off mem l rest b eo : whole_line l ->
  fgets off mem (InFile (l +:+ rest) b eo)
  = (put_at off (l +:+ String NUL "") mem, InFile rest b eo).
Proof.
  intros [Hne E]. unfold fgets. cbn [unread]. rewrite (cut_line_app _ _ rest E).
  destruct l as [|c l]; [done|]. cbn [broken at_eof negb andb]. by rewrite orb_false_r.
Qed.

(** At the end the memory keeps the previous line. *)
Lemma fgets_end off mem : fgets off mem (InFile "" false false) = (mem, InFile "" false true).
Proof. done. Qed.

(** ** The ring of the last lines *)

Definition line_ring (mem : string) (seen : list string) : Prop :=
  String.length mem = 2560%nat /\
  forall k l, seen !! k = Some l -> (length seen <= k + BACKLINES)%nat ->
    reads (row (k mod BACKLINES)) mem l.

Lemma row_fits i : (row (i mod BACKLINES) + 256 <= 2560)%nat.
Proof. unfold row, MAX_LOG_LEN, BACKLINES. pose proof (Nat.mod_upper_bound i 10). lia. Qed.

Lemma nul_length l : String.length (l +:+ String NUL "") = S (String.length l).
Proof. rewrite str_length_app. cbn. lia. Qed.

(** Distinct lines of the last ten are in distinct rows. *)
Lemma mod_distinct k n : (k < n <= k + 9)%nat -> (n mod 10 <> k mod 10)%nat.
Proof.
  intros H E. pose proof (Nat.div_mod_eq n 10). pose proof (Nat.div_mod_eq k 10). lia.
Qed.

Lemma ring_add mem seen l : line_ring mem seen -> Forall console_line seen -> console_line l ->
  line_ring (put_at (row (length seen mod BACKLINES)) (l +:+ String NUL "") mem) (seen ++ [l]).
Proof.
  intros [Hm Hr] Hs (Hw & Hl & _). pose proof (whole_line_length l Hw) as Hlen.
  pose proof (row_fits (length seen)) as Hf.
  split; [rewrite put_at_length; rewrite ?nul_length; lia|].
  intros k x Hk Hb. rewrite length_app in Hb. cbn in Hb.
  apply lookup_app_Some in Hk as [Hk | [Hge Hk]].
  - pose proof (lookup_lt_Some _ _ _ Hk) as Hlt.
    destruct (Forall_lookup_1 _ _ _ _ Hs Hk) as [Hx _]. apply whole_line_length in Hx.
    apply reads_other; rewrite ?nul_length; try lia.
    + apply mod_distinct. unfold BACKLINES in Hb. lia.
    + apply Hr; [done | lia].
  - apply list_lookup_singleton_Some in Hk as [Hk ->].
    replace k with (length seen) by lia. apply reads_put; [done | lia].
Qed.

(** The reason of a panic: [d] tells the two apart. *)
Definition reason_line (d : bool) (l : string) : Prop :=
  contains l "PC is at" = negb d /\ (d = true -> contains l "Kernel panic -" = true).

Definition no_reason (l : string) : Prop :=
  contains l "PC is at" = false /\ contains l "Kernel panic -" = false.

Lemma mod_succ n : ((n mod BACKLINES + 1) mod BACKLINES = (n + 1) mod BACKLINES)%nat.
Proof. unfold BACKLINES. rewrite Nat.Div0.add_mod_idemp_l. done. Qed.

Lemma find_reason_spec e s d reason rest before : forall fuel mem seen,
  Forall console_line before -> Forall no_reason before ->
  console_line reason -> reason_line d reason ->
  line_ring mem seen -> Forall console_line seen -> (length before < fuel)%nat ->
  wp (find_reason fuel mem (length seen mod BACKLINES)
        (InFile (joined_lines (before ++ reason :: rest)) false false)) e s (fun o s' => s' = s /\
    exists mem', line_ring mem' (seen ++ before ++ [reason]) /\
      o = Some (mem', (length (seen ++ before) mod BACKLINES)%nat, d,
                InFile (joined_lines rest) false false)).
Proof.
  induction before as [|l before IH]; intros [|fuel] mem seen Hc Hn Hr Hd Hring Hs Hfuel;
    cbn in Hfuel; try lia; cbn [find_reason at_eof app joined_lines].
  - rewrite fgets_whole by apply Hr.
    pose proof (ring_add mem seen reason Hring Hs Hr) as Hring'.
    wp_step. eapply text_reads; [apply Hring'; [apply list_lookup_middle; lia | rewrite length_app; cbn; unfold BACKLINES; lia]|].
    destruct Hd as [Hpc Hkp]. rewrite Hpc. destruct d; cbn.
    + rewrite Hkp by done. apply wp_ret. split; [done|]. eexists. by rewrite app_nil_r.
    + apply wp_ret. split; [done|]. eexists. by rewrite app_nil_r.
  - apply Forall_cons in Hc as [Hl Hc]. apply Forall_cons in Hn as [[Hn1 Hn2] Hn].
    rewrite fgets_whole by apply Hl.
    pose proof (ring_add mem seen l Hring Hs Hl) as Hring'.
    wp_step. eapply text_reads; [apply Hring'; [apply list_lookup_middle; lia | rewrite length_app; cbn; unfold BACKLINES; lia]|].
    rewrite Hn1, Hn2, mod_succ. replace (length seen + 1)%nat with (length (seen ++ [l])) by (rewrite length_app; done).
    eapply wp_wand; [apply IH; try done; [apply Forall_app; auto | lia]|].
    intros o s' [-> (mem' & Hm & ->)]. split; [done|]. exists mem'.
    by rewrite <- !app_assoc in *.
Qed.

(** ** What is written *)

(** The lines [ls] are written to [out], and nothing else happens. *)
Definition puts (out : Z) (ls : list string) s s' : Prop :=
  st s' = st s /\ calls s' = calls s ++ (Fputs out <$> ls).

Lemma puts_nil out s : puts out [] s s.
Proof. split; [done|]. by rewrite app_nil_r. Qed.

Lemma puts_trans out l1 l2 s1 s2 s3 :
  puts out l1 s1 s2 -> puts out l2 s2 s3 -> puts out (l1 ++ l2) s1 s3.
Proof.
  intros [E1 T1] [E2 T2]. split; [congruence|]. by rewrite T2, T1, fmap_app, app_assoc.
Qed.

Lemma wp_fputs out t e s : wp (fputs out t) e s (fun _ s' => puts out [t] s s').
Proof. unfold fputs. wp_go. split; [done|]. unfold calls. cbn [tr]. by rewrite fmap_app. Qed.

Lemma wp_puts_bind {A B} out l1 l2 (m : mlog A) (k : A -> mlog B) (P : B -> Prop) e s :
  wp m e s (fun _ s' => puts out l1 s s') ->
  (forall a s', wp (k a) e s' (fun b s'' => P b /\ puts out l2 s' s'')) ->
  wp (mbind k m) e s (fun b s'' => P b /\ puts out (l1 ++ l2) s s'').
Proof.
  intros Hm Hk. apply wp_bind. eapply wp_wand; [exact Hm|]. intros a s1 H1.
  eapply wp_wand; [apply Hk|]. intros b s2 [Hb H2]. split; [done|]. exact (puts_trans _ _ _ _ _ _ H1 H2).
Qed.

Lemma for_each_puts {X} out (g : X -> string) (h : X -> mlog unit) e xs : forall s,
  (forall x s, x ∈ xs -> wp (h x) e s (fun _ s' => puts out [g x] s s')) ->
  wp (for_each xs h) e s (fun _ s' => puts out (g <$> xs) s s').
Proof.
  induction xs as [|x xs IH]; intros s Hh; cbn; [apply wp_ret, puts_nil|].
  wp_step. eapply wp_wand; [apply Hh; left|]. intros [] s1 H1.
  eapply wp_wand; [apply IH; intros; apply Hh; by right|]. intros [] s2 H2.
  change (g x :: (g <$> xs)) with ([g x] ++ (g <$> xs)). exact (puts_trans _ _ _ _ _ _ H1 H2).
Qed.

(** A console line without its time stamp *)
Definition stripped (l : string) : string := str_drop STAMP l.

Lemma last_ten (all : list string) : (10 <= length all)%nat ->
  (fun c => default "" (all !! (length all + c - 11)%nat)) <$> seq 1 10
  = drop (length all - 10) all.
Proof.
  intros H. apply list_eq_same_length with 10%nat;
    [by rewrite length_drop; lia | by rewrite length_fmap, length_seq |].
  intros i x y Hi. rewrite list_lookup_fmap, lookup_seq_lt, lookup_drop by done. cbn.
  replace (length all + S i - 11)%nat with (length all - 10 + i)%nat by lia.
  destruct (all !! (length all - 10 + i)%nat); cbn; intros; by simplify_eq.
Qed.

Lemma mod_back n c : (1 <= c <= 10)%nat -> (10 <= n)%nat ->
  ((((n - 1) mod BACKLINES) + c) mod BACKLINES = (n + c - 11) mod BACKLINES)%nat.
Proof.
  unfold BACKLINES. intros H Hn. rewrite Nat.Div0.add_mod_idemp_l.
  replace (n - 1 + c)%nat with (n + c - 11 + 1 * 10)%nat by lia. apply Nat.Div0.mod_add.
Qed.

Lemma spill_spec out mem all e s : line_ring mem all -> Forall console_line all ->
  (10 <= length all)%nat ->
  wp (spill out mem ((length all - 1) mod BACKLINES)) e s (fun _ s' =>
    puts out (stripped <$> drop (length all - 10) all) s s').
Proof.
  intros [_ Hr] Hc Hlen. rewrite <- last_ten, <- list_fmap_compose by done.
  apply for_each_puts. intros c x Hin. apply elem_of_seq in Hin. unfold BACKLINES in Hin.
  destruct (all !! (length all + c - 11)%nat) as [l|] eqn:El;
    [|apply lookup_ge_None in El; lia].
  wp_step. rewrite mod_back by lia. cbn. rewrite El. cbn.
  destruct (Forall_lookup_1 _ _ _ _ Hc El) as (_ & _ & Hst).
  eapply text_reads; [apply reads_drop; [apply Hr; [done | unfold BACKLINES; lia] | done]|].
  apply wp_fputs.
Qed.

(** The lines that a loop [while (!feof(f)) fgets(...)] sees after [prev]: at the end of the
    stream the last one is seen a second time. *)
Fixpoint reread (prev : string) (lines : list string) : list string :=
  match lines with [] => [prev] | l :: lines => l :: reread l lines end.

(** What the filter keeps of these lines *)
Fixpoint kept_lines (d : bool) (lines : list string) : list string :=
  match lines with
  | [] => []
  | l :: lines =>
      if discard d l then kept_lines true lines
      else stripped l :: kept_lines (contains l "Code:") lines
  end.

(** The first row holds the line that was read last. *)
Definition last_read (mem l : string) : Prop :=
  String.length mem = 2560%nat /\ console_line l /\ reads 0 mem l.

Lemma last_read_put mem p l : last_read mem p -> console_line l ->
  last_read (put_at 0 (l +:+ String NUL "") mem) l.
Proof.
  intros (Hm & _ & _) Hl. pose proof Hl as (Hw & Hn & _). apply whole_line_length in Hw.
  split_and!; [rewrite put_at_length; rewrite ?nul_length; lia | done |].
  apply reads_put; [done | lia].
Qed.

Lemma last_stripped mem l : last_read mem l -> reads STAMP mem (stripped l).
Proof. intros (_ & (_ & _ & Hl) & Hr). by apply (reads_drop 0). Qed.

(** The stream after a loop has seen some of the lines *)
Inductive seen_up_to (prev : string) (mem : string) : list string -> infile -> Prop :=
  | SeenMore lines : last_read mem prev -> Forall console_line lines ->
      seen_up_to prev mem (reread prev lines) (InFile (joined_lines lines) false false)
  | SeenAll f : at_eof f = true -> seen_up_to prev mem [] f.

(** One turn of such a loop *)
Lemma fgets_seen prev mem l ls f : seen_up_to prev mem (l :: ls) f ->
  at_eof f = false /\ last_read (fgets 0 mem f).1 l
  /\ seen_up_to l (fgets 0 mem f).1 ls (fgets 0 mem f).2.
Proof.
  intros H. inversion H as [lines Hp Hl E1 E2|]. subst f. split; [done|].
  destruct lines as [|l' lines]; cbn in E1; simplify_eq.
  - cbn [joined_lines]. rewrite fgets_end. split; [done|]. by constructor.
  - apply Forall_cons in Hl as [Hl Hls]. cbn [joined_lines].
    rewrite fgets_whole by apply Hl. cbn [fst snd].
    pose proof (last_read_put mem prev l Hp Hl) as Hp'. split; [done|]. by constructor.
Qed.

Lemma seen_nil prev mem f : seen_up_to prev mem [] f -> at_eof f = true.
Proof. intros H. inversion H as [lines|]; [by destruct lines | done]. Qed.

Lemma next_lines_spec n out e : forall prev mem ls f s, seen_up_to prev mem ls f ->
  wp (next_lines n out mem f) e s (fun y s' =>
    (exists prev', seen_up_to prev' y.1 (drop n ls) y.2)
    /\ puts out (stripped <$> take n ls) s s').
Proof.
  induction n as [|n IH]; intros prev mem ls f s Hseen; cbn [next_lines].
  { apply wp_ret. split; [by exists prev | apply puts_nil]. }
  destruct ls as [|l ls].
  - rewrite (seen_nil _ _ _ Hseen). apply wp_ret. split; [by exists prev | apply puts_nil].
  - destruct (fgets_seen _ _ _ _ _ Hseen) as (-> & Hl & Hs).
    destruct (fgets 0 mem f) as [mem' f']. cbn [fst snd] in *.
    wp_step. eapply text_reads; [by apply last_stripped|].
    apply (wp_puts_bind out [stripped l]); [apply wp_fputs|]. intros _ s'.
    by apply (IH l).
Qed.

Lemma filter_lines_spec out e : forall ls fuel d prev mem f s,
  seen_up_to prev mem ls f -> (length ls <= fuel)%nat ->
  wp (filter_lines fuel out d mem f) e s (fun o s' =>
    o = Some tt /\ puts out (kept_lines d ls) s s').
Proof.
  induction ls as [|l ls IH]; intros fuel d prev mem f s Hseen Hfuel.
  { destruct fuel; cbn [filter_lines]; rewrite (seen_nil _ _ _ Hseen);
      (split; [done | apply puts_nil]). }
  destruct fuel as [|fuel]; cbn in Hfuel; [lia|]. cbn [filter_lines kept_lines].
  destruct (fgets_seen _ _ _ _ _ Hseen) as (-> & Hl & Hs).
  destruct (fgets 0 mem f) as [mem' f']. cbn [fst snd] in *.
  wp_step. eapply text_reads; [apply Hl|]. cbv zeta.
  destruct (discard d l).
  - apply (IH _ _ l); [done | lia].
  - wp_step. eapply text_reads; [by apply last_stripped|].
    apply (wp_puts_bind out [stripped l]); [apply wp_fputs|]. intros _ s'.
    apply (IH _ _ l); [done | lia].
Qed.

(** The line in the first row *)
Lemma ring_first mem all : line_ring mem all -> Forall console_line all -> all <> [] ->
  exists l, last_read mem l.
Proof.
  intros [Hm Hr] Hc Hne. set (k := ((length all - 1) / 10 * 10)%nat).
  pose proof (Nat.div_mod_eq (length all - 1) 10) as Hdiv.
  pose proof (Nat.mod_upper_bound (length all - 1) 10) as Hmod.
  assert (0 < length all)%nat as Hpos by (destruct all; [done | cbn; lia]).
  destruct (all !! k) as [l|] eqn:El; [|apply lookup_ge_None in El; lia].
  exists l. split_and!; [done | by eapply Forall_lookup_1 |].
  replace 0%nat with (row (k mod BACKLINES)) by (unfold k, row, BACKLINES; rewrite Nat.Div0.mod_mul; lia).
  apply Hr; [done|]. unfold BACKLINES. lia.
Qed.

(** What a report says of a console log: [before] are the lines before the reason of the
    panic, [after] those behind it. *)
Definition console_report (dumpall : bool) (before : list string) (reason : string)
    (after : list string) : list string :=
  let all := before ++ [reason] in
  let seen := reread reason after in
  if dumpall then kept_lines false seen
  else (stripped <$> drop (length all - 10) all) ++ (stripped <$> take 9 seen)
       ++ kept_lines false (drop 9 seen).

Lemma reread_length p ls : length (reread p ls) = S (length ls).
Proof. revert p. induction ls as [|l ls IH]; intros p; cbn; [done|]. by rewrite IH. Qed.

Lemma copy_console_spec fuel out mem d before reason after e s :
  Forall console_line (before ++ reason :: after) -> Forall no_reason before ->
  reason_line d reason -> (d = false -> 9 <= length before)%nat -> after <> [] ->
  String.length mem = 2560%nat -> (length before + length after < fuel)%nat ->
  wp (copy_console fuel out mem (InFile (joined_lines (before ++ reason :: after)) false false))
    e s (fun o s' => o = Some tt /\ puts out (console_report d before reason after) s s').
Proof.
  intros Hc Hn Hd Hb Ha Hm Hfuel.
  apply Forall_app in Hc as [Hcb Hc]. apply Forall_cons in Hc as [Hcr Hca].
  assert (Forall console_line (before ++ [reason])) as Hall by (apply Forall_app; auto).
  destruct after as [|a after]; [done|]. cbn in Hfuel.
  unfold copy_console, loop_then. wp_step.
  eapply wp_wand; [apply (find_reason_spec e s d reason (a :: after) before fuel mem []); try done; try lia|].
  cbn beta. intros o s' [-> (mem' & Hring & ->)]. cbn [app] in *.
  destruct (ring_first _ _ Hring Hall) as [p Hp]; [by destruct before|].
  assert (seen_up_to p mem' (reread reason (a :: after))
            (InFile (joined_lines (a :: after)) false false)) as Hseen
    by (change (reread reason (a :: after)) with (reread p (a :: after)); by constructor).
  pose proof (reread_length reason (a :: after)) as Hlen. cbn [length] in Hlen.
  wp_step. unfold console_report. destruct d.
  - wp_step. eapply filter_lines_spec; [exact Hseen | lia].
  - wp_step. eapply wp_wand.
    { replace (length before) with (length (before ++ [reason]) - 1)%nat at 1
        by (rewrite length_app; cbn; lia).
      apply spill_spec; try done. rewrite length_app. cbn. specialize (Hb eq_refl). lia. }
    cbn beta. intros [] s1 H1. eapply wp_wand; [apply (next_lines_spec _ _ _ p); exact Hseen|].
    cbn beta. intros y s2 [[p' Hseen'] H2].
    eapply wp_wand; [eapply filter_lines_spec; [exact Hseen' | rewrite length_drop; lia]|].
    cbn beta. intros o s3 [-> H3]. split; [done|].
    eapply puts_trans; [exact H1|]. by eapply puts_trans.
Qed.

(** ** The whole report *)

Lemma cut_line_rest n x : (String.length (cut_line n x).2 <= String.length x)%nat.
Proof.
  revert x. induction n as [|n IH]; intros [|c x]; cbn; try lia.
  destruct (c =? "010")%char; cbn; [lia|]. specialize (IH x).
  destruct (cut_line n x) as [[l b] r]. cbn in *. lia.
Qed.

Lemma cut_line_shorter n x : (0 < n)%nat -> (cut_line n x).1.2 = false
  \/ (String.length (cut_line n x).2 < String.length x)%nat.
Proof.
  destruct n as [|n]; [lia|]. intros _. destruct x as [|c x]; cbn; [by left|]. right.
  destruct (c =? "010")%char; cbn; [lia|]. pose proof (cut_line_rest n x).
  destruct (cut_line n x) as [[l b] r]. cbn in *. lia.
Qed.

(** Reading a stream without errors comes to its end. *)
Lemma fgets_progress off mem f : broken f = false -> at_eof f = false ->
  broken (fgets off mem f).2 = false /\
  (at_eof (fgets off mem f).2 = true
   \/ (String.length (unread (fgets off mem f).2) < String.length (unread f))%nat).
Proof.
  intros Hb He. unfold fgets.
  destruct (cut_line_shorter (MAX_LOG_LEN - 1) (unread f)) as [H|H]; [unfold MAX_LOG_LEN; lia| |];
    destruct (cut_line (MAX_LOG_LEN - 1) (unread f)) as [[l b] r]; cbn in *; subst; rewrite Hb;
    auto. split; [done|]. left. by rewrite orb_true_r.
Qed.

Lemma copy_all_returns out ending e : forall fuel buf f s,
  broken f = false -> (String.length (unread f) < fuel)%nat ->
  wp (copy_all fuel out ending buf f) e s (fun o _ => is_Some o).
Proof.
  induction fuel as [|fuel IH]; intros buf f s Hb Hf; [lia|]. cbn [copy_all].
  destruct (at_eof f) eqn:He; [by apply wp_ret|].
  destruct (fgets_progress 0 buf f Hb He) as [Hb' Hp].
  destruct (fgets 0 buf f) as [buf' f']. cbn [snd] in *.
  wp_step. apply wp_always. intros t s1. wp_step. apply wp_always. intros [] s2.
  destruct Hp as [He'|Hlt]; [|apply IH; [done | lia]].
  destruct fuel; cbn [copy_all]; rewrite He'; by apply wp_ret.
Qed.

Section Logged.
Context (out : Z).

#[global] Instance logs_text off mem : Logs (text off mem).
Proof. unfold text, mark_undefined. logs. Qed.

#[global] Instance logs_loop_then {A B} (m : mlog (option A)) (k : A -> mlog (option B)) :
  Logs m -> (forall a, Logs (k a)) -> Logs (loop_then m k).
Proof. intros. unfold loop_then. logs. Qed.

#[global] Instance logs_copy_all fuel ending buf f : Logs (copy_all fuel out ending buf f).
Proof.
  revert buf f. induction fuel as [|fuel IH]; intros buf f; cbn [copy_all]; [logs|].
  destruct (fgets 0 buf f). unfold fputs. logs.
Qed.

#[global] Instance logs_copy_info fuel : Logs (copy_info fuel out).
Proof.
  unfold copy_info, local_buf, fputs.
  repeat first [logs | apply logs_loop_then; [|intros ?] | case_match].
Qed.

#[global] Instance logs_find_reason fuel mem i f : Logs (find_reason fuel mem i f).
Proof.
  revert mem i f. induction fuel as [|fuel IH]; intros mem i f; cbn [find_reason]; [logs|].
  destruct (fgets (row i) mem f). logs.
Qed.

#[global] Instance logs_next_lines n mem f : Logs (next_lines n out mem f).
Proof.
  revert mem f. induction n as [|n IH]; intros mem f; cbn [next_lines]; [logs|].
  destruct (fgets 0 mem f). unfold fputs. logs.
Qed.

#[global] Instance logs_filter_lines fuel d mem f : Logs (filter_lines fuel out d mem f).
Proof.
  revert d mem f. induction fuel as [|fuel IH]; intros d mem f; cbn [filter_lines]; [logs|].
  destruct (fgets 0 mem f). unfold fputs. logs.
Qed.

#[global] Instance logs_copy_console fuel mem f : Logs (copy_console fuel out mem f).
Proof.
  unfold copy_console, spill, fputs. apply logs_loop_then; [apply _|]. intros [[[? ?] ?] ?]. logs.
Qed.
End Logged.

#[global] Instance logs_readFile fuel modemfile fd : Logs (readFile fuel modemfile fd).
Proof.
  unfold readFile, local_buf, fputs, mark_undefined.
  repeat first [logs | apply logs_loop_then; [|intros ?]].
Qed.

(** The streams that are opened for reading end without errors, after fewer bytes than
    there is fuel. *)
Definition readable e (fuel : nat) : Prop := forall k path,
  aux 0 (e k (Fopen path "r")) = 0
  /\ (String.length (r_data (e k (Fopen path "r"))) < fuel)%nat.

Lemma copy_info_file_returns fuel out ending buf e k path s : readable e fuel ->
  wp (copy_all fuel out ending buf (stream (e k (Fopen path "r")))) e s (fun o _ => is_Some o).
Proof.
  intros He. destruct (He k path) as [Ha Hl].
  apply copy_all_returns; [|done]. cbn. by rewrite Ha.
Qed.

Lemma copy_info_returns fuel out e s : readable e fuel ->
  wp (copy_info fuel out) e s (fun o _ => is_Some o).
Proof.
  intros He. unfold copy_info, loop_then.
  assert (forall ending buf k path s,
    wp (if r_ret (e k (Fopen path "r")) =? 0 then mret (Some buf)
        else (o ← copy_all fuel out ending buf (stream (e k (Fopen path "r")));
              match o with
              | Some b => call (Fclose (r_ret (e k (Fopen path "r")))) ;; mret (Some b)
              | None => mret None
              end)) e s (fun o _ => is_Some o)) as Hcopy.
  { intros ending buf k path s1. wp_step; [by apply wp_ret|]. wp_step.
    eapply wp_wand; [by apply copy_info_file_returns|]. intros o s2 [b ->]. by wp_go. }
  apply wp_bind, wp_call. intros v ->. unfold local_buf. wp_step. wp_step. wp_step.
  apply wp_ret. wp_step.
  eapply wp_wand; [apply Hcopy|]. intros o s1 [b ->].
  apply wp_bind, wp_call. intros v ->. wp_step.
  eapply wp_wand; [apply Hcopy|]. intros o s2 [b' ->].
  wp_step. wp_step. wp_step. apply wp_always. intros [] s3. by apply wp_ret.
Qed.


(** ** The tail of the kernel log *)

Lemma cut_line_split n x : x = (cut_line n x).1.1 +:+ (cut_line n x).2.
Proof.
  revert x. induction n as [|n IH]; intros [|c x]; cbn; try done.
  destruct (c =? "010")%char; cbn; [done|]. specialize (IH x).
  destruct (cut_line n x) as [[l b] r]. cbn in *. by f_equal.
Qed.

(** A line that is not complete is the rest of the stream. *)
Lemma cut_line_partial n x : (cut_line n x).1.2 = false ->
  cut_line n x = (x, false, "") /\ lacks "010" x /\ (String.length x < n)%nat.
Proof.
  revert x. induction n as [|n IH]; intros [|c x]; cbn; try done.
  - intros _. split_and!; [done..|lia].
  - unfold lacks. cbn. destruct (c =? "010")%char eqn:Ec; [done|]. specialize (IH x).
    destruct (cut_line n x) as [[l b] r]. cbn in *. intros ->.
    destruct (IH eq_refl) as (E & Hl & Hn). simplify_eq. unfold lacks in Hl.
    split_and!; [done | by rewrite Hl | lia].
Qed.

(** The lines that the loop copies, and the part of a line that is left *)
Lemma copy_tail_spec out e : forall fuel buf f s,
  broken f = false -> at_eof f = false -> lacks NUL (unread f) ->
  (String.length (unread f) < fuel)%nat -> String.length buf = MAX_LOG_LEN ->
  wp (copy_tail fuel out buf f) e s (fun o s' => o = Some tt /\ exists ls partial,
    unread f = joined_lines ls +:+ partial /\ lacks "010" partial
    /\ (String.length partial < 255)%nat /\ puts out ls s s').
Proof.
  induction fuel as [|fuel IH]; intros buf f s Hb He Hn Hf Hbuf; [lia|]. cbn [copy_tail].
  unfold fgets. rewrite Hb, He.
  pose proof (cut_line_split (MAX_LOG_LEN - 1) (unread f)) as Hsplit.
  pose proof (cut_line_shorter (MAX_LOG_LEN - 1) (unread f) ltac:(unfold MAX_LOG_LEN; lia)) as Hsh.
  pose proof (cut_line_partial (MAX_LOG_LEN - 1) (unread f)) as Hpart.
  pose proof (cut_line_length (MAX_LOG_LEN - 1) (unread f)) as Hlen.
  destruct (cut_line (MAX_LOG_LEN - 1) (unread f)) as [[l []] r]; cbn in Hsplit, Hsh, Hpart, Hlen.
  - destruct Hsh as [|Hsh]; [done|]. cbn [at_eof negb andb orb].
    rewrite Hsplit in Hn. apply lacks_prefix in Hn as [Hnl Hnr].
    destruct l as [|c l]; [rewrite Hsplit in Hsh; cbn in Hsh; lia|].
    wp_step. eapply text_reads; [apply reads_put; [done | lia]|].
    wp_step. eapply wp_wand; [apply wp_fputs|]. cbn beta. intros [] s1 H1.
    eapply wp_wand; [apply IH; cbn [unread broken at_eof]; try done; [lia|];
      rewrite put_at_length; rewrite ?nul_length; unfold MAX_LOG_LEN in *; cbn in Hlen |- *; lia|].
    cbn beta. intros o s2 [-> (ls & partial & E & Hp & Hq & H2)]. split; [done|].
    exists (String c l :: ls), partial. cbn [unread] in E. split_and!; [|done..|].
    + rewrite Hsplit, E. cbn [joined_lines]. by rewrite str_app_assoc.
    + change (String c l :: ls) with ([String c l] ++ ls). by eapply puts_trans.
  - destruct (Hpart eq_refl) as (E & Hl & Hq). cbn [at_eof negb andb orb]. apply wp_ret.
    split; [done|]. exists [], (unread f). split_and!; [done..|apply puts_nil].
Qed.

(** The end of /proc/last_kmsg that is appended behind [pos] bytes: all of it when it fits,
    else as many bytes as remain of 64 KB. *)
Definition kmsg_tail (pos size : Z) (kmsg : string) : string :=
  if WDRST_REPORT_SIZE - pos <? size
  then str_drop (Z.to_nat (size - (WDRST_REPORT_SIZE - pos))) kmsg else kmsg.

Lemma kmsg_tail_length pos size kmsg : 0 <= pos < WDRST_REPORT_SIZE -> strlen kmsg = size ->
  (String.length (kmsg_tail pos size kmsg) <= String.length kmsg)%nat
  /\ pos + strlen (kmsg_tail pos size kmsg) <= WDRST_REPORT_SIZE.
Proof.
  unfold kmsg_tail, strlen. intros Hp Hs. destruct (Z.ltb_spec (WDRST_REPORT_SIZE - pos) size);
    rewrite ?str_drop_length; lia.
Qed.

Lemma kmsg_tail_lacks pos size kmsg : lacks NUL kmsg -> lacks NUL (kmsg_tail pos size kmsg).
Proof. unfold kmsg_tail. case_match; [apply lacks_drop | done]. Qed.

(** The report of a watchdog reset is completed with the end of the kernel log and
    stays within 64 KB: when [size] bytes of text can be read and [pos] bytes are written
    already, the lines of the end of the log that fits are copied in order, except a
    last line without a newline; and the function returns. *)
Theorem last_kmsg_appended fuel out pos size fp kmsg e s :
  (forall k, r_ret (e k (Lstat LAST_KMSG_PATHNAME)) = 0
    /\ stat_size (e k (Lstat LAST_KMSG_PATHNAME)) = size) ->
  (forall k, r_ret (e k (Ftell out)) = pos) -> 0 <= pos < WDRST_REPORT_SIZE ->
  (forall k, r_ret (e k (Fopen LAST_KMSG_PATHNAME "r")) = fp
    /\ r_data (e k (Fopen LAST_KMSG_PATHNAME "r")) = kmsg
    /\ aux 0 (e k (Fopen LAST_KMSG_PATHNAME "r")) = 0) -> fp <> 0 ->
  (forall k p, r_ret (e k (Fseek fp p)) = 0) ->
  lacks NUL kmsg -> strlen kmsg = size -> size <= INT_MAX -> (String.length kmsg < fuel)%nat ->
  wp (append_last_kmsg fuel out) e s (fun o s' => o = Some tt /\ st s' = st s /\
    exists ls partial,
      kmsg_tail pos size kmsg = joined_lines ls +:+ partial
      /\ lacks "010" partial /\ (String.length partial < 255)%nat
      /\ pos + strlen (joined_lines ls) <= WDRST_REPORT_SIZE
      /\ calls s' = calls s ++ [Lstat LAST_KMSG_PATHNAME; Ftell out;
           Fopen LAST_KMSG_PATHNAME "r"; Uninit 256]
           ++ (if WDRST_REPORT_SIZE - pos <? size
               then [Fseek fp (size - (WDRST_REPORT_SIZE - pos))] else [])
           ++ (Fputs out <$> ls) ++ [Fclose fp]).
Proof.
  intros Hstat Htell Hpos Hopen Hfp Hseek Hn Hsize Hmax Hfuel. unfold append_last_kmsg.
  apply wp_bind, wp_call. intros r1 E1. destruct (Hstat (length (tr s))) as [Hr1 Hs1].
  rewrite <- E1 in Hr1, Hs1. rewrite Hr1, Hs1. cbn [Z.eqb negb].
  apply wp_bind, wp_call. intros r2 E2. cbn [tr] in *.
  assert (r_ret r2 = pos) as -> by (rewrite E2; apply Htell). cbv zeta.
  rewrite (proj2 (Z.leb_gt _ 0)) by lia.
  apply wp_bind, wp_call. intros r3 E3. cbn [tr] in E3.
  match type of E3 with _ = e ?k _ => destruct (Hopen k) as (Ho & Hd & Ha) end.
  rewrite <- E3 in Ho, Hd, Ha. unfold local_buf. do 4 wp_step. cbn [st tr].
  rewrite Ho, (proj2 (Z.eqb_neq fp 0) Hfp).
  match goal with |- wp _ _ ?x _ => set (s1 := x) end.
  apply wp_bind. eapply (wp_wand _ _ _ (fun f s2 =>
    f = InFile (kmsg_tail pos size kmsg) false false /\ st s2 = st s1 /\
    calls s2 = calls s1 ++ (if WDRST_REPORT_SIZE - pos <? size
      then [Fseek fp (size - (WDRST_REPORT_SIZE - pos))] else []))).
  { unfold kmsg_tail. destruct (Z.ltb_spec (WDRST_REPORT_SIZE - pos) size) as [Hlt|Hge].
    - rewrite wrap32_id by (unfold INT_MIN, INT_MAX in *; lia).
      apply wp_bind, wp_call. intros q Eq. apply wp_ret.
      assert (r_ret q = 0) as -> by (rewrite Eq; apply Hseek). cbn [Z.eqb]. rewrite Hd. unfold stream. rewrite Ha. split_and!; [done..|apply calls_snoc].
    - apply wp_ret. unfold stream. rewrite Hd, Ha. split_and!; [done..|by rewrite app_nil_r]. }
  cbn beta. intros f s2 (-> & Hst2 & Hc2). unfold loop_then. wp_step.
  pose proof (kmsg_tail_length pos size kmsg Hpos Hsize) as [Ht1 Ht2].
  eapply wp_wand; [apply copy_tail_spec; cbn [unread broken at_eof]; try done;
    [by apply kmsg_tail_lacks | lia | apply buf_bytes_length]|].
  cbn beta. intros o s3 [-> (ls & partial & E & Hl & Hp & Hst3 & Hc3)]. wp_go.
  split_and!; [done | by rewrite Hst3, Hst2 |]. exists ls, partial.
  cbn [unread] in E. split_and!; [done..| |].
  - rewrite E in Ht2. unfold strlen in *. rewrite str_length_app in Ht2. lia.
  - rewrite calls_snoc. fold (calls s3). rewrite Hc3, Hc2. subst s1. unfold calls. cbn [tr].
    rewrite !fmap_app. by rewrite <- !app_assoc.
Qed.

(** ** On concrete logs *)

Definition console (words : string) : string := "<4>[   12.345678] " +:+ words +:+ newline.

Definition demo_before : list string :=
  console <$> ["a"; "b"; "c"; "d"; "e"; "f"; "g"; "h"; "i"; "Unable to handle kernel paging"].
Definition demo_reason : string := console "PC is at panic_write+0x10".
Definition demo_after : list string :=
  console <$> ["LR is at vfs_write"; "pc : [<c01>]"; "sp : c7"; "r10: 0"; "r7 : 1"; "r3 : 2";
    "Flags: nZCv"; "Control: 10c5"; "PC: 0xc01"; "c01: 0000"; "R0: 0xc02"; "c02: 1111"; "end"].

(** The console of the demo is open, the report can be written, /proc has one line. *)
Definition demo_panic : env mlog_call := fun _ c =>
  match c with
  | Fdopen _ => Resp 5 0 (joined_lines (demo_before ++ demo_reason :: demo_after)) []
  | Fopen _ "w" => answer 7
  | Fopen _ "r" => Resp 6 0 ("Linux" +:+ newline) []
  | _ => answer 0
  end.


(** A kernel log of 1707 bytes does not fit behind the 64536 bytes of a report. *)
Fixpoint many_lines (n : nat) : string :=
  match n with O => "the end" | S n => "0123456789abcdef" +:+ newline +:+ many_lines n end.

Definition demo_kmsg : env mlog_call := fun _ c =>
  match c with
  | Lstat _ => Resp 0 0 "" [1000; 1707]
  | Ftell _ => answer 64536
  | Fopen _ _ => Resp 6 0 (many_lines 100) []
  | _ => answer 0
  end.

Lemma last_kmsg_appended_witness :
  WDRST_REPORT_SIZE - 64536 < strlen (many_lines 100) /\
  wp (append_last_kmsg 2000 7) demo_kmsg (Sys _ _ mlog_init []) (fun o s' => o = Some tt
    /\ st s' = mlog_init /\ exists ls partial,
      kmsg_tail 64536 1707 (many_lines 100) = joined_lines ls +:+ partial
      /\ lacks "010" partial /\ (String.length partial < 255)%nat
      /\ 64536 + strlen (joined_lines ls) <= WDRST_REPORT_SIZE
      /\ calls s' = [Lstat LAST_KMSG_PATHNAME; Ftell 7;
           Fopen LAST_KMSG_PATHNAME "r"; Uninit 256]
           ++ [Fseek 6 707] ++ (Fputs 7 <$> ls) ++ [Fclose 6]).
Proof.
  split; [vm_compute; reflexivity|].
  apply (last_kmsg_appended 2000 7 64536 1707 6 (many_lines 100) demo_kmsg).
  - intros k. split; reflexivity.
  - reflexivity.
  - unfold WDRST_REPORT_SIZE. lia.
  - intros k. split; [reflexivity | split; reflexivity].
  - lia.
  - reflexivity.
  - apply (bool_decide_unpack _). vm_compute. exact I.
  - vm_compute. reflexivity.
  - unfold INT_MAX. lia.
  - apply Nat.ltb_lt. vm_compute. reflexivity.
Defined.

(** ** Logs the program is not made for *)

(** A stream that fails to be read never reaches its end, and the loops go on forever. *)
Theorem read_error_hangs out ending e fuel : forall buf f s,
  broken f = true -> at_eof f = false ->
  wp (copy_all fuel out ending buf f) e s (fun o _ => o = None).
Proof.
  induction fuel as [|fuel IH]; intros buf f s Hb He; cbn [copy_all]; rewrite He; [by apply wp_ret|].
  unfold fgets. destruct (cut_line (MAX_LOG_LEN - 1) (unread f)) as [[l b] r].
  wp_step. apply wp_always. intros t s1. wp_step. apply wp_always. intros [] s2.
  apply IH; [done|]. cbn [at_eof]. rewrite He, Hb. by destruct b.
Qed.

(** With fewer than ten lines before the program counter the report prints memory that was
    never written. *)
Definition short_panic : env mlog_call := fun _ c =>
  match c with
  | Fdopen _ => Resp 5 0 demo_reason []
  | Fopen _ "w" => answer 7
  | Fopen _ "r" => Resp 6 0 ("Linux" +:+ newline) []
  | Uninit n => Resp 0 0 (joined_lines (replicate n "x")) []
  | _ => answer 0
  end.

Theorem short_log_undefined :
  wp (readFile 50 "report" 4) short_panic (Sys _ _ mlog_init [])
    (fun o s' => o = Some tt /\ undefined (st s') = true).
Proof. vm_compute. split; reflexivity. Qed.
