(* ===== verification/ModemDir.v ===== *)
(** * modemlog: the size of the report directory, and one report per panic

    [checkdir] keeps a doubly linked list of the files; it is related to a list, and the
    function is shown to remove the oldest files until the rest is small enough, to free
    what it allocates and to return.  The state file makes [main] report a panic once. *)

From S2P Require Import Prelude.
From S2P Require Import CString.
From S2P Require Import Modemlog.
From S2P Require Import ModemThms.
From Stdlib Require Import Ascii Sorting.Sorted.

Implicit Types (e : env mlog_call) (s : sys mlog_call mlog_vars) (v : mlog_vars).

(** ** The linked list *)

(** A file with the addresses of its record and of its name *)
Record dfile := DFile {
  d_addr : Z;
  d_name : Z;
  d_text : string;
  d_time : Z;
  d_size : Z }.

Implicit Types (d : dfile) (l a b : list dfile) (h : gmap Z FileRec).

Definition node d (next prev : Z) : FileRec :=
  MkFileRec next prev (d_name d) (d_text d) (d_time d) (d_size d).

Definition head_or l (p : Z) : Z := match l with [] => p | d :: _ => d_addr d end.
Definition last_or (p : Z) l : Z := match last l with Some d => d_addr d | None => p end.

(** The records of [l] in the heap, between a predecessor and a successor *)
Fixpoint dseg h (prev : Z) l (next : Z) : Prop :=
  match l with
  | [] => True
  | d :: l => h !! d_addr d = Some (node d (head_or l next) prev)
      /\ dseg h (d_addr d) l next
  end.

(** The list of the program *)
Definition dlist v l : Prop :=
  first v = head_or l 0 /\ dseg (heap v) 0 l 0 /\ NoDup (d_addr <$> l)
  /\ (0 ∉ (d_addr <$> l)) /\ dom (heap v) = list_to_set (d_addr <$> l).

Lemma last_or_cons p d l : last_or p (d :: l) = last_or (d_addr d) l.
Proof. unfold last_or. rewrite last_cons. by destruct (last l). Qed.

Lemma dseg_app h a : forall b prev next,
  dseg h prev (a ++ b) next <->
  dseg h prev a (head_or b next) /\ dseg h (last_or prev a) b next.
Proof.
  induction a as [|d a IH]; intros b prev next; [unfold last_or; cbn; tauto|].
  rewrite last_or_cons. cbn. rewrite IH. destruct a; cbn; tauto.
Qed.

(** Records outside of a segment do not matter. *)
Lemma dseg_frame h h' l : forall prev next, (forall p, p ∈ (d_addr <$> l) -> h' !! p = h !! p) ->
  dseg h prev l next -> dseg h' prev l next.
Proof.
  induction l as [|d l IH]; intros prev next Hf; cbn; [done|]. intros [Hd Hl].
  split; [rewrite Hf; [done | by left]|]. apply IH; [|done]. intros p Hp. apply Hf. by right.
Qed.

Lemma dseg_insert h l prev next p r : p ∉ (d_addr <$> l) ->
  dseg h prev l next -> dseg (<[p := r]> h) prev l next.
Proof.
  intros Hp. apply dseg_frame. intros q Hq. apply lookup_insert_ne. by intros ->.
Qed.

Lemma dseg_delete h l prev next p : p ∉ (d_addr <$> l) ->
  dseg h prev l next -> dseg (delete p h) prev l next.
Proof.
  intros Hp. apply dseg_frame. intros q Hq. apply lookup_delete_ne. by intros ->.
Qed.

(** The successor of a segment is in its last record ... *)
Lemma dseg_set_next h l d prev next next' : NoDup (d_addr <$> l ++ [d]) ->
  dseg h prev (l ++ [d]) next ->
  dseg (<[d_addr d := node d next' (last_or prev l)]> h) prev (l ++ [d]) next'.
Proof.
  rewrite fmap_app. intros Hnd%NoDup_app [Hl Hd]%dseg_app. apply dseg_app. split.
  - apply dseg_insert; [|done]. intros Hin. by apply Hnd in Hin as []; left.
  - cbn. by rewrite lookup_insert_eq.
Qed.

(** ... and its predecessor in the first. *)
Lemma dseg_set_prev h l d prev prev' next : d_addr d ∉ (d_addr <$> l) ->
  dseg h prev (d :: l) next ->
  dseg (<[d_addr d := node d (head_or l next) prev']> h) prev' (d :: l) next.
Proof.
  intros Hnd [_ Hl]. cbn. split; [by rewrite lookup_insert_eq|]. by apply dseg_insert.
Qed.

(** ** Operations on the list *)

Lemma wp_store_rec p f r e s (Q : unit -> sys mlog_call mlog_vars -> Prop) :
  heap (st s) !! p = Some r ->
  Q tt (Sys _ _ ((st s) <| heap := <[p := f r]> (heap (st s)) |>) (tr s)) ->
  wp (store_rec p f) e s Q.
Proof. intros Hp HQ. unfold store_rec. wp_step. wp_step. by rewrite Hp. Qed.

Lemma wp_load_rec p r dflt e s (Q : FileRec -> sys mlog_call mlog_vars -> Prop) :
  heap (st s) !! p = Some r -> Q r s -> wp (load_rec p dflt) e s Q.
Proof. intros Hp HQ. unfold load_rec. wp_step. wp_step. by rewrite Hp. Qed.

Lemma addr_nonzero l d : 0 ∉ (d_addr <$> l) -> d ∈ l -> d_addr d <> 0.
Proof. intros H Hd E. apply H. rewrite <- E. by apply list_elem_of_fmap_2. Qed.

Lemma head_zero l : 0 ∉ (d_addr <$> l) -> head_or l 0 = 0 -> l = [].
Proof. destruct l as [|d l]; [done|]. cbn. intros H E. exfalso. apply H. rewrite E. left. Qed.

Lemma last_zero l : 0 ∉ (d_addr <$> l) -> last_or 0 l = 0 -> l = [].
Proof.
  destruct l as [|d l _] using rev_ind; [done|]. unfold last_or. rewrite last_snoc.
  intros H E. exfalso. apply H. rewrite fmap_app. apply elem_of_app. right. cbn. rewrite E. left.
Qed.

Lemma last_or_snoc p l d : last_or p (l ++ [d]) = d_addr d.
Proof. unfold last_or. by rewrite last_snoc. Qed.

Lemma head_or_app a b p : head_or (a ++ b) p = head_or a (head_or b p).
Proof. by destruct a. Qed.

(** The variables but for the list *)
Definition same_rest v v' : Prop :=
  Report_Flag v' = Report_Flag v /\ panic_report_config v' = panic_report_config v
  /\ undefined v' = undefined v.

(** The three parts of a list with one record in the middle *)
Definition around v a d b (first_a next_a prev_b : Z) : Prop :=
  first v = first_a
  /\ dseg (heap v) 0 a next_a
  /\ heap v !! d_addr d = Some (node d (head_or b 0) (last_or 0 a))
  /\ dseg (heap v) prev_b b 0
  /\ dom (heap v) = list_to_set (d_addr <$> a ++ d :: b).

Lemma dom_insert_known h p r r' : h !! p = Some r -> dom (<[p := r']> h) = dom h.
Proof. intros H. rewrite dom_insert_L. apply elem_of_dom_2 in H. set_solver. Qed.

Section Unlinked.
Context (a b : list dfile) (d : dfile) (e : env mlog_call).
Hypothesis Hnd : NoDup (d_addr <$> a ++ d :: b).
Hypothesis Hz : 0 ∉ (d_addr <$> a ++ d :: b).

Lemma parts_distinct :
  NoDup (d_addr <$> a) /\ NoDup (d_addr <$> b) /\ (d_addr d ∉ (d_addr <$> a))
  /\ (d_addr d ∉ (d_addr <$> b))
  /\ (forall p, p ∈ (d_addr <$> a) -> p ∉ (d_addr <$> b))
  /\ (0 ∉ (d_addr <$> a)) /\ (0 ∉ (d_addr <$> b)) /\ d_addr d <> 0.
Proof.
  rewrite fmap_app, fmap_cons in Hnd, Hz.
  apply NoDup_app in Hnd as (Ha & Hx & Hdb). apply NoDup_cons in Hdb as [Hd Hb].
  rewrite elem_of_app, elem_of_cons in Hz.
  split_and!; try done; try tauto; try (intros E; subst; tauto).
  - intros Hin. apply (Hx _ Hin). left.
  - intros p Hp Hq. apply (Hx _ Hp). by right.
  - intros E. apply Hz. right. by left.
Qed.

Lemma fix_prev s next_a :
  around (st s) a d b (head_or (a ++ d :: b) 0) next_a (d_addr d) ->
  wp (if last_or 0 a =? 0 then modify (fun v => v <| first := head_or b 0 |>)
      else store_rec (last_or 0 a) (fun r => r <| fr_next := head_or b 0 |>)) e s (fun _ s' =>
    around (st s') a d b (head_or (a ++ b) 0) (head_or b 0) (d_addr d)
    /\ same_rest (st s) (st s') /\ tr s' = tr s).
Proof.
  destruct parts_distinct as (Ha & _ & Hda & _ & Hab & Hza & _).
  intros (Hf & Hsa & Hd & Hsb & Hdom). destruct (Z.eqb_spec (last_or 0 a) 0) as [E|E].
  - apply (last_zero _ Hza) in E as ->. wp_step. unfold around, same_rest. split_and!; try done.
  - destruct a as [|x a' _] using rev_ind; [done|]. rewrite last_or_snoc in *.
    pose proof Hsa as [_ [Hx _]]%dseg_app. cbn in Hx.
    eapply wp_store_rec; [exact Hx|]. unfold around, same_rest. split_and!; try done.
    + transitivity (first (st s)); [done|]. rewrite Hf, !head_or_app. by destruct a'.
    + apply (dseg_set_next _ a' x _ next_a); [by rewrite fmap_app in * | done].
    + cbn. rewrite lookup_insert_ne, Hd, last_or_snoc; [done|].
      intros Ex. apply Hda. rewrite fmap_app, <- Ex. apply elem_of_app. right. left.
    + cbn. apply dseg_insert; [|done]. apply Hab. rewrite fmap_app. apply elem_of_app. right. left.
    + rewrite <- Hdom. apply (dom_insert_known _ _ _ _ Hx).
Qed.

Lemma fix_next s first_a next_a :
  around (st s) a d b first_a next_a (d_addr d) ->
  wp (if head_or b 0 =? 0 then mret tt
      else store_rec (head_or b 0) (fun r => r <| fr_prev := last_or 0 a |>)) e s (fun _ s' =>
    around (st s') a d b first_a next_a (last_or 0 a)
    /\ same_rest (st s) (st s') /\ tr s' = tr s).
Proof.
  destruct parts_distinct as (_ & Hb & _ & Hdb & Hab & _ & Hzb & _).
  intros (Hf & Hsa & Hd & Hsb & Hdom). destruct (Z.eqb_spec (head_or b 0) 0) as [E|E].
  - apply (head_zero _ Hzb) in E as ->. wp_step. unfold around, same_rest. by split_and!.
  - destruct b as [|y b']; [done|]. pose proof Hsb as [Hy _].
    eapply wp_store_rec; [exact Hy|]. unfold around, same_rest. split_and!; try done.
    + cbn. apply dseg_insert; [|done]. intros Hin. apply (Hab _ Hin). left.
    + cbn. rewrite lookup_insert_ne; [done|]. intros Ey. apply Hdb. rewrite <- Ey. left.
    + apply NoDup_cons in Hb as [Hb _]. by apply (dseg_set_prev _ b' y (d_addr d)).
    + rewrite <- Hdom. apply (dom_insert_known _ _ _ _ Hy).
Qed.

Lemma drop_record s :
  around (st s) a d b (head_or (a ++ b) 0) (head_or b 0) (last_or 0 a) ->
  dlist ((st s) <| heap := delete (d_addr d) (heap (st s)) |>) (a ++ b).
Proof.
  destruct parts_distinct as (Ha & Hb & Hda & Hdb & Hab & Hza & Hzb & _).
  intros (Hf & Hsa & Hd & Hsb & Hdom). split_and!; [done| | | |].
  - apply dseg_app. split; by apply dseg_delete.
  - rewrite fmap_app. by apply NoDup_app.
  - rewrite fmap_app, elem_of_app. tauto.
  - cbn. rewrite dom_delete_L, Hdom, !fmap_app, fmap_cons, !list_to_set_app_L. set_solver.
Qed.
End Unlinked.

(** A record is taken out of the list and freed. *)
Lemma FileRecDel_spec a d b e s : dlist (st s) (a ++ d :: b) ->
  wp (FileRecDel (d_addr d)) e s (fun _ s' => dlist (st s') (a ++ b)
    /\ same_rest (st s) (st s') /\ calls s' = calls s ++ [Free (d_name d); Free (d_addr d)]
    /\ exists t, tr s' = tr s ++ t).
Proof.
  intros (Hf & Hseg & Hnd & Hz & Hdom). pose proof Hseg as [Ha [Hd Hb]]%dseg_app.
  unfold FileRecDel. wp_step. eapply wp_load_rec; [exact Hd|]. cbn [node fr_prev fr_next fr_name].
  wp_step. eapply wp_wand; [eapply fix_prev; [done..|by split_and!]|].
  cbn beta. intros [] s1 (H1 & R1 & T1). wp_step.
  eapply wp_wand; [eapply fix_next; [done..|exact H1]|].
  cbn beta. intros [] s2 (H2 & R2 & T2). wp_step.
  eapply wp_store_rec; [apply H2|]. wp_go. pose proof (drop_record a b d Hnd Hz s2 H2) as Hfinal.
  split_and!.
  - destruct (st s2) as [f h rf pc u]. revert Hfinal. unfold dlist. cbn.
    by rewrite delete_insert_eq.
  - unfold same_rest in *. cbn. destruct R1 as (? & ? & ?), R2 as (? & ? & ?). split_and!; congruence.
  - unfold calls. cbn [tr]. rewrite T2, T1, !fmap_app. by rewrite <- app_assoc.
  - cbn [tr]. rewrite T2, T1, <- app_assoc. by eexists.
Qed.

(** A record is linked before the first one. *)
Lemma link_first d l e s0 s1 : dlist (st s0) l -> d_addr d <> 0 -> d_addr d ∉ (d_addr <$> l) ->
  st s1 = (st s0) <| heap := <[d_addr d := node d 0 0]> (heap (st s0)) |> ->
  wp (if head_or l 0 =? 0 then modify (fun v => v <| first := d_addr d |>)
      else store_rec (d_addr d) (fun r => r <| fr_next := head_or l 0 |>) ;;
           store_rec (head_or l 0) (fun r => r <| fr_prev := d_addr d |>) ;;
           modify (fun v => v <| first := d_addr d |>)) e s1 (fun _ s2 =>
    dlist (st s2) (d :: l) /\ same_rest (st s0) (st s2) /\ tr s2 = tr s1).
Proof.
  intros (Hf & Hseg & Hnd & Hz & Hdom) Hd Hfresh Hst. unfold dlist, same_rest.
  assert (NoDup (d_addr <$> d :: l) /\ 0 ∉ (d_addr <$> d :: l)) as [Hnd' Hz'].
  { rewrite fmap_cons, NoDup_cons, not_elem_of_cons. by repeat split. }
  destruct l as [|x l]; cbn [head_or].
  - cbn [Z.eqb]. wp_step. rewrite Hst. split_and!; try done.
    + cbn. by rewrite lookup_insert_eq.
    + cbn in Hdom |- *. rewrite dom_insert_L, Hdom. set_solver.
  - rewrite (proj2 (Z.eqb_neq (d_addr x) 0)) by (intros E; apply Hz; rewrite <- E; left).
    pose proof Hseg as [Hx _].
    assert (d_addr x <> d_addr d) as Hxd by (intros E; apply Hfresh; rewrite <- E; left).
    wp_step. eapply wp_store_rec; [rewrite Hst; apply lookup_insert_eq|].
    wp_step. eapply wp_store_rec; [cbn; rewrite Hst; cbn; rewrite !lookup_insert_ne by done; exact Hx|].
    wp_step. rewrite Hst. split_and!; try done.
    + split; [cbn; rewrite lookup_insert_ne, lookup_insert_eq by done; done|].
      apply (dseg_set_prev _ l x 0); [by apply NoDup_cons in Hnd as [? _]|].
      by do 2 (apply dseg_insert; [done|]).
    + cbn in Hdom |- *. rewrite !dom_insert_L, Hdom. set_solver.
Qed.

(** A new record at the head of the list *)
Lemma FileRecCopy_spec n t sz l e s : dlist (st s) l ->
  let p := r_ret (e (length (tr s)) (Malloc 20)) in
  let q := r_ret (e (S (length (tr s))) (Malloc (strlen n + 1))) in
  p <> 0 -> q <> 0 -> p ∉ (d_addr <$> l) ->
  wp (FileRecCopy n t sz) e s (fun r s' => r = p /\ first (st s') = p
    /\ dlist (st s') (DFile p q n t sz :: l) /\ same_rest (st s) (st s')
    /\ exists r1 r2, tr s' = tr s ++ [(Malloc 20, r1); (Malloc (strlen n + 1), r2)]
       /\ r_ret r1 = p /\ r_ret r2 = q).
Proof.
  intros (Hf & Hseg & Hnd & Hz & Hdom) p q Hp Hq Hfresh. unfold FileRecCopy.
  apply wp_bind, wp_call. intros r1 E1.
  assert (r_ret r1 = p) as Ep by by rewrite E1. rewrite Ep, (proj2 (Z.eqb_neq p 0) Hp). cbv zeta.
  apply wp_bind, wp_call. intros r2 E2. cbn [tr] in E2.
  assert (r_ret r2 = q) as Eq by (rewrite E2, length_app, Nat.add_1_r; done).
  rewrite Eq, (proj2 (Z.eqb_neq q 0) Hq). cbn [st tr].
  wp_step. wp_step. wp_step. wp_step. cbn [st tr]. set (d := DFile p q n t sz).
  match goal with |- wp _ _ ?x _ => set (s1 := x) end.
  change (first (set_field _ _ _)) with (first (st s)). rewrite Hf. apply wp_bind.
  eapply (wp_wand _ _ _ (fun _ s2 => dlist (st s2) (d :: l) /\ same_rest (st s) (st s2)
    /\ tr s2 = tr s1)).
  { by apply (link_first d l e s s1). }
  cbn beta. intros [] s2 (H2 & R2 & T2). wp_go. destruct H2 as (Hf2 & H2).
  split_and!; [done..| |done|]; [split; done|].
  exists r1, r2. split_and!; [|done..]. rewrite T2. unfold s1. cbn [tr]. by rewrite <- app_assoc.
Qed.

(** ** The oldest file *)

Fixpoint oldest_of (best : dfile) l : dfile :=
  match l with
  | [] => best
  | d :: l => oldest_of (if d_time d <? d_time best then d else best) l
  end.

Lemma oldest_in best l : oldest_of best l ∈ best :: l.
Proof.
  revert best. induction l as [|d l IH]; intros best; cbn; [left|].
  destruct (elem_of_cons l (oldest_of (if d_time d <? d_time best then d else best) l)
    (if d_time d <? d_time best then d else best)) as [H _].
  destruct (H (IH _)) as [-> |]; [|do 2 right; done]. case_match; [right; left | left].
Qed.

Lemma oldest_least best l : Forall (fun d => d_time (oldest_of best l) <= d_time d) (best :: l).
Proof.
  revert best. induction l as [|d l IH]; intros best; cbn; [by repeat constructor|].
  specialize (IH (if d_time d <? d_time best then d else best)).
  apply Forall_cons in IH as [Hb Hl]. destruct (Z.ltb_spec (d_time d) (d_time best));
    repeat constructor; try done; lia.
Qed.

Lemma dseg_lookup h prev l next d : d ∈ l -> dseg h prev l next ->
  exists n p, h !! d_addr d = Some (node d n p).
Proof.
  revert prev. induction l as [|x l IH]; intros prev Hd; [by apply not_elem_of_nil in Hd|].
  intros [Hx Hl]. apply elem_of_cons in Hd as [-> |Hd]; [eauto|]. by eapply IH.
Qed.

Lemma find_oldest_spec l e s : dlist (st s) l -> forall fuel b a best, l = a ++ b ->
  best ∈ l -> (length b <= fuel)%nat ->
  wp (find_oldest fuel (head_or b 0) (d_addr best)) e s (fun o s' =>
    s' = s /\ o = Some (d_addr (oldest_of best b))).
Proof.
  intros (_ & Hseg & _ & Hz & _) fuel b. revert fuel.
  induction b as [|d b IH]; intros fuel a best Hl Hbest Hfuel.
  { destruct fuel; cbn; by apply wp_ret. }
  destruct fuel as [|fuel]; cbn in Hfuel; [lia|]. cbn [find_oldest head_or oldest_of].
  assert (d ∈ l) as Hd by (rewrite Hl; apply elem_of_app; right; left).
  rewrite (proj2 (Z.eqb_neq (d_addr d) 0)) by by apply (addr_nonzero l).
  rewrite Hl in Hseg. pose proof Hseg as [_ [Hdh _]]%dseg_app. rewrite <- Hl in Hseg.
  wp_step. eapply wp_load_rec; [exact Hdh|]. wp_step.
  rewrite (proj2 (Z.eqb_neq (d_addr best) 0)) by by apply (addr_nonzero l).
  destruct (dseg_lookup _ _ _ _ _ Hbest Hseg) as (n & p & Hb).
  wp_step. eapply wp_load_rec; [exact Hb|]. wp_step. cbn [node fr_timestamp fr_next].
  assert ((if d_time d <? d_time best then d_addr d else d_addr best)
    = d_addr (if d_time d <? d_time best then d else best)) as -> by by destruct (_ <? _).
  apply (IH fuel (a ++ [d])); [by rewrite <- app_assoc | by destruct (_ <? _) | lia].
Qed.

Lemma find_first l d e s fuel : dlist (st s) (d :: l) -> (length l < fuel)%nat ->
  wp (find_oldest fuel (d_addr d) 0) e s (fun o s' =>
    s' = s /\ o = Some (d_addr (oldest_of d l))).
Proof.
  intros H Hfuel. destruct fuel as [|fuel]; [lia|]. cbn [find_oldest].
  pose proof H as (_ & [Hd _] & _ & Hz & _).
  rewrite (proj2 (Z.eqb_neq (d_addr d) 0)) by (apply (addr_nonzero (d :: l)); [done | left]).
  wp_step. eapply wp_load_rec; [exact Hd|]. wp_step. cbn [Z.eqb]. wp_step.
  apply (find_oldest_spec (d :: l) e s H fuel l [d] d); [done | left | lia].
Qed.

(** ** Removing files *)

Definition total_size l : Z := foldr (fun d n => d_size d + n) 0 l.

(** The oldest file goes, as long as the sum of the sizes, an [int], is too large. *)
Fixpoint pruned (deleted remaining : list dfile) : Prop :=
  match deleted with
  | [] => wrap32 (total_size remaining) <= MAXTOTALSIZE
  | d :: deleted =>
      MAXTOTALSIZE < wrap32 (total_size (d :: deleted ++ remaining))
      /\ Forall (fun x => d_time d <= d_time x) (deleted ++ remaining)
      /\ pruned deleted remaining
  end.

Definition removal_calls d : list mlog_call := [Unlink (d_text d); Free (d_name d); Free (d_addr d)].
Definition release_calls d : list mlog_call := [Free (d_name d); Free (d_addr d)].

Lemma total_size_perm l l' : l ≡ₚ l' -> total_size l = total_size l'.
Proof. unfold total_size. induction 1; cbn; lia. Qed.

Lemma wrap32_sub x y : wrap32 (wrap32 x - y) = wrap32 (x - y).
Proof. unfold wrap32. dlia. Qed.

Lemma wrap32_add x y : wrap32 (wrap32 x + y) = wrap32 (x + y).
Proof. unfold wrap32. dlia. Qed.

Lemma same_rest_trans v1 v2 v3 : same_rest v1 v2 -> same_rest v2 v3 -> same_rest v1 v3.
Proof. unfold same_rest. intros (-> & -> & ->) (-> & -> & ->). done. Qed.

Lemma shrink_spec e : forall fuel l s, dlist (st s) l -> (length l < fuel)%nat ->
  wp (shrink fuel (wrap32 (total_size l))) e s (fun o s' => o = Some tt /\
    exists deleted remaining, l ≡ₚ deleted ++ remaining /\ dlist (st s') remaining
      /\ same_rest (st s) (st s') /\ (exists t, tr s' = tr s ++ t)
      /\ calls s' = calls s ++ concat (removal_calls <$> deleted) /\ pruned deleted remaining).
Proof.
  induction fuel as [|fuel IH]; intros l s Hl Hfuel; [lia|]. cbn [shrink].
  destruct (Z.leb_spec (wrap32 (total_size l)) MAXTOTALSIZE) as [Hle|Hgt].
  { apply wp_ret. split; [done|]. exists [], l. split_and!; try done; [by eexists; rewrite app_nil_r|].
    by rewrite app_nil_r. }
  destruct l as [|d l]; [by vm_compute in Hgt|].
  wp_step. wp_step. replace (first (st s)) with (d_addr d) by (symmetry; apply Hl).
  unfold loop_then. wp_step. eapply wp_wand; [apply (find_first l d); [done | cbn in Hfuel; lia]|].
  cbn beta. intros o s1 [-> ->]. set (x := oldest_of d l).
  pose proof (oldest_in d l) as Hx. pose proof (oldest_least d l) as Hmin. fold x in Hx, Hmin.
  pose proof Hl as (_ & Hseg & _ & Hz & _).
  rewrite (proj2 (Z.eqb_neq (d_addr x) 0)) by by apply (addr_nonzero (d :: l)).
  destruct (dseg_lookup _ _ _ _ _ Hx Hseg) as (nx & px & Hxh).
  apply list_elem_of_split in Hx as (a & b & Hsplit). rewrite Hsplit in *.
  wp_step. eapply wp_load_rec; [exact Hxh|]. cbn [node fr_text fr_size]. do 2 wp_step.
  wp_step. eapply wp_wand; [apply (FileRecDel_spec a x b); exact Hl|].
  cbn beta. intros [] s2 (H2 & R2 & C2 & t2 & T2).
  assert (a ++ x :: b ≡ₚ x :: a ++ b) as Hperm by (symmetry; apply Permutation_middle).
  rewrite wrap32_sub, (total_size_perm _ _ Hperm). cbn [total_size foldr].
  replace (d_size x + foldr _ 0 (a ++ b) - d_size x) with (total_size (a ++ b)) by (unfold total_size; lia).
  eapply wp_wand; [apply IH; [done | rewrite length_app in *; cbn in Hfuel; lia]|].
  cbn beta. intros o s3 [-> (deleted & remaining & Hp & H3 & R3 & [t3 T3] & C3 & Hpr)].
  split; [done|]. exists (x :: deleted), remaining. split_and!.
  - by rewrite Hperm, Hp.
  - done.
  - by eapply same_rest_trans.
  - eexists. rewrite T3, T2. cbn [tr]. by rewrite <- !app_assoc.
  - rewrite C3, C2. unfold calls. cbn [tr]. rewrite fmap_app, <- !app_assoc. done.
  - cbn [pruned]. split_and!; [|rewrite <- Hp|done].
    + assert (x :: deleted ++ remaining ≡ₚ a ++ x :: b) as Hq by (rewrite <- Hp; by rewrite Hperm).
      by rewrite (total_size_perm _ _ Hq).
    + rewrite Hperm in Hmin. by apply Forall_cons in Hmin as [_ Hmin].
Qed.

Lemma delete_all_spec e : forall fuel l s, dlist (st s) l -> (length l < fuel)%nat ->
  wp (delete_all fuel) e s (fun o s' => o = Some tt /\ dlist (st s') []
    /\ same_rest (st s) (st s') /\ (exists t, tr s' = tr s ++ t)
    /\ calls s' = calls s ++ concat (release_calls <$> l)).
Proof.
  induction fuel as [|fuel IH]; intros l s Hl Hfuel; [lia|]. cbn [delete_all].
  wp_step. wp_step. replace (first (st s)) with (head_or l 0) by (symmetry; apply Hl).
  destruct l as [|d l]; cbn [head_or].
  { cbn [Z.eqb]. apply wp_ret. split_and!; try done; [by eexists; rewrite app_nil_r|].
    by rewrite app_nil_r. }
  rewrite (proj2 (Z.eqb_neq (d_addr d) 0)) by (apply (addr_nonzero (d :: l)); [apply Hl | left]).
  wp_step. eapply wp_wand; [apply (FileRecDel_spec [] d l); exact Hl|].
  cbn beta. intros [] s1 (H1 & R1 & C1 & t1 & T1).
  eapply wp_wand; [apply (IH l); [done | cbn in Hfuel; lia]|].
  cbn beta. intros o s2 (-> & H2 & R2 & [t2 T2] & C2). split_and!; [done..| | |].
  - by eapply same_rest_trans.
  - eexists. rewrite T2, T1. by rewrite <- app_assoc.
  - rewrite C2, C1, <- app_assoc. done.
Qed.

(** ** Collecting the files *)

(** [malloc] succeeds, and does not give out a block twice (nothing is freed in between). *)
Definition allocates e : Prop :=
  (forall k n, r_ret (e k (Malloc n)) <> 0)
  /\ (forall k k' n n', r_ret (e k (Malloc n)) = r_ret (e k' (Malloc n')) -> k = k').

(** A file as [lstat] describes it in the trace *)
Definition described (dirname : string) (t : list (mlog_call * resp)) (name : string) d : Prop :=
  d_text d = fullpath dirname name /\ exists r, (Lstat (d_text d), r) ∈ t
  /\ d_time d = stat_mtime r /\ d_size d = wrap32 (stat_size r).

(** The blocks that a trace allocates and frees, and the files it removes *)
Definition allocated (t : list (mlog_call * resp)) : list Z :=
  omap (fun '(c, r) => match c with Malloc _ => Some (r_ret r) | _ => None end) t.
Definition freed (cs : list mlog_call) : list Z :=
  omap (fun c => match c with Free p => Some p | _ => None end) cs.
Definition unlinked (cs : list mlog_call) : list string :=
  omap (fun c => match c with Unlink p => Some p | _ => None end) cs.

Lemma assign_first s p : first (st s) = p -> Sys _ _ ((st s) <| first := p |>) (tr s) = s.
Proof. intros <-. by destruct s as [[] ?]. Qed.

Definition rec_blocks d : list Z := [d_addr d; d_name d].

Lemma collect_spec dirname e : allocates e -> forall names l s,
  dlist (st s) l -> (forall d, d ∈ l -> exists k n, (k < length (tr s))%nat
    /\ d_addr d = r_ret (e k (Malloc n))) ->
  wp (collect dirname names (wrap32 (total_size l))) e s (fun total s' => exists files t,
    dlist (st s') (reverse files ++ l) /\ total = wrap32 (total_size (reverse files ++ l))
    /\ same_rest (st s) (st s') /\ tr s' = tr s ++ t
    /\ Forall2 (described dirname t) (filter (fun n => is_dots n = false) names) files
    /\ allocated t = concat (rec_blocks <$> files) /\ freed t.*1 = [] /\ unlinked t.*1 = []).
Proof.
  intros [Hm Hinj]. induction names as [|name names IH]; intros l s Hl Hold; cbn [collect].
  { apply wp_ret. exists [], []. split_and!; try done. by rewrite app_nil_r. }
  rewrite filter_cons. destruct (is_dots name) eqn:Edots.
  { rewrite decide_False by done. by apply IH. }
  rewrite decide_True by done. apply wp_bind, wp_call. intros r Er.
  wp_step. eapply wp_wand; [apply (FileRecCopy_spec _ _ _ l); cbn [st tr]; try done|].
  { intros (d & Ed & Hd)%list_elem_of_fmap. destruct (Hold d Hd) as (k & n & Hk & Ek).
    rewrite Ek in Ed. apply Hinj in Ed. rewrite length_app in Ed. cbn in Ed. lia. }
  cbn [st tr]. intros p s1 (-> & Hfirst & H1 & R1 & r1 & r2 & T1 & E1 & E2).
  set (d := DFile _ _ _ _ _) in H1. wp_step. wp_step. rewrite (assign_first _ _ Hfirst).
  replace (wrap32 (wrap32 (total_size l) + stat_size r)) with (wrap32 (total_size (d :: l)))
    by (cbn; by rewrite !wrap32_add, Z.add_comm).
  eapply wp_wand; [apply (IH (d :: l) s1 H1)|].
  { rewrite T1, !length_app. cbn. intros x [-> |Hx]%elem_of_cons.
    - do 2 eexists. split; [|reflexivity]. rewrite length_app. cbn. lia.
    - destruct (Hold x Hx) as (k & n & Hk & Ek). exists k, n. split; [lia | done]. }
  cbn beta. intros total s2 (files & t & H2 & -> & R2 & T2 & Hfiles & Ha & Hf & Hu).
  rewrite T1, <- !app_assoc in T2.
  exists (d :: files). eexists. rewrite reverse_cons, <- app_assoc. split_and!; [done..| | | | | |].
  - by eapply same_rest_trans.
  - exact T2.
  - constructor.
    + split; [done|]. exists r. split_and!; [|done..]. left.
    + eapply Forall2_impl; [exact Hfiles|]. intros n x (Ex & q & Hq & Hx).
      split; [done|]. exists q. split; [|done]. apply elem_of_app. right. apply elem_of_app. by right.
  - cbn. rewrite E1, E2. unfold allocated in Ha. cbn in Ha |- *. by rewrite Ha.
  - exact Hf.
  - exact Hu.
Qed.

(** ** The directory *)

Lemma allocated_app t1 t2 : allocated (t1 ++ t2) = allocated t1 ++ allocated t2.
Proof. apply omap_app. Qed.

Lemma freed_app c1 c2 : freed (c1 ++ c2) = freed c1 ++ freed c2.
Proof. apply omap_app. Qed.

Lemma unlinked_app c1 c2 : unlinked (c1 ++ c2) = unlinked c1 ++ unlinked c2.
Proof. apply omap_app. Qed.

Definition not_malloc (c : mlog_call) : Prop := match c with Malloc _ => False | _ => True end.

Lemma allocated_none t : Forall not_malloc t.*1 -> allocated t = [].
Proof.
  induction t as [|[c r] t IH]; cbn; [done|]. intros [Hc Ht]%Forall_cons. destruct c; try done;
    by apply IH.
Qed.

Lemma removals_effect l : Forall not_malloc (concat (removal_calls <$> l))
  /\ unlinked (concat (removal_calls <$> l)) = d_text <$> l
  /\ freed (concat (removal_calls <$> l)) ≡ₚ concat (rec_blocks <$> l).
Proof.
  induction l as [|d l (Hm & Hu & Hf)]; [done|]. cbn. split_and!.
  - by repeat constructor.
  - unfold unlinked in *. cbn. by rewrite Hu.
  - unfold freed in *. cbn. rewrite Hf. apply perm_swap.
Qed.

Lemma releases_effect l : Forall not_malloc (concat (release_calls <$> l))
  /\ unlinked (concat (release_calls <$> l)) = []
  /\ freed (concat (release_calls <$> l)) ≡ₚ concat (rec_blocks <$> l).
Proof.
  induction l as [|d l (Hm & Hu & Hf)]; [done|]. cbn. split_and!.
  - by repeat constructor.
  - exact Hu.
  - unfold freed in *. cbn. rewrite Hf. apply perm_swap.
Qed.

Lemma blocks_perm l l' : l ≡ₚ l' -> concat (rec_blocks <$> l) ≡ₚ concat (rec_blocks <$> l').
Proof. intros ->. done. Qed.

Lemma calls_grow s s' t (cs : list mlog_call) : tr s' = tr s ++ t ->
  calls s' = calls s ++ cs -> t.*1 = cs.
Proof. unfold calls. intros ->. rewrite fmap_app. apply app_inv_head. Qed.

Lemma dlist_nil v : first v = 0 -> heap v = ∅ -> dlist v [].
Proof.
  intros Hf Hh. split_and!; cbn; [done..| constructor | by intros ?%not_elem_of_nil |].
  by rewrite Hh, dom_empty_L.
Qed.

Lemma dlist_back v v' : dlist v' [] -> same_rest v v' -> first v = 0 -> heap v = ∅ -> v' = v.
Proof.
  intros (Hf & _ & _ & _ & Hd) (Hr & Hp & Hu) Hf' Hh'. cbn in Hd.
  apply dom_empty_inv_L in Hd. destruct v, v'; cbn in *; congruence.
Qed.

(** C27. The report directory is kept small: [checkdir] returns, removes from the files of
    the directory, the oldest first, just as many as bring the sum of the sizes of the
    others down to 100 KB, and leaves nothing allocated; its linked list is sound all the
    way, whatever [lstat] answers.  (The sum is an [int] that wraps around.) *)
Theorem checkdir_prunes fuel dirname e s :
  allocates e -> first (st s) = 0 -> heap (st s) = ∅ ->
  r_ret (e (length (tr s)) (Opendir dirname)) <> 0 ->
  (length (dir_entries (e (length (tr s)) (Opendir dirname))) < fuel)%nat ->
  wp (checkdir fuel dirname) e s (fun o s' => o = Some tt /\ st s' = st s /\
    exists t files deleted remaining, tr s' = tr s ++ t
      /\ Forall2 (described dirname t) (filter (fun n => is_dots n = false)
           (dir_entries (e (length (tr s)) (Opendir dirname)))) files
      /\ files ≡ₚ deleted ++ remaining /\ pruned deleted remaining
      /\ unlinked t.*1 = d_text <$> deleted
      /\ freed t.*1 ≡ₚ allocated t).
Proof.
  intros Hal Hf Hh Hopen Hfuel. unfold checkdir.
  apply wp_bind, wp_call. intros dp Edp. rewrite <- Edp in *.
  rewrite (proj2 (Z.eqb_neq _ 0) Hopen). wp_step.
  eapply wp_wand; [apply (collect_spec dirname e Hal _ []); cbn [st];
    [by apply dlist_nil | by intros d ?%not_elem_of_nil]|].
  cbn [st tr]. intros total s1 (files & t1 & H1 & -> & R1 & T1 & Hfiles & Ha1 & Hf1 & Hu1).
  rewrite app_nil_r in *. assert (length (reverse files) < fuel)%nat as Hlen.
  { rewrite length_reverse, <- (Forall2_length _ _ _ Hfiles).
    eapply Nat.le_lt_trans; [apply length_filter | exact Hfuel]. }
  unfold loop_then. wp_step. eapply wp_wand; [apply shrink_spec; done|].
  cbn beta. intros o s2 [-> (deleted & remaining & Hp & H2 & R2 & [t2 T2] & C2 & Hpr)].
  wp_step. eapply wp_wand; [apply (delete_all_spec e fuel remaining); [done|]|].
  { apply Permutation_length in Hp. rewrite length_app in Hp. lia. }
  cbn beta. intros o s3 (-> & H3 & R3 & [t3 T3] & C3). wp_go. cbn [st tr].
  pose proof (calls_grow _ _ _ _ T2 C2) as E2. pose proof (calls_grow _ _ _ _ T3 C3) as E3.
  destruct (removals_effect deleted) as (Hm2 & Hu2 & Hf2).
  destruct (releases_effect remaining) as (Hm3 & Hu3 & Hf3).
  split; [done|]. split.
  { apply dlist_back; [done| |done..]. eauto using same_rest_trans. }
  exists ([(Opendir dirname, dp)] ++ t1 ++ t2 ++ t3 ++ [(Closedir dirname, r)]), files, deleted, remaining.
  rewrite !fmap_app, E2, E3, !freed_app, !unlinked_app, !allocated_app, Hu1, Hu2, Hu3, Hf1, Ha1.
  rewrite (allocated_none t2), (allocated_none t3) by by rewrite ?E2, ?E3.
  split_and!; [|..|done| |].
  - rewrite T3, T2, T1. by rewrite <- !app_assoc.
  - eapply Forall2_impl; [exact Hfiles|]. intros n x (Ex & q & Hq & Hx).
    split; [done|]. exists q. split; [|done]. set_solver.
  - by rewrite <- Hp, reverse_Permutation.
  - cbn. by rewrite !app_nil_r.
  - cbn. rewrite !app_nil_r, Hf2, Hf3, <- concat_app, <- fmap_app.
    apply blocks_perm. by rewrite <- Hp, reverse_Permutation.
Qed.

(** ** The state file *)

Fixpoint all_digits (x : string) : bool :=
  match x with "" => true | String c x => isdigit c && all_digits x end.

Lemma pretty_go_digits x : forall y, all_digits y = true -> all_digits (pretty_N_go x y) = true.
Proof.
  induction x as [x IH] using (well_founded_induction N.lt_wf_0). intros y Hy.
  destruct (decide (x = 0%N)) as [-> | Hx]; [by rewrite pretty_N_go_0|].
  rewrite pretty_N_go_step by lia. apply IH; [apply N.div_lt; lia|].
  cbn. destruct (pretty_char_digit (x mod 10)) as [-> _]; [by apply N.mod_lt | done].
Qed.

(** The numeral of a number: digits with its value *)
Lemma pretty_digits n : 0 <= n -> exists c x, (pretty n : string) = String c x
  /\ isdigit c = true /\ all_digits (String c x) = true /\ digits_val 0 (String c x) = n.
Proof.
  intros Hn. destruct (decide (n = 0)) as [-> | Hz]; [by exists "0"%char, ""|].
  destruct (pretty_positive n ltac:(lia)) as (c & x & E & Hc & _ & Hv).
  exists c, x. split_and!; [done..| |done]. rewrite <- E.
  destruct n as [|p|p]; try lia. by apply pretty_go_digits.
Qed.

Lemma digits_end x (d : ascii) y acc : all_digits x = true -> isdigit d = false ->
  digits_val acc (x +:+ String d y) = digits_val acc x
  /\ skip_digits (x +:+ String d y) = String d y.
Proof.
  intros Hx Hd. revert acc Hx. induction x as [|c x IH]; intros acc Hx; cbn in *.
  - by rewrite Hd.
  - apply andb_prop in Hx as [Hc Hx]. rewrite Hc. by apply IH.
Qed.

Lemma scan_printed n (d : ascii) y : 0 <= n < 18446744073709551616 -> isdigit d = false ->
  scan_ull (pretty n +:+ String d y) = Some (n, String d y).
Proof.
  intros Hn Hd. destruct (pretty_digits n) as (c & x & -> & Hc & Hx & Hv); [lia|].
  destruct (digits_end (String c x) d y 0 Hx Hd) as [E1 E2]. destruct (digit_plain c Hc) as (Hs & Hm & Hp).
  unfold scan_ull. change (String c x +:+ String d y) with (String c (x +:+ String d y)) in *.
  cbn [skip_space]. rewrite Hs, Hm, Hp, Hc, E1, E2, Hv.
  by rewrite (proj2 (Z.ltb_ge 18446744073709551615 n)) by lia.
Qed.

Lemma skip_tab x : skip_space (String "009" x) = skip_space x.
Proof. done. Qed.

(** What was printed is scanned. *)
Lemma scan_state_printed size time : scan_state (state_text size time) 0 0 = (u64 size, u64 time).
Proof.
  assert (forall z, 0 <= u64 z < 18446744073709551616) as Hu by (intros z; apply Z.mod_pos_bound; lia).
  unfold scan_state, state_text, tab, newline. cbn [String.append].
  rewrite scan_printed by done.
  assert (scan_ull (String "009" (pretty (u64 time) +:+ String "010" ""))
    = scan_ull (pretty (u64 time) +:+ String "010" "")) as -> by done.
  by rewrite scan_printed.
Qed.

(** A state file that records the panic that is found *)
Definition remembered e (fd size time : Z) (text : string) : Prop := forall k,
  r_ret (e k (Fopen APANIC_STATE_FILE "r")) <> 0
  /\ r_data (e k (Fopen APANIC_STATE_FILE "r")) = text
  /\ r_ret (e k (Fstat fd)) = 0
  /\ stat_size (e k (Fstat fd)) = size /\ stat_mtime (e k (Fstat fd)) = time.

Lemma remembered_silent fuel fd size time e s : remembered e fd size time (state_text size time) ->
  wp (report_apanic fuel fd) e s (fun o s' => o = Some false /\ st s' = st s /\
    exists fp, calls s' = calls s ++ [Fopen APANIC_STATE_FILE "r"; Fclose fp; Fstat fd]).
Proof.
  intros He. unfold report_apanic. apply wp_bind, wp_call. intros b Eb.
  destruct (He (length (tr s))) as (Hb & Hd & _). rewrite <- Eb in Hb, Hd.
  rewrite (proj2 (Z.eqb_neq _ 0) Hb), Hd, scan_state_printed. cbn [negb when].
  do 4 wp_step. apply wp_bind, wp_call. intros q Eq.
  match type of Eq with _ = e ?k _ => destruct (He k) as (_ & _ & Hq & Hs & Ht) end.
  rewrite <- Eq in Hq, Hs, Ht. rewrite Hq, Hs, Ht, !Z.eqb_refl. cbn [negb andb].
  apply wp_ret. split_and!; [done..|]. exists (r_ret b).
  unfold calls. cbn [tr]. rewrite !fmap_app. by rewrite <- !app_assoc.
Qed.

(** Where the state is written *)
Definition notes_panic (w : Z) (text : string) (cs : list mlog_call) : Prop :=
  exists pre post, cs = pre ++ [Fopen APANIC_STATE_FILE "w+"; Fputs w text;
    Fchown w "AID_SYSTEM" "AID_LOG"; Fchmod w 416; Fclose w] ++ post.

Lemma notes_panic_app w text cs cs' : notes_panic w text cs -> notes_panic w text (cs ++ cs').
Proof.
  intros (pre & post & ->). exists pre, (post ++ cs'). by rewrite <- !app_assoc.
Qed.

Lemma logs_calls {A} (m : mlog A) `{!Logs m} e s : exists cs, calls (m e s).2 = calls s ++ cs.
Proof.
  destruct (logs_prefix (m := m) e s) as [t Ht]. exists t.*1. unfold calls. by rewrite Ht, fmap_app.
Qed.

Lemma report_noted fuel fd w size time e s :
  (forall k, r_ret (e k (Fopen APANIC_STATE_FILE "w+")) = w) -> w <> 0 ->
  (forall k, stat_size (e k (Fstat fd)) = size /\ stat_mtime (e k (Fstat fd)) = time) ->
  wp (report_apanic fuel fd) e s (fun o s' => o = Some true ->
    exists cs, calls s' = calls s ++ cs /\ notes_panic w (state_text size time) cs).
Proof.
  intros Hw Hnz Hst. unfold report_apanic. apply wp_bind, wp_call. intros r1 _.
  destruct (if r_ret r1 =? 0 then _ else _) as [pbs pbt].
  wp_step. eapply (wp_wand _ _ _ (fun _ s' => exists cs, calls s' = calls s ++ cs)).
  { destruct (logs_calls (when (negb (r_ret r1 =? 0)) (call (Fclose (r_ret r1)) ;; mret tt)) e
      (Sys _ _ (st s) (tr s ++ [(Fopen APANIC_STATE_FILE "r", r1)]))) as [cs Hcs].
    unfold wp. rewrite Hcs, calls_snoc. eexists. by rewrite <- app_assoc. }
  cbn beta. intros [] s1 [cs1 H1]. apply wp_bind, wp_call. intros q Eq.
  destruct (Hst (length (tr s1))) as [Hsz Htm]. rewrite <- Eq in Hsz, Htm. rewrite Hsz, Htm.
  destruct (negb (r_ret q =? 0)); [by apply wp_ret|]. cbv zeta.
  destruct ((pbs =? u64 size) && (pbt =? u64 time)); [by apply wp_ret|].
  apply wp_bind, wp_call. intros o Eo. assert (r_ret o = w) as -> by (rewrite Eo; apply Hw).
  rewrite (proj2 (Z.eqb_neq w 0) Hnz). cbn [negb when]. unfold fputs. do 12 wp_step. cbn [st tr].
  match goal with |- wp ?m _ ?x _ => set (s2 := x); assert (Logs m) as Hlog
    by (unfold enabled; repeat first [logs | apply logs_loop_then; [|intros ?]]);
    destruct (logs_calls m e s2) as [cs2 H2] end.
  red. cbv beta. rewrite H2. intros _.
  exists (cs1 ++ [Fstat fd] ++ [Fopen APANIC_STATE_FILE "w+"; Fputs w (state_text size time);
    Fchown w "AID_SYSTEM" "AID_LOG"; Fchmod w 416; Fclose w] ++ cs2). split.
  - unfold s2, calls in *. cbn [tr]. rewrite !fmap_app, H1. by rewrite <- !app_assoc.
  - exists (cs1 ++ [Fstat fd]), cs2. by rewrite <- app_assoc.
Qed.

#[export] Instance logs_report_apanic fuel fd : Logs (report_apanic fuel fd).
Proof.
  unfold report_apanic, enabled, fputs.
  repeat first [logs | case_match | apply logs_loop_then; [|intros ?]].
Qed.

(** The name of the report of a panic at this time *)
Definition report_name (time : Z) : string :=
  str_take 43 ("/data/kernelpanics/ap_kernel_panic_" +:+ print_lX time).

(** A console of this time whose report exists *)
Definition reported e (fd time : Z) : Prop := forall k,
  stat_mtime (e k (Fstat fd)) = time /\ r_ret (e k (Access (report_name time))) <> -1.

Lemma reported_silent fuel fd time e s : reported e fd time ->
  wp (report_apanic fuel fd) e s (fun o _ => o = Some false).
Proof.
  intros He. unfold report_apanic. apply wp_bind, wp_call. intros b _.
  destruct (if r_ret b =? 0 then _ else _) as [pbs pbt].
  wp_step. eapply (wp_wand _ _ _ (fun _ _ => True)); [done|]. intros [] s1 _.
  apply wp_bind, wp_call. intros q Eq.
  match type of Eq with _ = e ?k _ => destruct (He k) as [Ht _] end. rewrite <- Eq in Ht. rewrite Ht.
  destruct (negb _); [by apply wp_ret|]. destruct (_ && _); [by apply wp_ret|].
  apply wp_bind, wp_call. intros w _. wp_step.
  eapply (wp_wand _ _ _ (fun _ _ => True)); [done|]. intros [] s2 _.
  fold (report_name time). apply wp_bind, wp_call. intros a Ea.
  match type of Ea with _ = e ?k _ => destruct (He k) as [_ Ha] end. rewrite <- Ea in Ha.
  rewrite (proj2 (Z.eqb_neq _ _) Ha). by apply wp_ret.
Qed.

(** C14. A panic is reported once: a run that writes the report of a panic has noted its size
    and time in the state file, unless that file could not be opened for writing; a later
    run that finds this note, and the same console, makes no report and changes nothing.
    Without the note too, a run makes no report while the report of a console of the same
    time exists. *)
Theorem panic_reported_once fuel fuel' fd fd' w size time e s :
  (forall k, r_ret (e k (Fopen APANIC_STATE_FILE "w+")) = w) ->
  (forall k, stat_size (e k (Fstat fd)) = size /\ stat_mtime (e k (Fstat fd)) = time) ->
  wp (report_apanic fuel fd) e s (fun o s' => o = Some true ->
    exists cs text, calls s' = calls s ++ cs /\ (w <> 0 -> notes_panic w text cs) /\
      (forall e' s', remembered e' fd' size time text ->
       wp (report_apanic fuel' fd') e' s' (fun o' s'' => o' = Some false /\ st s'' = st s' /\
         exists fp, calls s'' = calls s' ++ [Fopen APANIC_STATE_FILE "r"; Fclose fp; Fstat fd'])) /\
      (forall e' s', reported e' fd' time ->
       wp (report_apanic fuel' fd') e' s' (fun o' _ => o' = Some false))).
Proof.
  intros Hw Hst. apply (wp_wand _ _ _ (fun o s' => o = Some true -> exists cs,
    calls s' = calls s ++ cs /\ (w <> 0 -> notes_panic w (state_text size time) cs))).
  - destruct (decide (w = 0)) as [->|Hnz].
    + destruct (logs_calls (report_apanic fuel fd) e s) as [cs Hcs]. intros _. by exists cs.
    + eapply wp_wand; [by eapply report_noted|]. cbn beta. intros o s' H Ho.
      destruct (H Ho) as (cs & Hcs & Hn). by exists cs.
  - cbn beta. intros o s' H Ho. destruct (H Ho) as (cs & Hcs & Hn).
    exists cs, (state_text size time). split_and!; [done..| |].
    + intros e' s'' He. by apply (remembered_silent fuel' fd' size time).
    + intros e' s'' He. by apply (reported_silent fuel' fd' time).
Qed.

(** ** On a concrete directory and panic *)

(** Three reports of 140000 bytes, the oldest of them the second *)
Definition demo_dir : env mlog_call := fun k c =>
  match c with
  | Opendir _ => Resp 1 0 "./../a/b/c" []
  | Lstat "/d/a" => Resp 0 0 "" [300; 60000]
  | Lstat "/d/b" => Resp 0 0 "" [100; 70000]
  | Lstat "/d/c" => Resp 0 0 "" [200; 10000]
  | Malloc _ => answer (Z.of_nat k + 16)
  | _ => answer 0
  end.

Lemma checkdir_prunes_witness :
  unlinked (calls (checkdir 9 "/d" demo_dir (Sys _ _ mlog_init [])).2) = ["/d/b"]
  /\ wp (checkdir 9 "/d") demo_dir (Sys _ _ mlog_init []) (fun o s' => o = Some tt
    /\ st s' = mlog_init /\ exists t files deleted remaining, tr s' = t
      /\ Forall2 (described "/d" t) ["a"; "b"; "c"] files
      /\ files ≡ₚ deleted ++ remaining /\ pruned deleted remaining
      /\ unlinked t.*1 = d_text <$> deleted
      /\ freed t.*1 ≡ₚ allocated t).
Proof.
  split; [vm_compute; reflexivity|].
  apply (checkdir_prunes 9 "/d" demo_dir (Sys _ _ mlog_init [])).
  - split; [intros k n; cbn; lia | intros k k' n n'; cbn; lia].
  - reflexivity.
  - reflexivity.
  - discriminate.
  - apply Nat.ltb_lt. vm_compute. reflexivity.
Defined.

(** A new panic of 50 bytes at time 1000 *)
Definition demo_apanic : env mlog_call := fun k c =>
  match c with
  | Fopen _ "w+" => answer 9
  | Fstat _ => Resp 0 0 "" [1000; 50]
  | Access _ => answer (-1)
  | Fopen "/data/dontpanic/apanic_console_statinfo" _ => answer 0
  | _ => short_panic k c
  end.

Definition reporting : sys mlog_call mlog_vars :=
  Sys _ _ (mlog_init <| panic_report_config := 15 |>) [].

Lemma panic_reported_once_witness :
  exists cs text, notes_panic 9 text cs /\
    (forall e' s', remembered e' 4 50 1000 text ->
     wp (report_apanic 50 4) e' s' (fun o' s'' => o' = Some false /\ st s'' = st s' /\
       exists fp, calls s'' = calls s' ++ [Fopen APANIC_STATE_FILE "r"; Fclose fp; Fstat 4])) /\
    (forall e' s', reported e' 4 1000 ->
     wp (report_apanic 50 4) e' s' (fun o' _ => o' = Some false)).
Proof.
  destruct (panic_reported_once 50 50 4 4 9 50 1000 demo_apanic reporting)
    as (cs & text & _ & Hn & H1 & H2).
  - reflexivity.
  - intros k. split; reflexivity.
  - vm_compute. reflexivity.
  - exists cs, text. split; [apply Hn; lia | split; [exact H1 | exact H2]].
Defined.

(** ** A directory that is never small enough *)

Lemma shrink_empty_hangs total e fuel : forall s, first (st s) = 0 -> MAXTOTALSIZE < total ->
  wp (shrink fuel total) e s (fun o _ => o = None).
Proof.
  induction fuel as [|fuel IH]; intros s Hf Ht; cbn [shrink];
    rewrite (proj2 (Z.leb_gt _ _) Ht); [by apply wp_ret|].
  wp_step. wp_step. rewrite Hf. unfold loop_then. wp_step. cbn [find_oldest Z.eqb]. wp_step.
  by apply IH.
Qed.

(** Without memory the files are counted and not listed: [checkdir] does not return. *)
Definition starving : env mlog_call := fun _ c =>
  match c with
  | Opendir _ => Resp 1 0 "./../a" []
  | Lstat _ => Resp 0 0 "" [300; 200000]
  | _ => answer 0
  end.

Theorem checkdir_hangs fuel :
  wp (checkdir fuel KERNELDIR) starving (Sys _ _ mlog_init []) (fun o _ => o = None).
Proof.
  unfold checkdir, loop_then. apply wp_bind, wp_call. intros r ->. cbn [r_ret starving Z.eqb].
  wp_step. red. match goal with |- context [collect ?d ?n ?t ?e ?s] =>
    let x := eval vm_compute in (collect d n t e s) in
    replace (collect d n t e s) with x by (vm_compute; reflexivity) end.
  cbn [fst snd]. wp_step. eapply wp_wand; [by apply shrink_empty_hangs|].
  intros o s ->. by apply wp_ret.
Qed.
