(* ===== verification/Filtertool.v ===== *)
(** * logfilter-get and logfilter-set ([src/aplogd/filtertool.c])

    The tool lists and sets the properties that filter the log by tag. *)

From S2P Require Import Prelude.
From S2P Require Import CString.
From Stdlib Require Import Ascii.

(** [Property_list] answers with the names and values of the properties, each followed by
    a NUL; the callback of [property_list] is then called for each of them. *)
Inductive filt_call :=
  | Property_list
  | Property_set (key value : string)
  | Printf (text : string).

(** [filter_string] and [filter_value]; whether the array has been overrun *)
Record filt_vars := FiltVars {
  filter_string : string;
  filter_value : string;
  overrun : bool }.

#[export] Instance eta_filt_vars : Eta filt_vars :=
  fun v => FiltVars (filter_string v) (filter_value v) (overrun v).

Abbreviation filt A := (prog filt_call filt_vars A).

Definition FILTER_STRING_SIZE : nat := 30.
Definition filter_prefix : string := "ap.log.filter.MOT_".
Definition filt_init : filt_vars := FiltVars filter_prefix "" false.

Fixpoint pairs (l : list string) : list (string * string) :=
  match l with k :: v :: l => (k, v) :: pairs l | _ => [] end.

Definition properties (r : resp) : list (string * string) := pairs (split_on NUL (r_data r)).

(** [sprintf(filter_string, ...)] *)
Definition sprintf_filter (text : string) : filt unit :=
  modify (fun v => v <| filter_string := text |>
    <| overrun := overrun v || (FILTER_STRING_SIZE <=? String.length text)%nat |>).

Definition propget (property : string * string) : filt unit :=
  f ← gets filter_string;
  when (strn_eq (String.length f) property.1 f)
    (call (Printf (str_drop (String.length filter_prefix) property.1 +:+ ":" +:+ property.2
       +:+ newline)) ;; mret tt).

Definition propset (_ : string * string) : filt unit :=
  f ← gets filter_string; x ← gets filter_value;
  call (Property_set f x) ;; mret tt.

(** [property_list(propfn, NULL)] *)
Definition property_list (propfn : string * string -> filt unit) : filt unit :=
  r ← call Property_list; for_each (properties r) propfn.

(** [main]; the first argument is the name of the command. *)
Definition filtertool_main (argv : list string) : filt Z :=
  match argv with
  | [] => mret 0
  | name :: args =>
      if str_eq name "logfilter-get" then
        match args with
        | [] => sprintf_filter filter_prefix ;; property_list propget
        | _ => for_each args (fun arg =>
                 sprintf_filter (filter_prefix +:+ arg) ;; property_list propget)
        end ;; mret 0
      else if str_eq name "logfilter-set" then
        match args with
        | tag :: prio :: _ =>
            sprintf_filter (filter_prefix +:+ tag) ;;
            modify (fun v => v <| filter_value := prio |>) ;;
            property_list propset ;; mret 0
        | _ => call (Printf ("logfilter-set <filter-tag> <filter-prio>" +:+ newline)) ;; mret 0
        end
      else mret 0
  end.

(** ** What is listed and set *)

(** The lines for the properties of a tag *)
Definition listing (tag : string) (props : list (string * string)) : list filt_call :=
  (fun p => Printf (str_drop (String.length filter_prefix) p.1 +:+ ":" +:+ p.2 +:+ newline))
  <$> filter (fun p => String.prefix (filter_prefix +:+ tag) p.1 = true) props.

Lemma strn_eq_prefix_of x y : strn_eq (String.length y) x y = String.prefix y x.
Proof.
  unfold strn_eq. rewrite (str_take_all _ y) by done. revert x.
  induction y as [|c y IH]; intros [|d x]; cbn; try done.
  unfold str_eq in *. cbn. rewrite IH. destruct (Ascii.eqb_spec d c) as [-> |H]; [by destruct (ascii_dec c c)|].
  destruct (ascii_dec c d); [congruence | done].
Qed.

Lemma propget_all tag props e s : filter_string (st s) = filter_prefix +:+ tag ->
  wp (for_each props propget) e s (fun _ s' => st s' = st s
    /\ calls s' = calls s ++ listing tag props).
Proof.
  revert s. induction props as [|p props IH]; intros s Hf; cbn [for_each].
  { apply wp_ret. unfold listing. by rewrite app_nil_r. }
  wp_step. unfold propget at 1. wp_step. wp_step. rewrite Hf, strn_eq_prefix_of.
  unfold listing. rewrite filter_cons. destruct (String.prefix (filter_prefix +:+ tag) p.1) eqn:E; cbn [when].
  - rewrite decide_True by done. do 3 wp_step. eapply wp_wand; [by apply IH|]. cbn [st].
    intros [] s' [Hs Hc]. split; [done|]. rewrite Hc, calls_snoc, <- app_assoc. done.
  - rewrite decide_False by done. wp_step. eapply wp_wand; [by apply IH|].
    intros [] s' [Hs Hc]. by split.
Qed.

(** [logfilter-get tag] prints exactly the properties whose name starts with the tag, and does
    not overrun its buffer for a tag of at most eleven characters. *)
Theorem logfilter_get_lists tag e s : (String.length tag <= 11)%nat -> overrun (st s) = false ->
  wp (filtertool_main ["logfilter-get"; tag]) e s (fun o s' => o = 0 /\ overrun (st s') = false
    /\ calls s' = calls s ++ Property_list
         :: listing tag (properties (e (length (tr s)) Property_list))).
Proof.
  intros Htag Hov. unfold filtertool_main, sprintf_filter, property_list.
  change (str_eq "logfilter-get" "logfilter-get") with true. cbv iota. cbn [for_each].
  do 6 wp_step. subst r. eapply wp_wand; [by apply (propget_all tag)|].
  cbn [st]. intros [] s' [Hs Hc]. wp_go. rewrite Hs. split_and!; [done| |].
  - change (overrun (st s) || (30 <=? String.length (filter_prefix +:+ tag))%nat = false).
    rewrite Hov, str_length_app. apply Nat.leb_gt. cbn. lia.
  - by rewrite Hc, calls_snoc, <- app_assoc.
Qed.

Lemma propset_all f x props e s : filter_string (st s) = f -> filter_value (st s) = x ->
  wp (for_each props propset) e s (fun _ s' =>
    calls s' = calls s ++ ((fun _ => Property_set f x) <$> props)).
Proof.
  revert s. induction props as [|p props IH]; intros s Hf Hx; cbn [for_each].
  { apply wp_ret. by rewrite app_nil_r. }
  wp_step. unfold propset at 1. do 7 wp_step. rewrite Hf, Hx.
  eapply wp_wand; [by apply IH|]. cbn beta. intros [] s' Hc.
  by rewrite Hc, calls_snoc, <- app_assoc.
Qed.

(** [logfilter-set] sets the filter once for every property there is, so not at all when
    there is none. *)
Theorem logfilter_set_sets tag prio e s :
  wp (filtertool_main ["logfilter-set"; tag; prio]) e s (fun o s' => o = 0
    /\ calls s' = calls s ++ Property_list
         :: ((fun _ => Property_set (filter_prefix +:+ tag) prio) <$>
             properties (e (length (tr s)) Property_list))).
Proof.
  unfold filtertool_main, sprintf_filter, property_list.
  change (str_eq "logfilter-set" "logfilter-get") with false.
  change (str_eq "logfilter-set" "logfilter-set") with true. cbv iota.
  do 6 wp_step. apply wp_call. intros r ->. cbn [tr st].
  eapply wp_wand; [by apply (propset_all (filter_prefix +:+ tag) prio)|].
  cbn beta. intros [] s' Hc. wp_go. split; [done|]. by rewrite Hc, calls_snoc, <- app_assoc.
Qed.

Section Overrun.
Context (e : env filt_call).
Definition gone (s : sys filt_call filt_vars) : Prop := overrun (st s) = true.

#[local] Instance keeps_sprintf text : Keeps e gone (sprintf_filter text).
Proof. apply keeps_modify. unfold gone. intros s Hs. cbn. by rewrite Hs. Qed.

#[local] Instance keeps_list : Keeps e gone (property_list propget).
Proof.
  unfold property_list. apply keeps_bind; [keeps | intros r]. apply keeps_for_each.
  intros p. unfold propget. keeps.
Qed.

(** A tag of twelve characters overruns the buffer. *)
Theorem logfilter_overruns s tag rest : (12 <= String.length tag)%nat ->
  wp (filtertool_main ("logfilter-get" :: tag :: rest)) e s (fun _ s' => overrun (st s') = true).
Proof.
  intros Htag. unfold filtertool_main.
  change (str_eq "logfilter-get" "logfilter-get") with true. cbv iota. cbn [for_each]. do 3 wp_step.
  eapply (wp_wand _ _ _ (fun _ s1 => gone s1)).
  { unfold sprintf_filter, gone. wp_step.
    change (overrun (st s) || (30 <=? String.length (filter_prefix +:+ tag))%nat = true).
    rewrite str_length_app. apply orb_true_intro. right. apply Nat.leb_le. cbn. lia. }
  intros [] s1 H1. eapply wp_wand; [exact (wp_keeps e gone _ s1 H1)|]. intros [] s2 H2.
  assert (Keeps e gone (for_each rest (fun arg =>
    sprintf_filter (filter_prefix +:+ arg) ;; property_list propget))) as Hk
    by (apply keeps_for_each; intros arg; keeps).
  eapply wp_wand; [exact (wp_keeps e gone _ s2 H2)|]. intros [] s3 H3. by apply wp_ret.
Qed.
End Overrun.
