(* ===== verification/Gps.v ===== *)
(** * The wrapper of the GPS HAL ([src/gps/wrapper.c])

    The wrapper stands between the framework and the HAL of the vendor.  It copies the tables
    of functions that each hands to the other and replaces a few entries, most of all the
    one that creates threads, whose results the vendor compares as signed numbers. *)

From S2P Require Import Prelude.
From S2P Require Import CString.

(** ** Tables of functions *)

(** A function: an entry of a table of the framework or the vendor, known by the address of
    the table, or one of the wrapper *)
Inductive gps_fn :=
  | Foreign (table : Z) (field : string)
  | Wrapper_create_thread
  | Wrapper_xtra_init
  | Wrapper_get_extension
  | Wrapper_init
  | Wrapper_get_gps_interface.

(** A table of the types of hardware/gps.h, whose fields are known by their names *)
Definition gps_table : Type := string -> gps_fn.

(** What [memcpy] takes from a table of someone else *)
Definition table_at (address : Z) : gps_table := Foreign address.

Definition set_fn (field : string) (f : gps_fn) (t : gps_table) : gps_table :=
  fun g => if str_eq g field then f else t g.

(** Calls to the outside.  The functions that return a pointer answer its address, 0 for NULL;
    [Moto_open] delivers the address of the device in its first out-parameter. *)
Inductive gps_call :=
  | Malloc
  | Dlopen (path : string)
  | Dlsym (handle : Z)
  | Dlclose (handle : Z)
  | Moto_open
  | Moto_get_gps_interface (device : Z)
  | Moto_get_extension (interface : Z) (name : string)
  | Moto_init (interface : Z) (callbacks : gps_table)
  | Moto_xtra_init (interface : Z) (callbacks : gps_table)
  | Create_thread (callbacks : Z) (name : string).

(** The static variables: addresses of foreign tables (0 for NULL), and the tables of the
    wrapper.  [undefined] is set by the use of a NULL pointer. *)
Record gps_vars := GpsVars {
  moto_gps_device : Z;
  moto_gps_interface : Z;
  my_gps_interface : gps_table;
  real_gps_callbacks : Z;
  my_gps_callbacks : gps_table;
  moto_xtra_interface : Z;
  my_xtra_interface : gps_table;
  real_xtra_callbacks : Z;
  my_xtra_callbacks : gps_table;
  undefined : bool }.

#[export] Instance eta_gps_vars : Eta gps_vars :=
  fun v => GpsVars (moto_gps_device v) (moto_gps_interface v) (my_gps_interface v)
    (real_gps_callbacks v) (my_gps_callbacks v) (moto_xtra_interface v) (my_xtra_interface v)
    (real_xtra_callbacks v) (my_xtra_callbacks v) (undefined v).

Definition gps_start : gps_vars :=
  GpsVars 0 0 (table_at 0) 0 (table_at 0) 0 (table_at 0) 0 (table_at 0) false.

Abbreviation gps A := (prog gps_call gps_vars A).

(** [p->f(...)] *)
Definition through (p : Z) : gps unit :=
  when (p =? 0) (modify (fun v => v <| undefined := true |>)).

Definition GPS_XTRA_INTERFACE : string := "gps-xtra".
Definition EINVAL : Z := 22.

(** ** Operations *)

Definition wrapper_gps_create_thread (name : string) : gps Z :=
  p ← gets real_gps_callbacks;
  through p ;;
  r ← call (Create_thread p name);
  mret (if r_ret r =? 0 then 0 else 0x42).

Definition wrapper_xtra_init (callbacks : Z) : gps Z :=
  modify (fun v => v <| real_xtra_callbacks := callbacks |>
    <| my_xtra_callbacks := set_fn "create_thread_cb" Wrapper_create_thread (table_at callbacks) |>) ;;
  i ← gets moto_xtra_interface; t ← gets my_xtra_callbacks;
  through i ;;
  r ← call (Moto_xtra_init i t); mret (r_ret r).

(** An interface that is handed out: a foreign one or [my_xtra_interface] *)
Inductive extension := ForeignExtension (address : Z) | MyXtra.

Definition wrapper_get_extension (name : string) : gps extension :=
  i ← gets moto_gps_interface;
  through i ;;
  r ← call (Moto_get_extension i name);
  if str_eq name GPS_XTRA_INTERFACE && negb (r_ret r =? 0) then
    modify (fun v => v <| moto_xtra_interface := r_ret r |>
      <| my_xtra_interface := set_fn "init" Wrapper_xtra_init (table_at (r_ret r)) |>) ;;
    mret MyXtra
  else mret (ForeignExtension (r_ret r)).

Definition wrapper_init (callbacks : Z) : gps Z :=
  modify (fun v => v <| real_gps_callbacks := callbacks |>
    <| my_gps_callbacks := set_fn "create_thread_cb" Wrapper_create_thread (table_at callbacks) |>) ;;
  i ← gets moto_gps_interface; t ← gets my_gps_callbacks;
  through i ;;
  r ← call (Moto_init i t); mret (r_ret r).

Definition wrapper_get_gps_interface (dev : Z) : gps gps_table :=
  d ← gets moto_gps_device;
  through d ;;
  r ← call (Moto_get_gps_interface dev);
  through (r_ret r) ;;
  modify (fun v => v <| moto_gps_interface := r_ret r |>
    <| my_gps_interface := set_fn "get_extension" Wrapper_get_extension
         (set_fn "init" Wrapper_init (table_at (r_ret r))) |>) ;;
  gets my_gps_interface.

(** [wrapper_open]: the device that the framework gets, or the error *)
Definition gps_wrapper_open : gps (gps_table + Z) :=
  m ← call Malloc;
  if r_ret m =? 0 then mret (inr (- EINVAL)) else
  h ← call (Dlopen "/system/lib/hw/gps.vendor.so");
  if r_ret h =? 0 then mret (inr (- EINVAL)) else
  s ← call (Dlsym (r_ret h));
  if r_ret s =? 0 then call (Dlclose (r_ret h)) ;; mret (inr (- EINVAL)) else
  r ← call Moto_open;
  modify (fun v => v <| moto_gps_device := aux 0 r |>) ;;
  if negb (r_ret r =? 0) then call (Dlclose (r_ret h)) ;; mret (inr (- EINVAL)) else
  mret (inl (set_fn "get_gps_interface" Wrapper_get_gps_interface (table_at (aux 0 r)))).

(** ** The framework and the vendor as clients *)

Inductive gps_op :=
  | Open
  | GetInterface (dev : Z)
  | Init (callbacks : Z)
  | GetExtension (name : string)
  | XtraInit (callbacks : Z)
  | CreateThread (name : string).

Definition run_gps (op : gps_op) : gps unit :=
  match op with
  | Open => gps_wrapper_open ;; mret tt
  | GetInterface dev => wrapper_get_gps_interface dev ;; mret tt
  | Init callbacks => wrapper_init callbacks ;; mret tt
  | GetExtension name => wrapper_get_extension name ;; mret tt
  | XtraInit callbacks => wrapper_xtra_init callbacks ;; mret tt
  | CreateThread name => wrapper_gps_create_thread name ;; mret tt
  end.

(** A client has only the functions it was handed: the device when it is open, an interface
    when it was asked for, the callbacks when an interface was initialised. *)
Definition handed (v : gps_vars) (op : gps_op) : Prop :=
  match op with
  | Open => True
  | GetInterface _ => moto_gps_device v <> 0
  | Init callbacks => moto_gps_interface v <> 0 /\ callbacks <> 0
  | GetExtension _ => moto_gps_interface v <> 0
  | XtraInit callbacks => moto_xtra_interface v <> 0 /\ callbacks <> 0
  | CreateThread _ => real_gps_callbacks v <> 0 \/ real_xtra_callbacks v <> 0
  end.

(** The framework initialises the GPS interface before the XTRA interface. *)
Definition gps_first (v : gps_vars) (op : gps_op) : Prop :=
  match op with XtraInit _ => real_gps_callbacks v <> 0 | _ => True end.

Inductive gps_step (P : gps_vars -> gps_op -> Prop) (e : env gps_call)
    : relation (sys gps_call gps_vars) :=
  | GpsStep op s : handed (st s) op -> P (st s) op -> gps_step P e s (run_gps op e s).2.

(** ** The vendor creates its threads through the wrapper *)

Definition patched (t : gps_table) : Prop :=
  t "create_thread_cb" = Wrapper_create_thread
  /\ exists p, forall g, g <> "create_thread_cb" -> t g = Foreign p g.

Definition passes_patched (x : gps_call * resp) : Prop :=
  match x.1 with Moto_init _ t | Moto_xtra_init _ t => patched t | _ => True end.

Definition gps_inv (s : sys gps_call gps_vars) : Prop :=
  undefined (st s) = false
  /\ (real_xtra_callbacks (st s) <> 0 -> real_gps_callbacks (st s) <> 0)
  /\ Forall passes_patched (tr s).

Lemma patched_callbacks p : patched (set_fn "create_thread_cb" Wrapper_create_thread (table_at p)).
Proof.
  split; [done|]. exists p. intros g Hg. unfold set_fn. by rewrite (proj2 (str_eq_false _ _) Hg).
Qed.

(** The vendor has an interface. *)
Definition has_interface (e : env gps_call) : Prop :=
  forall k d, r_ret (e k (Moto_get_gps_interface d)) <> 0.

Lemma wp_through p e s (Q : unit -> sys gps_call gps_vars -> Prop) : p <> 0 -> Q tt s ->
  wp (through p) e s Q.
Proof. intros Hp HQ. unfold through. by rewrite (proj2 (Z.eqb_neq p 0) Hp). Qed.

Lemma passes_snoc t x : Forall passes_patched t -> passes_patched x ->
  Forall passes_patched (t ++ [x]).
Proof. intros Ht Hx. apply Forall_app. auto. Qed.

Lemma run_gps_inv e op s : has_interface e -> handed (st s) op -> gps_first (st s) op ->
  gps_inv s -> wp (run_gps op) e s (fun _ s' => gps_inv s').
Proof.
  intros He Hh Hf (Hu & Hx & Ht). unfold gps_inv. destruct op; cbn [run_gps handed gps_first] in *.
  - unfold gps_wrapper_open. wp_go; (split_and!; [done..|]); cbn [tr];
      repeat (apply passes_snoc; [|done]); done.
  - unfold wrapper_get_gps_interface. do 4 wp_step. apply wp_through; [done|].
    apply wp_bind, wp_call. intros r Er. wp_step. apply wp_through; [rewrite Er; apply He|].
    wp_go. split_and!; [done..|]. by apply passes_snoc.
  - destruct Hh as [Hi Hc]. unfold wrapper_init. do 8 wp_step. apply wp_through; [done|].
    wp_go. split_and!; [done..|]. apply passes_snoc; [done|]. apply patched_callbacks.
  - unfold wrapper_get_extension. do 4 wp_step. apply wp_through; [done|].
    wp_go; (split_and!; [done..|]); by apply passes_snoc.
  - destruct Hh as [Hi Hc]. unfold wrapper_xtra_init. do 8 wp_step. apply wp_through; [done|].
    wp_go. split_and!; [done..|]. apply passes_snoc; [done|]. apply patched_callbacks.
  - unfold wrapper_gps_create_thread. do 4 wp_step. apply wp_through; [tauto|].
    wp_go. split_and!; [done..|]. by apply passes_snoc.
Qed.

(** In every run in which the framework initialises the GPS interface first, the vendor
    gets the callbacks of the framework with the creation of threads replaced, and the
    wrapper uses no NULL pointer. *)
Theorem gps_threads_wrapped e s : has_interface e ->
  rtc (gps_step gps_first e) (Sys _ _ gps_start []) s ->
  undefined (st s) = false /\ Forall passes_patched (tr s).
Proof.
  intros He Hr. assert (gps_inv s) as (Hu & _ & Ht); [|done].
  assert (gps_inv (Sys _ _ gps_start [])) as H0 by (split_and!; [done..|constructor]).
  revert H0. induction Hr as [|x y z [op s' Hh Hf] _ IH]; intros H0; [done|].
  apply IH. by apply (run_gps_inv e op s').
Qed.

(** The vendor sees a thread as 0 or as a positive number. *)
Theorem thread_positive name e s :
  wp (wrapper_gps_create_thread name) e s (fun r _ => r = 0 \/ r = 0x42).
Proof. unfold wrapper_gps_create_thread, through. wp_go; case_match; auto. Qed.

(** When the XTRA interface is initialised first, a thread of the vendor is created through
    a NULL pointer. *)
Definition demo_gps : env gps_call := fun _ c =>
  match c with
  | Moto_open => Resp 0 0 "" [100]
  | Moto_get_gps_interface _ => answer 200
  | Moto_get_extension _ _ => answer 300
  | _ => answer 1
  end.

Theorem xtra_first_undefined : exists s,
  rtc (gps_step (fun _ _ => True) demo_gps) (Sys _ _ gps_start []) s /\ undefined (st s) = true.
Proof.
  eexists. split.
  - eapply rtc_l; [apply (GpsStep _ _ Open); done|].
    eapply rtc_l; [apply (GpsStep _ _ (GetInterface 7)); done|].
    eapply rtc_l; [apply (GpsStep _ _ (GetExtension GPS_XTRA_INTERFACE)); done|].
    eapply rtc_l; [apply (GpsStep _ _ (XtraInit 400)); done|].
    eapply rtc_l; [apply (GpsStep _ _ (CreateThread "agps")); [right; done | done]|].
    apply rtc_refl.
  - reflexivity.
Qed.
