(* ===== verification/Cp.v ===== *)
(** * cp ([src/motobox/cp.c])

    The command copies files and trees.  The two global paths [from] and [to] are arrays
    with a pointer to their end, which the recursion extends and shortens again; they are
    modelled as the bytes of the arrays.  Messages on stderr are left out. *)

From S2P Require Import Prelude.
From S2P Require Import CString.
From Stdlib Require Import Ascii.

Definition MAXPATHLEN : nat := 4096.
Definition MAXBSIZE : Z := 128 * 1024.
Definition EPERM : Z := 1.

Definition IFMT : Z := 61440.
Definition S_ISUID : Z := 2048.
Definition S_ISGID : Z := 1024.
Definition S_ISVTX : Z := 512.
Definition S_IRWXU : Z := 448.
Definition S_IRWXG : Z := 56.
Definition S_IRWXO : Z := 7.

(** The kinds of files *)
Definition IFLNK : Z := 40960.
Definition IFDIR : Z := 16384.
Definition IFCHR : Z := 8192.
Definition IFBLK : Z := 24576.
Definition IFIFO : Z := 4096.

(** ** Data and calls *)

(** A path: the bytes of [p_path] and the offset of [p_end] *)
Record PATH_T := Path { p_path : string; p_end : nat }.

Inductive cp_call :=
  | Isatty
  | Getuid
  | Umask (mask : Z)
  | Stat (path : string)
  | Lstat (path : string)
  | Fstat (fd : Z)
  | Mkdir (path : string) (mode : Z)
  | Chmod (path : string) (mode : Z)
  | Fchmod (fd mode : Z)
  | Chown (path : string) (uid gid : Z)
  | Fchown (fd uid gid : Z)
  | Utimes (path : string) (atime mtime : Z)
  | Open_read (path : string)
  | Open_trunc (path : string)
  | Open_create (path : string) (mode : Z)
  | Close (fd : Z)
  | Getchar
  | Read (fd len : Z)
  | Write (fd : Z) (bytes : string)
  | Scandir (path : string)
  | Readlink (path : string) (len : Z)
  | Unlink (path : string)
  | Symlink (target path : string)
  | Mkfifo (path : string) (mode : Z)
  | Mknod (path : string) (mode dev : Z).

(** [struct stat], from the out-parameters of a call *)
Record stat := MkStat {
  st_mode : Z;
  st_dev : Z;
  st_ino : Z;
  st_uid : Z;
  st_gid : Z;
  st_rdev : Z;
  st_atime : Z;
  st_mtime : Z }.

Definition stat_of (r : resp) : stat :=
  MkStat (aux 0 r) (aux 1 r) (aux 2 r) (aux 3 r) (aux 4 r) (aux 5 r) (aux 6 r) (aux 7 r).

Definition is_type (kind : Z) (st : stat) : bool := Z.land (st_mode st) IFMT =? kind.

(** The global variables; [follow] tells that [statfcn] is [stat] and not [lstat].
    [undefined] is set by an access outside of an object. *)
Record cp_vars := CpVars {
  from : PATH_T;
  to : PATH_T;
  myuid : Z;
  myumask : Z;
  exit_val : Z;
  iflag : Z;
  pflag : bool;
  orflag : bool;
  rflag : bool;
  follow : bool;
  undefined : bool }.

#[export] Instance eta_cp_vars : Eta cp_vars :=
  fun v => CpVars (from v) (to v) (myuid v) (myumask v) (exit_val v) (iflag v) (pflag v)
    (orflag v) (rflag v) (follow v) (undefined v).

Abbreviation cp A := (prog cp_call cp_vars A).

(** [PATH_T from = { from.p_path, "" };] *)
Definition empty_path : PATH_T := Path (buf_bytes (MAXPATHLEN + 1) "") 0.

Definition cp_init : cp_vars :=
  CpVars empty_path empty_path 0 0 0 0 false false false false false.

(** [err]: the message is not modelled. *)
Definition err : cp unit := modify (fun v => v <| exit_val := 1 |>).

Definition go_undefined : cp unit := modify (fun v => v <| undefined := true |>).

(** Loops and recursions that the outside can prolong answer [None] without enough fuel. *)
Definition then_cp {A B} (m : cp (option A)) (k : A -> cp (option B)) : cp (option B) :=
  o ← m; match o with Some a => k a | None => mret None end.

Declare Scope cp_scope.
Notation "x <~ m ; k" := (then_cp m (fun x => k))
  (at level 20, m at level 100, k at level 200, right associativity) : cp_scope.
#[global] Open Scope cp_scope.

(** ** Paths *)

Definition SLASH : ascii := "/".

(** [STRIP_TRAILING_SLASH]: from the offset [n] *)
Fixpoint strip_slash (n : nat) (mem : string) : PATH_T :=
  match n with
  | O => Path mem O
  | S m => if (char_at mem m =? SLASH)%char then strip_slash m (put_at m (String NUL "") mem)
           else Path mem n
  end.

(** [None] is the result 0. *)
Definition path_set (p : PATH_T) (name : string) : option PATH_T :=
  if (MAXPATHLEN <? String.length name)%nat then None else
  let mem := put_at 0 (name +:+ String NUL "") (p_path p) in
  let n := String.length (c_str mem) in
  Some (match n with
        | O => strip_slash 1 (put_at 1 (String NUL "") (put_at 0 "." mem))
        | _ => strip_slash n mem
        end).

(** The path with the name appended; the caller keeps the old end.  [strncat] looks for the
    end of the string behind [p_end]. *)
Definition path_append (p : PATH_T) (name : string) (len : nat) : option PATH_T :=
  if (MAXPATHLEN <? len + p_end p + 1)%nat then None else
  let '(mem, n) :=
    if (char_at (p_path p) (p_end p - 1) =? SLASH)%char then (p_path p, p_end p)
    else (put_at (p_end p + 1) (String NUL "") (put_at (p_end p) "/" (p_path p)),
          (p_end p + 1)%nat) in
  let at_nul := (n + String.length (c_str (str_drop n mem)))%nat in
  let mem := put_at at_nul (str_take len name +:+ String NUL "") mem in
  Some (strip_slash (n + len) (put_at (n + len) (String NUL "") mem)).

Definition path_restore (p : PATH_T) (old : nat) : PATH_T :=
  Path (put_at old (String NUL "") (p_path p)) old.

(** The text behind the last slash of a string, or the string *)
Fixpoint last_part (s acc : string) : string :=
  match s with
  | "" => acc
  | String c s => if (c =? SLASH)%char then last_part s s else last_part s acc
  end.

Definition path_text (p : PATH_T) : string := c_str (p_path p).

Definition path_basename (p : PATH_T) : string := last_part (path_text p) (path_text p).

(** The two paths as variables *)
Inductive which := From | To.

Definition path_var (w : which) (v : cp_vars) : PATH_T :=
  match w with From => from v | To => to v end.
Definition set_path (w : which) (p : PATH_T) (v : cp_vars) : cp_vars :=
  match w with From => v <| from := p |> | To => v <| to := p |> end.

(** [path_append(&w, name, len)]: the old end.  At the start of the array [p_end[-1]]
    is outside of it. *)
Definition append (w : which) (name : string) (len : nat) : cp (option nat) :=
  p ← gets (path_var w);
  match path_append p name len with
  | None => mret None
  | Some p' =>
      when (p_end p =? 0)%nat go_undefined ;;
      modify (set_path w p') ;; mret (Some (p_end p))
  end.

Definition restore (w : which) (old : nat) : cp unit :=
  modify (fun v => set_path w (path_restore (path_var w v) old) v).

Definition from_path : cp string := gets (fun v => path_text (from v)).
Definition to_path : cp string := gets (fun v => path_text (to v)).

(** [statfcn(from.p_path, ...)] *)
Definition stat_from : cp resp :=
  f ← gets follow; p ← from_path; call (if f : bool then Stat p else Lstat p).

(** ** Copying one file *)

(** [if (ret) err(...)] *)
Definition check (c : cp_call) : cp unit :=
  r ← call c; when (negb (r_ret r =? 0)) err.

Definition setfile (fs : stat) (fd : Z) : cp unit :=
  let mode := Z.land (st_mode fs) (S_ISUID + S_ISGID + S_IRWXU + S_IRWXG + S_IRWXO) in
  p ← to_path;
  check (Utimes p (st_atime fs) (st_mtime fs)) ;;
  r ← call (if fd =? 0 then Chown p (st_uid fs) (st_gid fs)
            else Fchown fd (st_uid fs) (st_gid fs));
  let failed := negb (r_ret r =? 0) in
  when (failed && negb (r_errno r =? EPERM)) err ;;
  let mode := if failed then Z.land mode (Z.lnot (S_ISUID + S_ISGID)) else mode in
  check (if fd =? 0 then Chmod p mode else Fchmod fd mode).

Definition NL : Z := 10.
Definition EOF : Z := -1.

(** [while (ch != '\n' && ch != EOF) ch = getchar();] *)
Fixpoint skip_line (fuel : nat) (ch : Z) : cp (option unit) :=
  if (ch =? NL) || (ch =? EOF) then mret (Some tt) else
  match fuel with
  | O => mret None
  | S fuel => r ← call Getchar; skip_line fuel (r_ret r)
  end.

(** Whether the user agrees *)
Definition overwrite (fuel : nat) : cp (option bool) :=
  r ← call Getchar;
  _ <~ skip_line fuel (r_ret r);
  mret (Some ((r_ret r =? 121) || (r_ret r =? 89))).

(** The bytes that a [read] put in the buffer *)
Definition block_read (r : resp) : string := buf_bytes (Z.to_nat (r_ret r)) (r_data r).

(** The loop over the blocks *)
Fixpoint copy_blocks (fuel : nat) (from_fd to_fd : Z) : cp (option unit) :=
  match fuel with
  | O => mret None
  | S fuel =>
      r ← call (Read from_fd MAXBSIZE);
      if 0 <? r_ret r then
        w ← call (Write to_fd (block_read r));
        if negb (r_ret r =? r_ret w) || (r_ret w =? -1) then err ;; mret (Some tt)
        else copy_blocks fuel from_fd to_fd
      else when (r_ret r <? 0) err ;; mret (Some tt)
  end.

Definition RETAINBITS : Z := S_ISUID + S_ISGID + S_ISVTX + S_IRWXU + S_IRWXG + S_IRWXO.

(** Owner and mode of the copy *)
Definition finish_file (fs : stat) (to_fd : Z) : cp unit :=
  v ← gets (fun v => v);
  if pflag v then setfile fs to_fd
  else if negb (Z.land (st_mode fs) (S_ISUID + S_ISGID) =? 0) && (st_uid fs =? myuid v) then
    r ← call (Fstat to_fd);
    if negb (r_ret r =? 0) then err
    else when (st_gid fs =? st_gid (stat_of r))
      (check (Fchmod to_fd (Z.land (Z.land (st_mode fs) RETAINBITS) (Z.lnot (myumask v)))))
  else mret tt.

Definition copy_file (fuel : nat) (fs : stat) (dne : bool) : cp (option unit) :=
  p ← from_path;
  f ← call (Open_read p);
  let from_fd := r_ret f in
  if from_fd =? -1 then err ;; mret (Some tt) else
  interactive ← gets iflag;
  q ← to_path;
  agreed <~ (if negb dne && negb (interactive =? 0) then overwrite fuel else mret (Some true));
  if negb agreed then call (Close from_fd) ;; mret (Some tt) else
  t ← call (if dne then Open_create q (Z.land (st_mode fs) (Z.lnot (S_ISUID + S_ISGID)))
            else Open_trunc q);
  let to_fd := r_ret t in
  if to_fd =? -1 then err ;; call (Close from_fd) ;; mret (Some tt) else
  _ <~ copy_blocks fuel from_fd to_fd;
  finish_file fs to_fd ;;
  call (Close from_fd) ;;
  check (Close to_fd) ;; mret (Some tt).

(** [exists && unlink(to.p_path)]: whether the target is out of the way *)
Definition clear_target (present : bool) : cp bool :=
  if present then
    p ← to_path; r ← call (Unlink p);
    if r_ret r =? 0 then mret true else err ;; mret false
  else mret true.

(** [link[len] = 0] writes behind the array when the link fills it. *)
Definition copy_link (present : bool) : cp unit :=
  p ← from_path;
  r ← call (Readlink p (Z.of_nat MAXPATHLEN));
  if r_ret r =? -1 then err else
  when (Z.of_nat MAXPATHLEN <=? r_ret r) go_undefined ;;
  let link := c_str (buf_bytes (Z.to_nat (r_ret r)) (r_data r)) in
  ok ← clear_target present;
  if negb ok then mret tt else
  q ← to_path; check (Symlink link q).

Definition copy_fifo (from_stat : stat) (present : bool) : cp unit :=
  ok ← clear_target present;
  if negb ok then mret tt else
  q ← to_path;
  r ← call (Mkfifo q (st_mode from_stat));
  if negb (r_ret r =? 0) then err else
  pf ← gets pflag; when pf (setfile from_stat 0).

Definition copy_special (from_stat : stat) (present : bool) : cp unit :=
  ok ← clear_target present;
  if negb ok then mret tt else
  q ← to_path;
  r ← call (Mknod q (st_mode from_stat) (st_rdev from_stat));
  if negb (r_ret r =? 0) then err else
  pf ← gets pflag; when pf (setfile from_stat 0).

(** ** Copying a tree *)

(** The test for . and .. *)
Definition dot_entry (name : string) : bool :=
  (String.length name <=? 2)%nat && (char_at name 0 =? ".")%char
  && ((char_at name 1 =? NUL)%char || (char_at name 1 =? ".")%char).

Section Tree.
(** The recursive call of [copy] *)
Context (copy : cp (option unit)).

(** The first loop of [copy_dir]: everything but directories; the entries that are left
    in [dir_list] *)
Fixpoint copy_files (entries : list string) : cp (option (list string)) :=
  match entries with
  | [] => mret (Some [])
  | name :: entries =>
      let len := String.length name in
      if dot_entry name then copy_files entries else
      o ← append From name len;
      match o with
      | None => copy_files entries
      | Some old_from =>
          r ← stat_from;
          if r_ret r <? 0 then err ;; restore From old_from ;; copy_files entries
          else if is_type IFDIR (stat_of r) then
            restore From old_from ;;
            l <~ copy_files entries; mret (Some (name :: l))
          else
            t ← append To name len;
            _ <~ match t with
                 | None => mret (Some tt)
                 | Some old_to => _ <~ copy; restore To old_to ;; mret (Some tt)
                 end;
            restore From old_from ;;
            copy_files entries
      end
  end.

(** The second loop *)
Fixpoint copy_dirs (entries : list string) : cp (option unit) :=
  match entries with
  | [] => mret (Some tt)
  | name :: entries =>
      let len := String.length name in
      o ← append From name len;
      match o with
      | None => copy_dirs entries
      | Some old_from =>
          t ← append To name len;
          match t with
          | None => restore From old_from ;; copy_dirs entries
          | Some old_to =>
              _ <~ copy;
              restore From old_from ;;
              restore To old_to ;;
              copy_dirs entries
          end
      end
  end.

(** When [scandir] fails [dir_list] is not set, and is freed all the same. *)
Definition copy_dir : cp (option unit) :=
  p ← from_path;
  r ← call (Scandir p);
  if r_ret r =? -1 then err ;; go_undefined ;; mret (Some tt) else
  dirs <~ copy_files (dir_entries r);
  copy_dirs dirs.

(** The case of a directory in [copy] *)
Definition copy_tree (from_stat to_stat : stat) (dne : bool) : cp (option unit) :=
  v ← gets (fun v => v);
  if negb (rflag v) && negb (orflag v) then err ;; mret (Some tt) else
  q ← to_path;
  made ← (if dne then
            r ← call (Mkdir q (Z.lor (st_mode from_stat) S_IRWXU));
            if r_ret r <? 0 then err ;; mret false else mret true
          else mret (is_type IFDIR to_stat));
  if negb made then mret (Some tt) else
  _ <~ copy_dir;
  (if pflag v then setfile from_stat 0
   else when dne (q ← to_path; call (Chmod q (st_mode from_stat)) ;; mret tt)) ;;
  mret (Some tt).

(** One call of [copy] *)
Definition copy_body (blocks : nat) : cp (option unit) :=
  f ← stat_from;
  if r_ret f =? -1 then err ;; mret (Some tt) else
  let from_stat := stat_of f in
  q ← to_path;
  t ← call (Stat q);
  let dne := r_ret t =? -1 in
  let to_stat := stat_of t in
  if negb dne && (st_dev to_stat =? st_dev from_stat) && (st_ino to_stat =? st_ino from_stat)
  then err ;; mret (Some tt)
  else if negb dne && negb (is_type IFDIR from_stat) && is_type IFDIR to_stat
  then err ;; mret (Some tt)
  else
  r ← gets rflag;
  if is_type IFLNK from_stat then copy_link (negb dne) ;; mret (Some tt)
  else if is_type IFDIR from_stat then copy_tree from_stat to_stat dne
  else if (is_type IFCHR from_stat || is_type IFBLK from_stat) && r
  then copy_special from_stat (negb dne) ;; mret (Some tt)
  else if is_type IFIFO from_stat && r
  then copy_fifo from_stat (negb dne) ;; mret (Some tt)
  else copy_file blocks from_stat dne.
End Tree.

(** [copy], with fuel for its depth and for the loops over a file *)
Fixpoint copy (depth blocks : nat) : cp (option unit) :=
  match depth with
  | O => mret None
  | S depth => copy_body (copy depth blocks) blocks
  end.

(** ** The command *)

(** The options that [getopt] finds, and the arguments behind them *)
Fixpoint chars (s : string) : list ascii :=
  match s with "" => [] | String c s => c :: chars s end.

Fixpoint getopt (args : list string) : list ascii * list string :=
  match args with
  | String d (String c t) :: rest =>
      if (d =? "-")%char then
        if str_eq (String c t) "-" then ([], rest)
        else let '(opts, others) := getopt rest in (chars (String c t) ++ opts, others)
      else ([], args)
  | _ => ([], args)
  end.

(** The loop over the options: [symfollow], or [None] for [usage] *)
Fixpoint options (opts : list ascii) (symfollow : bool) : cp (option bool) :=
  match opts with
  | [] => mret (Some symfollow)
  | c :: opts =>
      if (c =? "f")%char then modify (fun v => v <| iflag := 0 |>) ;; options opts symfollow
      else if (c =? "h")%char then options opts true
      else if (c =? "i")%char then
        r ← call Isatty; modify (fun v => v <| iflag := r_ret r |>) ;; options opts symfollow
      else if (c =? "p")%char then modify (fun v => v <| pflag := true |>) ;; options opts symfollow
      else if (c =? "R")%char then modify (fun v => v <| rflag := true |>) ;; options opts symfollow
      else if (c =? "r")%char then modify (fun v => v <| orflag := true |>) ;; options opts symfollow
      else mret None
  end.

(** The loop over the sources: [argv] are the words from the current source to the target,
    [argc] the sources that are left to copy.  Behind the target is NULL. *)
Fixpoint copy_each (depth blocks : nat) (argv : list string) (argc : nat) : cp (option unit) :=
  match argv with
  | [] => go_undefined ;; mret (Some tt)
  | name :: argv =>
      v ← gets (fun v => v);
      match path_set (from v) name with
      | None => copy_each depth blocks argv argc
      | Some p =>
          modify (set_path From p) ;;
          o ← append To (path_basename p) (String.length (path_basename p));
          match o with
          | None => copy_each depth blocks argv argc
          | Some old_to =>
              _ <~ copy depth blocks;
              if (argc - 1 =? 0)%nat then mret (Some tt)
              else restore To old_to ;; copy_each depth blocks argv (argc - 1)
          end
      end
  end.

(** From the second argument of [stat] on, with the sources and the words of the loop *)
Definition copy_args (depth blocks : nat) (sources : list string) (target : string)
    : cp (option Z) :=
  q ← to_path;
  r ← call (Stat q);
  if (r_ret r =? -1) && negb (r_errno r =? 2) then err ;; mret (Some 1) else
  if (r_ret r =? -1) || negb (is_type IFDIR (stat_of r)) then
    match sources with
    | [source] =>
        v ← gets (fun v => v);
        match path_set (from v) source with
        | None => mret (Some 1)
        | Some p =>
            modify (set_path From p) ;;
            _ <~ copy depth blocks; x ← gets exit_val; mret (Some x)
        end
    | _ => mret (Some 1)
    end
  else
    _ <~ copy_each depth blocks (sources ++ [target]) (length sources);
    x ← gets exit_val; mret (Some x).

(** [cp_main]: the exit status *)
Definition cp_main (depth blocks : nat) (args : list string) : cp (option Z) :=
  let '(opts, words) := getopt args in
  o ← options opts false;
  match o with
  | None => mret (Some 1)
  | Some symfollow =>
      if (length words <? 2)%nat then mret (Some 1) else
      v ← gets (fun v => v);
      if rflag v && orflag v then mret (Some 1) else
      u ← call Getuid; modify (fun v => v <| myuid := r_ret u |>) ;;
      m ← call (Umask 0); modify (fun v => v <| myumask := r_ret m |>) ;;
      call (Umask (r_ret m)) ;;
      let target := List.last words "" in
      match path_set (to v) target with
      | None => mret (Some 1)
      | Some p =>
          modify (set_path To p) ;;
          modify (fun v => v <| follow := symfollow || negb (rflag v) |>) ;;
          copy_args depth blocks (removelast words) target
      end
  end.
