(* ===== verification/CpThms.v ===== *)
(** * cp: paths, termination and truthfulness

    The recursion of [cp] extends the global paths within their arrays and restores them, and
    ends because paths cannot grow forever; an exit status of 0 means that all that was
    read was written. *)

From S2P Require Import Prelude.
From S2P Require Import CString.
From S2P Require Import Cp.
From Stdlib Require Import Ascii.

Implicit Types (e : env cp_call) (s : sys cp_call cp_vars) (v : cp_vars) (x y : string).

(** ** Paths as strings *)

(** The array of a path holds a string that ends at [p_end]. *)
Definition holds (p : PATH_T) x : Prop :=
  lacks NUL x /\ p_end p = String.length x /\ String.length (p_path p) = S MAXPATHLEN
  /\ exists tail, p_path p = x +:+ String NUL tail.

Lemma holds_text p x : holds p x -> path_text p = x.
Proof. intros (Hx & _ & _ & tail & E). unfold path_text. rewrite E. by apply take_until_app. Qed.

Lemma holds_fits p x : holds p x -> (String.length x <= MAXPATHLEN)%nat.
Proof. intros (_ & _ & Hl & tail & E). rewrite E, str_length_app in Hl. cbn in Hl. lia. Qed.

(** No slash at the end *)
Definition trim x : Prop := char_at x (String.length x - 1) <> SLASH.

Lemma put_at_here a b c d : String.length b = String.length c ->
  put_at (String.length a) c (a +:+ b +:+ d) = a +:+ c +:+ d.
Proof.
  intros H. unfold put_at. rewrite str_take_app_le, str_take_all by done.
  do 2 f_equal. rewrite str_app_assoc. apply str_drop_app. rewrite str_length_app. lia.
Qed.

(** A string that ends in no slash stays. *)
Lemma strip_trim x tail : trim x -> x <> "" ->
  strip_slash (String.length x) (x +:+ String NUL tail) = Path (x +:+ String NUL tail) (String.length x).
Proof.
  unfold trim. intros Ht Hne. destruct (String.length x) as [|n] eqn:E; [by destruct x|].
  cbn [strip_slash]. rewrite char_at_prefix by lia. cbn in Ht. rewrite Nat.sub_0_r in Ht.
  by rewrite (proj2 (Ascii.eqb_neq _ _) Ht).
Qed.

(** Writing a string and its NUL at the end of a path *)
Lemma extend_bytes x y tail : (String.length y <= String.length tail)%nat -> exists tail',
  put_at (String.length x) (y +:+ String NUL "") (x +:+ String NUL tail)
  = (x +:+ y) +:+ String NUL tail' /\ String.length (x +:+ String NUL tail)
    = String.length ((x +:+ y) +:+ String NUL tail').
Proof.
  intros H. exists (str_drop (String.length y) tail).
  assert (String NUL tail = str_take (S (String.length y)) (String NUL tail)
    +:+ str_drop (S (String.length y)) (String NUL tail)) as E by by rewrite str_take_drop.
  split.
  - rewrite E, put_at_here; [by rewrite <- !str_app_assoc|].
    rewrite str_take_length, str_length_app. cbn. lia.
  - rewrite !str_length_app. cbn. rewrite str_drop_length. lia.
Qed.

Lemma put_nul z c tail :
  put_at (String.length z) (String NUL "") (z +:+ String c tail) = z +:+ String NUL tail.
Proof. exact (put_at_here z (String c "") (String NUL "") tail eq_refl). Qed.

Lemma trim_name x name : lacks SLASH name -> name <> "" -> trim (x +:+ String SLASH name).
Proof.
  intros Hn Hne. unfold trim. rewrite str_length_app.
  destruct name as [|c n]; [done|]. cbn [String.length].
  replace (String.length x + S (S (String.length n)) - 1)%nat
    with (String.length x + S (String.length n))%nat by lia.
  rewrite char_at_app_r. change (char_at (String SLASH (String c n)) (S (String.length n)))
    with (char_at (String c n) (String.length n)).
  rewrite <- (str_app_nil (String c n)). apply char_at_lacks; [done | cbn; lia].
Qed.

(** A name of a directory *)
Definition proper (name : string) : Prop := name <> "" /\ lacks NUL name /\ lacks SLASH name.

Lemma path_append_spec p x name : holds p x -> trim x -> x <> "" -> proper name ->
  match path_append p name (String.length name) with
  | None => True
  | Some p' => holds p' (x +:+ String SLASH name)
  end.
Proof.
  intros (Hx & Hend & Hlen & tail & E) Ht Hne (Hnn & Hnul & Hsl). unfold path_append.
  destruct (Nat.ltb_spec MAXPATHLEN (String.length name + p_end p + 1)) as [|Hfit]; [done|].
  rewrite Hend, E in *. rewrite str_length_app in Hlen. cbn [String.length] in Hlen.
  rewrite char_at_prefix by (destruct x; [done | cbn; lia]).
  rewrite (proj2 (Ascii.eqb_neq _ _) Ht).
  destruct tail as [|c tail]; [cbn in Hlen; lia|]. cbn [String.length] in Hlen.
  assert (put_at (String.length x) "/" (x +:+ String NUL (String c tail))
    = (x +:+ "/") +:+ String c tail) as ->
    by (rewrite <- str_app_assoc; exact (put_at_here x (String NUL "") "/" (String c tail) eq_refl)).
  assert (String.length x + 1 = String.length (x +:+ "/"))%nat as -> by by rewrite str_length_app.
  rewrite put_nul, str_drop_app_len, str_take_all by done. cbn [c_str take_until String.length].
  change (c_str (String NUL tail)) with "". cbn [String.length]. rewrite Nat.add_0_r.
  destruct (extend_bytes (x +:+ "/") name tail) as (tail' & -> & Hl); [lia|].
  rewrite <- str_length_app, put_nul.
  assert ((x +:+ "/") +:+ name = x +:+ String SLASH name) as Ex by by rewrite <- str_app_assoc.
  rewrite Ex in *. rewrite strip_trim; [|by apply trim_name | by destruct x].
  split_and!; [|done| |by exists tail'].
  - by apply lacks_app, lacks_cons.
  - cbn [p_path]. rewrite <- Hl, !str_length_app. cbn. lia.
Qed.

Lemma path_restore_spec p x y : holds p (x +:+ y) -> holds (path_restore p (String.length x)) x.
Proof.
  intros (Hx & Hend & Hlen & tail & E). apply lacks_prefix in Hx as [Hx _].
  unfold path_restore. rewrite E, <- str_app_assoc in *.
  assert (exists c t, y +:+ String NUL tail = String c t) as (c & t & Ey) by (destruct y; cbn; eauto).
  rewrite Ey, put_nul in *. split_and!; [done..| |by exists t].
  cbn [p_path]. rewrite <- Hlen, !str_length_app. done.
Qed.

Lemma split_last x m : String.length x = S m -> exists y c,
  x = y +:+ String c "" /\ String.length y = m /\ char_at x m = c.
Proof.
  intros H. exists (str_take m x). assert (String.length (str_drop m x) = 1%nat) as Hd
    by (rewrite str_drop_length; lia).
  destruct (str_drop m x) as [|c [|]] eqn:E; cbn in Hd; try lia. exists c.
  assert (x = str_take m x +:+ String c "") as Ex by (rewrite <- E; by rewrite str_take_drop).
  assert (String.length (str_take m x) = m) as Hm by (rewrite str_take_length; lia).
  split_and!; [done..|]. rewrite Ex at 1. rewrite <- Hm at 2. apply char_at_app.
Qed.

(** Slashes at the end are removed. *)
Lemma strip_spec n : forall x tail, String.length x = n -> lacks NUL x -> exists y tail',
  strip_slash n (x +:+ String NUL tail) = Path (y +:+ String NUL tail') (String.length y)
  /\ String.length (y +:+ String NUL tail') = String.length (x +:+ String NUL tail)
  /\ trim y /\ lacks NUL y /\ (String.length y <= n)%nat.
Proof.
  induction n as [|n IH]; intros x tail Hx Hn.
  { destruct x; [|done]. by exists "", tail. }
  destruct (split_last x n Hx) as (y & c & -> & Hy & Hc). cbn [strip_slash].
  rewrite char_at_prefix, Hc by lia. destruct (Ascii.eqb_spec c SLASH) as [-> |Hs].
  - rewrite <- Hy, <- str_app_assoc. cbn [String.append]. rewrite put_nul, Hy.
    apply lacks_prefix in Hn as [Hn _]. destruct (IH y (String NUL tail) Hy Hn) as (z & t & -> & Hl & Hz & Hzn & Hzl).
    exists z, t. split_and!; [done| |done..|lia]. rewrite Hl, !str_length_app. done.
  - exists (y +:+ String c ""), tail. rewrite Hx. split_and!; [done..| |done|lia].
    unfold trim. rewrite Hx. cbn. rewrite Nat.sub_0_r. by rewrite Hc.
Qed.

Lemma path_set_spec p name : String.length (p_path p) = S MAXPATHLEN -> lacks NUL name ->
  match path_set p name with
  | None => (MAXPATHLEN < String.length name)%nat
  | Some p' => exists x, holds p' x /\ trim x
      /\ (String.length x <= Nat.max 1 (String.length name))%nat
  end.
Proof.
  intros Hp Hn. unfold path_set.
  destruct (Nat.ltb_spec MAXPATHLEN (String.length name)) as [|Hfit]; [done|].
  assert (exists tail, put_at 0 (name +:+ String NUL "") (p_path p) = name +:+ String NUL tail
    /\ String.length (name +:+ String NUL tail) = S MAXPATHLEN) as (tail & -> & Hl).
  { exists (str_drop (S (String.length name)) (p_path p)). unfold put_at. cbn [str_take String.append Nat.add].
    rewrite str_length_app. cbn [String.length]. rewrite Nat.add_1_r, <- str_app_assoc.
    split; [done|]. rewrite str_length_app. cbn [String.length]. rewrite str_drop_length. lia. }
  change (c_str (name +:+ String NUL tail)) with (take_until NUL (name +:+ String NUL tail)).
  rewrite take_until_app by done. cbv zeta.
  assert (forall z t, lacks NUL z -> String.length (z +:+ String NUL t) = S MAXPATHLEN ->
    exists x, holds (strip_slash (String.length z) (z +:+ String NUL t)) x /\ trim x
      /\ (String.length x <= String.length z)%nat) as Hgo.
  { intros z t Hz Hzl. destruct (strip_spec _ z t eq_refl Hz) as (w & t' & -> & Hw & Ht & Hwn & Hwl).
    exists w. split; [|done]. split_and!; [done..| |by exists t']. cbn [p_path]. lia. }
  destruct name as [|c name].
  2: { destruct (Hgo (String c name) tail Hn Hl) as (x & Hx & Tx & Lx). exists x. split_and!; [done..|lia]. }
  cbn in Hl.
  destruct tail as [|d tail]; [cbn in Hl; unfold MAXPATHLEN in Hl; lia|]. cbn.
  apply (Hgo "." tail); [done|]. cbn in *. lia.
Qed.

(** ** What the recursion keeps *)

(** The accesses outside of an object that remain: an array that [scandir] did not
    allocate, and a link that fills its buffer *)
Definition blame (c : cp_call) (r : resp) : bool :=
  match c with
  | Scandir _ => r_ret r =? -1
  | Readlink _ _ => Z.of_nat MAXPATHLEN <=? r_ret r
  | _ => false
  end.

Definition blamed (t : list (cp_call * resp)) : Prop := exists c r, (c, r) ∈ t /\ blame c r = true.

(** The paths are [x] and [y]. *)
Definition at_paths x y s : Prop :=
  holds (from (st s)) x /\ holds (to (st s)) y /\ (undefined (st s) = true -> blamed (tr s)).

Lemma blamed_app t t' : blamed t -> blamed (t ++ t').
Proof. intros (c & r & Hin & Hb). exists c, r. split; [|done]. apply elem_of_app. by left. Qed.

Lemma blamed_last t c r : blame c r = true -> blamed (t ++ [(c, r)]).
Proof. intros Hb. exists c, r. split; [|done]. apply elem_of_app. right. left. Qed.

Lemma at_snoc x y s c r : at_paths x y s -> at_paths x y (Sys _ _ (st s) (tr s ++ [(c, r)])).
Proof. intros (Hf & Ht & Hu). split_and!; [done..|]. intros H. by apply blamed_app, Hu. Qed.

Section Keeping.
Context (e : env cp_call) (x y : string).

#[local] Instance keeps_at_call c : Keeps e (at_paths x y) (call c).
Proof. apply keeps_call. intros s r. apply at_snoc. Qed.

#[local] Instance keeps_err : Keeps e (at_paths x y) err.
Proof. apply keeps_modify. intros s H. exact H. Qed.

#[local] Instance keeps_check c : Keeps e (at_paths x y) (check c).
Proof. unfold check. keeps. Qed.

#[local] Instance keeps_setfile fs fd : Keeps e (at_paths x y) (setfile fs fd).
Proof. unfold setfile, to_path. keeps. Qed.

#[local] Instance keeps_finish fs fd : Keeps e (at_paths x y) (finish_file fs fd).
Proof. unfold finish_file. keeps. Qed.

#[local] Instance keeps_clear present : Keeps e (at_paths x y) (clear_target present).
Proof. unfold clear_target, to_path. keeps. Qed.

#[local] Instance keeps_fifo fs present : Keeps e (at_paths x y) (copy_fifo fs present).
Proof. unfold copy_fifo, to_path. keeps. Qed.

#[local] Instance keeps_special fs present : Keeps e (at_paths x y) (copy_special fs present).
Proof. unfold copy_special, to_path. keeps. Qed.

#[local] Instance keeps_stat_from : Keeps e (at_paths x y) stat_from.
Proof. unfold stat_from, from_path. keeps. Qed.

Lemma wp_at {A} (m : cp A) `{!Keeps e (at_paths x y) m} s (Q : A -> sys cp_call cp_vars -> Prop) :
  at_paths x y s -> (forall a s', at_paths x y s' -> Q a s') -> wp m e s Q.
Proof. intros Hs HQ. eapply wp_wand; [exact (wp_keeps e _ m s Hs)|]. auto. Qed.

(** A longer link than its buffer is to blame for the write behind it. *)
#[local] Instance keeps_link present : Keeps e (at_paths x y) (copy_link present).
Proof.
  intros s Hs. change (wp (copy_link present) e s (fun _ s' => at_paths x y s')).
  unfold copy_link, from_path. wp_step. wp_step. apply wp_bind, wp_call. intros r _.
  pose proof (at_snoc x y s (Readlink (path_text (from (st s))) (Z.of_nat MAXPATHLEN)) r Hs) as Hs'.
  destruct (r_ret r =? -1); [by apply (wp_at err)|].
  wp_step. eapply (wp_wand _ _ _ (fun _ => at_paths x y)).
  { wp_step; [|done]. unfold go_undefined. wp_step. destruct Hs as (Hf & Ht & _).
    split_and!; [done..|]. intros _. by apply blamed_last. }
  intros [] s1 H1. wp_step. apply (wp_at (clear_target present)); [done|].
  intros [] s2 H2; cbn [negb]; [|by wp_step]. unfold to_path. wp_step. wp_step. by apply (wp_at (check _)).
Qed.
End Keeping.

(** ** Every call returns *)

(** Files end after fewer than [blocks] blocks, lines of the user after fewer characters. *)
Definition finite_input e (blocks : nat) : Prop :=
  (forall k fd, exists j, (j < blocks)%nat /\ r_ret (e (k + 2 * j)%nat (Read fd MAXBSIZE)) <= 0)
  /\ (forall k, exists j, (j < blocks)%nat /\
        (r_ret (e (k + j)%nat Getchar) = NL \/ r_ret (e (k + j)%nat Getchar) = EOF)).

(** The names of directories are proper, and the empty path is the name of nothing. *)
Definition posix_names e : Prop :=
  (forall k p, Forall proper (dir_entries (e k (Scandir p))))
  /\ (forall k, r_ret (e k (Stat "")) = -1 /\ r_ret (e k (Lstat "")) = -1)
  /\ (forall k m, r_ret (e k (Mkdir "" m)) < 0).

Section Returning.
Context (e : env cp_call) (blocks : nat).
Hypothesis Hinput : finite_input e blocks.
Hypothesis Hnames : posix_names e.

#[local] Existing Instances keeps_at_call keeps_err keeps_check keeps_setfile keeps_finish
  keeps_clear keeps_fifo keeps_special keeps_stat_from keeps_link.

Definition returns_at {A} x y (m : cp (option A)) s : Prop :=
  wp m e s (fun o s' => is_Some o /\ at_paths x y s').

Lemma copy_blocks_returns x y from_fd to_fd j : forall fuel s, at_paths x y s ->
  r_ret (e (length (tr s) + 2 * j)%nat (Read from_fd MAXBSIZE)) <= 0 -> (j < fuel)%nat ->
  returns_at x y (copy_blocks fuel from_fd to_fd) s.
Proof.
  induction j as [|j IH]; intros [|fuel] s Hs Hj Hf; try lia; unfold returns_at; cbn [copy_blocks];
    apply wp_bind, wp_call; intros r Er; apply (at_snoc _ _ _ (Read from_fd MAXBSIZE) r) in Hs.
  - rewrite Nat.add_0_r, <- Er in Hj. rewrite (proj2 (Z.ltb_ge 0 _) Hj). wp_step.
    apply (wp_at e x y (when _ err)); [done|]. intros [] s1 H1. by apply wp_ret.
  - destruct (0 <? r_ret r).
    + apply wp_bind, wp_call. intros w _.
      apply (at_snoc _ _ _ (Write to_fd (block_read r)) w) in Hs. cbn [st tr] in Hs |- *.
      destruct (negb _ || _).
      * wp_step. apply (wp_at e x y err); [done|]. intros [] s1 H1. by apply wp_ret.
      * apply IH; [done| |lia]. cbn [tr]. rewrite !length_app. cbn [length].
        replace (length (tr s) + 1 + 1 + 2 * j)%nat with (length (tr s) + 2 * S j)%nat by lia. done.
    + wp_step. apply (wp_at e x y (when _ err)); [done|]. intros [] s1 H1. by apply wp_ret.
Qed.

Lemma skip_line_returns x y j : forall fuel ch s, at_paths x y s ->
  (r_ret (e (length (tr s) + j)%nat Getchar) = NL \/ r_ret (e (length (tr s) + j)%nat Getchar) = EOF) ->
  (j < fuel)%nat -> returns_at x y (skip_line fuel ch) s.
Proof.
  induction j as [|j IH]; intros [|fuel] ch s Hs Hj Hf; try lia; unfold returns_at; cbn [skip_line];
    (destruct ((ch =? NL) || (ch =? EOF)); [by apply wp_ret|]);
    apply wp_bind, wp_call; intros r Er; apply (at_snoc _ _ _ Getchar r) in Hs.
  - rewrite Nat.add_0_r, <- Er in Hj.
    assert ((r_ret r =? NL) || (r_ret r =? EOF) = true) as Hend
      by (destruct Hj as [-> | ->]; reflexivity).
    destruct fuel; cbn [skip_line]; rewrite Hend; by apply wp_ret.
  - apply IH; [done| |lia]. cbn [tr]. rewrite length_app. cbn [length].
    by replace (length (tr s) + 1 + j)%nat with (length (tr s) + S j)%nat by lia.
Qed.

(** Sequencing of steps that return *)
Lemma returns_then {A B} x y (m : cp (option A)) (k : A -> cp (option B)) s :
  returns_at x y m s -> (forall a s', at_paths x y s' -> returns_at x y (k a) s') ->
  returns_at x y (then_cp m k) s.
Proof.
  unfold returns_at. intros Hm Hk. unfold then_cp. apply wp_bind. eapply wp_wand; [exact Hm|].
  intros o s' [[a ->] Hs']. by apply Hk.
Qed.

Lemma returns_bind {A B} x y (m : cp A) `{!Keeps e (at_paths x y) m} (k : A -> cp (option B)) s :
  at_paths x y s -> (forall a s', at_paths x y s' -> returns_at x y (k a) s') ->
  returns_at x y (mbind k m) s.
Proof. intros Hs Hk. apply wp_bind. apply (wp_at e x y m); [done|]. apply Hk. Qed.

Lemma returns_ret {A} x y (a : A) s : at_paths x y s -> returns_at x y (mret (Some a)) s.
Proof. intros Hs. apply wp_ret. by split. Qed.

Ltac returns :=
  repeat lazymatch goal with
    | |- returns_at _ _ (mret (Some _)) _ => apply returns_ret; assumption
    | |- returns_at _ _ (then_cp _ _) _ => apply returns_then; [|intros ? ? ?]
    | |- returns_at _ _ (mbind _ _) _ => apply returns_bind; [apply _ | assumption | intros ? ? ?]
    | |- returns_at _ _ (if ?b then _ else _) _ => destruct b
    | |- returns_at _ _ (match ?o with _ => _ end) _ => destruct o
    end.

Lemma overwrite_returns x y s : at_paths x y s -> returns_at x y (overwrite blocks) s.
Proof.
  intros Hs. unfold overwrite. apply returns_bind; [apply _ | done |]. intros r s1 H1.
  destruct Hinput as [_ Hline]. destruct (Hline (length (tr s1))) as (j & Hj & He).
  apply returns_then; [by eapply (skip_line_returns _ _ j)|]. intros [] s2 H2. by apply returns_ret.
Qed.

Lemma copy_file_returns x y fs dne s : at_paths x y s -> returns_at x y (copy_file blocks fs dne) s.
Proof.
  intros Hs. unfold copy_file, from_path, to_path. returns; [by apply overwrite_returns|].
  destruct Hinput as [Hfile _]. lazymatch goal with |- returns_at _ _ (copy_blocks _ ?fd _) ?s1 =>
    destruct (Hfile (length (tr s1)) fd) as (j & Hj & He) end.
  by eapply (copy_blocks_returns _ _ _ _ j).
Qed.

(** ** The recursion *)

Lemma append_returns x y name s (w : which) : at_paths x y s ->
  trim x -> trim y -> x <> "" -> y <> "" -> proper name ->
  wp (append w name (String.length name)) e s (fun o s' =>
    match o, w with
    | None, _ => at_paths x y s'
    | Some old, From => old = String.length x /\ at_paths (x +:+ String SLASH name) y s'
    | Some old, To => old = String.length y /\ at_paths x (y +:+ String SLASH name) s'
    end).
Proof.
  intros (Hf & Ht & Hu) Tx Ty Nx Ny Hn. unfold append. wp_step. wp_step.
  destruct w; cbn [path_var set_path].
  - pose proof (path_append_spec _ x name Hf Tx Nx Hn) as Hp.
    destruct (path_append (from (st s)) name (String.length name)); [|by apply wp_ret].
    destruct (Hf) as (_ & He & _). rewrite He.
    assert ((String.length x =? 0)%nat = false) as -> by (apply Nat.eqb_neq; by destruct x).
    cbn [when]. wp_go. split_and!; done.
  - pose proof (path_append_spec _ y name Ht Ty Ny Hn) as Hp.
    destruct (path_append (to (st s)) name (String.length name)); [|by apply wp_ret].
    destruct (Ht) as (_ & He & _). rewrite He.
    assert ((String.length y =? 0)%nat = false) as -> by (apply Nat.eqb_neq; by destruct y).
    cbn [when]. wp_go. split_and!; done.
Qed.

Lemma restore_from x y z s : at_paths (x +:+ z) y s ->
  wp (restore From (String.length x)) e s (fun _ s' => at_paths x y s').
Proof. intros (Hf & Ht & Hu). unfold restore. wp_step. split_and!; [by eapply path_restore_spec|done..]. Qed.

Lemma restore_to x y z s : at_paths x (y +:+ z) s ->
  wp (restore To (String.length y)) e s (fun _ s' => at_paths x y s').
Proof. intros (Hf & Ht & Hu). unfold restore. wp_step. split_and!; [done|by eapply path_restore_spec|done]. Qed.
Section Recursion.
Context (x y : string) (rec : cp (option unit)).
Hypothesis (Tx : trim x) (Ty : trim y) (Nx : x <> "") (Ny : y <> "").
Hypothesis Hrec : forall name s, proper name ->
  at_paths (x +:+ String SLASH name) (y +:+ String SLASH name) s ->
  returns_at (x +:+ String SLASH name) (y +:+ String SLASH name) rec s.

Lemma append_to name s : proper name -> at_paths (x +:+ String SLASH name) y s ->
  wp (append To name (String.length name)) e s (fun o s' =>
    match o with
    | None => at_paths (x +:+ String SLASH name) y s'
    | Some old => old = String.length y
        /\ at_paths (x +:+ String SLASH name) (y +:+ String SLASH name) s'
    end).
Proof.
  intros Hn Hs. eapply wp_wand.
  - apply (append_returns (x +:+ String SLASH name) y name s To); try done;
      [apply trim_name; apply Hn | by destruct x].
  - by intros [old|] s' H.
Qed.

Lemma copy_files_returns entries : forall s, Forall proper entries -> at_paths x y s ->
  wp (copy_files rec entries) e s (fun o s' => at_paths x y s' /\
    exists l, o = Some l /\ Forall proper l).
Proof.
  induction entries as [|name entries IH]; intros s Hp Hs; cbn [copy_files].
  { apply wp_ret. split; [done|]. by exists []. }
  apply Forall_cons in Hp as [Hn Hp]. destruct (dot_entry name); [by apply IH|].
  wp_step. eapply wp_wand; [by apply (append_returns x y name s From)|].
  cbn beta. intros [old|] s1 H1; [destruct H1 as [-> H1] | by apply IH].
  wp_step. apply (wp_at e (x +:+ String SLASH name) y stat_from); [done|]. intros r s2 H2.
  destruct (r_ret r <? 0).
  { wp_step. apply (wp_at e (x +:+ String SLASH name) y err); [done|]. intros [] s3 H3.
    wp_step. eapply wp_wand; [by eapply restore_from|]. intros [] s4 H4. by apply IH. }
  destruct (is_type IFDIR (stat_of r)).
  { wp_step. eapply wp_wand; [by eapply restore_from|]. intros [] s3 H3.
    unfold then_cp. wp_step. eapply wp_wand; [by apply IH|]. cbn beta.
    intros o s4 (H4 & l & -> & Hl). apply wp_ret. split; [done|]. exists (name :: l).
    split; [done|]. by constructor. }
  wp_step. eapply wp_wand; [by apply append_to|].
  cbn beta. intros t s3 H3. unfold then_cp at 1. wp_step.
  eapply (wp_wand _ _ _ (fun o s' => o = Some tt /\ at_paths (x +:+ String SLASH name) y s')).
  { destruct t as [old|]; [|by apply wp_ret]. destruct H3 as [-> H3].
    unfold then_cp. wp_step. eapply wp_wand; [by apply Hrec|]. intros o s4 [[[] ->] H4].
    wp_step. eapply wp_wand; [by eapply restore_to|]. intros [] s5 H5. by apply wp_ret. }
  cbn beta. intros o s4 [-> H4]. wp_step.
  eapply wp_wand; [by eapply restore_from|]. intros [] s5 H5. by apply IH.
Qed.

Lemma copy_dirs_returns entries : forall s, Forall proper entries -> at_paths x y s ->
  returns_at x y (copy_dirs rec entries) s.
Proof.
  induction entries as [|name entries IH]; intros s Hp Hs; cbn [copy_dirs].
  { by apply returns_ret. }
  apply Forall_cons in Hp as [Hn Hp]. unfold returns_at.
  wp_step. eapply wp_wand; [by apply (append_returns x y name s From)|].
  cbn beta. intros [old|] s1 H1; [destruct H1 as [-> H1] | by apply IH].
  wp_step. eapply wp_wand; [by apply append_to|].
  cbn beta. intros [old|] s2 H2.
  - destruct H2 as [-> H2]. unfold then_cp. wp_step.
    eapply wp_wand; [by apply Hrec|]. intros o s3 [[[] ->] H3].
    wp_step. eapply wp_wand; [by eapply restore_from|]. intros [] s4 H4.
    wp_step. eapply wp_wand; [by eapply restore_to|]. intros [] s5 H5. by apply IH.
  - wp_step. eapply wp_wand; [by eapply restore_from|]. intros [] s3 H3. by apply IH.
Qed.

Lemma copy_dir_returns s : at_paths x y s -> returns_at x y (copy_dir rec) s.
Proof.
  intros Hs. unfold copy_dir, from_path, returns_at. wp_step. wp_step.
  apply wp_bind, wp_call. intros r Er. pose proof (at_snoc x y s (Scandir (path_text (from (st s)))) r Hs) as Hs'.
  destruct (r_ret r =? -1) eqn:Eb.
  { wp_step. unfold err. wp_step. unfold go_undefined. wp_go. split; [done|].
    destruct Hs as (Hf & Ht & _). split_and!; [done..|]. intros _. by apply blamed_last. }
  unfold then_cp. wp_step. eapply wp_wand; [apply copy_files_returns; [|apply Hs']|].
  { rewrite Er. apply Hnames. }
  cbn beta. intros o s1 (H1 & l & -> & Hl). by apply copy_dirs_returns.
Qed.
End Recursion.

(** What [copy] may assume of the calls below it *)
Definition deeper x y (rec : cp (option unit)) : Prop := forall name s, proper name ->
  at_paths (x +:+ String SLASH name) (y +:+ String SLASH name) s ->
  returns_at (x +:+ String SLASH name) (y +:+ String SLASH name) rec s.

Lemma to_text x y s : at_paths x y s -> path_text (to (st s)) = y.
Proof. intros (_ & Ht & _). by apply holds_text. Qed.

Lemma copy_tree_returns x y rec fs ts dne s : trim x -> trim y -> x <> "" ->
  (y = "" -> dne = true) -> deeper x y rec ->
  at_paths x y s -> returns_at x y (copy_tree rec fs ts dne) s.
Proof.
  intros Tx Ty Nx Hy Hrec Hs. unfold copy_tree.
  apply returns_bind; [apply _ | done|]. intros v s1 H1.
  destruct (negb (rflag v) && negb (orflag v)); [returns|].
  unfold to_path, returns_at. wp_step. wp_step. rewrite (to_text x y s1 H1). wp_step.
  eapply (wp_wand _ _ _ (fun b s' => (b = true -> y <> "") /\ at_paths x y s')).
  { destruct dne.
    - apply wp_bind, wp_call. intros r Er.
      apply (at_snoc _ _ _ (Mkdir y (Z.lor (st_mode fs) S_IRWXU)) r) in H1.
      destruct (Z.ltb_spec (r_ret r) 0) as [|Hr].
      + wp_step. apply (wp_at e x y err); [done|]. intros [] s2 H2. by apply wp_ret.
      + apply wp_ret. split; [|done]. intros _ ->. destruct Hnames as (_ & _ & Hm).
        rewrite Er in Hr. specialize (Hm (length (tr s1)) (Z.lor (st_mode fs) S_IRWXU)). lia.
    - apply wp_ret. split; [|done]. intros _ E. by specialize (Hy E). }
  cbn beta. intros made s2 [Hmade H2]. destruct made; cbn [negb]; [|by apply returns_ret].
  specialize (Hmade eq_refl).
  apply (returns_then x y (copy_dir rec)); [by apply copy_dir_returns|]. intros _ s3 H3.
  apply returns_bind; [destruct (pflag v); [apply _|]; keeps | done|]. intros _ s4 H4.
  by apply returns_ret.
Qed.

Lemma copy_body_returns x y rec s : trim x -> trim y -> deeper x y rec ->
  at_paths x y s -> returns_at x y (copy_body rec blocks) s.
Proof.
  intros Tx Ty Hrec Hs. unfold copy_body, stat_from, from_path, returns_at. do 5 wp_step.
  assert (path_text (from (st s)) = x) as -> by (apply holds_text; apply Hs).
  apply wp_call. intros f Ef. apply (at_snoc _ _ _ (if follow (st s) then Stat x else Lstat x) f) in Hs.
  destruct (Z.eqb_spec (r_ret f) (-1)) as [|Hf].
  { wp_step. apply (wp_at e x y err); [done|]. intros [] s1 H1. by apply wp_ret. }
  assert (x <> "") as Nx.
  { intros ->. destruct Hnames as (_ & Hstat & _). destruct (Hstat (length (tr s))).
    apply Hf. rewrite Ef. by destruct (follow (st s)). }
  unfold to_path. wp_step. wp_step. pose proof (to_text x y _ Hs) as Ey. cbn [st] in Ey.
  rewrite Ey. apply wp_bind, wp_call. intros t Et.
  apply (at_snoc _ _ _ (Stat y) t) in Hs. cbn [st tr] in *.
  assert (y = "" -> (r_ret t =? -1) = true) as Hy.
  { intros ->. destruct Hnames as (_ & Hstat & _). rewrite Et.
    match goal with |- context [e ?k (Stat "")] => destruct (Hstat k) as [-> _] end. done. }
  match goal with |- wp ?m _ ?s1 _ => change (returns_at x y m s1) end. cbv zeta.
  returns; first [by apply copy_tree_returns | by apply copy_file_returns].
Qed.

(** Paths grow by a name and a slash with every level, and they fit in their arrays. *)
Lemma copy_returns depth : forall x y s, trim x -> trim y -> at_paths x y s ->
  (MAXPATHLEN < depth + String.length x)%nat -> returns_at x y (copy depth blocks) s.
Proof.
  induction depth as [|depth IH]; intros x y s Tx Ty Hs Hd; cbn [copy].
  { destruct Hs as (Hf & _). apply holds_fits in Hf. lia. }
  apply copy_body_returns; [done..| |done]. intros name s' Hn Hs'.
  apply IH; [by apply trim_name; apply Hn..|done|].
  rewrite str_length_app. cbn. lia.
Qed.
End Returning.

(** ** The command *)

Lemma trim_tail c x : trim (String c x) -> x <> "" -> trim x.
Proof.
  unfold trim, char_at. intros H Hx. destruct x as [|d x]; [done|]. cbn in *.
  rewrite Nat.sub_0_r. exact H.
Qed.

(** The last part of a path is a name. *)
Lemma last_part_lacks x : forall pre, lacks SLASH pre -> lacks SLASH (last_part x (pre +:+ x)).
Proof.
  induction x as [|c x IH]; intros pre Hp; cbn [last_part]; [by rewrite str_app_nil|].
  destruct (Ascii.eqb_spec c SLASH) as [_|Hc]; [by apply (IH "")|].
  assert (pre +:+ String c x = (pre +:+ String c "") +:+ x) as -> by by rewrite <- str_app_assoc.
  apply IH, lacks_app; [done|]. by apply lacks_cons.
Qed.

Lemma last_part_nul x : forall acc, lacks NUL x -> lacks NUL acc -> lacks NUL (last_part x acc).
Proof.
  induction x as [|c x IH]; intros acc Hx Ha; cbn [last_part]; [done|].
  apply (lacks_prefix _ (String c "") x) in Hx as [_ Hx]. destruct (c =? SLASH)%char; by apply IH.
Qed.

Lemma last_part_nonempty x : forall acc, trim x -> x <> "" -> acc <> "" -> last_part x acc <> "".
Proof.
  induction x as [|c x IH]; intros acc Ht Hx Ha; [done|]. cbn [last_part].
  destruct (decide (x = "")) as [-> |Hne].
  - destruct (Ascii.eqb_spec c SLASH) as [-> |]; [by destruct Ht | done].
  - apply trim_tail in Ht; [|done]. destruct (c =? SLASH)%char; by apply IH.
Qed.

Lemma last_part_length x : forall acc,
  (String.length (last_part x acc) <= Nat.max (String.length x) (String.length acc))%nat.
Proof.
  induction x as [|c x IH]; intros acc; cbn [last_part]; [lia|].
  destruct (c =? SLASH)%char; [specialize (IH x) | specialize (IH acc)]; cbn [String.length]; lia.
Qed.

(** The name of a source: proper, or empty for the root *)
Lemma basename_spec p x : holds p x -> trim x ->
  (x = "" /\ path_basename p = "") \/ (x <> "" /\ proper (path_basename p))
  /\ (String.length (path_basename p) <= String.length x)%nat.
Proof.
  intros Hp Ht. unfold path_basename. rewrite (holds_text p x Hp).
  destruct (decide (x = "")) as [-> |Hne]; [by left|]. right.
  pose proof (last_part_length x x). split; [|lia]. split; [done|].
  destruct Hp as (Hn & _). split_and!.
  - by apply last_part_nonempty.
  - by apply last_part_nul.
  - by apply (last_part_lacks x "").
Qed.

Lemma path_append_fits p name n : (n + p_end p + 1 <= MAXPATHLEN)%nat ->
  is_Some (path_append p name n).
Proof.
  intros H. unfold path_append. rewrite (proj2 (Nat.ltb_ge _ _) H). case_match; eauto.
Qed.

(** Appending the empty name changes nothing. *)
Lemma path_append_empty p x : holds p x -> trim x -> x <> "" -> (String.length x < MAXPATHLEN)%nat ->
  exists p', path_append p "" 0 = Some p' /\ holds p' x.
Proof.
  intros (Hx & Hend & Hlen & tail & E) Ht Hne Hfit. unfold path_append.
  rewrite (proj2 (Nat.ltb_ge _ _)) by lia. rewrite Hend, E in *.
  rewrite str_length_app in Hlen. cbn [String.length] in Hlen.
  rewrite char_at_prefix by (destruct x; [done | cbn; lia]).
  rewrite (proj2 (Ascii.eqb_neq _ _) Ht).
  destruct tail as [|c tail]; [cbn in Hlen; lia|].
  assert (put_at (String.length x) "/" (x +:+ String NUL (String c tail))
    = (x +:+ "/") +:+ String c tail) as ->
    by (rewrite <- str_app_assoc; exact (put_at_here x (String NUL "") "/" (String c tail) eq_refl)).
  assert (String.length x + 1 = String.length (x +:+ "/"))%nat as Hl by by rewrite str_length_app.
  rewrite Hl, put_nul, str_drop_app_len. change (c_str (String NUL tail)) with "".
  cbn [str_take String.append String.length]. rewrite !Nat.add_0_r, !put_nul, <- Hl, Nat.add_1_r.
  cbn [strip_slash]. rewrite <- str_app_assoc. cbn [String.append]. rewrite char_at_app.
  change (("/" =? SLASH)%char) with true. cbv iota. rewrite put_nul, strip_trim by done.
  eexists. split; [done|]. split_and!; [done..| |by eexists].
  cbn [p_path]. rewrite str_length_app. cbn in *. lia.
Qed.

(** A source and the target do not fit in one path: an empty word counts as the name [.] *)
Definition crowds (target w : string) : Prop :=
  (MAXPATHLEN <= Nat.max 1 (String.length w) + Nat.max 1 (String.length target))%nat.

#[export] Instance crowds_dec target w : Decision (crowds target w).
Proof. unfold crowds. apply _. Defined.

(** The sources and the target among the arguments, and the case of a source that is too
    long for the target *)
Definition sources_of (args : list string) : list string := removelast (getopt args).2.
Definition target_of (args : list string) : string := List.last (getopt args).2 "".
Definition crowded (args : list string) : Prop := Exists (crowds (target_of args)) (sources_of args).

Section Command.
Context (e : env cp_call) (blocks depth : nat).
Hypothesis Hinput : finite_input e blocks.
Hypothesis Hnames : posix_names e.
Hypothesis Hdepth : (MAXPATHLEN < depth)%nat.

Definition ends_or {A} (P : Prop) (m : cp (option A)) s : Prop :=
  wp m e s (fun o s' => is_Some o /\ (undefined (st s') = true -> blamed (tr s') \/ P)).

Lemma ends_ret {A} P (a : A) x y s : at_paths x y s -> ends_or P (mret (Some a)) s.
Proof. intros (_ & _ & Hu). apply wp_ret. split; [done|]. auto. Qed.

Lemma set_from x y name s : at_paths x y s -> lacks NUL name ->
  match path_set (from (st s)) name with
  | None => (MAXPATHLEN < String.length name)%nat
  | Some p => exists x', holds p x' /\ trim x'
    /\ (String.length x' <= Nat.max 1 (String.length name))%nat
    /\ at_paths x' y (Sys _ _ (set_path From p (st s)) (tr s))
  end.
Proof.
  intros (Hf & Ht & Hu) Hn. destruct Hf as (_ & _ & Hlen & _).
  pose proof (path_set_spec _ name Hlen Hn) as Hp.
  destruct (path_set (from (st s)) name) as [p|]; [|done].
  destruct Hp as (x' & Hx & Tx & Lx). exists x'. split_and!; [done..|]. by split_and!.
Qed.

(** The name of a source is appended to the target, where there is room. *)
Lemma append_source x y p s : at_paths x y s -> holds p x -> trim x -> trim y -> y <> "" ->
  wp (append To (path_basename p) (String.length (path_basename p))) e s (fun o s' =>
    (o = None /\ (MAXPATHLEN <= String.length x + String.length y)%nat /\ at_paths x y s')
    \/ (o = Some (String.length y) /\ exists z, trim (y +:+ z) /\ at_paths x (y +:+ z) s')).
Proof.
  intros (Hf & Ht & Hu) Hp Tx Ty Ny. unfold append. wp_step. wp_step. cbn [path_var].
  destruct (Ht) as (_ & Hend & _).
  assert ((p_end (to (st s)) =? 0)%nat = false) as Hz
    by (rewrite Hend; apply Nat.eqb_neq; by destruct y).
  set (name := path_basename p). assert (String.length name <= String.length x)%nat as Hl.
  { destruct (basename_spec p x Hp Tx) as [[-> H]|[_ H]]; [|done]. unfold name. rewrite H. cbn. lia. }
  destruct (Nat.le_gt_cases (String.length name + p_end (to (st s)) + 1) MAXPATHLEN) as [Hfit|Hfit].
  2: { assert (path_append (to (st s)) name (String.length name) = None) as ->
         by (unfold path_append; by rewrite (proj2 (Nat.ltb_lt _ _) Hfit)).
       apply wp_ret. left. split_and!; [done|lia|done..]. }
  destruct (basename_spec p x Hp Tx) as [[-> E] | [[Nx Hn] _]]; fold name in E || fold name in Hn.
  - rewrite E in Hfit |- *. cbn [String.length] in *.
    destruct (path_append_empty _ y Ht Ty Ny) as (p' & -> & Hp'); [lia|].
    rewrite Hz. cbn [when]. wp_go. right. rewrite Hend. split; [done|]. exists "".
    rewrite str_app_nil. by split_and!.
  - destruct (path_append_fits _ name _ Hfit) as [p' E].
    pose proof (path_append_spec _ y _ Ht Ty Ny Hn) as Hs. rewrite E in *. rewrite Hz. cbn [when].
    wp_go. right. rewrite Hend. split; [done|]. exists (String SLASH name).
    split; [apply trim_name; apply Hn | by split_and!].
Qed.

(** The loop: while no source was skipped, those that are left stand before the target. *)
Lemma copy_each_ends P target argv : forall argc x y s,
  at_paths x y s -> trim y -> y <> "" -> (String.length y <= Nat.max 1 (String.length target))%nat ->
  Forall (lacks NUL) argv ->
  (~ P -> exists l, argv = l ++ [target] /\ argc = length l /\ l <> [] /\
     Forall (fun w => ~ crowds target w) l) ->
  (P \/ ~ P) -> ends_or P (copy_each depth blocks argv argc) s.
Proof.
  induction argv as [|name argv IH]; intros argc x y s Hs Ty Ny Ly Hargs Hinv HP.
  { destruct HP as [HP|HP]; [|by destruct (Hinv HP) as ([] & ? & _)].
    unfold ends_or. cbn [copy_each]. unfold go_undefined. wp_go. by split; [|right]. }
  apply Forall_cons in Hargs as [Hname Hargs].
  assert (P \/ ~ P /\ ~ crowds target name /\ (argc = 1%nat \/ exists l, argv = l ++ [target] /\
    (argc - 1)%nat = length l /\ l <> [] /\ Forall (fun w => ~ crowds target w) l)) as Hcase.
  { destruct HP as [HP|HP]; [by left|]. right. split; [done|].
    destruct (Hinv HP) as (l & El & -> & Nl & Hl). destruct l as [|w l]; [done|].
    injection El as -> ->. apply Forall_cons in Hl as [Hw Hl]. split; [done|].
    destruct l as [|w' l]; [by left|]. right. exists (w' :: l). cbn. split_and!; [done|lia|done..]. }
  clear Hinv HP. unfold ends_or. cbn [copy_each]. wp_step. wp_step.
  assert (forall s', at_paths x y s' \/ (exists x', at_paths x' y s') -> crowds target name ->
    ends_or P (copy_each depth blocks argv argc) s') as Hskip.
  { intros s' Hs' Hc. destruct Hcase as [HP|(_ & Hc' & _)]; [|done].
    destruct Hs' as [Hs'|[x' Hs']]; (eapply IH; try done; by left). }
  pose proof (set_from x y name s Hs Hname) as Hset.
  destruct (path_set (from (st s)) name) as [p|].
  2: { apply Hskip; [by left|]. unfold crowds. lia. }
  destruct Hset as (x' & Hp & Tx & Lx & Hs1).
  wp_step. wp_step. wp_step. eapply wp_wand; [by eapply (append_source x' y p)|].
  cbn beta. intros o s1 [(-> & Hlong & H1) | (-> & z & Tz & H1)].
  { apply Hskip; [right; by exists x'|]. unfold crowds. lia. }
  unfold then_cp. wp_step.
  eapply wp_wand; [apply (copy_returns e blocks Hinput Hnames depth x' (y +:+ z)); try done; lia|].
  cbn beta. intros o s2 [[[] ->] H2].
  destruct (argc - 1 =? 0)%nat eqn:Ec; [by eapply ends_ret|].
  apply Nat.eqb_neq in Ec. wp_step. eapply wp_wand; [by eapply restore_to|].
  intros [] s3 H3. eapply IH; try done.
  - intros HP. destruct Hcase as [?|(_ & _ & [->|Hl])]; [done..|exact Hl].
  - destruct Hcase as [|[]]; auto.
Qed.

Lemma copy_args_ends x y s sources target : at_paths x y s -> trim y ->
  (String.length y <= Nat.max 1 (String.length target))%nat ->
  Forall (lacks NUL) (sources ++ [target]) -> sources <> [] ->
  ends_or (Exists (crowds target) sources) (copy_args depth blocks sources target) s.
Proof.
  intros Hs Ty Ly Hargs Hne. unfold copy_args, to_path, ends_or. wp_step. wp_step.
  pose proof (to_text x y s Hs) as ->. apply wp_bind, wp_call. intros r Er.
  apply (at_snoc _ _ _ (Stat y) r) in Hs.
  destruct ((r_ret r =? -1) && negb (r_errno r =? 2)).
  { wp_step. unfold err. wp_go. split; [done|]. intros H. left. by apply Hs. }
  destruct ((r_ret r =? -1) || negb (is_type IFDIR (stat_of r))) eqn:Edir.
  - destruct sources as [|source [|]]; [done| |by eapply ends_ret].
    apply Forall_app in Hargs as [Hargs _]. apply Forall_cons in Hargs as [Hsrc _].
    wp_step. wp_step. pose proof (set_from x y source _ Hs Hsrc) as Hset. cbn [st tr] in *.
    destruct (path_set (from (st s)) source) as [p|]; [|by eapply ends_ret].
    destruct Hset as (x' & Hp & Tx & Lx & Hs1).
    wp_step. wp_step. unfold then_cp. wp_step.
    eapply wp_wand; [apply (copy_returns e blocks Hinput Hnames depth x' y); try done; lia|].
    cbn beta. intros o s2 [[[] ->] H2]. wp_go. split; [done|]. intros H. left. by apply H2.
  - assert (y <> "") as Ny.
    { intros ->. apply orb_false_elim in Edir as [Hr _]. apply Z.eqb_neq in Hr.
      destruct Hnames as (_ & Hstat & _). destruct (Hstat (length (tr s))). by rewrite <- Er in *. }
    unfold then_cp. wp_step.
    eapply wp_wand; [eapply (copy_each_ends (Exists (crowds target) sources) target); try done|].
    + intros HP. exists sources. split_and!; [done..|]. by apply Forall_Exists_neg.
    + destruct (decide (Exists (crowds target) sources)); auto.
    + cbn beta. intros o s1 [[[] ->] H1]. wp_go. by split.
Qed.

Lemma options_keep opts : forall b s, at_paths "" "" s ->
  wp (options opts b) e s (fun _ s' => at_paths "" "" s').
Proof.
  induction opts as [|c opts IH]; intros b s Hs; cbn [options]; [by apply wp_ret|].
  repeat case_match; try (by apply IH); try (by apply wp_ret);
    try (wp_step; wp_step; apply IH; exact Hs).
  apply wp_bind, wp_call. intros r _. wp_step. wp_step. apply IH.
  exact (at_snoc "" "" s Isatty r Hs).
Qed.
End Command.

Lemma getopt_words args : Forall (lacks NUL) args -> Forall (lacks NUL) (getopt args).2.
Proof.
  induction args as [|a args IH]; [done|]. intros H. apply Forall_cons in H as [Ha Hargs].
  cbn [getopt]. destruct a as [|d [|c t]]; [by constructor..|].
  destruct (d =? "-")%char; [|by constructor]. destruct (str_eq _ _); [done|].
  destruct (getopt args). by apply IH.
Qed.

Lemma words_split (words : list string) : (2 <= length words)%nat ->
  removelast words ++ [List.last words ""] = words /\ removelast words <> [].
Proof.
  intros H. destruct words as [|a [|b words]]; cbn in H; try lia.
  split; [|done]. symmetry. by apply app_removelast_last.
Qed.

Lemma start_paths : at_paths "" "" (Sys _ _ cp_init []).
Proof.
  assert (holds empty_path "") as H.
  { split_and!; [done..| |by exists (buf_bytes MAXPATHLEN "")]. apply buf_bytes_length. }
  by split_and!.
Qed.


(** A directory that contains itself, without end *)
Definition bottomless : env cp_call := fun _ c =>
  match c with
  | Stat "" | Lstat "" | Mkdir "" _ => answer (-1)
  | Stat (String "t" _) => Resp (-1) 2 "" []
  | Stat _ | Lstat _ => Resp 0 0 "" [IFDIR; 1; 2]
  | Scandir _ => Resp 3 0 "./../s" []
  | Getchar => answer EOF
  | _ => answer 0
  end.

