(* ===== verification/CpTruth.v ===== *)
(** * cp: what an exit status of 0 means

    When [cp] exits with 0, every block that was read has been written in full and nothing
    that it had to create, open or remove failed; with the cases in which the status
    says less than it should. *)

From S2P Require Import Prelude.
From S2P Require Import CString.
From S2P Require Import Cp.
From S2P Require Import CpThms.
From Stdlib Require Import Ascii.

Implicit Types (e : env cp_call) (s : sys cp_call cp_vars) (t : list (cp_call * resp)).

(** ** Traces without a failure *)

Definition failed (c : cp_call) (r : resp) : bool :=
  match c with
  | Open_read _ | Open_trunc _ | Open_create _ _ | Readlink _ _ | Scandir _ => r_ret r =? -1
  | Read _ _ | Mkdir _ _ => r_ret r <? 0
  | Symlink _ _ | Mkfifo _ _ | Mknod _ _ _ | Unlink _ | Utimes _ _ _ => negb (r_ret r =? 0)
  | _ => false
  end.

(** A block that was read is written next, all of it. *)
Definition written (c : cp_call) (r : resp) t : Prop :=
  match c with
  | Read _ _ => 0 < r_ret r ->
      match t with
      | (Write _ bytes, w) :: _ => bytes = block_read r /\ r_ret w = r_ret r
      | _ => False
      end
  | _ => True
  end.

Fixpoint clean t : Prop :=
  match t with
  | [] => True
  | (c, r) :: t => failed c r = false /\ written c r t /\ clean t
  end.

Definition honest s : Prop := exit_val (st s) = 0 -> clean (tr s).

Lemma clean_app t t' : clean t -> clean t' -> clean (t ++ t').
Proof.
  induction t as [|[c r] t IH]; [done|]. cbn. intros (Hf & Hw & Hc) Hc'. split_and!; [done| |by apply IH].
  destruct c; try done. intros H. specialize (Hw H). by destruct t as [|[[] w] t].
Qed.

Definition is_read (c : cp_call) : bool := match c with Read _ _ => true | _ => false end.

Lemma honest_snoc s c r : honest s -> failed c r = false -> is_read c = false ->
  honest (Sys _ _ (st s) (tr s ++ [(c, r)])).
Proof.
  intros Hs Hf Hr Hx. apply clean_app; [by apply Hs|]. cbn. split_and!; [done| |done].
  by destruct c.
Qed.

Section Honest.
Context (e : env cp_call).

(** Calls whose failure is of no consequence *)
Definition harmless (c : cp_call) : bool :=
  match c with
  | Isatty | Getuid | Umask _ | Stat _ | Lstat _ | Fstat _ | Chmod _ _ | Fchmod _ _
  | Chown _ _ _ | Fchown _ _ _ | Close _ | Getchar => true
  | _ => false
  end.

Lemma honest_call c : harmless c = true -> Keeps e honest (call c).
Proof.
  intros Hc. apply keeps_call. intros s r Hs. apply honest_snoc; [done|..]; by destruct c.
Qed.

#[local] Hint Extern 1 (Keeps _ honest (call _)) => (apply honest_call; reflexivity) : typeclass_instances.

#[local] Instance honest_err : Keeps e honest err.
Proof. apply keeps_modify. intros s _ H. discriminate H. Qed.

Lemma wp_honest {A} (m : cp A) `{!Keeps e honest m} s (Q : A -> sys cp_call cp_vars -> Prop) :
  honest s -> (forall a s', honest s' -> Q a s') -> wp m e s Q.
Proof. intros Hs HQ. eapply wp_wand; [exact (wp_keeps e _ m s Hs)|]. auto. Qed.

(** A call that is made, with what happens when it fails *)
Lemma honest_try {A} c (k : resp -> cp A) :
  is_read c = false ->
  (forall r s, (failed c r = false -> honest s) -> wp (k r) e s (fun _ s' => honest s')) ->
  Keeps e honest (mbind k (call c)).
Proof.
  intros Hr Hk s Hs. change (wp (mbind k (call c)) e s (fun _ s' => honest s')).
  apply wp_bind, wp_call. intros r _. apply Hk. intros Hf. by apply honest_snoc.
Qed.

(** After [err] nothing is claimed. *)
Lemma wp_err s (Q : unit -> sys cp_call cp_vars -> Prop) :
  (forall s', honest s' -> Q tt s') -> wp err e s Q.
Proof. intros HQ. unfold err. wp_step. apply HQ. intros H. discriminate H. Qed.

#[local] Instance honest_check c : is_read c = false -> Keeps e honest (check c).
Proof.
  intros Hr. apply honest_try; [done|]. intros r s Hs.
  destruct (Z.eqb_spec (r_ret r) 0) as [E|E]; cbn [negb when].
  - apply wp_ret, Hs. destruct c; cbn in *; rewrite ?E; done.
  - by apply wp_err.
Qed.

#[local] Hint Extern 1 (is_read _ = false) => (repeat case_match; reflexivity) : typeclass_instances.

#[local] Instance honest_setfile fs fd : Keeps e honest (setfile fs fd).
Proof.
  unfold setfile, to_path. destruct (fd =? 0); keeps; apply honest_check; reflexivity.
Qed.

#[local] Instance honest_finish fs fd : Keeps e honest (finish_file fs fd).
Proof. unfold finish_file. keeps; apply honest_check; reflexivity. Qed.
#[local] Instance honest_then {A B} (m : cp (option A)) (k : A -> cp (option B)) :
  Keeps e honest m -> (forall a, Keeps e honest (k a)) -> Keeps e honest (then_cp m k).
Proof. intros. unfold then_cp. keeps. Qed.

(** The loop over the blocks of a file *)
#[local] Instance honest_blocks fuel from_fd to_fd : Keeps e honest (copy_blocks fuel from_fd to_fd).
Proof.
  induction fuel as [|fuel IH]; cbn [copy_blocks]; [keeps|]. intros s Hs.
  match goal with |- honest (?m e s).2 => change (wp m e s (fun _ s' => honest s')) end.
  apply wp_bind, wp_call. intros r _. destruct (Z.ltb_spec 0 (r_ret r)) as [Hr|Hr].
  - apply wp_bind, wp_call. intros w _. cbn [st tr].
    destruct (Z.eqb_spec (r_ret r) (r_ret w)) as [E|E]; cbn [negb orb];
      [|wp_step; apply wp_err; intros s' Hs'; by apply wp_ret].
    destruct (r_ret w =? -1); [wp_step; apply wp_err; intros s' Hs'; by apply wp_ret|].
    apply IH. intros Hx. rewrite <- app_assoc. apply clean_app; [by apply Hs|]. cbn.
    split_and!; try done; lia.
  - wp_step. destruct (Z.ltb_spec (r_ret r) 0) as [Hn|Hn]; cbn [when].
    + apply wp_err. intros s' Hs'. by apply wp_ret.
    + wp_step. apply wp_ret. intros Hx. apply clean_app; [by apply Hs|]. cbn. split_and!; try done; lia.
Qed.

#[local] Instance honest_skip fuel ch : Keeps e honest (skip_line fuel ch).
Proof. revert ch. induction fuel as [|fuel IH]; intros ch; cbn [skip_line]; keeps. Qed.

#[local] Instance honest_overwrite fuel : Keeps e honest (overwrite fuel).
Proof. unfold overwrite. keeps. Qed.

(** The rest of [copy_file] when the target is open *)
Lemma honest_target fuel fs from_fd (c : cp_call) : is_read c = false ->
  (forall r, failed c r = (r_ret r =? -1)) ->
  Keeps e honest (t ← call c;
    if r_ret t =? -1 then err ;; call (Close from_fd) ;; mret (Some tt) else
    _ <~ copy_blocks fuel from_fd (r_ret t);
    finish_file fs (r_ret t) ;; call (Close from_fd) ;; check (Close (r_ret t)) ;; mret (Some tt)).
Proof.
  intros Hc Hf. apply honest_try; [done|]. intros t s Hs. rewrite Hf in Hs.
  destruct (r_ret t =? -1).
  - wp_step. apply wp_err. intros s' Hs'. by wp_go; apply (honest_snoc s' (Close from_fd)).
  - apply (wp_honest _ s); [by apply Hs | done].
Qed.

#[local] Instance honest_file fuel fs dne : Keeps e honest (copy_file fuel fs dne).
Proof.
  unfold copy_file, from_path, to_path. apply keeps_bind; [apply _|]. intros p.
  apply honest_try; [done|]. intros f s Hs. cbn [failed] in Hs.
  destruct (r_ret f =? -1); [wp_step; apply wp_err; intros s' Hs'; by apply wp_ret|].
  specialize (Hs eq_refl).
  match goal with |- wp ?m _ _ _ => assert (Keeps e honest m) as Hk; [|by apply Hk] end.
  apply keeps_bind; [apply _|]. intros interactive. apply keeps_bind; [apply _|]. intros q.
  apply honest_then; [destruct (_ && _); apply _|]. intros []; cbn [negb]; [|keeps].
  by apply honest_target; destruct dne.
Qed.

#[local] Instance honest_clear present : Keeps e honest (clear_target present).
Proof.
  unfold clear_target, to_path. destruct present; [|keeps]. apply keeps_bind; [apply _|]. intros p.
  apply honest_try; [done|]. intros r s Hs. cbn [failed] in Hs.
  destruct (r_ret r =? 0); [apply wp_ret; by apply Hs|].
  wp_step. apply wp_err. intros s' Hs'. by apply wp_ret.
Qed.

#[local] Instance honest_undefined : Keeps e honest go_undefined.
Proof. apply keeps_modify. intros s Hs. exact Hs. Qed.

#[local] Instance honest_link present : Keeps e honest (copy_link present).
Proof.
  unfold copy_link, from_path, to_path. apply keeps_bind; [apply _|]. intros p.
  apply honest_try; [done|]. intros r s Hs. cbn [failed] in Hs.
  destruct (r_ret r =? -1); [by apply wp_err|].
  match goal with |- wp ?m _ _ _ => assert (Keeps e honest m) as Hk; [|by apply Hk, Hs] end.
  keeps; apply honest_check; reflexivity.
Qed.

(** Making a special file *)
Lemma honest_make c fs : is_read c = false -> (forall r, failed c r = negb (r_ret r =? 0)) ->
  Keeps e honest (r ← call c; if negb (r_ret r =? 0) then err else
    pf ← gets pflag; when pf (setfile fs 0)).
Proof.
  intros Hc Hf. apply honest_try; [done|]. intros r s Hs. rewrite Hf in Hs.
  destruct (negb (r_ret r =? 0)); [by apply wp_err|].
  match goal with |- wp ?m _ _ _ => assert (Keeps e honest m) as Hk by keeps end. by apply Hk, Hs.
Qed.

#[local] Instance honest_fifo fs present : Keeps e honest (copy_fifo fs present).
Proof.
  unfold copy_fifo, to_path. apply keeps_bind; [apply _|]. intros []; cbn [negb]; [|keeps].
  apply keeps_bind; [apply _|]. intros q. by apply honest_make.
Qed.

#[local] Instance honest_special fs present : Keeps e honest (copy_special fs present).
Proof.
  unfold copy_special, to_path. apply keeps_bind; [apply _|]. intros []; cbn [negb]; [|keeps].
  apply keeps_bind; [apply _|]. intros q. by apply honest_make.
Qed.

#[local] Instance honest_append w name len : Keeps e honest (append w name len).
Proof.
  unfold append. apply keeps_bind; [apply _|]. intros p. case_match; [|keeps].
  apply keeps_bind; [keeps|]. intros _. apply keeps_bind; [|keeps].
  apply keeps_modify. intros s Hs. by destruct w.
Qed.

#[local] Instance honest_restore w old : Keeps e honest (restore w old).
Proof. apply keeps_modify. intros s Hs. by destruct w. Qed.

#[local] Instance honest_stat_from : Keeps e honest stat_from.
Proof.
  unfold stat_from, from_path. apply keeps_bind; [apply _|]. intros []; keeps.
Qed.

Section Tree.
Context (rec : cp (option unit)) `{!Keeps e honest rec}.

#[local] Instance honest_files entries : Keeps e honest (copy_files rec entries).
Proof. induction entries as [|name entries IH]; cbn [copy_files]; keeps. Qed.

#[local] Instance honest_dirs entries : Keeps e honest (copy_dirs rec entries).
Proof. induction entries as [|name entries IH]; cbn [copy_dirs]; keeps. Qed.

#[local] Instance honest_dir : Keeps e honest (copy_dir rec).
Proof.
  unfold copy_dir, from_path. apply keeps_bind; [apply _|]. intros p.
  apply honest_try; [done|]. intros r s Hs. cbn [failed] in Hs. destruct (r_ret r =? -1).
  - wp_step. apply wp_err. intros s' Hs'. by wp_go.
  - match goal with |- wp ?m _ _ _ => assert (Keeps e honest m) as Hk by keeps end. by apply Hk, Hs.
Qed.

#[local] Instance honest_mkdir q mode : Keeps e honest (r ← call (Mkdir q mode);
  if r_ret r <? 0 then err ;; mret false else mret true).
Proof.
  apply honest_try; [done|]. intros r s Hs. cbn [failed] in Hs. destruct (r_ret r <? 0).
  - wp_step. apply wp_err. intros s' Hs'. by apply wp_ret.
  - apply wp_ret. by apply Hs.
Qed.

#[local] Instance honest_tree fs ts dne : Keeps e honest (copy_tree rec fs ts dne).
Proof.
  unfold copy_tree, to_path. apply keeps_bind; [apply _|]. intros v. case_match; [keeps|].
  apply keeps_bind; [apply _|]. intros q. apply keeps_bind; [destruct dne; apply _|]. intros made.
  destruct made; cbn [negb]; keeps.
Qed.

#[local] Instance honest_body blocks : Keeps e honest (copy_body rec blocks).
Proof. unfold copy_body, to_path. keeps. Qed.
End Tree.

#[local] Instance honest_copy depth blocks : Keeps e honest (copy depth blocks).
Proof. induction depth as [|depth IH]; cbn [copy]; [keeps | by apply honest_body]. Qed.

#[local] Instance honest_options opts b : Keeps e honest (options opts b).
Proof.
  revert b. induction opts as [|c opts IH]; intros b; cbn [options]; [keeps|].
  repeat case_match; keeps; (apply keeps_modify; intros s Hs; exact Hs).
Qed.

#[local] Instance honest_each depth blocks argv : forall argc,
  Keeps e honest (copy_each depth blocks argv argc).
Proof.
  induction argv as [|name argv IH]; intros argc; cbn [copy_each]; [keeps|].
  apply keeps_bind; [apply _|]. intros v. case_match; [|done].
  apply keeps_bind; [apply keeps_modify; intros s Hs; exact Hs|]. intros _. keeps.
Qed.

(** The exit status that [cp_main] ends with is [exit_val]. *)
Lemma exit_honest s : honest s -> wp (x ← gets exit_val; mret (Some x)) e s (fun o s' =>
  o = Some 0 -> clean (tr s')).
Proof. intros Hs. wp_go. intros [= H]. by apply Hs. Qed.

Lemma then_exit (m : cp (option unit)) `{!Keeps e honest m} s : honest s ->
  wp (_ <~ m; x ← gets exit_val; mret (Some x)) e s (fun o s' => o = Some 0 -> clean (tr s')).
Proof.
  intros Hs. unfold then_cp. wp_step. apply (wp_honest m); [done|]. intros [[]|] s' Hs'; [|by apply wp_ret].
  by apply exit_honest.
Qed.

Lemma copy_args_honest depth blocks sources target s : honest s ->
  wp (copy_args depth blocks sources target) e s (fun o s' => o = Some 0 -> clean (tr s')).
Proof.
  intros Hs. unfold copy_args, to_path. wp_step. wp_step. wp_step.
  apply (wp_honest (call _)); [done|]. intros r s1 H1.
  destruct (_ && _); [unfold err; by wp_go|].
  destruct (_ || _); [|by apply (then_exit (copy_each depth blocks (sources ++ [target]) (length sources)))].
  destruct sources as [|source [|]]; [by apply wp_ret| |by apply wp_ret].
  wp_step. wp_step. case_match; [|by apply wp_ret]. wp_step. wp_step.
  by apply (then_exit (copy depth blocks)).
Qed.
End Honest.

(** C8. An exit status of 0 can be trusted: then every block that was read from a source
    was written to its target next and in full, no read failed, and every file, directory,
    link and special file that [cp] set out to open, make or remove was opened, made or
    removed, in every environment. *)
Theorem cp_truthful depth blocks args e :
  wp (cp_main depth blocks args) e (Sys _ _ cp_init []) (fun o s' =>
    o = Some 0 -> clean (tr s')).
Proof.
  unfold cp_main. destruct (getopt args) as [opts words]. wp_step.
  pose proof (honest_options e opts false) as Hk.
  eapply wp_wand; [by apply (wp_keeps e honest (options opts false))|].
  cbn beta. intros [symfollow|] s Hs; [|by apply wp_ret].
  destruct (length words <? 2)%nat; [by apply wp_ret|]. wp_step. wp_step.
  destruct (rflag (st s) && orflag (st s)); [by apply wp_ret|].
  apply wp_bind, wp_call. intros u _. wp_step. wp_step.
  apply wp_bind, wp_call. intros m _. wp_step. wp_step.
  apply wp_bind, wp_call. intros m' _. cbv zeta. cbn [st tr].
  case_match; [|by apply wp_ret]. do 4 wp_step. apply copy_args_honest.
  apply (honest_snoc s Getuid u), (honest_snoc _ (Umask 0) m), (honest_snoc _ (Umask (r_ret m)) m') in Hs;
    [exact Hs|done..].
Qed.

(** ** On concrete commands *)

Definition regular : Z := 33188.  (* S_IFREG | 0644 *)

(** A file [a] of one block is copied to [b], which does not exist. *)
Definition demo_cp : env cp_call := fun k c =>
  match c with
  | Stat "a" => Resp 0 0 "" [regular; 1; 2]
  | Stat _ => Resp (-1) 2 "" []
  | Open_read _ => answer 3
  | Open_create _ _ => answer 4
  | Read _ _ => if (k <? 9)%nat then Resp 5 0 "hello" [] else answer 0
  | Write _ b => answer (strlen b)
  | _ => answer 0
  end.

Lemma cp_truthful_witness :
  (cp_main 5 5 ["a"; "b"] demo_cp (Sys _ _ cp_init [])).1 = Some 0
  /\ calls (cp_main 5 5 ["a"; "b"] demo_cp (Sys _ _ cp_init [])).2
     = [Getuid; Umask 0; Umask 0; Stat "b"; Stat "a"; Stat "b"; Open_read "a";
        Open_create "b" regular; Read 3 MAXBSIZE; Write 4 "hello"; Read 3 MAXBSIZE;
        Close 3; Close 4]
  /\ clean (tr (cp_main 5 5 ["a"; "b"] demo_cp (Sys _ _ cp_init [])).2).
Proof.
  split; [vm_compute; reflexivity|]. split.
  - vm_compute. reflexivity.
  - apply (cp_truthful 5 5 ["a"; "b"] demo_cp). vm_compute. reflexivity.
Defined.

(** ** What the status does not tell *)

(** A directory is not copied over a file, and the status is 0 all the same. *)
Definition dir_over_file : env cp_call := fun _ c =>
  match c with
  | Stat "d" | Lstat "d" => Resp 0 0 "" [IFDIR; 1; 2]
  | Stat "f" => Resp 0 0 "" [regular; 1; 3]
  | _ => answer 0
  end.

Theorem dir_over_file_silent :
  let '(o, s) := cp_main 5 5 ["-R"; "d"; "f"] dir_over_file (Sys _ _ cp_init []) in
  o = Some 0 /\ calls s = [Getuid; Umask 0; Umask 0; Stat "f"; Lstat "d"; Stat "f"].
Proof. vm_compute. split; reflexivity. Qed.

(** A source whose name is too long is skipped without being counted, so that the target is
    copied into itself in its place; a second one makes the loop read the NULL behind
    the target. *)
Theorem long_name_skipped depth blocks name target e s :
  (MAXPATHLEN < String.length name)%nat ->
  copy_each depth blocks [name; target] 1 e s = copy_each depth blocks [target] 1 e s.
Proof.
  intros H. cbn [copy_each]. unfold mbind at 1, prog_bind at 1, gets at 1.
  unfold path_set at 1. by rewrite (proj2 (Nat.ltb_lt _ _) H).
Qed.

(** The root directory as a name becomes the empty string. *)
Theorem root_is_empty : exists p, path_set empty_path "/" = Some p /\ path_text p = "".
Proof. eexists. split; vm_compute; reflexivity. Qed.
