(* ===== verification/Md5.v ===== *)
(** * [md5sum] of [motobox] ([src/motobox/md5sum.c])

    The context of a digest, [MD5Init], [MD5Update], [MD5Final] and [Transform]
    as functions on it, and the command with its calls of the C library.  The
    type [UINT4] is [unsigned long], 32 bits wide on the OMAP4: every sum wraps
    at 2^32.  An array is a list; an index that leaves it is kept in mind in
    [ctx_overrun], which is not part of the struct. *)

From S2P Require Import Prelude.
From S2P Require Import CString.
From Stdlib Require Import Ascii.

(** ** Words *)

(** [~x], [x << n] and [x >> n] on [UINT4] *)
Definition not32 (x : Z) : Z := u32 (Z.lnot x).
Definition shl32 (x n : Z) : Z := u32 (Z.shiftl x n).
Definition shr32 (x n : Z) : Z := Z.shiftr x n.

Definition F (x y z : Z) : Z := Z.lor (Z.land x y) (Z.land (not32 x) z).
Definition G (x y z : Z) : Z := Z.lor (Z.land x z) (Z.land y (not32 z)).
Definition H (x y z : Z) : Z := Z.lxor (Z.lxor x y) z.
Definition I (x y z : Z) : Z := Z.lxor y (Z.lor x (not32 z)).

Definition ROTATE_LEFT (x n : Z) : Z := Z.lor (shl32 x n) (shr32 x (32 - n)).

(** The macros [FF] to [II] give the new value of their first argument. *)
Definition FF (a b c d x s ac : Z) : Z :=
  u32 (ROTATE_LEFT (u32 (a + (F b c d + x + ac))) s + b).
Definition GG (a b c d x s ac : Z) : Z :=
  u32 (ROTATE_LEFT (u32 (a + (G b c d + x + ac))) s + b).
Definition HH (a b c d x s ac : Z) : Z :=
  u32 (ROTATE_LEFT (u32 (a + (H b c d + x + ac))) s + b).
Definition II (a b c d x s ac : Z) : Z :=
  u32 (ROTATE_LEFT (u32 (a + (I b c d + x + ac))) s + b).

Definition S11 : Z := 7.
Definition S12 : Z := 12.
Definition S13 : Z := 17.
Definition S14 : Z := 22.
Definition S21 : Z := 5.
Definition S22 : Z := 9.
Definition S23 : Z := 14.
Definition S24 : Z := 20.
Definition S31 : Z := 4.
Definition S32 : Z := 11.
Definition S33 : Z := 16.
Definition S34 : Z := 23.
Definition S41 : Z := 6.
Definition S42 : Z := 10.
Definition S43 : Z := 15.
Definition S44 : Z := 21.

(** ** The context *)

(** [buf[4]] *)
Record words := Words { w0 : Z; w1 : Z; w2 : Z; w3 : Z }.

Record MD5_CTX := Ctx {
  ctx_i0 : Z;                  (* number of bits handled, low word *)
  ctx_i1 : Z;                  (* and high word *)
  ctx_buf : words;             (* scratch buffer *)
  ctx_in : list Z;             (* input buffer, 64 bytes *)
  ctx_digest : list Z;         (* digest after MD5Final, 16 bytes *)
  ctx_overrun : bool }.        (* an access was outside of an array *)

#[export] Instance eta_ctx : Eta MD5_CTX := fun c =>
  Ctx (ctx_i0 c) (ctx_i1 c) (ctx_buf c) (ctx_in c) (ctx_digest c) (ctx_overrun c).

(** The access [mdContext->in[k]] *)
Definition touch (k : nat) (c : MD5_CTX) : MD5_CTX :=
  c <| ctx_overrun := ctx_overrun c || (length (ctx_in c) <=? k)%nat |>.

Definition PADDING : list Z := 128 :: replicate 63 0.

Definition MD5Init (mdContext : MD5_CTX) : MD5_CTX :=
  mdContext <| ctx_i0 := 0 |> <| ctx_i1 := 0 |>
    <| ctx_buf := Words 0x67452301 0xefcdab89 0x98badcfe 0x10325476 |>.

(** Element [k] of an array; out of range has no value in C. *)
Definition elem (l : list Z) (k : nat) : Z := default 0 (l !! k).

(** The local variables [a] to [d] of [Transform], held like [buf], and one line
    of its body: a macro, its four variables, a word of the input, a rotation and
    a constant. *)
Inductive reg := ra | rb | rc | rd.

Definition get (r : reg) (q : words) : Z :=
  match r with ra => w0 q | rb => w1 q | rc => w2 q | rd => w3 q end.

Definition set (r : reg) (v : Z) (q : words) : words :=
  match r with
  | ra => Words v (w1 q) (w2 q) (w3 q)
  | rb => Words (w0 q) v (w2 q) (w3 q)
  | rc => Words (w0 q) (w1 q) v (w3 q)
  | rd => Words (w0 q) (w1 q) (w2 q) v
  end.

Record line := Step {
  l_macro : Z -> Z -> Z -> Z -> Z -> Z -> Z -> Z;
  l_a : reg; l_b : reg; l_c : reg; l_d : reg;
  l_k : nat; l_s : Z; l_ac : Z }.

Definition run_line (inw : list Z) (q : words) (l : line) : words :=
  set (l_a l)
    (l_macro l (get (l_a l) q) (get (l_b l) q) (get (l_c l) q) (get (l_d l) q)
       (elem inw (l_k l)) (l_s l) (l_ac l)) q.

Definition transform_lines : list line :=
  [Step FF ra rb rc rd 0 S11 3614090360;
   Step FF rd ra rb rc 1 S12 3905402710;
   Step FF rc rd ra rb 2 S13 606105819;
   Step FF rb rc rd ra 3 S14 3250441966;
   Step FF ra rb rc rd 4 S11 4118548399;
   Step FF rd ra rb rc 5 S12 1200080426;
   Step FF rc rd ra rb 6 S13 2821735955;
   Step FF rb rc rd ra 7 S14 4249261313;
   Step FF ra rb rc rd 8 S11 1770035416;
   Step FF rd ra rb rc 9 S12 2336552879;
   Step FF rc rd ra rb 10 S13 4294925233;
   Step FF rb rc rd ra 11 S14 2304563134;
   Step FF ra rb rc rd 12 S11 1804603682;
   Step FF rd ra rb rc 13 S12 4254626195;
   Step FF rc rd ra rb 14 S13 2792965006;
   Step FF rb rc rd ra 15 S14 1236535329;
   Step GG ra rb rc rd 1 S21 4129170786;
   Step GG rd ra rb rc 6 S22 3225465664;
   Step GG rc rd ra rb 11 S23 643717713;
   Step GG rb rc rd ra 0 S24 3921069994;
   Step GG ra rb rc rd 5 S21 3593408605;
   Step GG rd ra rb rc 10 S22 38016083;
   Step GG rc rd ra rb 15 S23 3634488961;
   Step GG rb rc rd ra 4 S24 3889429448;
   Step GG ra rb rc rd 9 S21 568446438;
   Step GG rd ra rb rc 14 S22 3275163606;
   Step GG rc rd ra rb 3 S23 4107603335;
   Step GG rb rc rd ra 8 S24 1163531501;
   Step GG ra rb rc rd 13 S21 2850285829;
   Step GG rd ra rb rc 2 S22 4243563512;
   Step GG rc rd ra rb 7 S23 1735328473;
   Step GG rb rc rd ra 12 S24 2368359562;
   Step HH ra rb rc rd 5 S31 4294588738;
   Step HH rd ra rb rc 8 S32 2272392833;
   Step HH rc rd ra rb 11 S33 1839030562;
   Step HH rb rc rd ra 14 S34 4259657740;
   Step HH ra rb rc rd 1 S31 2763975236;
   Step HH rd ra rb rc 4 S32 1272893353;
   Step HH rc rd ra rb 7 S33 4139469664;
   Step HH rb rc rd ra 10 S34 3200236656;
   Step HH ra rb rc rd 13 S31 681279174;
   Step HH rd ra rb rc 0 S32 3936430074;
   Step HH rc rd ra rb 3 S33 3572445317;
   Step HH rb rc rd ra 6 S34 76029189;
   Step HH ra rb rc rd 9 S31 3654602809;
   Step HH rd ra rb rc 12 S32 3873151461;
   Step HH rc rd ra rb 15 S33 530742520;
   Step HH rb rc rd ra 2 S34 3299628645;
   Step II ra rb rc rd 0 S41 4096336452;
   Step II rd ra rb rc 7 S42 1126891415;
   Step II rc rd ra rb 14 S43 2878612391;
   Step II rb rc rd ra 5 S44 4237533241;
   Step II ra rb rc rd 12 S41 1700485571;
   Step II rd ra rb rc 3 S42 2399980690;
   Step II rc rd ra rb 10 S43 4293915773;
   Step II rb rc rd ra 1 S44 2240044497;
   Step II ra rb rc rd 8 S41 1873313359;
   Step II rd ra rb rc 15 S42 4264355552;
   Step II rc rd ra rb 6 S43 2734768916;
   Step II rb rc rd ra 13 S44 1309151649;
   Step II ra rb rc rd 4 S41 4149444226;
   Step II rd ra rb rc 11 S42 3174756917;
   Step II rc rd ra rb 2 S43 718787259;
   Step II rb rc rd ra 9 S44 3951481745].

(** [Transform (buf, in)] *)
Definition Transform (buf : words) (inw : list Z) : words :=
  let q := foldl (run_line inw) buf transform_lines in
  Words (u32 (w0 buf + w0 q)) (u32 (w1 buf + w1 q)) (u32 (w2 buf + w2 q))
        (u32 (w3 buf + w3 q)).

(** [in[i]] out of bytes [4 i .. 4 i + 3] of the input buffer *)
Definition in_word (bytes : list Z) (i : nat) : Z :=
  let ii := (4 * i)%nat in
  Z.lor (Z.lor (Z.lor (shl32 (elem bytes (ii + 3)) 24) (shl32 (elem bytes (ii + 2)) 16))
               (shl32 (elem bytes (ii + 1)) 8))
        (elem bytes ii).

Definition in_words (n : nat) (bytes : list Z) : list Z := in_word bytes <$> seq 0 n.

(** The loop of [MD5Update] over the input, with its local [mdi]. *)
Fixpoint update_loop (c : MD5_CTX) (mdi : nat) (inBuf : list Z) : MD5_CTX :=
  match inBuf with
  | [] => c
  | b :: inBuf =>
      let c := (touch mdi c) <| ctx_in := <[mdi := b]> (ctx_in c) |> in
      let mdi := S mdi in
      if (mdi =? 64)%nat then
        let c := touch (4 * 15 + 3) c in
        update_loop (c <| ctx_buf := Transform (ctx_buf c) (in_words 16 (ctx_in c)) |>)
          0 inBuf
      else update_loop c mdi inBuf
  end.

(** The number of bytes in the input buffer. *)
Definition mdi_of (c : MD5_CTX) : nat := Z.to_nat (Z.land (shr32 (ctx_i0 c) 3) 63).

(** [MD5Update (mdContext, inBuf, inLen)]: [inBuf] is the list of the [inLen]
    bytes. *)
Definition MD5Update (c : MD5_CTX) (inBuf : list Z) : MD5_CTX :=
  let inLen := Z.of_nat (length inBuf) in
  let mdi := mdi_of c in
  let c := if u32 (ctx_i0 c + shl32 inLen 3) <? ctx_i0 c
           then c <| ctx_i1 := u32 (ctx_i1 c + 1) |> else c in
  let c := c <| ctx_i0 := u32 (ctx_i0 c + shl32 inLen 3) |> in
  let c := c <| ctx_i1 := u32 (ctx_i1 c + shr32 inLen 29) |> in
  update_loop c mdi inBuf.

(** The bytes of one word of the digest *)
Definition word_bytes (w : Z) : list Z :=
  [Z.land w 255; Z.land (shr32 w 8) 255; Z.land (shr32 w 16) 255; Z.land (shr32 w 24) 255].

Definition MD5Final (c : MD5_CTX) : MD5_CTX :=
  let in14 := ctx_i0 c in
  let in15 := ctx_i1 c in
  let mdi := mdi_of c in
  let padLen := if (mdi <? 56)%nat then (56 - mdi)%nat else (120 - mdi)%nat in
  let c := MD5Update c (take padLen PADDING) in
  let c := c <| ctx_overrun := ctx_overrun c || (length PADDING <? padLen)%nat |> in
  let c := touch (4 * 13 + 3) c in
  let c := c <| ctx_buf :=
    Transform (ctx_buf c) (in_words 14 (ctx_in c) ++ [in14; in15]) |> in
  c <| ctx_digest :=
    word_bytes (w0 (ctx_buf c)) ++ word_bytes (w1 (ctx_buf c))
    ++ word_bytes (w2 (ctx_buf c)) ++ word_bytes (w3 (ctx_buf c)) |>.

(** ** The command *)

Inductive md5_call :=
  | Fopen (path : string)      (* answers 0 for NULL *)
  | Fread (file size : Z)      (* answers the number of bytes *)
  | Fclose (file : Z)
  | Printf (text : string)
  | Time.

(** The command has no variables of its own. *)
Abbreviation md5 A := (prog md5_call unit A).

(** A loop that reads can be continued for ever by its input; the time trial
    divides by the number of seconds that went by. *)
Inductive md5_outcome := Returned | NoFuel | DividedByZero.

Definition hex_digit (n : Z) : ascii :=
  default "0"%char (String.get (Z.to_nat n) "0123456789abcdef").

(** [printf ("%02x", b)] *)
Definition hex2 (b : Z) : string :=
  String (hex_digit (b / 16)) (String (hex_digit (b mod 16)) "").

Definition MDPrint (c : MD5_CTX) : md5 unit :=
  for_each (ctx_digest c) (fun b => call (Printf (hex2 b)) ;; mret tt).

(** The text of a [%ld] *)
Definition ld (n : Z) : string := pretty n.

Definition TEST_BLOCK_SIZE : nat := 1000.
Definition TEST_BLOCKS : nat := Z.to_nat 10000.
Definition TEST_BYTES : Z := 10000000.

(** [blocks] and the context left on the stack are arguments so that the
    routine can be run on fewer blocks. *)
Definition time_trial (blocks : nat) (mdContext : MD5_CTX) : md5 md5_outcome :=
  let data := (fun i => Z.land (Z.of_nat i) 255) <$> seq 0 TEST_BLOCK_SIZE in
  call (Printf ("MD5 time trial. Processing " +:+ ld TEST_BYTES +:+ " characters..."
                +:+ newline)) ;;
  t0 ← call Time;
  let c := Nat.iter blocks (fun c => MD5Update c data) (MD5Init mdContext) in
  let c := MD5Final c in
  t1 ← call Time;
  MDPrint c ;;
  let seconds := r_ret t1 - r_ret t0 in
  call (Printf (" is digest of test input." +:+ newline)) ;;
  call (Printf ("Seconds to process test input: " +:+ ld seconds +:+ newline)) ;;
  if seconds =? 0 then mret DividedByZero
  else
    call (Printf ("Characters processed per second: " +:+ ld (Z.quot TEST_BYTES seconds)
                  +:+ newline)) ;;
    mret Returned.

Definition MDTimeTrial (mdContext : MD5_CTX) : md5 md5_outcome :=
  time_trial TEST_BLOCKS mdContext.

Definition quote : string := String "034" "".

Definition MDString (mdContext : MD5_CTX) (inString : string) : md5 unit :=
  let c := MD5Init mdContext in
  let c := MD5Update c (byte_list inString) in
  let c := MD5Final c in
  MDPrint c ;;
  call (Printf (" " +:+ quote +:+ inString +:+ quote +:+ newline +:+ newline)) ;;
  mret tt.

(** [while ((bytes = fread (data, 1, size, file)) != 0) MD5Update (..)]; [None]
    without fuel. *)
Fixpoint read_loop (fuel : nat) (file size : Z) (c : MD5_CTX) : md5 (option MD5_CTX) :=
  match fuel with
  | O => mret None
  | S fuel =>
      r ← call (Fread file size);
      if r_ret r =? 0 then mret (Some c)
      else read_loop fuel file size (MD5Update c (byte_list (received size r)))
  end.

Definition MDFile (fuel : nat) (mdContext : MD5_CTX) (filename : string) : md5 md5_outcome :=
  inFile ← call (Fopen filename);
  if r_ret inFile =? 0 then
    call (Printf (filename +:+ " can't be opened." +:+ newline)) ;; mret Returned
  else
    o ← read_loop fuel (r_ret inFile) 1024 (MD5Init mdContext);
    match o with
    | None => mret NoFuel
    | Some c =>
        MDPrint (MD5Final c) ;;
        call (Printf (" " +:+ filename +:+ newline)) ;;
        call (Fclose (r_ret inFile)) ;;
        mret Returned
    end.

Definition stdin : Z := 1.

Definition MDFilter (fuel : nat) (mdContext : MD5_CTX) : md5 md5_outcome :=
  o ← read_loop fuel stdin 16 (MD5Init mdContext);
  match o with
  | None => mret NoFuel
  | Some c => MDPrint (MD5Final c) ;; call (Printf newline) ;; mret Returned
  end.

Definition test_strings : list string :=
  [""; "a"; "abc"; "message digest"; "abcdefghijklmnopqrstuvwxyz";
   "ABCDEFGHIJKLMNOPQRSTUVWXYZabcdefghijklmnopqrstuvwxyz0123456789";
   "12345678901234567890123456789012345678901234567890123456789012345678901234567890"].

Definition MDTestSuite (fuel : nat) (mdContext : MD5_CTX) : md5 md5_outcome :=
  call (Printf ("MD5 test suite results:" +:+ newline +:+ newline)) ;;
  for_each test_strings (MDString mdContext) ;;
  MDFile fuel mdContext "foo".

(** One argument of the command line *)
Definition md5_arg (fuel : nat) (mdContext : MD5_CTX) (arg : string) : md5 md5_outcome :=
  if (char_at arg 0 =? "-")%char && (char_at arg 1 =? "s")%char then
    MDString mdContext (str_drop 2 arg) ;; mret Returned
  else if str_eq arg "-t" then MDTimeTrial mdContext
  else if str_eq arg "-x" then MDTestSuite fuel mdContext
  else MDFile fuel mdContext arg.

Fixpoint md5_args (fuel : nat) (mdContext : MD5_CTX) (args : list string) : md5 md5_outcome :=
  match args with
  | [] => mret Returned
  | arg :: args =>
      o ← md5_arg fuel mdContext arg;
      match o with Returned => md5_args fuel mdContext args | o => mret o end
  end.

(** [md5sum_main] with the arguments after the name of the command *)
Definition md5sum_main (fuel : nat) (mdContext : MD5_CTX) (args : list string) : md5 md5_outcome :=
  match args with
  | [] => MDFilter fuel mdContext
  | args => md5_args fuel mdContext args
  end.
