(* ===== verification/Md5Thms.v ===== *)
(** * The digest of [md5sum] is MD5

    RFC 1321 as a reference definition: the message is padded as a whole, cut
    into blocks, and folded with a loop of 64 steps over a table.  The code
    keeps 64 bytes and two counters, takes the message in pieces of any size and
    unrolls the steps.  The theorems show that both compute the same digest. *)

From S2P Require Import Prelude.
From S2P Require Import CString.
From S2P Require Import Md5.
From Stdlib Require Import Ascii.

(** ** The reference *)

Definition rfc_T : list Z :=
  [0xd76aa478; 0xe8c7b756; 0x242070db; 0xc1bdceee;
   0xf57c0faf; 0x4787c62a; 0xa8304613; 0xfd469501;
   0x698098d8; 0x8b44f7af; 0xffff5bb1; 0x895cd7be;
   0x6b901122; 0xfd987193; 0xa679438e; 0x49b40821;
   0xf61e2562; 0xc040b340; 0x265e5a51; 0xe9b6c7aa;
   0xd62f105d; 0x02441453; 0xd8a1e681; 0xe7d3fbc8;
   0x21e1cde6; 0xc33707d6; 0xf4d50d87; 0x455a14ed;
   0xa9e3e905; 0xfcefa3f8; 0x676f02d9; 0x8d2a4c8a;
   0xfffa3942; 0x8771f681; 0x6d9d6122; 0xfde5380c;
   0xa4beea44; 0x4bdecfa9; 0xf6bb4b60; 0xbebfbc70;
   0x289b7ec6; 0xeaa127fa; 0xd4ef3085; 0x04881d05;
   0xd9d4d039; 0xe6db99e5; 0x1fa27cf8; 0xc4ac5665;
   0xf4292244; 0x432aff97; 0xab9423a7; 0xfc93a039;
   0x655b59c3; 0x8f0ccc92; 0xffeff47d; 0x85845dd1;
   0x6fa87e4f; 0xfe2ce6e0; 0xa3014314; 0x4e0811a1;
   0xf7537e82; 0xbd3af235; 0x2ad7d2bb; 0xeb86d391].

Definition rfc_shift : list Z :=
  [7; 12; 17; 22; 5; 9; 14; 20; 4; 11; 16; 23; 6; 10; 15; 21].

(** The function, the word and the rotation of step [i]; a round has 16 steps. *)
Definition rfc_fun (i : nat) (x y z : Z) : Z :=
  match (i / 16)%nat with
  | 0%nat => Z.lor (Z.land x y) (Z.land (Z.lnot x) z)
  | 1%nat => Z.lor (Z.land x z) (Z.land y (Z.lnot z))
  | 2%nat => Z.lxor x (Z.lxor y z)
  | _ => Z.lxor y (Z.lor x (Z.lnot z))
  end.

Definition rfc_index (i : nat) : nat :=
  match (i / 16)%nat with
  | 0%nat => i
  | 1%nat => (5 * i + 1) mod 16
  | 2%nat => (3 * i + 5) mod 16
  | _ => (7 * i) mod 16
  end.

(** Rotation of a 32-bit word by arithmetic *)
Definition rotl (x s : Z) : Z := (x * 2 ^ s) mod 2 ^ 32 + x / 2 ^ (32 - s).

Definition rfc_step (m : list Z) (q : words) (i : nat) : words :=
  Words (w3 q)
    ((w1 q + rotl ((w0 q + rfc_fun i (w1 q) (w2 q) (w3 q) + elem m (rfc_index i)
                    + elem rfc_T i) mod 2 ^ 32)
                  (elem rfc_shift (4 * (i / 16) + i mod 4))) mod 2 ^ 32)
    (w1 q) (w2 q).

Definition rfc_compress (q : words) (m : list Z) : words :=
  let r := foldl (rfc_step m) q (seq 0 64) in
  Words ((w0 q + w0 r) mod 2 ^ 32) ((w1 q + w1 r) mod 2 ^ 32)
        ((w2 q + w2 r) mod 2 ^ 32) ((w3 q + w3 r) mod 2 ^ 32).

(** Little-endian bytes and words *)
Fixpoint le_bytes (n : nat) (x : Z) : list Z :=
  match n with O => [] | S n => x mod 256 :: le_bytes n (x / 256) end.

Fixpoint le_words (n : nat) (l : list Z) : list Z :=
  match n, l with
  | S n, a :: b :: c :: d :: l =>
      a + 2 ^ 8 * b + 2 ^ 16 * c + 2 ^ 24 * d :: le_words n l
  | _, _ => []
  end.

Definition rfc_pad (msg : list Z) : list Z :=
  let n := Z.of_nat (length msg) in
  msg ++ 128 :: replicate (Z.to_nat ((55 - n) mod 64)) 0
      ++ le_bytes 8 ((8 * n) mod 2 ^ 64).

Fixpoint blocks (k : nat) (l : list Z) : list (list Z) :=
  match k with O => [] | S k => take 64 l :: blocks k (drop 64 l) end.

Definition rfc_start : words := Words 0x67452301 0xefcdab89 0x98badcfe 0x10325476.

Definition rfc_fold (q : words) (bs : list (list Z)) : words :=
  foldl (fun q b => rfc_compress q (le_words 16 b)) q bs.

Definition rfc_md5 (msg : list Z) : list Z :=
  let padded := rfc_pad msg in
  let q := rfc_fold rfc_start (blocks (length padded / 64) padded) in
  le_bytes 4 (w0 q) ++ le_bytes 4 (w1 q) ++ le_bytes 4 (w2 q) ++ le_bytes 4 (w3 q).

Definition is_byte (b : Z) : Prop := 0 <= b < 256.

(** ** Words *)

Lemma u32_pow x : u32 x = x mod 2 ^ 32.
Proof. done. Qed.

Lemma u32_bits x i : Z.testbit (u32 x) i = (i <? 32) && Z.testbit x i.
Proof.
  rewrite u32_pow. destruct (Z.ltb_spec i 32).
  - destruct (Z.ltb_spec i 0); [by rewrite !Z.testbit_neg_r by done|].
    by rewrite Z.mod_pow2_bits_low by done.
  - by rewrite Z.mod_pow2_bits_high by lia.
Qed.

(** Equality of words bit by bit *)
Ltac bitwise :=
  let i := fresh "i" in let Hi := fresh "Hi" in
  apply Z.bits_inj'; intros i Hi; unfold not32;
  repeat (rewrite u32_bits || rewrite Z.lor_spec || rewrite Z.land_spec
          || rewrite Z.lxor_spec || rewrite Z.lnot_spec by done);
  repeat match goal with |- context [Z.testbit ?x i] => destruct (Z.testbit x i) end;
  destruct (i <? 32); reflexivity.

Lemma F_rfc x y z : u32 (F x y z) = u32 (Z.lor (Z.land x y) (Z.land (Z.lnot x) z)).
Proof. unfold F. bitwise. Qed.

Lemma G_rfc x y z : u32 (G x y z) = u32 (Z.lor (Z.land x z) (Z.land y (Z.lnot z))).
Proof. unfold G. bitwise. Qed.

Lemma H_rfc x y z : u32 (H x y z) = u32 (Z.lxor x (Z.lxor y z)).
Proof. unfold H. bitwise. Qed.

Lemma I_rfc x y z : u32 (I x y z) = u32 (Z.lxor y (Z.lor x (Z.lnot z))).
Proof. unfold I. bitwise. Qed.

(** Bits that do not overlap are added. *)
Lemma lor_add x y n : 0 <= n -> 0 <= x < 2 ^ n -> Z.lor (y * 2 ^ n) x = y * 2 ^ n + x.
Proof.
  intros Hn Hx. symmetry. apply Z.add_nocarry_lor. apply Z.bits_inj'. intros i Hi.
  rewrite Z.land_spec, Z.bits_0. destruct (Z.ltb_spec i n).
  - by rewrite Z.mul_pow2_bits_low by lia.
  - rewrite <- (Z.mod_small x (2 ^ n)) by done.
    by rewrite (Z.mod_pow2_bits_high x) by lia; rewrite andb_false_r.
Qed.

Lemma rotate_rotl x s : 0 < s < 32 -> 0 <= x < 2 ^ 32 -> ROTATE_LEFT x s = rotl x s.
Proof.
  intros Hs Hx. unfold ROTATE_LEFT, rotl, shl32, shr32.
  rewrite u32_pow, Z.shiftl_mul_pow2, Z.shiftr_div_pow2 by lia.
  assert (2 ^ 32 = 2 ^ (32 - s) * 2 ^ s) as E by (rewrite <- Z.pow_add_r by lia; f_equal; lia).
  assert (0 < 2 ^ s) by (apply Z.pow_pos_nonneg; lia).
  assert (0 < 2 ^ (32 - s)) by (apply Z.pow_pos_nonneg; lia).
  rewrite E, Z.mul_mod_distr_r by lia. apply lor_add; [lia|].
  split; [apply Z.div_pos; lia|]. apply Z.div_lt_upper_bound; lia.
Qed.

Lemma u32_idemp_sum a f f' x ac :
  u32 f = u32 f' -> u32 (a + (f + x + ac)) = (a + f' + x + ac) mod 2 ^ 32.
Proof.
  rewrite !u32_pow. intros E.
  replace (a + (f + x + ac)) with (f + (a + x + ac)) by lia.
  replace (a + f' + x + ac) with (f' + (a + x + ac)) by lia.
  by rewrite <- (Zplus_mod_idemp_l f), E, Zplus_mod_idemp_l.
Qed.

(** One step of the code against one step of the reference; [op] is [F] to [I]. *)
Lemma step_rfc (f g : Z) a b x s ac :
  u32 f = u32 g -> 0 < s < 32 ->
  u32 (ROTATE_LEFT (u32 (a + (f + x + ac))) s + b)
  = (b + rotl ((a + g + x + ac) mod 2 ^ 32) s) mod 2 ^ 32.
Proof.
  intros E Hs. rewrite rotate_rotl by (done || apply Z.mod_pos_bound; lia).
  rewrite (u32_idemp_sum a f g x ac E), u32_pow. f_equal. lia.
Qed.

(** ** The unrolled steps are the loop *)

Lemma foldl_step m q i l : foldl (rfc_step m) q (i :: l) = foldl (rfc_step m) (rfc_step m q i) l.
Proof. done. Qed.

Lemma foldl_line m q x l : foldl (run_line m) q (x :: l) = foldl (run_line m) (run_line m q x) l.
Proof. done. Qed.

(** What a step computes, with the entries of the tables looked up. *)
Lemma rfc_step_at m a b c d i k s ac g :
  rfc_index i = k -> elem rfc_shift (4 * (i / 16) + i mod 4) = s -> elem rfc_T i = ac ->
  rfc_fun i b c d = g ->
  rfc_step m (Words a b c d) i
  = Words d ((b + rotl ((a + g + elem m k + ac) mod 2 ^ 32) s) mod 2 ^ 32) b c.
Proof. intros <- <- <- <-. done. Qed.

Lemma FF_step m a b c d i k s ac :
  rfc_index i = k -> elem rfc_shift (4 * (i / 16) + i mod 4) = s -> elem rfc_T i = ac ->
  (i / 16)%nat = 0%nat -> 0 < s < 32 ->
  rfc_step m (Words a b c d) i = Words d (FF a b c d (elem m k) s ac) b c.
Proof.
  intros Hk Hs Ha Hi Hr. rewrite (rfc_step_at m a b c d i k s ac _ Hk Hs Ha eq_refl).
  unfold FF, rfc_fun. rewrite Hi. f_equal. symmetry. apply step_rfc; [apply F_rfc | done].
Qed.

Lemma GG_step m a b c d i k s ac :
  rfc_index i = k -> elem rfc_shift (4 * (i / 16) + i mod 4) = s -> elem rfc_T i = ac ->
  (i / 16)%nat = 1%nat -> 0 < s < 32 ->
  rfc_step m (Words a b c d) i = Words d (GG a b c d (elem m k) s ac) b c.
Proof.
  intros Hk Hs Ha Hi Hr. rewrite (rfc_step_at m a b c d i k s ac _ Hk Hs Ha eq_refl).
  unfold GG, rfc_fun. rewrite Hi. f_equal. symmetry. apply step_rfc; [apply G_rfc | done].
Qed.

Lemma HH_step m a b c d i k s ac :
  rfc_index i = k -> elem rfc_shift (4 * (i / 16) + i mod 4) = s -> elem rfc_T i = ac ->
  (i / 16)%nat = 2%nat -> 0 < s < 32 ->
  rfc_step m (Words a b c d) i = Words d (HH a b c d (elem m k) s ac) b c.
Proof.
  intros Hk Hs Ha Hi Hr. rewrite (rfc_step_at m a b c d i k s ac _ Hk Hs Ha eq_refl).
  unfold HH, rfc_fun. rewrite Hi. f_equal. symmetry. apply step_rfc; [apply H_rfc | done].
Qed.

Lemma II_step m a b c d i k s ac :
  rfc_index i = k -> elem rfc_shift (4 * (i / 16) + i mod 4) = s -> elem rfc_T i = ac ->
  (i / 16)%nat = 3%nat -> 0 < s < 32 ->
  rfc_step m (Words a b c d) i = Words d (II a b c d (elem m k) s ac) b c.
Proof.
  intros Hk Hs Ha Hi Hr. rewrite (rfc_step_at m a b c d i k s ac _ Hk Hs Ha eq_refl).
  unfold II, rfc_fun. rewrite Hi. f_equal. symmetry. apply step_rfc; [apply I_rfc | done].
Qed.

(** Match the next line of [Transform] with the next step of the loop, then
    forget what the new word is. *)
Ltac unroll_step :=
  lazymatch goal with
  | |- context [foldl (run_line ?m) ?q (Step ?op ?ra ?rb ?rc ?rd ?k ?s ?ac :: ?ls)] =>
      let q' := eval cbv [run_line set get l_macro l_a l_b l_c l_d l_k l_s l_ac w0 w1 w2 w3]
        in (run_line m q (Step op ra rb rc rd k s ac)) in
      rewrite (foldl_line m q (Step op ra rb rc rd k s ac) ls);
      rewrite (eq_refl : run_line m q (Step op ra rb rc rd k s ac) = q')
  end;
  lazymatch goal with
  | |- context [foldl (rfc_step ?m) (Words ?a ?b ?c ?d) (?i :: ?l)] =>
      rewrite (foldl_step m (Words a b c d) i l);
      lazymatch goal with
      | |- context [?op a b c d (elem m ?k) ?s ?ac] =>
          let st := lazymatch op with FF => FF_step | GG => GG_step | HH => HH_step | II => II_step end in
          rewrite (st m a b c d i k s ac eq_refl eq_refl eq_refl eq_refl (conj eq_refl eq_refl));
          generalize (op a b c d (elem m k) s ac); intros ?
      end
  end.

Lemma Transform_rfc buf m : Transform buf m = rfc_compress buf m.
Proof.
  unfold Transform, rfc_compress. cbv zeta.
  rewrite <- !u32_pow. destruct buf as [a b c d].
  enough (foldl (run_line m) (Words a b c d) transform_lines
          = foldl (rfc_step m) (Words a b c d) (seq 0 64)) as -> by done.
  unfold transform_lines.
  change (seq 0 64) with (ltac:(let l := eval cbv in (seq 0 64) in exact l)).
  do 64 unroll_step. done.
Qed.

#[local] Opaque Transform rfc_compress.

(** ** Little-endian bytes and words *)

Lemma shl32_small x n :
  0 <= n -> 0 <= x * 2 ^ n < 4294967296 -> shl32 x n = x * 2 ^ n.
Proof. intros Hn Hx. unfold shl32, u32. rewrite Z.shiftl_mul_pow2 by lia. by apply Z.mod_small. Qed.

Lemma in_word_head a b c d l :
  is_byte a -> is_byte b -> is_byte c -> is_byte d ->
  in_word (a :: b :: c :: d :: l) 0 = a + 2 ^ 8 * b + 2 ^ 16 * c + 2 ^ 24 * d.
Proof.
  unfold is_byte. intros. unfold in_word, elem. cbn [Nat.mul Nat.add lookup list_lookup from_option id].
  rewrite !shl32_small by lia. rewrite (lor_add (c * 2 ^ 16) d 24) by lia.
  replace (d * 2 ^ 24 + c * 2 ^ 16) with ((d * 2 ^ 8 + c) * 2 ^ 16) by lia.
  rewrite (lor_add (b * 2 ^ 8) _ 16) by lia.
  replace ((d * 2 ^ 8 + c) * 2 ^ 16 + b * 2 ^ 8)
    with (((d * 2 ^ 8 + c) * 2 ^ 8 + b) * 2 ^ 8) by lia.
  rewrite lor_add by lia. lia.
Qed.

Lemma in_word_tail a b c d l i : in_word (a :: b :: c :: d :: l) (S i) = in_word l i.
Proof.
  unfold in_word, elem. replace (4 * S i)%nat with (S (S (S (S (4 * i))))) by lia. done.
Qed.

Lemma in_words_le n l :
  Forall is_byte l -> (4 * n <= length l)%nat -> in_words n l = le_words n l.
Proof.
  unfold in_words. revert l. induction n as [|n IH]; intros l Hl Hlen; [done|].
  do 4 (destruct l as [|? l]; [cbn in Hlen; lia|]).
  apply Forall_cons in Hl as [? Hl], Hl as [? Hl], Hl as [? Hl], Hl as [? Hl].
  cbn [seq le_words]. rewrite <- fmap_S_seq, fmap_cons, in_word_head by done. f_equal.
  rewrite <- IH by (done || cbn in Hlen; lia).
  rewrite <- list_fmap_compose. apply list_fmap_ext. intros ? i _. apply in_word_tail.
Qed.

Lemma le_words_app n m l1 l2 :
  length l1 = (4 * n)%nat -> le_words (n + m) (l1 ++ l2) = le_words n l1 ++ le_words m l2.
Proof.
  revert l1. induction n as [|n IH]; intros l1 Hl.
  - apply length_zero_iff_nil in Hl as ->. done.
  - do 4 (destruct l1 as [|? l1]; [cbn in Hl; lia|]). cbn. f_equal. apply IH. cbn in Hl. lia.
Qed.

Lemma word_bytes_le w : word_bytes w = le_bytes 4 w.
Proof.
  unfold word_bytes, shr32. cbn [le_bytes].
  rewrite !(Z.land_ones _ 8 : _ -> Z.land _ 255 = _) by done.
  rewrite !Z.shiftr_div_pow2 by done.
  rewrite !Z.div_div by done. done.
Qed.

Lemma le_bytes_length n x : length (le_bytes n x) = n.
Proof. revert x. induction n as [|n IH]; intros x; cbn; auto. Qed.

Lemma le_bytes_range n x : Forall is_byte (le_bytes n x).
Proof.
  revert x. induction n as [|n IH]; intros x; constructor; [|apply IH].
  apply Z.mod_pos_bound. done.
Qed.

(** The two words that carry the number of bits *)
Lemma le_words_bits lo hi :
  0 <= lo < 2 ^ 32 -> 0 <= hi < 2 ^ 32 ->
  le_words 2 (le_bytes 8 (lo + 2 ^ 32 * hi)) = [lo; hi].
Proof. intros. cbn [le_bytes le_words]. repeat f_equal; dlia. Qed.

(** ** Blocks *)

Definition whole (bs : list (list Z)) : Prop := Forall (fun b => length b = 64%nat) bs.

Lemma whole_length bs : whole bs -> length (concat bs) = (64 * length bs)%nat.
Proof. induction 1 as [|b bs Hb _ IH]; cbn; [done|]. rewrite length_app. lia. Qed.

Lemma blocks_concat bs : whole bs -> blocks (length bs) (concat bs) = bs.
Proof.
  induction 1 as [|b bs Hb _ IH]; cbn [length blocks concat]; [done|].
  rewrite take_app_length' by done. rewrite drop_app_length' by done. by rewrite IH.
Qed.

Lemma rfc_fold_snoc q bs b :
  rfc_fold q (bs ++ [b]) = rfc_compress (rfc_fold q bs) (le_words 16 b).
Proof. unfold rfc_fold. by rewrite foldl_app. Qed.

(** ** The types of a context *)

Definition is_word (x : Z) : Prop := 0 <= x < 2 ^ 32.

Record ctx_ok (c : MD5_CTX) : Prop := {
  ok_i0 : is_word (ctx_i0 c);
  ok_i1 : is_word (ctx_i1 c);
  ok_buf : is_word (w0 (ctx_buf c)) /\ is_word (w1 (ctx_buf c))
           /\ is_word (w2 (ctx_buf c)) /\ is_word (w3 (ctx_buf c));
  ok_in : length (ctx_in c) = 64%nat;
  ok_bytes : Forall is_byte (ctx_in c);
  ok_digest : length (ctx_digest c) = 16%nat;
  ok_dbytes : Forall is_byte (ctx_digest c) }.

Lemma Transform_words q m :
  is_word (w0 (Transform q m)) /\ is_word (w1 (Transform q m))
  /\ is_word (w2 (Transform q m)) /\ is_word (w3 (Transform q m)).
Proof. rewrite Transform_rfc. by split_and!; apply Z.mod_pos_bound. Qed.

Lemma u32_word x : is_word (u32 x).
Proof. apply Z.mod_pos_bound. done. Qed.

#[local] Hint Resolve u32_word Transform_words : core.

(** One byte is stored. *)
Definition stored (mdi : nat) (b : Z) (c : MD5_CTX) : MD5_CTX :=
  (touch mdi c) <| ctx_in := <[mdi:=b]> (ctx_in c) |>.

Lemma touch_ok k c : ctx_ok c -> ctx_ok (touch k c).
Proof. by intros []. Qed.

Lemma touch_inside k c : ctx_ok c -> (k < 64)%nat -> ctx_overrun (touch k c) = ctx_overrun c.
Proof.
  intros [] Hk. unfold touch. cbn [ctx_overrun]. rewrite (proj2 (Nat.leb_gt _ _)) by lia.
  apply orb_false_r.
Qed.

Lemma store_ok c mdi b : ctx_ok c -> is_byte b -> ctx_ok (stored mdi b c).
Proof.
  intros [] Hb. unfold stored. split; try done; cbn; [by rewrite length_insert | by apply Forall_insert].
Qed.

Lemma transform_ok c m : ctx_ok c -> ctx_ok (c <| ctx_buf := Transform (ctx_buf c) m |>).
Proof. intros []. split; cbn; auto. Qed.

Lemma update_loop_ok c mdi l :
  ctx_ok c -> Forall is_byte l ->
  ctx_ok (update_loop c mdi l)
  /\ ctx_i0 (update_loop c mdi l) = ctx_i0 c /\ ctx_i1 (update_loop c mdi l) = ctx_i1 c.
Proof.
  revert c mdi. induction l as [|b l IH]; intros c mdi Hc Hl; [done|].
  apply Forall_cons in Hl as [Hb Hl]. cbn [update_loop]. cbv zeta.
  fold (stored mdi b c). assert (ctx_ok (stored mdi b c)) as Hc' by by apply store_ok.
  destruct (_ =? 64)%nat; [|exact (IH _ _ Hc' Hl)].
  exact (IH _ _ (transform_ok _ _ (touch_ok _ _ Hc')) Hl).
Qed.

(** The loop stays inside the buffer: a full one starts again at 0. *)
Lemma update_loop_inside c mdi l : ctx_ok c -> Forall is_byte l -> (mdi < 64)%nat ->
  ctx_overrun (update_loop c mdi l) = ctx_overrun c.
Proof.
  revert c mdi. induction l as [|b l IH]; intros c mdi Hc Hl Hm; [done|].
  apply Forall_cons in Hl as [Hb Hl]. cbn [update_loop]. cbv zeta.
  fold (stored mdi b c). assert (ctx_ok (stored mdi b c)) as Hc' by by apply store_ok.
  assert (ctx_overrun (stored mdi b c) = ctx_overrun c) as <- by by apply touch_inside.
  destruct (Nat.eqb_spec (S mdi) 64) as [E|E].
  - rewrite IH; [|by apply transform_ok, touch_ok|done|lia]. apply touch_inside; [done|lia].
  - apply IH; [done..|lia].
Qed.

Lemma MD5Init_ok c : ctx_ok c -> ctx_ok (MD5Init c).
Proof. intros []. by split. Qed.

(** What [MD5Update] does before its loop *)
Lemma MD5Update_loop c l :
  let n := Z.of_nat (length l) in
  let i0 := u32 (ctx_i0 c + shl32 n 3) in
  let carry := if i0 <? ctx_i0 c then u32 (ctx_i1 c + 1) else ctx_i1 c in
  MD5Update c l
  = update_loop (Ctx i0 (u32 (carry + shr32 n 29)) (ctx_buf c) (ctx_in c) (ctx_digest c)
                     (ctx_overrun c))
      (mdi_of c) l.
Proof. unfold MD5Update. cbv zeta. by case_match. Qed.

Lemma MD5Update_ok c l : ctx_ok c -> Forall is_byte l -> ctx_ok (MD5Update c l).
Proof.
  intros Hc Hl. rewrite MD5Update_loop. apply update_loop_ok; [|done].
  destruct Hc. split; cbn; auto.
Qed.

Lemma padding_bytes n : Forall is_byte (take n PADDING).
Proof.
  apply Forall_take. constructor; [done|]. by apply Forall_replicate.
Qed.

Definition words_le (q : words) : list Z :=
  le_bytes 4 (w0 q) ++ le_bytes 4 (w1 q) ++ le_bytes 4 (w2 q) ++ le_bytes 4 (w3 q).

Definition pad_len (c : MD5_CTX) : nat :=
  if (mdi_of c <? 56)%nat then (56 - mdi_of c)%nat else (120 - mdi_of c)%nat.

Lemma MD5Final_eq c :
  let c' := MD5Update c (take (pad_len c) PADDING) in
  let q := Transform (ctx_buf c') (in_words 14 (ctx_in c') ++ [ctx_i0 c; ctx_i1 c]) in
  MD5Final c = Ctx (ctx_i0 c') (ctx_i1 c') q (ctx_in c') (words_le q)
    (ctx_overrun c' || (64 <? pad_len c)%nat || (length (ctx_in c') <=? 55)%nat).
Proof. unfold MD5Final, words_le. cbv zeta. by rewrite <- !word_bytes_le. Qed.

Lemma MD5Final_ok c : ctx_ok c -> ctx_ok (MD5Final c).
Proof.
  intros Hc. rewrite MD5Final_eq. cbv zeta.
  assert (ctx_ok (MD5Update c (take (pad_len c) PADDING))) as []
    by (apply MD5Update_ok; [done | apply padding_bytes]).
  split; cbn [ctx_i0 ctx_i1 ctx_buf ctx_in ctx_digest]; auto; unfold words_le.
  rewrite !Forall_app. auto using le_bytes_range.
Qed.

(** ** The message a context has absorbed *)

(** Whole blocks have gone into [buf], the rest waits in [in]. *)
Definition absorbed (c : MD5_CTX) (bs : list (list Z)) (tail : list Z) : Prop :=
  whole bs /\ (length tail < 64)%nat /\ ctx_buf c = rfc_fold rfc_start bs
  /\ take (length tail) (ctx_in c) = tail.

(** The two counters hold the number of bits. *)
Definition counted (c : MD5_CTX) (n : Z) : Prop :=
  ctx_i0 c + 2 ^ 32 * ctx_i1 c = (8 * n) mod 2 ^ 64.

Lemma take_insert_last {A} k (x : A) l :
  (k < length l)%nat -> take (S k) (<[k:=x]> l) = take k l ++ [x].
Proof.
  intros Hk. rewrite (take_S_r _ _ x) by by apply list_lookup_insert_eq.
  by rewrite take_insert_ge.
Qed.

(** One byte: it is stored, and a full buffer is transformed. *)
Lemma update_loop_absorbs l : forall c bs tail,
  ctx_ok c -> Forall is_byte l -> absorbed c bs tail ->
  exists bs' tail', absorbed (update_loop c (length tail) l) bs' tail'
    /\ concat bs' ++ tail' = concat bs ++ tail ++ l.
Proof.
  induction l as [|b l IH]; intros c bs tail Hc Hl (Hw & Ht & Hb & Hi).
  { exists bs, tail. by rewrite app_nil_r. }
  apply Forall_cons in Hl as [Hbb Hl]. cbn [update_loop]. cbv zeta.
  fold (stored (length tail) b c). set (c1 := stored (length tail) b c).
  assert (ctx_ok c1) as Hc1 by by apply store_ok.
  assert (take (length (tail ++ [b])) (ctx_in c1) = tail ++ [b]) as Hi1.
  { cbn. rewrite length_app, Nat.add_1_r, take_insert_last by (rewrite ok_in; done).
    by rewrite Hi. }
  replace (S (length tail)) with (length (tail ++ [b])) in * by (rewrite length_app; cbn; lia).
  destruct (Nat.eqb_spec (length (tail ++ [b])) 64) as [E|E].
  - destruct (IH ((touch 63 c1) <| ctx_buf := Transform (ctx_buf c1) (in_words 16 (ctx_in c1)) |>)
                 (bs ++ [tail ++ [b]]) [] (transform_ok _ _ (touch_ok _ _ Hc1)) Hl) as (bs' & tail' & Ha & Hm).
    + split_and!; [by apply Forall_app_2; [|constructor] | cbn; lia | | done].
      rewrite rfc_fold_snoc, <- Hb, <- Hi1, E, take_ge by (rewrite (ok_in c1); done).
      rewrite <- in_words_le by (apply Hc1 || rewrite (ok_in c1); done).
      rewrite <- Transform_rfc. done.
    + exists bs', tail'. split; [done|].
      rewrite Hm, concat_app. cbn. by rewrite app_nil_r, <- !app_assoc.
  - destruct (IH c1 bs (tail ++ [b]) Hc1 Hl) as (bs' & tail' & Ha & Hm).
    { split_and!; try done. rewrite length_app in *. cbn in *. lia. }
    exists bs', tail'. rewrite <- app_assoc in Hm. done.
Qed.

(** ** The counters *)

Lemma mdi_counted c n : 0 <= n -> counted c n -> ctx_ok c -> mdi_of c = Z.to_nat (n mod 64).
Proof.
  unfold counted, mdi_of, shr32. intros Hn E [[H0 H0'] [H1 H1'] _ _ _ _ _].
  rewrite (Z.land_ones _ 6 : _ -> Z.land _ 63 = _) by done.
  rewrite Z.shiftr_div_pow2 by done. f_equal. dlia.
Qed.

Lemma update_counted c l n :
  ctx_ok c -> 0 <= n -> Z.of_nat (length l) < 2 ^ 32 -> Forall is_byte l ->
  counted c n -> counted (MD5Update c l) (n + Z.of_nat (length l)).
Proof.
  intros Hc Hn Hlen Hl E. rewrite MD5Update_loop. cbv zeta.
  set (len := Z.of_nat (length l)) in *. assert (0 <= len) by lia.
  match goal with |- counted (update_loop ?c1 ?m ?l) _ =>
    assert (ctx_ok c1) as Hc1 by (destruct Hc; split; cbn; auto);
    destruct (update_loop_ok c1 m l Hc1 Hl) as (_ & E0 & E1) end.
  unfold counted in *. rewrite E0, E1. cbn [ctx_i0 ctx_i1].
  destruct Hc as [[H0 H0'] [H1 H1'] _ _ _ _ _].
  unfold shl32, shr32, u32. rewrite Z.shiftl_mul_pow2, Z.shiftr_div_pow2 by done.
  destruct (Z.ltb_spec ((ctx_i0 c + (len * 2 ^ 3) mod 4294967296) mod 4294967296) (ctx_i0 c)); dlia.
Qed.

(** ** A context that has taken in a message *)

Definition holds (c : MD5_CTX) (msg : list Z) : Prop :=
  ctx_ok c /\ counted c (Z.of_nat (length msg))
  /\ exists bs tail, absorbed c bs tail /\ concat bs ++ tail = msg.

Lemma holds_init c : ctx_ok c -> holds (MD5Init c) [].
Proof.
  intros Hc. split; [by apply MD5Init_ok|]. split; [done|].
  exists [], []. repeat split; try done; [constructor | cbn; lia].
Qed.

Lemma absorbed_tail bs tail : whole bs -> (length tail < 64)%nat ->
  Z.to_nat (Z.of_nat (length (concat bs ++ tail)) mod 64) = length tail.
Proof.
  intros Hw Ht. rewrite length_app, whole_length by done.
  rewrite Nat2Z.inj_add, Nat2Z.inj_mul, Z.add_comm, Z.mul_comm, Z.mod_add by done.
  rewrite Z.mod_small by lia. lia.
Qed.

Lemma holds_update c msg l :
  holds c msg -> Forall is_byte l -> Z.of_nat (length l) < 2 ^ 32 ->
  holds (MD5Update c l) (msg ++ l).
Proof.
  intros (Hc & Hn & bs & tail & Ha & Hm) Hl Hlen.
  split; [by apply MD5Update_ok|]. split.
  { rewrite length_app, Nat2Z.inj_add. by apply update_counted; try lia. }
  rewrite MD5Update_loop. cbv zeta. rewrite (mdi_counted c _ (Nat2Z.is_nonneg _) Hn Hc).
  rewrite <- Hm, absorbed_tail by apply Ha.
  match goal with |- context [update_loop ?c1 _ _] =>
    assert (ctx_ok c1) as Hc1 by (destruct Hc; split; cbn; auto);
    destruct (update_loop_absorbs l c1 bs tail Hc1 Hl Ha) as (bs' & tail' & Ha' & Hm') end.
  exists bs', tail'. by rewrite <- app_assoc.
Qed.

Lemma holds_updates chunks : forall c msg,
  holds c msg -> Forall (Forall is_byte) chunks ->
  Forall (fun l => Z.of_nat (length l) < 2 ^ 32) chunks ->
  holds (foldl MD5Update c chunks) (msg ++ concat chunks).
Proof.
  induction chunks as [|l chunks IH]; intros c msg Hc Hb Hlen.
  { cbn. by rewrite app_nil_r. }
  apply Forall_cons in Hb as [Hb1 Hb], Hlen as [Hl1 Hlen]. cbn.
  rewrite app_assoc. apply IH; [|done..]. by apply holds_update.
Qed.

(** ** [MD5Final] *)

(** The padding: one byte 0x80 and zeros up to 56 bytes of a block. *)
Lemma padding_taken c n : 0 <= n -> counted c n -> ctx_ok c ->
  take (pad_len c) PADDING = 128 :: replicate (Z.to_nat ((55 - n) mod 64)) 0.
Proof.
  intros Hn Hc Hk. unfold pad_len. rewrite (mdi_counted c n Hn Hc Hk).
  assert (exists k, (k <= 63)%nat /\ k = Z.to_nat ((55 - n) mod 64)
    /\ (if (Z.to_nat (n mod 64) <? 56)%nat then (56 - Z.to_nat (n mod 64))%nat
        else (120 - Z.to_nat (n mod 64))%nat) = S k) as (k & Hk63 & -> & ->).
  { exists (Z.to_nat ((55 - n) mod 64)). split_and!; [dlia|done|].
    destruct (Nat.ltb_spec (Z.to_nat (n mod 64)) 56); dlia. }
  unfold PADDING. cbn [take]. f_equal. rewrite take_replicate. f_equal. lia.
Qed.

(** A padded message lacks eight bytes to a whole number of blocks. *)
Lemma padded_tail bs tail msg :
  whole bs -> (length tail < 64)%nat ->
  concat bs ++ tail
  = msg ++ 128 :: replicate (Z.to_nat ((55 - Z.of_nat (length msg)) mod 64)) 0 ->
  length tail = 56%nat.
Proof.
  intros Hw Ht E. apply (f_equal (length (A := Z))) in E.
  rewrite !length_app, whole_length in E by done. cbn [length] in E.
  rewrite length_replicate in E. dlia.
Qed.

(** The last block as the code assembles it *)
Lemma last_block c tail lo hi :
  ctx_ok c -> length tail = 56%nat -> take (length tail) (ctx_in c) = tail ->
  is_word lo -> is_word hi ->
  in_words 14 (ctx_in c) ++ [lo; hi] = le_words 16 (tail ++ le_bytes 8 (lo + 2 ^ 32 * hi)).
Proof.
  intros Hc Ht Hi Hlo Hhi. rewrite (le_words_app 14 2), le_words_bits by done. f_equal.
  rewrite in_words_le by (apply Hc || rewrite (ok_in c) by done; lia).
  rewrite <- (take_drop (length tail) (ctx_in c)), Hi.
  rewrite (le_words_app 14 0 tail) by done. apply app_nil_r.
Qed.

Lemma final_digest c msg : holds c msg -> ctx_digest (MD5Final c) = rfc_md5 msg.
Proof.
  intros Hh. pose proof Hh as (Hc & Hn & _).
  rewrite MD5Final_eq. cbv zeta. cbn [ctx_digest].
  pose proof (padding_taken c _ (Nat2Z.is_nonneg _) Hn Hc) as Hp.
  assert (Z.of_nat (length (take (pad_len c) PADDING)) < 2 ^ 32) as Hpl.
  { rewrite length_take. change (length PADDING) with 64%nat. lia. }
  destruct (holds_update c msg _ Hh (padding_bytes _) Hpl) as (Hc' & _ & bs & tail & Ha & Hm).
  set (c' := MD5Update c _) in *. rewrite Hp in Hm. destruct Ha as (Hw & Ht & Hb & Hi).
  pose proof (padded_tail bs tail msg Hw Ht Hm) as Ht56.
  rewrite (last_block c' tail) by (done || apply Hc).
  set (b := tail ++ le_bytes 8 _).
  assert (rfc_pad msg = concat (bs ++ [b])) as Hpad.
  { unfold rfc_pad. rewrite concat_app. cbn [concat]. rewrite app_nil_r. unfold b.
    rewrite Hn, app_assoc, Hm. cbv zeta. rewrite <- app_assoc. done. }
  assert (whole (bs ++ [b])) as Hwb.
  { apply Forall_app_2; [done|]. constructor; [|constructor]. unfold b.
    by rewrite length_app, le_bytes_length, Ht56. }
  unfold rfc_md5. cbv zeta. rewrite Hpad, whole_length, Nat.mul_comm, Nat.div_mul by done.
  rewrite blocks_concat, rfc_fold_snoc, <- Hb, <- Transform_rfc by done. done.
Qed.

(** C21. The digest is that of RFC 1321, whatever the pieces in which the message
    arrives: after [MD5Init] and any sequence of [MD5Update]s, [MD5Final] leaves
    in [digest] what the reference computes from the whole message (padding,
    blocks, a loop of 64 table steps), also for messages whose number of bits
    exceeds 2^64 and for whatever the context held before. *)
Theorem md5_streaming c chunks :
  ctx_ok c -> Forall (Forall is_byte) chunks ->
  Forall (fun l => Z.of_nat (length l) < 2 ^ 32) chunks ->
  ctx_digest (MD5Final (foldl MD5Update (MD5Init c) chunks)) = rfc_md5 (concat chunks).
Proof.
  intros Hc Hb Hl. apply final_digest.
  apply (holds_updates chunks (MD5Init c) []); [by apply holds_init | done..].
Qed.

Lemma mdi_bound c : (mdi_of c < 64)%nat.
Proof.
  unfold mdi_of. rewrite (Z.land_ones _ 6 : _ -> Z.land _ 63 = _) by done.
  pose proof (Z.mod_pos_bound (shr32 (ctx_i0 c) 3) (2 ^ 6) ltac:(done)). lia.
Qed.

Lemma MD5Update_inside c l :
  ctx_ok c -> Forall is_byte l -> ctx_overrun (MD5Update c l) = ctx_overrun c.
Proof.
  intros Hc Hl. rewrite MD5Update_loop. cbv zeta.
  rewrite update_loop_inside; [done| |done|apply mdi_bound]. destruct Hc. split; cbn; auto.
Qed.

(** C29. The digest stays inside its arrays: called on any context, whatever its counters,
    with any number of bytes, none of the three functions stores or reads outside of
    [in[64]], nor reads the padding outside of [PADDING[64]]; and the context it leaves has
    words below 2^32, 64 bytes of input and 16 bytes of digest. *)
Theorem md5_in_bounds c l :
  ctx_ok c -> Forall is_byte l -> ctx_overrun c = false ->
  Forall (fun c' => ctx_overrun c' = false /\ ctx_ok c') [MD5Init c; MD5Update c l; MD5Final c].
Proof.
  intros Hc Hl Ho. rewrite !Forall_cons. split_and!; auto using MD5Init_ok, MD5Update_ok, MD5Final_ok.
  - by rewrite MD5Update_inside.
  - rewrite MD5Final_eq. cbv zeta. cbn [ctx_overrun].
    rewrite MD5Update_inside, (ok_in (MD5Update c _)), Ho
      by (try apply MD5Update_ok; auto using padding_bytes).
    pose proof (mdi_bound c). unfold pad_len.
    destruct (Nat.ltb_spec (mdi_of c) 56); by rewrite (proj2 (Nat.ltb_ge _ _)) by lia.
Qed.

(** ** The command *)

(** The environment delivers [chunks] to successive [fread]s from position [n] of
    the trace on, then the end of the file. *)
Fixpoint served (e : env md5_call) (n : nat) (file size : Z) (chunks : list string) : Prop :=
  let r := e n (Fread file size) in
  match chunks with
  | [] => r_ret r = 0
  | d :: chunks =>
      r_ret r = strlen d /\ r_data r = d /\ 0 < strlen d <= size
      /\ served e (S n) file size chunks
  end.

Definition bytes_of (chunks : list string) : list (list Z) := byte_list <$> chunks.

Lemma byte_list_range s : Forall is_byte (byte_list s).
Proof.
  induction s as [|c s IH]; constructor; [|done]. unfold is_byte.
  pose proof (N_ascii_bounded c). lia.
Qed.

Lemma bytes_of_range chunks : Forall (Forall is_byte) (bytes_of chunks).
Proof. apply Forall_fmap, Forall_true. intros s. apply byte_list_range. Qed.

(** The loop takes in what the environment delivers, and ends. *)
Lemma read_loop_served chunks : forall fuel file size c e s,
  served e (length (tr s)) file size chunks -> (length chunks < fuel)%nat ->
  wp (read_loop fuel file size c) e s (fun o s' =>
    o = Some (foldl MD5Update c (bytes_of chunks))
    /\ calls s' = calls s ++ replicate (S (length chunks)) (Fread file size)).
Proof.
  induction chunks as [|d chunks IH]; intros [|fuel] file size c e s Hs Hf;
    cbn in Hf; try lia; cbn [read_loop]; apply wp_bind, wp_call; intros r ->; cbn in Hs.
  - rewrite Hs. apply wp_ret. split; [done|]. by rewrite calls_snoc.
  - destruct Hs as (Hr & Hd & Hsz & Hs). rewrite Hr.
    destruct (Z.eqb_spec (strlen d) 0) as [E|_]; [lia|].
    eapply wp_wand; [apply IH; [|lia]; cbn; by rewrite length_app, Nat.add_1_r|].
    intros o s' [-> Hc]. rewrite Hc, calls_snoc, <- app_assoc. split; [|done].
    cbn. unfold received. rewrite Hr, Hd, str_take_all by (unfold strlen in *; lia). done.
Qed.

Lemma MDPrint_spec c e s :
  wp (MDPrint c) e s (fun _ s' =>
    calls s' = calls s ++ (Printf ∘ hex2 <$> ctx_digest c)).
Proof.
  unfold MDPrint. generalize (ctx_digest c) as l. intros l. revert s.
  induction l as [|b l IH]; intros s; cbn; [by rewrite app_nil_r|].
  do 2 apply wp_bind. apply wp_call. intros r _. apply wp_ret.
  eapply wp_wand; [apply IH|]. intros [] s' ->. by rewrite calls_snoc, <- app_assoc.
Qed.

Lemma served_lengths e n file size chunks :
  served e n file size chunks -> size < 2 ^ 32 ->
  Forall (fun l => Z.of_nat (length l) < 2 ^ 32) (bytes_of chunks).
Proof.
  intros Hs Hz. revert n Hs. induction chunks as [|d chunks IH]; intros n Hs; constructor.
  - rewrite byte_list_length. destruct Hs as (_ & _ & Hd & _). unfold strlen in Hd. lia.
  - destruct Hs as (_ & _ & _ & Hs). by apply (IH (S n)).
Qed.

(** The context after the loop holds the file. *)
Lemma served_holds e n file size chunks c :
  ctx_ok c -> size < 2 ^ 32 -> served e n file size chunks ->
  holds (foldl MD5Update (MD5Init c) (bytes_of chunks)) (concat (bytes_of chunks)).
Proof.
  intros Hc Hz Hs. apply (holds_updates _ _ []); [by apply holds_init | apply bytes_of_range |].
  by eapply served_lengths.
Qed.

(** [md5sum FILE] prints the MD5 digest of the file: when the file opens and
    [fread] delivers its contents in pieces of at most 1024 bytes, however short,
    the command returns after one [fread] per piece and one for the end, having
    printed the 16 bytes of the RFC 1321 digest of the contents in hexadecimal and
    then the name, and having closed the file. *)
Theorem md5_file fuel c name chunks e s file :
  ctx_ok c -> file = r_ret (e (length (tr s)) (Fopen name)) -> file <> 0 ->
  served e (S (length (tr s))) file 1024 chunks -> (length chunks < fuel)%nat ->
  wp (MDFile fuel c name) e s (fun o s' =>
    o = Returned
    /\ calls s' = calls s ++ [Fopen name]
         ++ replicate (S (length chunks)) (Fread file 1024)
         ++ (Printf ∘ hex2 <$> rfc_md5 (concat (bytes_of chunks)))
         ++ [Printf (" " +:+ name +:+ newline); Fclose file]).
Proof.
  intros Hc -> Hf Hs Hl. unfold MDFile. apply wp_bind, wp_call. intros r ->.
  destruct (Z.eqb_spec (r_ret (e (length (tr s)) (Fopen name))) 0) as [E|_]; [done|].
  apply wp_bind. eapply wp_wand.
  { apply (read_loop_served chunks); [|done]. cbn. by rewrite length_app, Nat.add_1_r. }
  intros o s' [-> Hr]. apply wp_bind. eapply wp_wand; [apply MDPrint_spec|].
  intros [] s2 H2.
  rewrite (final_digest _ _ (served_holds _ _ _ 1024 _ _ Hc eq_refl Hs)) in H2.
  do 2 (apply wp_bind, wp_call; intros ? _). apply wp_ret. split; [done|].
  rewrite calls_snoc. cbn [tr]. rewrite fmap_app. change ((tr s2).*1) with (calls s2).
  rewrite H2, Hr, calls_snoc, <- !app_assoc. done.
Qed.

(** ** The standard suite, and the theorems on concrete inputs *)

Definition hex (l : list Z) : string := foldr (fun b s => hex2 b +:+ s) "" l.

Example md5_suite :
  (fun s => hex (rfc_md5 (byte_list s))) <$> test_strings =
  ["d41d8cd98f00b204e9800998ecf8427e"; "0cc175b9c0f1b6a831c399e269772661";
   "900150983cd24fb0d6963f7d28e17f72"; "f96b697d7cb7938d525a2f31aaf161d0";
   "c3fcd3d76192e4007dfb496cca67e13b"; "d174ab98d277d9f5a5611c2c9f419d9f";
   "57edf4a22be3c955ac49da2e2107b67a"].
Proof. by vm_compute. Qed.

(** A context with arbitrary bytes in it *)
Definition dirty : MD5_CTX := Ctx 7 9 (Words 1 2 3 4) (replicate 64 165) (replicate 16 90)
  false.

Lemma dirty_ok : ctx_ok dirty.
Proof. split; cbn; repeat constructor; lia. Qed.

Lemma md5_streaming_witness :
  ctx_digest (MD5Final (foldl MD5Update (MD5Init dirty) [[97]; []; [98; 99]]))
  = rfc_md5 [97; 98; 99].
Proof.
  apply (md5_streaming dirty [[97]; []; [98; 99]] dirty_ok);
    repeat constructor; cbn; lia.
Defined.

Lemma md5_in_bounds_witness :
  Forall (fun c' => ctx_overrun c' = false /\ ctx_ok c')
    [MD5Init dirty; MD5Update dirty [1; 2]; MD5Final dirty].
Proof. apply (md5_in_bounds dirty [1; 2] dirty_ok); [repeat constructor; cbn; lia | done]. Defined.

(** A file "abc" that arrives in two pieces *)
Definition abc_env : env md5_call := fun n c =>
  match c, n with
  | Fopen _, _ => answer 5
  | Fread _ _, 1%nat => Resp 2 0 "ab" []
  | Fread _ _, 2%nat => Resp 1 0 "c" []
  | _, _ => answer 0
  end.

Lemma md5_file_witness :
  wp (MDFile 3 dirty "foo") abc_env (Sys _ _ tt []) (fun o s' =>
    o = Returned
    /\ calls s' = [] ++ [Fopen "foo"] ++ replicate 3 (Fread 5 1024)
         ++ (Printf ∘ hex2 <$> rfc_md5 [97; 98; 99])
         ++ [Printf (" foo" +:+ newline); Fclose 5]).
Proof.
  apply (md5_file 3 dirty "foo" ["ab"; "c"] abc_env (Sys _ _ tt []) 5 dirty_ok);
    [done | done | | cbn; lia]. unfold strlen. cbn. repeat split; done.
Defined.
