(* ===== verification/Draw.v ===== *)
(** * charge_only_mode: drawing and the framebuffer
    ([src/charge_only_mode/draw.c] and [screen.c])

    Memory is a list of 16-bit values; an access outside of it is [None].  The
    pictures are data that zlib unpacks: a picture is its size and its unpacked
    contents. *)

From S2P Require Import Prelude.
From S2P Require Import CString.

(** ** Memory *)

(** [memcpy(buf + pos, row, ...)] *)
Definition put (buf : list Z) (pos : Z) (row : list Z) : option (list Z) :=
  if (0 <=? pos) && (pos + Z.of_nat (length row) <=? Z.of_nat (length buf)) then
    Some (take (Z.to_nat pos) buf ++ row ++ drop (Z.to_nat pos + length row) buf)
  else None.

(** [n] values from position [pos] on. *)
Definition get_row (buf : list Z) (pos n : Z) : option (list Z) :=
  if (0 <=? pos) && (0 <=? n) && (pos + n <=? Z.of_nat (length buf)) then
    Some (take (Z.to_nat n) (drop (Z.to_nat pos) buf))
  else None.

(** One value. *)
Definition peek (buf : list Z) (pos : Z) : option Z :=
  if 0 <=? pos then buf !! Z.to_nat pos else None.

(** ** Pictures *)

(** [bits] holds 16-bit pixels, or the bytes of an alpha or intensity plane. *)
Record asset := Asset { w : Z; h : Z; bits : list Z }.

(** [screen_size.h]: where the battery is on the background picture *)
Record screen_size := ScreenSize { PNG_TOP : Z; PNG_BOTTOM : Z; PNG_LEFT : Z }.

(** The pictures of the headers that [draw.c] includes, from one of the three
    directories that [Android.mk] chooses from; the lists hold the animation frames and
    the digits. *)
Record art := Art {
  battery_charge_background : asset;
  battery_green_img : asset; battery_green_ani : list asset;
  battery_orange_img : asset; battery_orange_ani : list asset;
  battery_red_img : asset; battery_red_ani : list asset;
  ic_pane_battery_charge_a : asset; ic_pane_battery_charge_i : asset;
  ic_pane_battery_complete_a : asset; ic_pane_battery_complete_i : asset;
  ic_pane_battery_error_a : asset; ic_pane_battery_error_i : asset;
  battery_numbers_a : list asset; battery_numbers_i : list asset;
  battery_numbers_percentage_a : asset; battery_numbers_percentage_i : asset;
  png : screen_size }.

(** *** Loading *)

(** A picture as the headers have it: its size, what zlib unpacks of it, and what
    the memory that [malloc] delivers for it holds. *)
Record packed := Packed { k_w : Z; k_h : Z; k_pixels : list Z; k_heap : list Z }.

(** [n] values of fresh memory. *)
Definition fresh (n : Z) (heap : list Z) : list Z :=
  take (Z.to_nat n) (heap ++ replicate (Z.to_nat n) 0).

(** The result is the unpacked canvas; zlib delivers at most [w * h] pixels. *)
Definition load_asset_at (k : packed) (canvas_h y0 : Z) : option (list Z) :=
  let n := k_w k * canvas_h in
  let b := if canvas_h =? k_h k then fresh n (k_heap k) else replicate (Z.to_nat n) 0xffff in
  put b (y0 * k_w k) (take (Z.to_nat (k_w k * k_h k)) (k_pixels k)).

Definition load_asset (k : packed) : option asset :=
  b ← load_asset_at k (k_h k) 0;
  Some (Asset (k_w k) (k_h k) b).

(** A transparent pixel shows the frame before; [i] counts the pixels. *)
Fixpoint patch (l : list Z) (prev : list Z) (i : Z) : option (list Z) :=
  match l with
  | [] => Some []
  | x :: l =>
      y ← (if x =? 0xffff then peek prev i else Some x);
      l ← patch l prev (i + 1);
      Some (y :: l)
  end.

(** The frames after the first one, each forced to the height of the first. *)
Fixpoint load_frames (l : list packed) (h0 : Z) (prev : asset) : option (list asset) :=
  match l with
  | [] => Some []
  | k :: l =>
      b ← load_asset_at k h0 1;
      row ← get_row b 0 (k_w k * h prev);
      pixels ← patch row (bits prev) 0;
      let a := Asset (k_w k) (h prev) (pixels ++ drop (length row) b) in
      rest ← load_frames l h0 a;
      Some (a :: rest)
  end.

Definition load_anim_asset (l : list packed) : option (list asset) :=
  match l with
  | [] => Some []
  | k :: l =>
      a ← load_asset k;
      rest ← load_frames l (k_h k) a;
      Some (a :: rest)
  end.

(** ** Copying and blending *)

(** [n] rows of [rw] pixels from [s] to [t], which advances by [width]; [step]
    is what the source pointer advances by. *)
Fixpoint copy_rows (n : nat) (width rw step : Z) (buf : list Z) (t : Z)
    (src : list Z) (s : Z) : option (list Z) :=
  match n with
  | O => Some buf
  | S n =>
      row ← get_row src s rw;
      buf ← put buf t row;
      copy_rows n width rw step buf (t + width) src (s + step)
  end.

Definition blit (width : Z) (buf : list Z) (a : asset) (x y : Z) : option (list Z) :=
  copy_rows (Z.to_nat (h a)) width (w a) (w a) buf (width * y + x) (bits a) 0.

(** The 565 pixel that [ai_blit] stores over [t] for alpha [a] and intensity
    [i]. *)
Definition blend (a i t : Z) : Z :=
  if a =? 255 then
    Z.lor (Z.lor (Z.shiftl (Z.shiftr i 3) 11) (Z.shiftl (Z.shiftr i 2) 5)) (Z.shiftr i 3)
  else
    let r := Z.shiftr t 11 in
    let g := Z.land (Z.shiftr t 5) 0x3f in
    let b := Z.land t 0x1f in
    let r := (Z.shiftr i 3 * a + r * (255 - a)) / 255 in
    let g := (Z.shiftr i 2 * a + g * (255 - a)) / 255 in
    let b := (Z.shiftr i 3 * a + b * (255 - a)) / 255 in
    Z.lor (Z.lor (Z.shiftl r 11) (Z.shiftl g 5)) b.

(** [n] pixels of a row; a transparent pixel is not touched. *)
Fixpoint ai_row (n : nat) (buf : list Z) (t : Z) (pa pi : list Z) (k : Z) : option (list Z) :=
  match n with
  | O => Some buf
  | S n =>
      a ← peek pa k;
      buf ← (if a =? 0 then Some buf else
               i ← peek pi k; old ← peek buf t; put buf t [blend a i old]);
      ai_row n buf (t + 1) pa pi (k + 1)
  end.

Fixpoint ai_rows (n : nat) (width rw : Z) (buf : list Z) (t : Z) (pa pi : list Z) (k : Z)
    : option (list Z) :=
  match n with
  | O => Some buf
  | S n =>
      buf ← ai_row (Z.to_nat rw) buf t pa pi k;
      ai_rows n width rw buf (t + width) pa pi (k + rw)
  end.

Definition ai_blit (width : Z) (buf : list Z) (a i : asset) (x y : Z) : option (list Z) :=
  ai_rows (Z.to_nat (h i)) width (w i) buf (width * y + x) (bits a) (bits i) 0.

(** ** The picture *)

Section Draw.
(** The pictures, and what [draw_init] was called with. *)
Context (p : art) (fb_width fb_height fb_size : Z).

Definition battery_pictures (percent : Z) : asset * list asset :=
  if percent <=? 10 then (battery_red_img p, battery_red_ani p)
  else if percent <? 30 then (battery_orange_img p, battery_orange_ani p)
  else (battery_green_img p, battery_green_ani p).

Definition desired_ic_pane (percent : Z) (error : bool) : asset * asset :=
  if error then (ic_pane_battery_error_a p, ic_pane_battery_error_i p)
  else if percent <? 100 then (ic_pane_battery_charge_a p, ic_pane_battery_charge_i p)
  else (ic_pane_battery_complete_a p, ic_pane_battery_complete_i p).

(** The offset of the centred background. *)
Definition off_y : Z := Z.quot (fb_height - h (battery_charge_background p)) 2.
Definition off_x : Z := Z.quot (fb_width - w (battery_charge_background p)) 2.

(** [int fill_height_pixels] *)
Definition fill_height (percent : Z) : Z :=
  Z.quot (percent * ((PNG_BOTTOM (png p) + off_y) - (PNG_TOP (png p) + off_y))) 100.

(** "Fill it up!" *)
Definition draw_fill (percent : Z) (img ani : asset) (buf : list Z) : option (list Z) :=
  let top := PNG_TOP (png p) + off_y in
  let bottom := PNG_BOTTOM (png p) + off_y in
  let left := PNG_LEFT (png p) + off_x in
  let y := bottom - fill_height percent in
  buf ← copy_rows (Z.to_nat (bottom - y)) fb_width (w img) 0 buf (fb_width * y + left)
          (bits img) 0;
  let y := Z.max top (bottom - fill_height percent - h ani) in
  if percent <? 100 then
    copy_rows (Z.to_nat (h ani)) fb_width (w ani) (w ani) buf (fb_width * y + left)
      (bits ani) 0
  else Some buf.

(** The digits [s] of the percentage. *)
Definition percent_digits (percent : Z) : list Z :=
  (if percent =? 100 then [1] else []) ++
  (if 10 <=? percent then [Z.rem (Z.quot percent 10) 10] else []) ++ [Z.rem percent 10].

Fixpoint draw_digits (l : list Z) (buf : list Z) (x dx y : Z) : option (list Z) :=
  match l with
  | [] => ai_blit fb_width buf (battery_numbers_percentage_a p) (battery_numbers_percentage_i p) x y
  | d :: l =>
      na ← (if 0 <=? d then battery_numbers_a p !! Z.to_nat d else None);
      ni ← (if 0 <=? d then battery_numbers_i p !! Z.to_nat d else None);
      buf ← ai_blit fb_width buf na ni x y;
      draw_digits l buf (x + dx) dx y
  end.

Definition draw_percentage (percent : Z) (buf : list Z) : option (list Z) :=
  first ← battery_numbers_i p !! 0%nat;
  let s := percent_digits percent in
  let dx := w first + 2 in
  let x := Z.quot (fb_width - Z.of_nat (length s) * dx) 2 + 1 in
  let y := Z.quot (fb_height + h (battery_charge_background p)) 2 - 10 in
  draw_digits s buf x dx y.

(** [frame] is the static counter, an [int] that the program does not live long enough
    to let overflow: it counts updates of the screen. *)
Definition draw (frame : nat) (percent : Z) (error : bool) (color_channel : list Z)
    : option (list Z) :=
  let '(battery_img, anis) := battery_pictures percent in
  battery_ani ← anis !! (frame `mod` 4)%nat;
  let '(pane_a, pane_i) := desired_ic_pane percent error in
  buf ← put color_channel 0 (replicate (Z.to_nat (fb_size / 2)) 0);
  buf ← blit fb_width buf (battery_charge_background p) off_x off_y;
  buf ← (if error then Some buf else draw_fill percent battery_img battery_ani buf);
  buf ← ai_blit fb_width buf pane_a pane_i
          (Z.quot (fb_width - w pane_i) 2) (Z.quot (fb_height - h pane_i) 2);
  if error then Some buf else draw_percentage percent buf.
End Draw.

(** ** The framebuffer *)

(** The pictures that [draw_init] loads, by name: the background, the full pictures
    and the animations of the three colours, and pairs of an alpha and an
    intensity plane. *)
Inductive colour := Green | Orange | Red.
Inductive plane := Alpha | Intensity.
Inductive pane := Charge | Complete | Error.

Inductive picture :=
  | Background
  | Img (c : colour)
  | Ani (c : colour) (k : nat)
  | Pane (p : pane) (l : plane)
  | Digit (d : nat) (l : plane)
  | Percentage (l : plane).

#[export] Instance colour_eq_dec : EqDecision colour.
Proof. solve_decision. Defined.
#[export] Instance plane_eq_dec : EqDecision plane.
Proof. solve_decision. Defined.
#[export] Instance pane_eq_dec : EqDecision pane.
Proof. solve_decision. Defined.
#[export] Instance picture_eq_dec : EqDecision picture.
Proof. solve_decision. Defined.

(** In the order of [draw_init] and [draw_uninit] *)
Definition pictures (p : art) : list picture :=
  [Background; Img Green] ++ (Ani Green <$> seq 0 (length (battery_green_ani p)))
  ++ [Img Orange] ++ (Ani Orange <$> seq 0 (length (battery_orange_ani p)))
  ++ [Img Red] ++ (Ani Red <$> seq 0 (length (battery_red_ani p)))
  ++ [Pane Charge Alpha; Pane Charge Intensity; Pane Complete Alpha; Pane Complete Intensity;
      Pane Error Alpha; Pane Error Intensity]
  ++ (d ← seq 0 10; [Digit d Alpha; Digit d Intensity])
  ++ [Percentage Alpha; Percentage Intensity].

Inductive screen_call :=
  | Open (path : string)
  | Close (fd : Z)
  | Ioctl_kdsetmode (fd : Z)
  | Ioctl_get_fscreeninfo (fd : Z)
  | Ioctl_get_vscreeninfo (fd : Z)
  | Ioctl_put_vscreeninfo (fd yoffset : Z)
  | Mmap (fd len : Z)
  | Munmap (len : Z)
  | Malloc (len : Z)
  | Fstat (fd : Z)
  | Load_picture (p : picture)   (* [__load_asset]: memory and zlib *)
  | Free_picture (p : picture).

(** [struct FB] with the fields of [fi] and [vi] that the code uses, the second
    surface, and the static variables of [screen.c] and [draw.c].  [fb_bits] is
    the mapped memory in 16-bit units. *)
Record screen_vars := ScreenVars {
  fb_bits : list Z;
  fb_fd : Z;
  line_length : Z;
  smem_len : Z;
  yres : Z;
  yres_virtual : Z;
  yoffset : Z;
  bits_per_pixel : Z;
  mem_surface : list Z;
  blank : bool;
  frame : nat;
  draw_width : Z;
  draw_height : Z;
  draw_size : Z;
  loaded : list picture;       (* the pictures whose [bits] is not NULL *)
  draw_initialized : bool }.

#[export] Instance eta_screen_vars : Eta screen_vars := fun v =>
  ScreenVars (fb_bits v) (fb_fd v) (line_length v) (smem_len v) (yres v) (yres_virtual v)
    (yoffset v) (bits_per_pixel v) (mem_surface v) (blank v) (frame v) (draw_width v)
    (draw_height v) (draw_size v) (loaded v) (draw_initialized v).

Abbreviation scr A := (prog screen_call screen_vars A).

(** The macros [fb_width] and [fb_size]. *)
Definition fbm_width (v : screen_vars) : Z := line_length v / (bits_per_pixel v / 8).
Definition fbm_size (v : screen_vars) : Z := line_length v * yres v.

Definition vt_set_mode : scr Z :=
  o ← call (Open "/dev/tty0");
  if r_ret o <? 0 then mret (-1) else
  r ← call (Ioctl_kdsetmode (r_ret o));
  call (Close (r_ret o)) ;;
  mret (r_ret r).

(** The answers carry the fields of the two structures and the mapped memory,
    of [smem_len] bytes; MAP_FAILED is -1. *)
Definition fb_open : scr Z :=
  vt_set_mode ;;
  o ← call (Open "/dev/graphics/fb0");
  let fd := r_ret o in
  modify (fun v => v <| fb_fd := fd |>) ;;
  if fd <? 0 then mret (-1) else
  f ← call (Ioctl_get_fscreeninfo fd);
  if r_ret f <? 0 then call (Close fd) ;; mret (-1) else
  modify (fun v => v <| line_length := aux 0 f |> <| smem_len := aux 1 f |>) ;;
  x ← call (Ioctl_get_vscreeninfo fd);
  if r_ret x <? 0 then call (Close fd) ;; mret (-1) else
  modify (fun v => v <| yres := aux 0 x |> <| yres_virtual := aux 1 x |>
                     <| yoffset := aux 2 x |> <| bits_per_pixel := aux 3 x |>) ;;
  m ← call (Mmap fd (aux 1 f));
  if r_ret m =? -1 then call (Close fd) ;; mret (-1) else
  modify (fun v => v <| fb_bits := take (Z.to_nat (smem_len v / 2))
            (r_aux m ++ replicate (Z.to_nat (smem_len v / 2)) 0) |>) ;;
  mret 0.

Definition fb_close : scr unit :=
  v ← gets id;
  call (Munmap (fbm_size v)) ;; call (Close (fb_fd v)) ;; mret tt.

(** *** [draw_init] and [draw_uninit] *)

(** [unload_asset] *)
Definition unload_asset (p : picture) : scr unit :=
  v ← gets id;
  when (bool_decide (p ∈ loaded v)) (call (Free_picture p) ;; mret tt) ;;
  modify (fun v => v <| loaded := filter (fun q => q <> p) (loaded v) |>).

Definition draw_uninit (p : art) : scr unit :=
  for_each (pictures p) unload_asset ;;
  modify (fun v => v <| draw_initialized := false |>).

(** Load one picture after the other until one fails. *)
Fixpoint load_pictures (l : list picture) : scr bool :=
  match l with
  | [] => mret true
  | p :: l =>
      r ← call (Load_picture p);
      if negb (r_ret r =? 0) then mret false
      else modify (fun v => v <| loaded := loaded v ++ [p] |>) ;; load_pictures l
  end.

(** [None] is the failing assertion. *)
Definition draw_init (p : art) (width height size : Z) : scr (option Z) :=
  modify (fun v => v <| draw_width := width |> <| draw_height := height |>
                     <| draw_size := size |>) ;;
  v ← gets id;
  if draw_initialized v then mret None else
  ok ← load_pictures (pictures p);
  if ok : bool then modify (fun v => v <| draw_initialized := true |>) ;; mret (Some 0)
  else draw_uninit p ;; mret (Some (-1)).

(** The new surface holds what [malloc] delivers. *)
Definition screen_init (p : art) : scr (option Z) :=
  r ← fb_open;
  if negb (r =? 0) then mret (Some (-1)) else
  v ← gets id;
  m ← call (Malloc (fbm_size v));
  modify (fun v => v <| mem_surface := take (Z.to_nat (fbm_size v / 2))
            (r_aux m ++ replicate (Z.to_nat (fbm_size v / 2)) 0) |>) ;;
  v ← gets id;
  a ← draw_init p (fbm_width v) (yres v) (fbm_size v);
  match a with
  | None => mret None
  | Some a => if negb (a =? 0) then fb_close ;; mret (Some (-1)) else mret (Some 0)
  end.

(** *** Flipping *)

(** The 32-bit pixel of a 565 pixel. *)
Definition expand565 (x : Z) : Z :=
  let r5 := Z.land (Z.shiftr x 11) 0x1F in
  let red := Z.lor (Z.shiftl r5 3) (Z.shiftr r5 2) in
  let g6 := Z.land (Z.shiftr x 5) 0x3F in
  let green := Z.lor (Z.shiftl g6 2) (Z.shiftr g6 4) in
  let b5 := Z.land x 0x1F in
  let blue := Z.lor (Z.shiftl b5 3) (Z.shiftr b5 2) in
  Z.lor (Z.lor (Z.lor (Z.shiftl 0xff 24) (Z.shiftl red 16)) (Z.shiftl green 8)) blue.

(** A 32-bit word in memory: the low half first. *)
Definition word32 (x : Z) : list Z := [Z.land x 0xFFFF; Z.shiftr x 16].

(** [pos] counts 16-bit units; [android_memset32] of four bytes stores one
    word. *)
Fixpoint flip_32 (n : nat) (fb : list Z) (pos : Z) (ptr : list Z) (i : Z) : option (list Z) :=
  match n with
  | O => Some fb
  | S n =>
      x ← peek ptr i;
      fb ← put fb pos (word32 (expand565 x));
      flip_32 n fb (pos + 2) ptr (i + 1)
  end.

(** The copy of the surface to the page at [yoffset]. *)
Definition flip_page (v : screen_vars) : option (list Z) :=
  if bits_per_pixel v =? 16 then
    row ← get_row (mem_surface v) 0 (line_length v * yres v / 2);
    put (fb_bits v) (yoffset v * fbm_width v) row
  else
    flip_32 (Z.to_nat (line_length v / (bits_per_pixel v / 8) * yres v)) (fb_bits v)
      (2 * (yoffset v * fbm_width v)) (mem_surface v) 0.

(** [None]: an access outside the surface or the framebuffer. *)
Definition screen_update (p : art) (percentage : Z) (error : bool) : scr (option Z) :=
  modify (fun v => v <| yres_virtual := yres v * 2 |>) ;;
  modify (fun v => v <| yoffset := if yoffset v =? 0 then yres v else 0 |>) ;;
  v ← gets id;
  match draw p (draw_width v) (draw_height v) (draw_size v) (frame v) percentage error
          (mem_surface v) with
  | None => mret None
  | Some surface =>
      modify (fun v => v <| mem_surface := surface |> <| frame := S (frame v) |>) ;;
      v ← gets id;
      match flip_page v with
      | None => mret None
      | Some fb =>
          modify (fun v => v <| fb_bits := fb |>) ;;
          when (negb (blank v)) (call (Ioctl_put_vscreeninfo (fb_fd v) (yoffset v)) ;; mret tt) ;;
          mret (Some 0)
      end
  end.

(** *** The start picture *)

(** The decoding loop over the runs [n, pixel]; [max] is the room left. *)
Fixpoint rle_loop (data : list Z) (max : Z) (fb : list Z) (pos : Z) : option (list Z) :=
  match data with
  | n :: x :: data =>
      if max <? n then Some fb else
      fb ← put fb pos (replicate (Z.to_nat n) x);
      rle_loop data (max - n) fb (pos + n)
  | _ => Some fb
  end.

(** Decode to the first page and copy it to the second one. *)
Definition rle_pages (data : list Z) (v : screen_vars) : option (list Z) :=
  let size := fbm_width v * yres v in
  fb ← rle_loop data size (fb_bits v) 0;
  page ← get_row fb 0 size;
  put fb (yres v * fbm_width v) page.

(** The mapping answers with the 16-bit values of the file. *)
Definition show_565rle (fn : string) : scr (option Z) :=
  o ← call (Open fn);
  let fd := r_ret o in
  if fd <? 0 then mret (Some (-1)) else
  s ← call (Fstat fd);
  if r_ret s <? 0 then call (Close fd) ;; mret (Some (-1)) else
  m ← call (Mmap fd (aux 0 s));
  if r_ret m =? -1 then call (Close fd) ;; mret (Some (-1)) else
  v ← gets id;
  match rle_pages (take (2 * Z.to_nat (aux 0 s / 4)) (r_aux m)) v with
  | None => mret None
  | Some fb =>
      modify (fun v => v <| fb_bits := fb |>) ;;
      modify (fun v => v <| yres_virtual := yres v * 2 |>) ;;
      modify (fun v => v <| yoffset := if yoffset v =? 0 then yres v else 0 |>) ;;
      modify (fun v => v <| bits_per_pixel := 16 |>) ;;
      v ← gets id;
      call (Ioctl_put_vscreeninfo (fb_fd v) (yoffset v)) ;;
      call (Munmap (aux 0 s)) ;; call (Close fd) ;;
      mret (Some 0)
  end.

Definition screen_uninit (p : art) : scr (option unit) :=
  r ← show_565rle "/initlogo.rle";
  match r with
  | None => mret None
  | Some _ => fb_close ;; draw_uninit p ;; mret (Some tt)
  end.
