(* ===== verification/DrawThms.v ===== *)
(** * charge_only_mode: the drawing stays on the surface, the flip is exact *)

From S2P Require Import Prelude.
From S2P Require Import CString.
From S2P Require Import Draw.

(** ** Memory *)

Abbreviation zlen l := (Z.of_nat (length l)).

(** [m] is a write that stays inside memory: it gives memory of the same
    size. *)
Definition writes (m : option (list Z)) (buf : list Z) : Prop :=
  exists buf', m = Some buf' /\ length buf' = length buf.

Lemma writes_same buf : writes (Some buf) buf.
Proof. by exists buf. Qed.

Lemma writes_bind m k buf :
  writes m buf -> (forall b, length b = length buf -> writes (k b) buf) -> writes (m ≫= k) buf.
Proof. intros (b & -> & Hb) Hk. by apply Hk. Qed.

Lemma writes_length m b buf : length b = length buf -> writes m b -> writes m buf.
Proof. intros H (b' & -> & Hb'). exists b'. split; [done|congruence]. Qed.

Lemma put_writes buf pos row : 0 <= pos -> pos + zlen row <= zlen buf -> writes (put buf pos row) buf.
Proof.
  intros H1 H2. unfold put. rewrite (proj2 (Z.leb_le _ _) H1), (proj2 (Z.leb_le _ _) H2).
  eexists. split; [done|]. rewrite !length_app, length_take, length_drop. lia.
Qed.

Lemma get_row_some src s n : 0 <= s -> 0 <= n -> s + n <= zlen src ->
  exists row, get_row src s n = Some row /\ zlen row = n.
Proof.
  intros H1 H2 H3. unfold get_row.
  rewrite (proj2 (Z.leb_le _ _) H1), (proj2 (Z.leb_le _ _) H2), (proj2 (Z.leb_le _ _) H3).
  eexists. split; [done|]. rewrite length_take, length_drop. lia.
Qed.

Lemma peek_some buf k : 0 <= k < zlen buf -> is_Some (peek buf k).
Proof.
  intros H. unfold peek. rewrite (proj2 (Z.leb_le 0 k)) by lia. apply lookup_lt_is_Some. lia.
Qed.

Lemma ai_row_writes n buf t pa pi k :
  0 <= t -> t + Z.of_nat n <= zlen buf -> 0 <= k ->
  k + Z.of_nat n <= zlen pa -> k + Z.of_nat n <= zlen pi ->
  writes (ai_row n buf t pa pi k) buf.
Proof.
  revert buf t k. induction n as [|n IH]; intros buf t k Ht Hb Hk Ha Hi; [apply writes_same|].
  cbn [ai_row]. destruct (peek_some pa k) as [a ->]; [lia|]. cbn. apply writes_bind.
  - destruct (a =? 0); [apply writes_same|].
    destruct (peek_some pi k) as [i ->]; [lia|]. cbn.
    destruct (peek_some buf t) as [old ->]; [lia|]. cbn. apply put_writes; cbn; lia.
  - intros b Hbl. apply (writes_length _ b); [done|]. apply IH; lia.
Qed.

(** ** Rectangles *)

Section Rect.
Context (width height : Z) (n0 : nat).
(** The surface has room for [height] rows of [width] pixels. *)
Context (Hroom : 0 <= width * height <= Z.of_nat n0) (Hw : 0 <= width).

Definition rect_ok (x y rw rh : Z) : Prop :=
  0 <= x /\ 0 <= rw /\ x + rw <= width /\ 0 <= y /\ y + Z.max 0 rh <= height.

Lemma rect_row x y rw rh k : rect_ok x y rw rh -> 0 <= k < rh ->
  0 <= width * y + x + k * width /\ width * y + x + k * width + rw <= Z.of_nat n0.
Proof using Hroom Hw.
  intros (H1 & H2 & H3 & H4 & H5) Hk.
  assert (width * y + k * width = width * (y + k)) as E by lia.
  assert (0 <= width * (y + k)) by (apply Z.mul_nonneg_nonneg; lia).
  assert (width * (y + k + 1) <= width * height) by (apply Z.mul_le_mono_nonneg_l; lia).
  assert (width * (y + k + 1) = width * (y + k) + width) by lia.
  lia.
Qed.

Lemma copy_rows_writes n rw step buf t src s :
  length buf = n0 -> 0 <= step -> 0 <= s -> 0 <= rw ->
  (forall k, 0 <= k < Z.of_nat n -> 0 <= t + k * width /\ t + k * width + rw <= Z.of_nat n0) ->
  (forall k, 0 <= k < Z.of_nat n -> s + k * step + rw <= zlen src) ->
  writes (copy_rows n width rw step buf t src s) buf.
Proof using Hroom Hw.
  revert buf t s. induction n as [|n IH]; intros buf t s Hl Hst Hs Hrw Ht Hsrc; [apply writes_same|].
  cbn [copy_rows]. specialize (Ht 0) as Ht0. specialize (Hsrc 0) as Hs0.
  destruct (get_row_some src s rw) as (row & -> & Hrow); [lia..|]. cbn.
  apply writes_bind.
  { apply put_writes; rewrite ?Hrow, ?Hl; lia. }
  intros b Hb. apply (writes_length _ b); [done|]. apply IH; [congruence|done|lia|done|..].
  - intros k Hk. specialize (Ht (k + 1)). lia.
  - intros k Hk. specialize (Hsrc (k + 1)). lia.
Qed.

Lemma blit_writes buf a x y :
  length buf = n0 -> rect_ok x y (w a) (h a) -> w a * h a <= zlen (bits a) ->
  writes (blit width buf a x y) buf.
Proof using Hroom Hw.
  intros Hl Hr Hb. unfold blit. pose proof Hr as (? & ? & _).
  apply copy_rows_writes; try done; try lia; intros k Hk.
  - apply (rect_row _ _ _ (h a)); [done|lia].
  - assert (k * w a + w a = w a * (k + 1)) as E by lia.
    assert (w a * (k + 1) <= w a * h a) by (apply Z.mul_le_mono_nonneg_l; lia). lia.
Qed.

Lemma ai_rows_writes n rw buf t pa pi s :
  length buf = n0 -> 0 <= rw -> 0 <= s ->
  (forall k, 0 <= k < Z.of_nat n -> 0 <= t + k * width /\ t + k * width + rw <= Z.of_nat n0) ->
  (forall k, 0 <= k < Z.of_nat n -> s + k * rw + rw <= zlen pa /\ s + k * rw + rw <= zlen pi) ->
  writes (ai_rows n width rw buf t pa pi s) buf.
Proof using Hroom Hw.
  revert buf t s. induction n as [|n IH]; intros buf t s Hl Hrw Hs Ht Hsrc; [apply writes_same|].
  cbn [ai_rows]. specialize (Ht 0) as Ht0. specialize (Hsrc 0) as Hs0.
  apply writes_bind; [apply ai_row_writes; lia|].
  intros b Hb. apply (writes_length _ b); [done|]. apply IH; [congruence|lia..| |].
  - intros k Hk. specialize (Ht (k + 1)). lia.
  - intros k Hk. specialize (Hsrc (k + 1)). lia.
Qed.

Lemma ai_blit_writes buf a i x y :
  length buf = n0 -> rect_ok x y (w i) (h i) ->
  w i * h i <= zlen (bits a) -> w i * h i <= zlen (bits i) ->
  writes (ai_blit width buf a i x y) buf.
Proof using Hroom Hw.
  intros Hl Hr Ha Hi. unfold ai_blit. pose proof Hr as (? & ? & _).
  apply ai_rows_writes; try done; try lia; intros k Hk.
  - apply (rect_row _ _ _ (h i)); [done|lia].
  - assert (k * w i + w i = w i * (k + 1)) as E by lia.
    assert (w i * (k + 1) <= w i * h i) by (apply Z.mul_le_mono_nonneg_l; lia). lia.
Qed.
End Rect.

(** ** The picture *)

(** A picture of this size whose contents are complete. *)
Definition sized (ww hh : Z) (a : asset) : Prop :=
  w a = ww /\ h a = hh /\ ww * hh <= zlen (bits a).

(** The sizes of one set of pictures: of the background, the width of the bar and the
    height of its animated upper edge, the sides of the panes, a digit, and the width of
    the percent sign, which is as high as a digit *)
Record picture_set := PictureSet {
  s_background : Z * Z; s_bar : Z; s_ani : Z; s_pane : Z; s_digit : Z * Z; s_percentage : Z;
  s_png : screen_size }.

(** [src/charge_only_mode/assets], [solana_assets] and [venus2_assets] *)
Definition assets : picture_set :=
  PictureSet (346, 390) 136 16 136 (26, 39) 18 (ScreenSize 62 338 105).
Definition solana_assets : picture_set :=
  PictureSet (346, 390) 136 16 136 (26, 39) 18 (ScreenSize 71 318 105).
Definition venus2_assets : picture_set :=
  PictureSet (220, 248) 86 10 90 (17, 26) 12 (ScreenSize 45 203 67).

Definition picture_sets : list picture_set := [assets; solana_assets; venus2_assets].

(** The pictures have the sizes of the set. *)
Record sized_art (z : picture_set) (p : art) : Prop := SizedArt {
  sa_background : sized (s_background z).1 (s_background z).2 (battery_charge_background p);
  sa_img : Forall (sized (s_bar z) 1) [battery_red_img p; battery_orange_img p; battery_green_img p];
  sa_ani : Forall (fun l => length l = 4%nat /\ Forall (sized (s_bar z) (s_ani z)) l)
    [battery_red_ani p; battery_orange_ani p; battery_green_ani p];
  sa_pane : Forall (sized (s_pane z) (s_pane z))
    [ic_pane_battery_error_a p; ic_pane_battery_error_i p; ic_pane_battery_charge_a p;
     ic_pane_battery_charge_i p; ic_pane_battery_complete_a p; ic_pane_battery_complete_i p];
  sa_digits : Forall (fun l => length l = 10%nat /\ Forall (sized (s_digit z).1 (s_digit z).2) l)
    [battery_numbers_a p; battery_numbers_i p];
  sa_percentage : Forall (sized (s_percentage z) (s_digit z).2)
    [battery_numbers_percentage_a p; battery_numbers_percentage_i p] }.

(** The pictures and the measures of a set of the tree *)
Definition art_of (z : picture_set) (p : art) : Prop :=
  z ∈ picture_sets /\ sized_art z p /\ png p = s_png z.

(** The display has room for the background and the digits below it. *)
Definition display_for (z : picture_set) (W H : Z) : Prop :=
  (s_background z).1 <= W /\ (s_background z).2 + 2 * ((s_digit z).2 - 10) <= H.

(** The pictures of [src/charge_only_mode/assets], whatever [screen_size.h] says *)
Definition default_art (p : art) : Prop := sized_art assets p.

(** The measures of a set fit together. *)
Definition set_fits (z : picture_set) : bool :=
  let '(bw, bh) := s_background z in
  let '(dw, dh) := s_digit z in
  (0 <=? PNG_TOP (s_png z)) && (PNG_TOP (s_png z) + s_ani z <=? PNG_BOTTOM (s_png z))
  && (PNG_BOTTOM (s_png z) <=? bh) && (0 <=? PNG_LEFT (s_png z))
  && (PNG_LEFT (s_png z) + s_bar z <=? bw) && (0 <=? s_bar z) && (0 <=? s_ani z)
  && (0 <=? s_pane z) && (s_pane z <=? bw) && (s_pane z <=? bh)
  && (0 <=? dw) && (10 <=? dh) && (0 <=? s_percentage z)
  && (3 * (dw + 2) + 2 * s_percentage z + 3 <=? bw) && (10 <=? bh).

Lemma sets_fit z : z ∈ picture_sets -> set_fits z = true.
Proof. revert z. apply Forall_forall. by repeat constructor. Qed.

Lemma digit_sized ww hh d l : length l = 10%nat -> Forall (sized ww hh) l -> 0 <= d < 10 ->
  exists a, (if 0 <=? d then l !! Z.to_nat d else None) = Some a /\ sized ww hh a.
Proof.
  intros Hl Hf Hd. rewrite (proj2 (Z.leb_le 0 d)) by lia.
  destruct (lookup_lt_is_Some_2 l (Z.to_nat d)) as [a Ha]; [lia|].
  exists a. split; [done|]. by eapply Forall_lookup_1.
Qed.

Lemma battery_pictures_sized z p percent : sized_art z p ->
  sized (s_bar z) 1 (battery_pictures p percent).1 /\
  length (battery_pictures p percent).2 = 4%nat /\
  Forall (sized (s_bar z) (s_ani z)) (battery_pictures p percent).2.
Proof.
  intros Hp. pose proof (sa_img z p Hp) as H1. pose proof (sa_ani z p Hp) as H2.
  rewrite !Forall_cons in H1. rewrite !Forall_cons in H2. unfold battery_pictures. repeat case_match; cbn; naive_solver.
Qed.

Lemma desired_pane_sized z p percent error : sized_art z p ->
  sized (s_pane z) (s_pane z) (desired_ic_pane p percent error).1 /\
  sized (s_pane z) (s_pane z) (desired_ic_pane p percent error).2.
Proof.
  intros Hp. pose proof (sa_pane z p Hp) as H1. rewrite !Forall_cons in H1.
  unfold desired_ic_pane. repeat case_match; cbn; naive_solver.
Qed.

Lemma percent_digits_range percent : 0 <= percent <= 100 ->
  Forall (fun d => 0 <= d < 10) (percent_digits percent) /\
  (length (percent_digits percent) <= 3)%nat.
Proof.
  intros H. unfold percent_digits. repeat case_match; cbn; (split; [|lia]);
    repeat (apply Forall_cons; split; [dlia|]); done.
Qed.

Lemma share_range percent d : 0 <= percent <= 100 -> 0 <= d -> 0 <= Z.quot (percent * d) 100 <= d.
Proof.
  intros Hp Hd. assert (0 <= percent * d <= 100 * d) as H by nia. split.
  - apply Z.quot_pos; lia.
  - replace d with (Z.quot (100 * d) 100) at 2 by (rewrite Z.mul_comm; by apply Z.quot_mul).
    apply Z.quot_le_mono; lia.
Qed.

(** The measures as numbers *)
Lemma measures z p W H : art_of z p -> display_for z W H -> exists bw bh dw dh top bottom left,
  s_background z = (bw, bh) /\ s_digit z = (dw, dh) /\ png p = ScreenSize top bottom left /\
  bw <= W /\ bh + 2 * (dh - 10) <= H /\
  0 <= top /\ top + s_ani z <= bottom /\ bottom <= bh /\ 0 <= left /\ left + s_bar z <= bw /\
  0 <= s_bar z /\ 0 <= s_ani z /\ 0 <= s_pane z /\ s_pane z <= bw /\ s_pane z <= bh /\
  0 <= dw /\ 10 <= dh /\ 0 <= s_percentage z /\ 3 * (dw + 2) + 2 * s_percentage z + 3 <= bw /\
  10 <= bh.
Proof.
  intros (Hz%sets_fit & _ & ->) [HW HH]. unfold set_fits in Hz.
  destruct (s_background z) as [bw bh], (s_digit z) as [dw dh], (s_png z) as [top bottom left].
  cbn in *. exists bw, bh, dw, dh, top, bottom, left. split_and!; (done || lia).
Qed.

Section Picture.
Context (z : picture_set) (p : art) (W H size : Z) (n0 : nat).
Context (Hp : art_of z p) (HWH : display_for z W H).
Context (Hn : Z.of_nat n0 = size / 2) (Hroom : W * H <= size / 2).

#[local] Lemma room : 0 <= W * H <= Z.of_nat n0.
Proof using Hn Hroom Hp HWH.
  destruct (measures z p W H Hp HWH) as (bw & bh & dw & dh & top & bottom & left & M). split; [|lia].
  apply Z.mul_nonneg_nonneg; lia.
Qed.

Lemma draw_fill_writes percent img ani buf :
  length buf = n0 -> 0 <= percent <= 100 -> sized (s_bar z) 1 img -> sized (s_bar z) (s_ani z) ani ->
  writes (draw_fill p W H percent img ani buf) buf.
Proof using Hp HWH Hn Hroom.
  intros Hl Hpc (Hi1 & Hi2 & Hi3) (Ha1 & Ha2 & Ha3). pose proof room as HR.
  destruct (measures z p W H Hp HWH) as (bw & bh & dw & dh & top & bottom & left & Ebg & _ & Epng & M).
  destruct (sa_background z p (proj1 (proj2 Hp))) as (Hb1 & Hb2 & _). rewrite Ebg in Hb1, Hb2. cbn in Hb1, Hb2.
  assert (0 <= fill_height p H percent <= bottom - top) as Hf.
  { unfold fill_height. rewrite Epng. cbn [PNG_TOP PNG_BOTTOM].
    replace (bottom + off_y p H - (top + off_y p H)) with (bottom - top) by lia.
    apply share_range; lia. }
  assert (0 <= off_y p H /\ off_y p H + bh <= H /\ 0 <= off_x p W /\ off_x p W + bw <= W)
    as Hoff by (unfold off_x, off_y; rewrite Hb1, Hb2; clear - M; dlia).
  unfold draw_fill. cbv zeta. rewrite Epng. cbn [PNG_TOP PNG_BOTTOM PNG_LEFT]. apply writes_bind.
  - apply (copy_rows_writes _ _ n0 HR); try done; try lia; intros k Hk.
    apply (rect_row W H n0 HR ltac:(lia) _ _ _ (fill_height p H percent)); [|lia].
    unfold rect_ok. lia.
  - intros b Hb. case_match; [|by exists b].
    apply (writes_length _ b); [done|].
    apply (copy_rows_writes _ _ n0 HR); try done; try lia; intros k Hk.
    + apply (rect_row W H n0 HR ltac:(lia) _ _ _ (s_ani z)); [|lia]. unfold rect_ok. lia.
    + rewrite Ha1. assert (k * s_bar z + s_bar z = s_bar z * (k + 1)) as E by lia.
      assert (s_bar z * (k + 1) <= s_bar z * s_ani z) by (apply Z.mul_le_mono_nonneg_l; lia). lia.
Qed.

Lemma sized_ai_blit ww hh a i buf x y :
  length buf = n0 -> sized ww hh a -> sized ww hh i -> rect_ok W H x y ww hh ->
  writes (ai_blit W buf a i x y) buf.
Proof using HWH Hp Hn Hroom.
  intros Hl (Ha1 & Ha2 & Ha3) (Hi1 & Hi2 & Hi3) Hr. pose proof room as HR.
  destruct (measures z p W H Hp HWH) as (bw & bh & dw & dh & top & bottom & left & M).
  apply (ai_blit_writes W H n0 HR); [lia|done|by rewrite Hi1, Hi2|by rewrite Hi1, Hi2..].
Qed.

Lemma draw_digits_writes l buf x y :
  let '(dw, dh) := s_digit z in
  length buf = n0 -> Forall (fun d => 0 <= d < 10) l ->
  0 <= x -> x + (dw + 2) * zlen l + s_percentage z <= W -> 0 <= y -> y + dh <= H ->
  writes (draw_digits p W l buf x (dw + 2) y) buf.
Proof using Hp HWH Hn Hroom.
  destruct (measures z p W H Hp HWH) as (bw & bh & dw & dh & top & bottom & left & _ & Ed & _ & M). rewrite Ed.
  pose proof (proj1 (proj2 Hp)) as Hs.
  pose proof (sa_digits z p Hs) as Hd. rewrite !Forall_cons, Ed in Hd.
  destruct Hd as ((Hna & Hfa) & (Hni & Hfi) & _). cbn in Hfa, Hfi.
  pose proof (sa_percentage z p Hs) as Hq. rewrite !Forall_cons, Ed in Hq. destruct Hq as (Hqa & Hqi & _).
  cbn in Hqa, Hqi.
  revert buf x. induction l as [|d l IH]; intros buf x Hl Hds Hx1 Hx2 Hy1 Hy2; cbn [draw_digits].
  - apply (sized_ai_blit (s_percentage z) dh); try done. unfold rect_ok. cbn in Hx2. lia.
  - apply Forall_cons in Hds as [Hd Hds]. cbn [length] in Hx2.
    assert (0 <= (dw + 2) * zlen l) by (apply Z.mul_nonneg_nonneg; lia).
    destruct (digit_sized dw dh d _ Hna Hfa Hd) as (na & -> & Hna').
    destruct (digit_sized dw dh d _ Hni Hfi Hd) as (ni & -> & Hni'). cbn.
    apply writes_bind; [apply (sized_ai_blit dw dh); try done; unfold rect_ok; lia|].
    intros b Hb. apply (writes_length _ b); [done|]. apply IH; try done; try lia.
Qed.

Lemma draw_percentage_writes percent buf : length buf = n0 -> 0 <= percent <= 100 ->
  writes (draw_percentage p W H percent buf) buf.
Proof using Hp HWH Hn Hroom.
  intros Hl Hpc. destruct (percent_digits_range percent Hpc) as [Hrange Hn3].
  pose proof (fun x y => draw_digits_writes (percent_digits percent) buf x y) as Hw.
  destruct (measures z p W H Hp HWH) as (bw & bh & dw & dh & top & bottom & left & Ebg & Ed & _ & M). rewrite Ed in Hw.
  pose proof (proj1 (proj2 Hp)) as Hs. destruct (sa_background z p Hs) as (_ & Hb2 & _).
  pose proof (sa_digits z p Hs) as Hd. rewrite !Forall_cons, Ed in Hd. destruct Hd as (_ & (Hlen & Hf) & _).
  unfold draw_percentage. destruct (lookup_lt_is_Some_2 (battery_numbers_i p) 0) as [d0 Hd0]; [lia|].
  rewrite Hd0. cbn. destruct (Forall_lookup_1 _ _ _ _ Hf Hd0) as (Hdw & _). cbn in Hdw.
  rewrite Ebg in Hb2. cbn in Hb2. rewrite Hdw, Hb2.
  set (n := zlen (percent_digits percent)) in *. assert (0 <= n <= 3) as Hn' by lia.
  assert (0 <= n * (dw + 2) <= 3 * (dw + 2)) as Hmul
    by (split; [apply Z.mul_nonneg_nonneg; lia | apply Z.mul_le_mono_nonneg_r; lia]).
  apply Hw; [done|done|..]; clear - M Hmul; try rewrite (Z.mul_comm (dw + 2) n);
    generalize dependent (n * (dw + 2)); intros; dlia.
Qed.
End Picture.

Lemma draw_writes z p W H size frame percent error surface :
  art_of z p -> display_for z W H ->
  zlen surface = size / 2 -> W * H <= size / 2 -> 0 <= percent <= 100 ->
  writes (draw p W H size frame percent error surface) surface.
Proof.
  intros Hp HWH Hn Hroom Hpc. pose proof (proj1 (proj2 Hp)) as Hs.
  pose proof (room z p W H size _ Hp HWH Hn Hroom) as HR. unfold draw.
  destruct (measures z p W H Hp HWH) as (bw & bh & dw & dh & top & bottom & left & Ebg & _ & _ & M).
  destruct (battery_pictures_sized z p percent Hs) as (Himg & Hlen & Hani).
  destruct (battery_pictures p percent) as [img anis]. cbn [fst snd] in *.
  destruct (lookup_lt_is_Some_2 anis (frame `mod` 4)%nat) as [ani Hani'].
  { rewrite Hlen. by apply Nat.mod_upper_bound. }
  rewrite Hani'. cbn. pose proof (Forall_lookup_1 _ _ _ _ Hani Hani') as Hsz.
  destruct (desired_pane_sized z p percent error Hs) as (Hpa & Hpi).
  destruct (desired_ic_pane p percent error) as [pa pi]. cbn [fst snd] in *.
  apply writes_bind; [apply put_writes; rewrite ?length_replicate; lia|]. intros b1 H1.
  destruct (sa_background z p Hs) as (Hb1 & Hb2 & Hb3). rewrite Ebg in Hb1, Hb2, Hb3.
  cbn in Hb1, Hb2, Hb3. apply writes_bind.
  { apply (writes_length _ b1); [done|]. apply (blit_writes W H _ HR); [lia|done| |].
    - unfold rect_ok, off_x, off_y. rewrite Hb1, Hb2. clear - M. dlia.
    - by rewrite Hb1, Hb2. }
  intros b2 H2. apply writes_bind.
  { destruct error; [by exists b2|]. apply (writes_length _ b2); [done|].
    by eapply (draw_fill_writes z p W H size (length surface)). }
  intros b3 H3. destruct Hpi as (Hi1 & Hi2 & Hi3). apply writes_bind.
  { apply (writes_length _ b3); [done|].
    apply (sized_ai_blit z p W H size (length surface) Hp HWH Hn Hroom (s_pane z) (s_pane z)); try done.
    unfold rect_ok. rewrite Hi1, Hi2. clear - M. dlia. }
  intros b4 H4. destruct error; [by exists b4|]. apply (writes_length _ b4); [done|].
  apply (draw_percentage_writes z p W H size (length surface)); done.
Qed.

(** C19.  Drawing stays on the surface: with each of the three sets of pictures that the
    build can choose, on every display with room for the background picture and the
    digits below it (346 by 448 pixels, or 220 by 280 for the smallest set), for every
    charge from 0 to 100, in every frame of the animation and with or without the error
    sign, [draw] neither writes outside the surface nor reads outside a picture. *)
Theorem draw_in_bounds z p W H size frame percent error surface :
  art_of z p -> display_for z W H ->
  zlen surface = size / 2 -> W * H <= size / 2 -> 0 <= percent <= 100 ->
  exists picture, draw p W H size frame percent error surface = Some picture /\
    length picture = length surface.
Proof. intros. by apply (draw_writes z). Qed.

(** ** Writing and reading back *)

Lemma put_some buf pos row b : put buf pos row = Some b ->
  0 <= pos /\ pos + zlen row <= zlen buf /\ length b = length buf.
Proof.
  unfold put. destruct (_ && _) eqn:E; [|done]. intros [= <-].
  rewrite !length_app, length_take, length_drop. lia.
Qed.

Lemma put_lookup buf pos row b i : put buf pos row = Some b ->
  b !! i = if decide (Z.to_nat pos <= i < Z.to_nat pos + length row)%nat
           then row !! (i - Z.to_nat pos)%nat else buf !! i.
Proof.
  intros Hb. pose proof (put_some _ _ _ _ Hb) as (H1 & H2 & _). revert Hb.
  unfold put. destruct (_ && _); [|done]. intros [= <-].
  assert (length (take (Z.to_nat pos) buf) = Z.to_nat pos) as Hl by (rewrite length_take; lia).
  case_decide as Hd.
  - rewrite lookup_app_r, Hl by lia. by rewrite lookup_app_l by lia.
  - destruct (decide (i < Z.to_nat pos)%nat) as [Hi|Hi].
    + rewrite lookup_app_l by lia. by apply lookup_take_lt.
    + rewrite lookup_app_r, Hl by lia. rewrite lookup_app_r by lia.
      rewrite lookup_drop. f_equal. lia.
Qed.

Lemma get_put_same buf pos row b : put buf pos row = Some b ->
  get_row b pos (zlen row) = Some row.
Proof.
  intros Hb. pose proof (put_some _ _ _ _ Hb) as (H1 & H2 & H3). unfold get_row. rewrite H3.
  rewrite !(proj2 (Z.leb_le _ _)) by lia. cbn [andb]. f_equal. apply list_eq. intros i.
  rewrite Nat2Z.id. destruct (decide (i < length row)%nat) as [Hi|Hi].
  - rewrite lookup_take_lt by done. rewrite lookup_drop, (put_lookup _ _ _ _ _ Hb).
    rewrite decide_True by lia. f_equal. lia.
  - rewrite lookup_take_ge by lia. symmetry. apply lookup_ge_None. lia.
Qed.

Lemma get_put_other buf pos row b q n : put buf pos row = Some b ->
  0 <= q -> q + n <= pos \/ pos + zlen row <= q -> get_row b q n = get_row buf q n.
Proof.
  intros Hb Hq Hdis. pose proof (put_some _ _ _ _ Hb) as (H1 & H2 & H3). unfold get_row.
  rewrite H3. destruct (_ && _) eqn:E; [|done]. f_equal. apply list_eq. intros i.
  destruct (decide (i < Z.to_nat n)%nat) as [Hi|Hi].
  - rewrite !lookup_take_lt by done. rewrite !lookup_drop, (put_lookup _ _ _ _ _ Hb).
    by rewrite decide_False by lia.
  - by rewrite !lookup_take_ge by lia.
Qed.

Lemma put_put buf pos r1 r2 b :
  put buf pos r1 = Some b -> pos + zlen r1 + zlen r2 <= zlen buf ->
  put b (pos + zlen r1) r2 = put buf pos (r1 ++ r2).
Proof.
  intros Hb Hr. pose proof (put_some _ _ _ _ Hb) as (H1 & H2 & H3).
  destruct (put_writes b (pos + zlen r1) r2) as (b1 & E1 & L1); [lia..|].
  destruct (put_writes buf pos (r1 ++ r2)) as (b2 & E2 & L2); [lia|rewrite length_app; lia|].
  rewrite E1, E2. f_equal. apply list_eq. intros i.
  rewrite (put_lookup _ _ _ _ _ E1), (put_lookup _ _ _ _ _ E2), (put_lookup _ _ _ _ _ Hb).
  rewrite length_app. repeat case_decide; try lia; try done.
  - rewrite lookup_app_r by lia. f_equal. lia.
  - by rewrite lookup_app_l by lia.
Qed.

(** ** Flipping *)

(** The 32-bit pixels of a surface, in memory. *)
Definition expanded (l : list Z) : list Z := l ≫= (fun x => word32 (expand565 x)).

Lemma expanded_length l : length (expanded l) = (2 * length l)%nat.
Proof. unfold expanded. induction l as [|x l IH]; [done|]. cbn. rewrite IH. lia. Qed.

Lemma put_nil buf pos : 0 <= pos <= zlen buf -> put buf pos [] = Some buf.
Proof.
  intros H. destruct (put_writes buf pos []) as (b & E & L); [lia|cbn; lia|]. rewrite E. f_equal.
  apply list_eq. intros i. rewrite (put_lookup _ _ _ _ _ E). cbn. by rewrite decide_False by lia.
Qed.

(** [flip_32] stores the expanded pixels one after the other. *)
Lemma flip_32_spec n fb pos ptr i :
  0 <= i -> i + Z.of_nat n <= zlen ptr -> 0 <= pos -> pos + 2 * Z.of_nat n <= zlen fb ->
  flip_32 n fb pos ptr i = put fb pos (expanded (take n (drop (Z.to_nat i) ptr))).
Proof.
  revert fb pos i. induction n as [|n IH]; intros fb pos i Hi Hptr Hpos Hfb; cbn [flip_32].
  { symmetry. apply put_nil. lia. }
  destruct (peek_some ptr i) as [x Hx]; [lia|]. rewrite Hx. cbn.
  assert (drop (Z.to_nat i) ptr = x :: drop (Z.to_nat (i + 1)) ptr) as Hdr.
  { unfold peek in Hx. rewrite (proj2 (Z.leb_le 0 i) Hi) in Hx.
    rewrite Z2Nat.inj_add by lia. change (Z.to_nat 1) with 1%nat. rewrite Nat.add_1_r.
    by apply drop_S. }
  rewrite Hdr. cbn [take].
  destruct (put_writes fb pos (word32 (expand565 x))) as (b & Eb & Lb); [done|cbn; lia|].
  rewrite Eb. cbn. rewrite IH by lia. change (pos + 2) with (pos + zlen (word32 (expand565 x))).
  rewrite (put_put _ _ _ _ _ Eb); [done|]. rewrite expanded_length, length_take, length_drop.
  cbn. lia.
Qed.

(** The five and six significant bits of each colour are kept. *)
Definition back565 (y : Z) : Z :=
  Z.lor (Z.lor (Z.shiftl (Z.land (Z.shiftr y 19) 0x1F) 11)
               (Z.shiftl (Z.land (Z.shiftr y 10) 0x3F) 5))
        (Z.land (Z.shiftr y 3) 0x1F).

(** [f] holds of the [n] integers from [x] on. *)
Fixpoint all_from (n : nat) (x : Z) (f : Z -> bool) : bool :=
  match n with O => true | S n => f x && all_from n (x + 1) f end.

Lemma all_from_spec n x f y : all_from n x f = true -> x <= y < x + Z.of_nat n -> f y = true.
Proof.
  revert x. induction n as [|n IH]; intros x; cbn [all_from]; [lia|].
  intros [Hx Hn]%andb_true_iff Hy. destruct (decide (x = y)) as [<-|]; [done|].
  apply (IH (x + 1)); [done|lia].
Qed.

Lemma expand565_back x : 0 <= x < 65536 ->
  back565 (expand565 x) = x /\ Z.shiftr (expand565 x) 24 = 255.
Proof.
  intros Hx. assert (((back565 (expand565 x) =? x) && (Z.shiftr (expand565 x) 24 =? 255)) = true).
  { apply (all_from_spec (Z.to_nat 65536) 0 (fun x => (back565 (expand565 x) =? x) &&
      (Z.shiftr (expand565 x) 24 =? 255))); [by vm_compute|lia]. }
  lia.
Qed.

(** A framebuffer with two pages, as [screen_init] leaves it. *)
Record screen_ok (v : screen_vars) : Prop := ScreenOk {
  ok_depth : bits_per_pixel v = 16 \/ bits_per_pixel v = 32;
  ok_line : line_length v mod 4 = 0;
  ok_width : 0 < fbm_width v;
  ok_height : 0 < yres v;
  ok_surface : zlen (mem_surface v) = fbm_size v / 2;
  ok_pages : fbm_size v <= zlen (fb_bits v);
  ok_draw : draw_width v = fbm_width v /\ draw_height v = yres v /\ draw_size v = fbm_size v;
  ok_offset : yoffset v = 0 \/ yoffset v = yres v }.

(** The 16-bit units of a page, and the page at an offset. *)
Definition page_len (v : screen_vars) : Z := fbm_size v / 2.
Definition page_at (y : Z) (v : screen_vars) : option (list Z) :=
  get_row (fb_bits v) (if y =? 0 then 0 else page_len v) (page_len v).

(** What the display shows of a surface. *)
Definition shown (v : screen_vars) (surface : list Z) : list Z :=
  if bits_per_pixel v =? 16 then surface
  else expanded (take (Z.to_nat (page_len v / 2)) surface).

Lemma screen_sizes v : screen_ok v ->
  let P := page_len v in
  0 < P /\ 2 * P = fbm_size v /\
  (bits_per_pixel v = 16 -> fbm_width v * yres v = P) /\
  (bits_per_pixel v = 32 -> 2 * (fbm_width v * yres v) = P /\ 2 * (P / 2) = P).
Proof.
  intros []. unfold page_len, fbm_size, fbm_width in *.
  assert (exists q, line_length v = 4 * q) as [q Hq]
    by (exists (line_length v / 4); pose proof (Z.div_mod (line_length v) 4); lia).
  rewrite Hq in *.
  assert (4 * q * yres v / 2 = 2 * (q * yres v)) as HP
    by (replace (4 * q * yres v) with (2 * (q * yres v) * 2) by lia; by rewrite Z.div_mul).
  assert (0 < q) by (destruct ok_depth0 as [E|E]; rewrite E in *; cbn in *; dlia).
  assert (0 < q * yres v) by (apply Z.mul_pos_pos; lia).
  rewrite HP. split_and!; try lia.
  - intros ->. change (16 / 8) with 2. replace (4 * q) with (2 * q * 2) by lia.
    rewrite Z.div_mul by done. lia.
  - intros ->. change (32 / 8) with 4. replace (4 * q) with (q * 4) by lia.
    rewrite Z.div_mul by done. split; [lia|]. rewrite Z.mul_comm, Z.mul_comm.
    replace (2 * (q * yres v)) with (q * yres v * 2) by lia. rewrite Z.div_mul by done. lia.
Qed.

(** The copy to the page at [yoffset] is one write of the whole page. *)
Lemma flip_page_put v : screen_ok v ->
  zlen (shown v (mem_surface v)) = page_len v /\
  flip_page v = put (fb_bits v) (if yoffset v =? 0 then 0 else page_len v)
                  (shown v (mem_surface v)).
Proof.
  intros Hok. destruct (screen_sizes v Hok) as (HP0 & HP & H16 & H32).
  pose proof (ok_surface v Hok) as Hs. pose proof (ok_offset v Hok) as Ho.
  pose proof (ok_pages v Hok) as Hpg. fold (page_len v) in Hs.
  pose proof (ok_height v Hok) as Hh.
  unfold flip_page, shown. destruct (ok_depth v Hok) as [Hd|Hd]; rewrite Hd.
  - change (16 =? 16) with true; cbv iota. split; [done|]. specialize (H16 Hd). fold (fbm_size v). fold (page_len v).
    unfold get_row. rewrite Hs. rewrite !(proj2 (Z.leb_le _ _)) by lia. cbn.
    rewrite drop_0, take_ge by lia. f_equal. destruct Ho as [-> | ->]; [done|].
    rewrite (proj2 (Z.eqb_neq (yres v) 0)) by lia. lia.
  - change (32 =? 16) with false; cbv iota. destruct (H32 Hd) as [H1 H2].
    assert (length (take (Z.to_nat (page_len v / 2)) (mem_surface v)) = Z.to_nat (page_len v / 2))
      as Hl by (rewrite length_take; dlia).
    split; [rewrite expanded_length, Hl; dlia|].
    assert (line_length v / (32 / 8) * yres v = page_len v / 2) as ->.
    { unfold fbm_width in H1. rewrite Hd in H1. dlia. }
    assert (2 * (yoffset v * fbm_width v) = if yoffset v =? 0 then 0 else page_len v) as ->.
    { destruct Ho as [-> | ->]; [done|]. rewrite (proj2 (Z.eqb_neq (yres v) 0)) by lia. lia. }
    rewrite flip_32_spec; [by rewrite drop_0|lia|dlia|..]; case_match; dlia.
Qed.

(** The other page of the two. *)
Definition flipped (v : screen_vars) : Z := if yoffset v =? 0 then yres v else 0.

(** The variables when a new picture is about to be copied. *)
Definition drawn (picture : list Z) (v : screen_vars) : screen_vars :=
  v <| yres_virtual := yres v * 2 |> <| yoffset := flipped v |>
    <| mem_surface := picture |> <| frame := S (frame v) |>.

Lemma drawn_ok picture v :
  screen_ok v -> length picture = length (mem_surface v) -> screen_ok (drawn picture v).
Proof.
  intros [] Hl. split; cbn; try done; [by rewrite Hl|].
  unfold flipped. destruct (yoffset v =? 0); auto.
Qed.

(** The page that the kernel displays: the one it was told last *)
Definition kernel_page (y : Z) (cs : list screen_call) : Z :=
  foldl (fun y c => match c with Ioctl_put_vscreeninfo _ y => y | _ => y end) y cs.

(** What one update does *)
Lemma screen_update_spec z p percent error e s :
  art_of z p -> display_for z (fbm_width (st s)) (yres (st s)) -> screen_ok (st s) ->
  0 <= percent <= 100 ->
  let v := st s in
  wp (screen_update p percent error) e s (fun o s' => exists picture new,
    o = Some 0 /\
    draw p (fbm_width v) (yres v) (fbm_size v) (frame v) percent error (mem_surface v)
      = Some picture /\ mem_surface (st s') = picture /\
    yoffset (st s') = (if yoffset v =? 0 then yres v else 0) /\
    page_at (yoffset (st s')) (st s') = Some (shown v picture) /\
    page_at (yoffset v) (st s') = page_at (yoffset v) v /\
    screen_ok (st s') /\ yres (st s') = yres v /\ calls s' = calls s ++ new /\
    forall y, kernel_page y new = if blank v then y else yoffset (st s')).
Proof.
  intros Hp HWH Hok Hpc v. destruct (ok_draw v Hok) as (Hd1 & Hd2 & Hd3).
  destruct (screen_sizes v Hok) as (HP0 & HP & _). pose proof (ok_height v Hok) as Hh.
  assert (fbm_width v * yres v <= fbm_size v / 2) as Hroom.
  { destruct (screen_sizes v Hok) as (_ & _ & H16 & H32). fold (page_len v).
    destruct (ok_depth v Hok) as [E|E]; [by rewrite (H16 E)|]. destruct (H32 E) as [? _]. lia. }
  destruct (draw_writes z p (fbm_width v) (yres v) (fbm_size v) (frame v) percent error
    (mem_surface v) Hp HWH (ok_surface v Hok) Hroom Hpc)
    as (picture & Hdraw & Hlen).
  unfold screen_update. apply wp_bind, wp_modify, wp_bind, wp_modify, wp_bind, wp_gets.
  match goal with |- context [draw p (draw_width ?x) (draw_height _) (draw_size _) (frame _) _ _
      (mem_surface _)] =>
    change (draw p (draw_width x) (draw_height x) (draw_size x) (frame x) percent error
      (mem_surface x)) with
      (draw p (draw_width v) (draw_height v) (draw_size v) (frame v) percent error
        (mem_surface v)) end.
  rewrite Hd1, Hd2, Hd3, Hdraw. apply wp_bind, wp_modify, wp_bind, wp_gets.
  match goal with |- context [flip_page ?x] => change x with (drawn picture v) end.
  pose proof (drawn_ok picture v Hok Hlen) as Hok1.
  destruct (flip_page_put _ Hok1) as [Hrow Hflip]. rewrite Hflip.
  change (mem_surface (drawn picture v)) with picture in *.
  change (shown (drawn picture v) picture) with (shown v picture) in *.
  change (page_len (drawn picture v)) with (page_len v) in *.
  change (yoffset (drawn picture v)) with (flipped v) in *.
  change (fb_bits (drawn picture v)) with (fb_bits v) in *.
  pose proof (ok_pages v Hok) as Hpages.
  destruct (put_writes (fb_bits v) (if flipped v =? 0 then 0 else page_len v) (shown v picture))
    as (b & Hput & Hbl); [case_match; lia..|].
  assert (screen_ok (drawn picture v <| fb_bits := b |>)) as Hok2.
  { destruct Hok1. split; try done. cbn in *. by rewrite Hbl. }
  rewrite Hput. apply wp_bind, wp_modify, wp_bind.
  change (blank (drawn picture v)) with (blank v). fold (flipped v).
  pose proof (get_put_same _ _ _ _ Hput) as Hsame. rewrite Hrow in Hsame.
  pose proof (get_put_other _ _ _ _ (if yoffset v =? 0 then 0 else page_len v) (page_len v) Hput)
    as Hother. rewrite Hrow in Hother. unfold page_at, flipped in *.
  specialize (Hother ltac:(case_match; lia)
    ltac:(destruct (ok_offset v Hok) as [E|E]; rewrite E in *; repeat case_match; lia)).
  destruct (blank v); cbn [negb when].
  - apply wp_ret, wp_ret. exists picture, []. rewrite app_nil_r. by split_and!.
  - wp_go. exists picture. eexists. unfold calls. cbn [tr]. rewrite fmap_app. by split_and!.
Qed.

(** C20.  Double buffering, while the display is on: when the kernel displays the page
    that [yoffset] names, [screen_update] draws the picture, copies it whole to the other
    page (expanded to 32 bits where the display has them), leaves the displayed page as
    it is and then makes the kernel display the new one; no access is outside the
    framebuffer, and the next update starts from the same situation.  While the display
    is blanked the picture is copied to the other page of [yoffset] and the kernel is
    told nothing.  The pictures are one of the three sets, on a display with room for
    them. *)
Theorem screen_update_flips z p percent error e s :
  art_of z p -> display_for z (fbm_width (st s)) (yres (st s)) -> screen_ok (st s) ->
  0 <= percent <= 100 ->
  let v := st s in
  wp (screen_update p percent error) e s (fun o s' => exists picture new,
    o = Some 0 /\
    draw p (fbm_width v) (yres v) (fbm_size v) (frame v) percent error (mem_surface v)
      = Some picture /\ mem_surface (st s') = picture /\
    yoffset (st s') = (if yoffset v =? 0 then yres v else 0) /\
    page_at (yoffset (st s')) (st s') = Some (shown v picture) /\
    page_at (yoffset v) (st s') = page_at (yoffset v) v /\
    screen_ok (st s') /\ calls s' = calls s ++ new /\
    forall y, kernel_page y new = if blank v then y else yoffset (st s')).
Proof.
  intros Hp HWH Hok Hpc v. eapply wp_wand; [by apply (screen_update_spec z)|].
  intros o s' (picture & new & H1 & H2 & H3 & H4 & H5 & H6 & H7 & _ & H8 & H9).
  exists picture, new. by split_and!.
Qed.

(** A blanked update moves [yoffset] alone: the kernel still displays the page it
    displayed before, and that is the page that the next update writes. *)
Lemma blanked_update_displayed z p percent error e s :
  art_of z p -> display_for z (fbm_width (st s)) (yres (st s)) -> screen_ok (st s) ->
  0 <= percent <= 100 -> blank (st s) = true ->
  wp (screen_update p percent error) e s (fun _ s' => exists new,
    calls s' = calls s ++ new /\ kernel_page (yoffset (st s)) new = yoffset (st s) /\
    flipped (st s') = yoffset (st s)).
Proof.
  intros Hp HWH Hok Hpc Hb. eapply wp_wand; [by apply (screen_update_spec z)|].
  intros o s' (picture & new & _ & _ & _ & H4 & _ & _ & _ & H5 & H6 & H7).
  exists new. rewrite H7, Hb. split_and!; [done..|]. unfold flipped. rewrite H4, H5.
  pose proof (ok_height _ Hok). destruct (ok_offset _ Hok) as [-> | ->]; cbn;
    rewrite ?(proj2 (Z.eqb_neq (yres (st s)) 0)) by lia; done.
Qed.

(** ** The start picture *)

(** The file of a list of runs, and the pixels it stands for. *)
Definition rle_encode (runs : list (Z * Z)) : list Z := runs ≫= (fun r => [r.1; r.2]).
Definition rle_pixels (runs : list (Z * Z)) : list Z :=
  runs ≫= (fun r => replicate (Z.to_nat r.1) r.2).

(** No file makes the loop leave the room it was given. *)
Lemma rle_loop_writes data max fb pos :
  Forall (fun x => 0 <= x) data -> 0 <= pos -> 0 <= max -> pos + max <= zlen fb ->
  writes (rle_loop data max fb pos) fb.
Proof.
  intros Hd. revert max fb pos. remember (length data) as k eqn:Hk.
  revert data Hd Hk. induction k as [k IH] using lt_wf_ind. intros data Hd -> max fb pos Hp Hm Hr.
  destruct data as [|n [|x data]]; [apply writes_same..|]. cbn [rle_loop].
  destruct (max <? n) eqn:E; [apply writes_same|].
  apply Forall_cons in Hd as [Hn Hd]. apply Forall_cons in Hd as [_ Hd]. apply writes_bind.
  - apply put_writes; [done|]. rewrite length_replicate. lia.
  - intros b Hb. apply (writes_length _ b); [done|].
    apply (IH (length data)); cbn; try done; lia.
Qed.

Lemma rle_loop_decodes runs max fb pos :
  Forall (fun r => 0 <= r.1) runs -> 0 <= pos -> zlen (rle_pixels runs) <= max ->
  pos + max <= zlen fb ->
  rle_loop (rle_encode runs) max fb pos = put fb pos (rle_pixels runs).
Proof.
  intros Hr. revert max fb pos. induction Hr as [|[n x] runs Hn Hr IH]; intros max fb pos Hp Hm Hfb.
  { cbn. symmetry. apply put_nil. unfold rle_pixels in Hm. cbn in Hm. lia. }
  change (rle_encode ((n, x) :: runs)) with (n :: x :: rle_encode runs).
  change (rle_pixels ((n, x) :: runs)) with (replicate (Z.to_nat n) x ++ rle_pixels runs) in *.
  rewrite length_app, length_replicate in Hm. cbn [fst] in Hn. cbn [rle_loop].
  rewrite (proj2 (Z.ltb_ge max n)) by lia.
  destruct (put_writes fb pos (replicate (Z.to_nat n) x)) as (b & Eb & Lb);
    [done|rewrite length_replicate; lia|].
  rewrite Eb. cbn. rewrite IH by lia.
  assert (pos + n = pos + zlen (replicate (Z.to_nat n) x)) as -> by (rewrite length_replicate; lia).
  apply put_put; [done|]. rewrite length_replicate. lia.
Qed.

(** The start picture: whatever the file contains, decoding it writes only
    inside the two pages and leaves both with the same contents; a file of runs
    that fill the page is decoded to exactly its pixels. *)
Theorem rle_pages_decodes data v :
  let size := fbm_width v * yres v in
  Forall (fun x => 0 <= x) data -> 0 <= size -> 2 * size <= zlen (fb_bits v) ->
  exists fb page, rle_pages data v = Some fb /\ length fb = length (fb_bits v) /\
    get_row fb 0 size = Some page /\ get_row fb size size = Some page /\
    (forall runs, data = rle_encode runs -> zlen (rle_pixels runs) = size ->
       page = rle_pixels runs).
Proof.
  intros size Hd Hs Hfb. unfold rle_pages. fold size.
  destruct (rle_loop_writes data size (fb_bits v) 0) as (b & Eb & Lb); [done|lia..|].
  destruct (get_row_some b 0 size) as (page & Ep & Lp); [lia..|].
  rewrite Eb. cbn. rewrite Ep. cbn. rewrite (Z.mul_comm (yres v)). fold size.
  destruct (put_writes b size page) as (fb & Ef & Lf); [lia..|].
  exists fb, page. rewrite Ef. split_and!; [done|congruence| | |].
  - by rewrite (get_put_other _ _ _ _ 0 size Ef) by lia.
  - pose proof (get_put_same _ _ _ _ Ef) as H. by rewrite Lp in H.
  - intros runs -> Hl. assert (Forall (fun r => 0 <= r.1) runs) as Hr.
    { clear -Hd. induction runs as [|[n x] runs IH]; [done|].
      change (rle_encode ((n, x) :: runs)) with (n :: x :: rle_encode runs) in Hd.
      apply Forall_cons in Hd as [Hn Hd]. apply Forall_cons in Hd as [_ Hd].
      constructor; [done|]. by apply IH. }
    rewrite (rle_loop_decodes runs size (fb_bits v) 0) in Eb by (done || lia).
    pose proof (get_put_same _ _ _ _ Eb) as H. rewrite Hl, Ep in H. congruence.
Qed.

(** ** Loading an animation *)

Lemma put_length_some buf pos row : 0 <= pos -> pos + zlen row <= zlen buf ->
  exists b, put buf pos row = Some b /\ length b = length buf.
Proof. apply put_writes. Qed.

Lemma fresh_length n heap : zlen (fresh n heap) = Z.max 0 n.
Proof. unfold fresh. rewrite length_take, length_app, length_replicate. lia. Qed.

Lemma load_asset_at_some k canvas y0 :
  0 < k_w k -> 0 < k_h k -> 0 <= y0 -> k_h k + y0 <= canvas ->
  exists b, load_asset_at k canvas y0 = Some b /\ zlen b = k_w k * canvas.
Proof.
  intros Hw Hh Hy Hc. unfold load_asset_at.
  assert (0 <= k_w k * canvas) by (apply Z.mul_nonneg_nonneg; lia).
  match goal with |- context [put ?b _ _] => assert (zlen b = k_w k * canvas) as Hb end.
  { case_match; [rewrite fresh_length|rewrite length_replicate]; lia. }
  destruct (put_length_some (if canvas =? k_h k then fresh (k_w k * canvas) (k_heap k)
      else replicate (Z.to_nat (k_w k * canvas)) 0xffff) (y0 * k_w k)
      (take (Z.to_nat (k_w k * k_h k)) (k_pixels k))) as (b & Eb & Lb).
  - apply Z.mul_nonneg_nonneg; lia.
  - rewrite Hb, length_take.
    assert ((y0 + k_h k) * k_w k <= canvas * k_w k) by (apply Z.mul_le_mono_nonneg_r; lia). lia.
  - exists b. split; [done|]. by rewrite Lb.
Qed.

Lemma patch_some l prev i :
  0 <= i -> i + zlen l <= zlen prev -> exists l', patch l prev i = Some l' /\ length l' = length l.
Proof.
  revert i. induction l as [|x l IH]; intros i Hi Hl; [by exists []|]. cbn [patch length] in *.
  destruct (IH (i + 1)) as (l' & El & Ll); [lia..|]. rewrite El.
  assert (exists y, (if x =? 0xffff then peek prev i else Some x) = Some y) as [y ->].
  { case_match; [|by eexists]. apply peek_some. lia. }
  cbn. exists (y :: l'). split; [done|]. cbn. congruence.
Qed.

(** An animation whose later frames are lower than the first loads without an
    access outside memory, and all its frames get the size of the first; this
    is what [sized_art] assumes of the animations of the tree. *)
Lemma load_anim_sized ww hh k l :
  0 < ww -> k_w k = ww -> k_h k = hh -> 0 < hh ->
  Forall (fun k => k_w k = ww /\ 0 < k_h k < hh) l ->
  exists frames, load_anim_asset (k :: l) = Some frames /\
    length frames = S (length l) /\ Forall (sized ww hh) frames.
Proof.
  intros Hw Hkw Hkh Hh Hl. cbn [load_anim_asset]. unfold load_asset.
  destruct (load_asset_at_some k (k_h k) 0) as (b & Eb & Lb); [lia..|]. rewrite Eb. cbn.
  set (a := Asset (k_w k) (k_h k) b). rewrite Hkh.
  assert (sized ww hh a) as Ha by (unfold sized, a; cbn; rewrite Lb; lia).
  assert (exists fs, load_frames l hh a = Some fs /\ length fs = length l /\
    Forall (sized ww hh) fs) as (fs & -> & Hn & Hf); [|exists (a :: fs); cbn; auto].
  clearbody a. clear Eb Lb. revert a Ha.
  induction Hl as [|k' l (Hkw' & Hkh') Hl IH]; intros a (Ha1 & Ha2 & Ha3); [by exists []|].
  cbn [load_frames]. destruct (load_asset_at_some k' hh 1) as (b' & -> & Lb'); [lia..|]. cbn.
  rewrite Ha2. destruct (get_row_some b' 0 (k_w k' * hh)) as (row & -> & Lr);
    [lia|apply Z.mul_nonneg_nonneg; lia|lia|]. cbn.
  destruct (patch_some row (bits a) 0) as (px & -> & Lp); [lia|rewrite Lr, Hkw'; lia|]. cbn.
  destruct (IH (Asset (k_w k') hh (px ++ drop (length row) b'))) as (fs & -> & Hn & Hf).
  { unfold sized. cbn. rewrite length_app, Lp. split_and!; [done|done|]. rewrite <-Hkw'. lia. }
  cbn. eexists. split; [done|]. split; [cbn; congruence|]. constructor; [|done].
  unfold sized. cbn. rewrite length_app, Lp. split_and!; [done|done|]. rewrite <-Hkw'. lia.
Qed.

(** ** Witnesses *)

(** The pictures of the tree, all black. *)
Definition plain (ww hh : Z) : asset := Asset ww hh (replicate (Z.to_nat (ww * hh)) 0).

Definition demo_art : art :=
  Art (plain 346 390) (plain 136 1) (replicate 4 (plain 136 16)) (plain 136 1)
    (replicate 4 (plain 136 16)) (plain 136 1) (replicate 4 (plain 136 16))
    (plain 136 136) (plain 136 136) (plain 136 136) (plain 136 136) (plain 136 136)
    (plain 136 136) (replicate 10 (plain 26 39)) (replicate 10 (plain 26 39))
    (plain 18 39) (plain 18 39) (ScreenSize 62 338 105).

Lemma plain_sized ww hh : 0 <= ww * hh -> sized ww hh (plain ww hh).
Proof.
  intros H. unfold sized, plain. cbn [w h bits]. rewrite length_replicate. split_and!; lia.
Qed.

Lemma demo_art_default : default_art demo_art.
Proof.
  split; cbn [demo_art battery_charge_background battery_red_img battery_orange_img
    battery_green_img battery_red_ani battery_orange_ani battery_green_ani ic_pane_battery_error_a
    ic_pane_battery_error_i ic_pane_battery_charge_a ic_pane_battery_charge_i
    ic_pane_battery_complete_a ic_pane_battery_complete_i battery_numbers_a battery_numbers_i
    battery_numbers_percentage_a battery_numbers_percentage_i
    assets s_background s_bar s_ani s_pane s_digit s_percentage fst snd];
    repeat first [ apply Forall_nil_2 | apply Forall_cons_2 | apply plain_sized; lia
                 | split; [reflexivity|] | apply Forall_replicate ].
Qed.

Lemma demo_art_of : art_of assets demo_art.
Proof. split_and!; [left|apply demo_art_default|reflexivity]. Qed.

(** ** Loading all pictures or none *)

Lemma unload_spec l e : forall s,
  wp (for_each l unload_asset) e s (fun _ s' =>
    forall q, q ∈ loaded (st s') <-> q ∈ loaded (st s) /\ q ∉ l).
Proof.
  induction l as [|p l IH]; intros s; cbn [for_each]; [apply wp_ret; set_solver|].
  apply wp_bind. unfold unload_asset at 1. repeat wp_step.
  all: intros q; rewrite H; cbn; rewrite list_elem_of_filter, not_elem_of_cons; tauto.
Qed.

Lemma load_spec l e : forall s,
  wp (load_pictures l) e s (fun ok s' =>
    (ok = true -> loaded (st s') = loaded (st s) ++ l)
    /\ forall q, q ∈ loaded (st s') -> q ∈ loaded (st s) \/ q ∈ l).
Proof.
  induction l as [|p l IH]; intros s; cbn [load_pictures].
  { apply wp_ret. split; [by rewrite app_nil_r | set_solver]. }
  apply wp_bind, wp_call. intros r _. destruct (r_ret r =? 0); cbn [negb].
  - apply wp_bind, wp_modify. eapply wp_wand; [apply IH|]. intros ok s' [H1 H2]. cbn in *.
    split; [by rewrite <- app_assoc in H1 | set_solver].
  - apply wp_ret. split; [done | set_solver].
Qed.

(** [draw_init] loads every picture or, when one of them fails, leaves none. *)
Lemma draw_init_all_or_none p width height size e s :
  loaded (st s) = [] -> draw_initialized (st s) = false ->
  wp (draw_init p width height size) e s (fun r s' =>
    (r = Some 0 /\ loaded (st s') = pictures p /\ draw_initialized (st s') = true)
    \/ (r = Some (-1) /\ loaded (st s') = [] /\ draw_initialized (st s') = false)).
Proof.
  intros Hl Hi. unfold draw_init. apply wp_bind, wp_modify. apply wp_bind, wp_gets.
  match goal with |- context [if ?b then _ else _] => destruct b eqn:E end;
    [cbn in E; congruence|]. clear E.
  apply wp_bind. eapply wp_wand; [apply load_spec|].
  intros [] s' [H1 H2]; cbn in H1, H2; rewrite Hl in *.
  - repeat wp_step. left. cbn. auto.
  - apply wp_bind. unfold draw_uninit. apply wp_bind. eapply wp_wand; [apply unload_spec|].
    intros [] s2 H. repeat wp_step. right. split_and!; [done | | done]. cbn.
    destruct (loaded (st s2)) as [|q l]; [done|].
    destruct (proj1 (H q) ltac:(left)) as [Hq Hn]. destruct (H2 q Hq); [set_solver|done].
Qed.

(** A display of 540 by 960 pixels with 32 bits each. *)
Definition demo_screen : screen_vars :=
  ScreenVars (replicate (Z.to_nat (2160 * 960)) 0) 5 2160 (2 * 2160 * 960) 960 960 0 32
    (replicate (Z.to_nat (1080 * 960)) 0) false 0 540 960 (2160 * 960) [] false.

Lemma demo_screen_ok : screen_ok demo_screen.
Proof.
  split; unfold fbm_width, fbm_size, demo_screen;
    cbn [bits_per_pixel line_length yres mem_surface fb_bits draw_width draw_height draw_size
         yoffset].
  - by right.
  - reflexivity.
  - vm_compute. reflexivity.
  - vm_compute. reflexivity.
  - rewrite length_replicate, Z2Nat.id; [reflexivity|vm_compute; discriminate].
  - rewrite length_replicate, Z2Nat.id; [|vm_compute; discriminate]. lia.
  - split_and!; reflexivity.
  - by left.
Qed.

Lemma demo_screen_room : display_for assets (fbm_width demo_screen) (yres demo_screen).
Proof. by split. Qed.

Lemma draw_in_bounds_witness :
  exists picture, draw demo_art 540 960 2073600 2 57 false (replicate (Z.to_nat 1036800) 0)
    = Some picture /\ length picture = length (replicate (Z.to_nat 1036800) 0).
Proof.
  apply (draw_in_bounds assets demo_art 540 960 2073600 2 57 false (replicate (Z.to_nat 1036800) 0)
    demo_art_of); [by split| |reflexivity || (vm_compute; congruence)|lia].
  rewrite length_replicate, Z2Nat.id; [reflexivity|lia].
Defined.

Lemma rle_pages_decodes_witness :
  exists fb page,
    rle_pages [3; 7; 1; 9] (ScreenVars (replicate 8 0) 5 4 16 2 2 0 16 [] false 0 2 2 8 [] false) = Some fb /\
    length fb = 8%nat /\ get_row fb 0 4 = Some page /\ get_row fb 4 4 = Some page /\
    (forall runs, [3; 7; 1; 9] = rle_encode runs -> zlen (rle_pixels runs) = 4 ->
       page = rle_pixels runs).
Proof.
  apply (rle_pages_decodes [3; 7; 1; 9] (ScreenVars (replicate 8 0) 5 4 16 2 2 0 16 [] false 0 2 2 8 [] false));
    [repeat constructor; lia|vm_compute; congruence..].
Defined.

Lemma screen_update_flips_witness :
  let v := demo_screen in
  wp (screen_update demo_art 57 false) (fun _ _ => answer 0) (Sys _ _ v []) (fun o s' =>
    exists picture new, o = Some 0 /\
    draw demo_art (fbm_width v) (yres v) (fbm_size v) (frame v) 57 false (mem_surface v)
      = Some picture /\ mem_surface (st s') = picture /\
    yoffset (st s') = (if yoffset v =? 0 then yres v else 0) /\
    page_at (yoffset (st s')) (st s') = Some (shown v picture) /\
    page_at (yoffset v) (st s') = page_at (yoffset v) v /\
    screen_ok (st s') /\ calls s' = calls (Sys _ _ v []) ++ new /\
    forall y, kernel_page y new = if blank v then y else yoffset (st s')).
Proof.
  intros v. exact (screen_update_flips assets demo_art 57 false (fun _ _ => answer 0) (Sys _ _ v [])
    demo_art_of demo_screen_room demo_screen_ok ltac:(lia)).
Defined.
