(* ===== verification/DrawTegra.v ===== *)
(** * charge_only_mode on Tegra boards
    ([src/charge_only_mode/draw_tegra.c] and [screen_tegra.c])

    The display's rows are [fb_stride] pixels apart, which can be more than its
    width, and the picture is drawn to the framebuffer itself: [color_channel] is
    the position of a page in the mapped memory.  The pictures, their loading and
    the row loops are those of [draw.c] ([Draw]). *)

From S2P Require Import Prelude.
From S2P Require Import CString.
From S2P Require Import Draw.

(** ** Drawing *)

(** The size and location of the battery in the background picture. *)
Definition tegra_png_top : Z := 71.
Definition tegra_png_bottom : Z := 318.
Definition tegra_png_left : Z := 105.

Section TegraDraw.
(** The pictures, and what [draw_init] was called with. *)
Context (p : art) (fb_width fb_height fb_size fb_stride : Z).

Definition tegra_blit (mem : list Z) (buffer : Z) (a : asset) (x y : Z) : option (list Z) :=
  copy_rows (Z.to_nat (h a)) fb_stride (w a) (w a) mem (buffer + fb_stride * y + x) (bits a) 0.

Definition tegra_ai_blit (mem : list Z) (buffer : Z) (a i : asset) (x y : Z)
    : option (list Z) :=
  ai_rows (Z.to_nat (h i)) fb_stride (w i) mem (buffer + fb_stride * y + x) (bits a) (bits i) 0.

(** [int fill_height_pixels] *)
Definition tegra_fill_height (percent : Z) : Z :=
  let top := tegra_png_top + off_y p fb_height in
  let bottom := tegra_png_bottom + off_y p fb_height in
  Z.quot (percent * (bottom - top)) 100.

(** "Fill it up!" *)
Definition tegra_fill (percent : Z) (img ani : asset) (mem : list Z) (color_channel : Z)
    : option (list Z) :=
  let top := tegra_png_top + off_y p fb_height in
  let bottom := tegra_png_bottom + off_y p fb_height in
  let left := tegra_png_left + off_x p fb_width in
  let y := bottom - tegra_fill_height percent in
  mem ← copy_rows (Z.to_nat (bottom - y)) fb_stride (w img) 0 mem
          (color_channel + fb_stride * y + left) (bits img) 0;
  let y := Z.max top (bottom - tegra_fill_height percent - h ani) in
  if percent <? 100 then
    copy_rows (Z.to_nat (h ani)) fb_stride (w ani) (w ani) mem
      (color_channel + fb_stride * y + left) (bits ani) 0
  else Some mem.

Fixpoint tegra_digits (l : list Z) (mem : list Z) (color_channel x dx y : Z)
    : option (list Z) :=
  match l with
  | [] => tegra_ai_blit mem color_channel (battery_numbers_percentage_a p)
            (battery_numbers_percentage_i p) x y
  | d :: l =>
      na ← (if 0 <=? d then battery_numbers_a p !! Z.to_nat d else None);
      ni ← (if 0 <=? d then battery_numbers_i p !! Z.to_nat d else None);
      mem ← tegra_ai_blit mem color_channel na ni x y;
      tegra_digits l mem color_channel (x + dx) dx y
  end.

Definition tegra_percentage (percent : Z) (mem : list Z) (color_channel : Z)
    : option (list Z) :=
  first ← battery_numbers_i p !! 0%nat;
  let s := percent_digits percent in
  let dx := w first + 2 in
  let x := Z.quot (fb_width - Z.of_nat (length s) * dx) 2 + 1 in
  let y := Z.quot (fb_height + h (battery_charge_background p)) 2 - 10 in
  tegra_digits s mem color_channel x dx y.

(** [frame] is the static counter. *)
Definition tegra_draw (frame : nat) (percent : Z) (error : bool) (mem : list Z)
    (color_channel : Z) : option (list Z) :=
  let '(battery_img, anis) := battery_pictures p percent in
  battery_ani ← anis !! (frame `mod` 4)%nat;
  let '(pane_a, pane_i) := desired_ic_pane p percent error in
  mem ← put mem color_channel (replicate (Z.to_nat (fb_size / 2)) 0);
  mem ← tegra_blit mem color_channel (battery_charge_background p)
          (off_x p fb_width) (off_y p fb_height);
  mem ← (if error then Some mem
         else tegra_fill percent battery_img battery_ani mem color_channel);
  mem ← tegra_ai_blit mem color_channel pane_a pane_i
          (Z.quot (fb_width - w pane_i) 2) (Z.quot (fb_height - h pane_i) 2);
  if error then Some mem else tegra_percentage percent mem color_channel.
End TegraDraw.

(** ** The framebuffer *)

Inductive tegra_call :=
  | T_open (path : string)
  | T_close (fd : Z)
  | T_kdsetmode (fd : Z)
  | T_get_fscreeninfo (fd : Z)
  | T_get_vscreeninfo (fd : Z)
  | T_put_vscreeninfo (fd yoffset : Z)
  | T_blank (fd : Z) (powerdown : bool)   (* VESA_POWERDOWN or VESA_NO_BLANKING *)
  | T_mmap (fd len : Z)
  | T_munmap (len : Z)
  | T_fstat (fd : Z)
  | T_load (p : picture)                  (* [__load_asset]: memory and zlib *)
  | T_free (p : picture).

(** [struct FB] with the fields of [fi] and [vi] that the code uses, and the
    static variables of [screen_tegra.c] and [draw_tegra.c].  [t_bits] is the
    mapped memory in 16-bit units. *)
Record tegra_vars := TegraVars {
  t_bits : list Z;
  t_fd : Z;
  t_line_length : Z;
  t_smem_len : Z;
  t_xres : Z;
  t_yres : Z;
  t_yres_virtual : Z;
  t_yoffset : Z;
  t_bits_per_pixel : Z;
  t_blanked : bool;
  t_frame : nat;
  t_draw_width : Z;
  t_draw_height : Z;
  t_draw_size : Z;
  t_draw_stride : Z;
  t_loaded : list picture;       (* the pictures whose [bits] is not NULL *)
  t_draw_initialized : bool }.

#[export] Instance eta_tegra_vars : Eta tegra_vars := fun v =>
  TegraVars (t_bits v) (t_fd v) (t_line_length v) (t_smem_len v) (t_xres v) (t_yres v)
    (t_yres_virtual v) (t_yoffset v) (t_bits_per_pixel v) (t_blanked v) (t_frame v)
    (t_draw_width v) (t_draw_height v) (t_draw_size v) (t_draw_stride v) (t_loaded v)
    (t_draw_initialized v).

Abbreviation tegra A := (prog tegra_call tegra_vars A).

(** The macro [fb_size]; [fb_width] and [fb_height] are [xres] and [yres]. *)
Definition tegra_fb_size (v : tegra_vars) : Z := t_line_length v / 2 * t_yres v * 2.

Definition tegra_vt_set_mode : tegra Z :=
  o ← call (T_open "/dev/tty0");
  if r_ret o <? 0 then mret (-1) else
  r ← call (T_kdsetmode (r_ret o));
  call (T_close (r_ret o)) ;;
  mret (r_ret r).

(** The answers carry the fields of the two structures and the mapped memory, of
    [smem_len] bytes; MAP_FAILED is -1. *)
Definition tegra_fb_open : tegra Z :=
  tegra_vt_set_mode ;;
  o ← call (T_open "/dev/graphics/fb0");
  let fd := r_ret o in
  modify (fun v => v <| t_fd := fd |>) ;;
  if fd <? 0 then mret (-1) else
  f ← call (T_get_fscreeninfo fd);
  if r_ret f <? 0 then call (T_close fd) ;; mret (-1) else
  modify (fun v => v <| t_line_length := aux 0 f |> <| t_smem_len := aux 1 f |>) ;;
  x ← call (T_get_vscreeninfo fd);
  if r_ret x <? 0 then call (T_close fd) ;; mret (-1) else
  modify (fun v => v <| t_xres := aux 0 x |> <| t_yres := aux 1 x |>
                     <| t_yres_virtual := aux 2 x |> <| t_yoffset := aux 3 x |>
                     <| t_bits_per_pixel := aux 4 x |>) ;;
  m ← call (T_mmap fd (aux 1 f));
  if r_ret m =? -1 then call (T_close fd) ;; mret (-1) else
  modify (fun v => v <| t_bits := take (Z.to_nat (t_smem_len v / 2))
            (r_aux m ++ replicate (Z.to_nat (t_smem_len v / 2)) 0) |>) ;;
  mret 0.

Definition tegra_fb_close : tegra unit :=
  v ← gets id;
  call (T_munmap (tegra_fb_size v)) ;; call (T_close (t_fd v)) ;; mret tt.

(** *** [draw_init] and [draw_uninit] *)

Definition tegra_unload_asset (p : picture) : tegra unit :=
  v ← gets id;
  when (bool_decide (p ∈ t_loaded v)) (call (T_free p) ;; mret tt) ;;
  modify (fun v => v <| t_loaded := filter (fun q => q <> p) (t_loaded v) |>).

Definition tegra_draw_uninit (p : art) : tegra unit :=
  for_each (pictures p) tegra_unload_asset ;;
  modify (fun v => v <| t_draw_initialized := false |>).

(** Load one picture after the other until one fails. *)
Fixpoint tegra_load_pictures (l : list picture) : tegra bool :=
  match l with
  | [] => mret true
  | p :: l =>
      r ← call (T_load p);
      if negb (r_ret r =? 0) then mret false
      else modify (fun v => v <| t_loaded := t_loaded v ++ [p] |>) ;; tegra_load_pictures l
  end.

(** [None] is the failing assertion. *)
Definition tegra_draw_init (p : art) (width height size stride : Z) : tegra (option Z) :=
  modify (fun v => v <| t_draw_width := width |> <| t_draw_height := height |>
                     <| t_draw_size := size |> <| t_draw_stride := stride |>) ;;
  v ← gets id;
  if t_draw_initialized v then mret None else
  ok ← tegra_load_pictures (pictures p);
  if ok : bool then modify (fun v => v <| t_draw_initialized := true |>) ;; mret (Some 0)
  else tegra_draw_uninit p ;; mret (Some (-1)).

Definition tegra_screen_init (p : art) : tegra (option Z) :=
  r ← tegra_fb_open;
  if negb (r =? 0) then mret (Some (-1)) else
  v ← gets id;
  a ← tegra_draw_init p (t_xres v) (t_yres v) (tegra_fb_size v) (t_line_length v / 2);
  match a with
  | None => mret None
  | Some a => if negb (a =? 0) then tegra_fb_close ;; mret (Some (-1)) else mret (Some 0)
  end.

(** *** Showing a picture *)

(** [None]: an access outside the framebuffer. *)
Definition tegra_screen_update (p : art) (percentage : Z) (error : bool) : tegra (option Z) :=
  modify (fun v => v <| t_yres_virtual := t_yres v * 2 |>) ;;
  modify (fun v => v <| t_yoffset := if t_yoffset v =? 0 then t_yres v else 0 |>) ;;
  modify (fun v => v <| t_bits_per_pixel := 16 |>) ;;
  v ← gets id;
  match tegra_draw p (t_draw_width v) (t_draw_height v) (t_draw_size v) (t_draw_stride v)
          (t_frame v) percentage error (t_bits v) (t_yoffset v * t_line_length v / 2) with
  | None => mret None
  | Some mem =>
      modify (fun v => v <| t_bits := mem |> <| t_frame := S (t_frame v) |>) ;;
      when (negb (t_blanked v)) (call (T_put_vscreeninfo (t_fd v) (t_yoffset v)) ;; mret tt) ;;
      mret (Some 0)
  end.

(** Decode to the first page and copy it to where the second one would be if the
    rows were [xres] pixels apart. *)
Definition tegra_rle_pages (data : list Z) (v : tegra_vars) : option (list Z) :=
  let size := t_xres v * t_yres v in
  fb ← rle_loop data size (t_bits v) 0;
  page ← get_row fb 0 size;
  put fb (t_yres v * t_xres v) page.

(** The mapping answers with the 16-bit values of the file. *)
Definition tegra_show_565rle (fn : string) : tegra (option Z) :=
  o ← call (T_open fn);
  let fd := r_ret o in
  if fd <? 0 then mret (Some (-1)) else
  s ← call (T_fstat fd);
  if r_ret s <? 0 then call (T_close fd) ;; mret (Some (-1)) else
  m ← call (T_mmap fd (aux 0 s));
  if r_ret m =? -1 then call (T_close fd) ;; mret (Some (-1)) else
  v ← gets id;
  match tegra_rle_pages (take (2 * Z.to_nat (aux 0 s / 4)) (r_aux m)) v with
  | None => mret None
  | Some fb =>
      modify (fun v => v <| t_bits := fb |>) ;;
      modify (fun v => v <| t_yres_virtual := t_yres v * 2 |>) ;;
      modify (fun v => v <| t_yoffset := if t_yoffset v =? 0 then t_yres v else 0 |>) ;;
      modify (fun v => v <| t_bits_per_pixel := 16 |>) ;;
      v ← gets id;
      call (T_put_vscreeninfo (t_fd v) (t_yoffset v)) ;;
      call (T_munmap (aux 0 s)) ;; call (T_close fd) ;;
      mret (Some 0)
  end.

Definition tegra_screen_uninit (p : art) : tegra (option unit) :=
  r ← tegra_show_565rle "/initlogo.rle";
  match r with
  | None => mret None
  | Some _ => tegra_fb_close ;; tegra_draw_uninit p ;; mret (Some tt)
  end.

(** A failing ioctl is only logged. *)
Definition tegra_display_blank : tegra unit :=
  v ← gets id;
  call (T_blank (t_fd v) true) ;; modify (fun v => v <| t_blanked := true |>).

Definition tegra_display_unblank : tegra unit :=
  v ← gets id;
  call (T_blank (t_fd v) false) ;; modify (fun v => v <| t_blanked := false |>).
