(* ===== verification/DrawTegraThms.v ===== *)
(** * charge_only_mode on Tegra boards: the stride does not change the picture *)

From S2P Require Import Prelude.
From S2P Require Import CString.
From S2P Require Import Draw.
From S2P Require Import DrawThms.
From S2P Require Import DrawTegra.

(** ** Rows that are further apart than they are long *)

Lemma put_peek buf pos row b i : put buf pos row = Some b ->
  peek b i = if decide (pos <= i < pos + zlen row) then peek row (i - pos) else peek buf i.
Proof.
  intros Hb. pose proof (put_some _ _ _ _ Hb) as (Hp & _). unfold peek.
  destruct (Z.leb_spec 0 i) as [Hi|Hi]; [|by rewrite decide_False by lia].
  rewrite (put_lookup _ _ _ _ _ Hb). repeat case_decide; try lia; [|done].
  rewrite (proj2 (Z.leb_le 0 (i - pos))) by lia. f_equal. lia.
Qed.

(** [n] cells from column [x] of row [y] on, in rows that are [T] apart. *)
Lemma cell_bound T H x y n : 0 <= x -> x + n <= T -> 0 <= n -> 0 <= y < H ->
  0 <= T * y + x /\ T * y + x + n <= T * H.
Proof.
  intros. assert (0 <= T * y) by (apply Z.mul_nonneg_nonneg; lia).
  assert (T * (y + 1) <= T * H) by (apply Z.mul_le_mono_nonneg_l; lia). lia.
Qed.

Lemma cell_row T x y n x' y' : 0 <= x -> x + n <= T -> 0 <= x' < T ->
  T * y + x <= T * y' + x' < T * y + x + n -> y' = y.
Proof. intros. nia. Qed.

Section Strides.
(** Rows of [W] pixels, [T] apart, from [base] on in [mem0]. *)
Context (W H T base : Z) (mem0 : list Z).
Context (HW : 0 <= W <= T) (HH : 0 <= H) (Hbase : 0 <= base).
Context (Hmem : base + T * H <= zlen mem0).

(** The page at [base] of [mem] shows the packed picture [q], and the memory
    outside of the page is what it was. *)
Definition shows (mem q : list Z) : Prop :=
  length mem = length mem0 /\ zlen q = W * H /\
  (forall x y, 0 <= x < W -> 0 <= y < H -> peek mem (base + T * y + x) = peek q (0 + W * y + x)) /\
  (forall i, i < base \/ base + T * H <= i -> peek mem i = peek mem0 i).

Definition both (m q : option (list Z)) : Prop :=
  exists m' q', m = Some m' /\ q = Some q' /\ shows m' q'.

Lemma both_ret m q : shows m q -> both (Some m) (Some q).
Proof. intros Hs. by exists m, q. Qed.

Lemma both_bind m q f g :
  both m q -> (forall m' q', shows m' q' -> both (f m') (g q')) -> both (m ≫= f) (q ≫= g).
Proof. intros (m' & q' & -> & -> & Hs) Hk. by apply Hk. Qed.

Lemma both_put m q x y row : shows m q -> 0 <= x -> x + zlen row <= W -> 0 <= y < H ->
  both (put m (base + T * y + x) row) (put q (0 + W * y + x) row).
Proof using HW HH Hbase Hmem.
  intros (Hl & Hq & Hv & Ho) Hx Hr Hy.
  pose proof (cell_bound T H x y (zlen row) Hx ltac:(lia) ltac:(lia) Hy) as [? ?].
  pose proof (cell_bound W H x y (zlen row) Hx ltac:(lia) ltac:(lia) Hy) as [? ?].
  destruct (put_writes m (base + T * y + x) row) as (m' & Em & Lm); [lia..|].
  destruct (put_writes q (0 + W * y + x) row) as (q' & Eq & Lq); [lia..|].
  exists m', q'. split_and!; try done. split_and!; [congruence|lia| |].
  - intros x' y' Hx' Hy'. rewrite (put_peek _ _ _ _ _ Em), (put_peek _ _ _ _ _ Eq).
    destruct (decide (y' = y)) as [->|Hne].
    + rewrite Hv by done. repeat case_decide; try lia; [|done]. f_equal. lia.
    + rewrite !decide_False; [by apply Hv| |].
      * intros Hin. apply Hne. apply (cell_row W x y (zlen row) x' y'); lia.
      * intros Hin. apply Hne. apply (cell_row T x y (zlen row) x' y'); lia.
  - intros i Hi. rewrite (put_peek _ _ _ _ _ Em), decide_False by lia. by apply Ho.
Qed.

Lemma both_copy_rows n rw step m q x y src s : shows m q ->
  0 <= x -> 0 <= rw -> x + rw <= W -> 0 <= y -> y + Z.of_nat n <= H -> 0 <= s -> 0 <= step ->
  (forall k, 0 <= k < Z.of_nat n -> s + k * step + rw <= zlen src) ->
  both (copy_rows n T rw step m (base + T * y + x) src s)
       (copy_rows n W rw step q (0 + W * y + x) src s).
Proof using HW HH Hbase Hmem.
  revert m q y s. induction n as [|n IH]; intros m q y s Hs Hx Hrw Hr Hy Hn Hs0 Hst Hsrc;
    [by apply both_ret|]. cbn [copy_rows].
  destruct (get_row_some src s rw) as (row & -> & Lr); [lia|lia|specialize (Hsrc 0); lia|]. cbn.
  apply both_bind; [apply both_put; [done|lia..]|]. intros m' q' Hs'.
  replace (base + T * y + x + T) with (base + T * (y + 1) + x) by lia.
  replace (0 + W * y + x + W) with (0 + W * (y + 1) + x) by lia.
  apply IH; try done; try lia. intros k Hk. specialize (Hsrc (k + 1)). lia.
Qed.

Lemma both_ai_row n m q x y pa pi k : shows m q ->
  0 <= x -> x + Z.of_nat n <= W -> 0 <= y < H -> 0 <= k ->
  k + Z.of_nat n <= zlen pa -> k + Z.of_nat n <= zlen pi ->
  both (ai_row n m (base + T * y + x) pa pi k) (ai_row n q (0 + W * y + x) pa pi k).
Proof using HW HH Hbase Hmem.
  revert m q x k. induction n as [|n IH]; intros m q x k Hs Hx Hn Hy Hk Ha Hi;
    [by apply both_ret|]. cbn [ai_row]. destruct (peek_some pa k) as [a ->]; [lia|]. cbn.
  apply both_bind.
  - destruct (a =? 0); [by apply both_ret|].
    destruct (peek_some pi k) as [i ->]; [lia|]. cbn.
    pose proof Hs as (_ & Hq & Hv & _). rewrite Hv by lia.
    pose proof (cell_bound W H x y 1 Hx ltac:(lia) ltac:(lia) Hy).
    destruct (peek_some q (0 + W * y + x)) as [old ->]; [lia|]. cbn.
    apply both_put; cbn; try done; lia.
  - intros m' q' Hs'. replace (base + T * y + x + 1) with (base + T * y + (x + 1)) by lia.
    replace (0 + W * y + x + 1) with (0 + W * y + (x + 1)) by lia. apply IH; try done; lia.
Qed.

Lemma both_ai_rows n rw m q x y pa pi s : shows m q ->
  0 <= x -> 0 <= rw -> x + rw <= W -> 0 <= y -> y + Z.of_nat n <= H -> 0 <= s ->
  s + Z.of_nat n * rw <= zlen pa -> s + Z.of_nat n * rw <= zlen pi ->
  both (ai_rows n T rw m (base + T * y + x) pa pi s) (ai_rows n W rw q (0 + W * y + x) pa pi s).
Proof using HW HH Hbase Hmem.
  revert m q y s. induction n as [|n IH]; intros m q y s Hs Hx Hrw Hr Hy Hn Hs0 Ha Hi;
    [by apply both_ret|]. cbn [ai_rows].
  assert (0 <= Z.of_nat n * rw) by (apply Z.mul_nonneg_nonneg; lia).
  assert (Z.of_nat (S n) * rw = rw + Z.of_nat n * rw) as E by lia.
  apply both_bind; [apply both_ai_row; try done; lia|]. intros m' q' Hs'.
  replace (base + T * y + x + T) with (base + T * (y + 1) + x) by lia.
  replace (0 + W * y + x + W) with (0 + W * (y + 1) + x) by lia.
  apply IH; try done; lia.
Qed.

Lemma both_ai_blit ww hh a i m q x y : shows m q -> sized ww hh a -> sized ww hh i ->
  0 <= ww -> 0 <= hh -> 0 <= x -> x + ww <= W -> 0 <= y -> y + hh <= H ->
  both (tegra_ai_blit T m base a i x y) (tegra_ai_blit W q 0 a i x y).
Proof using HW HH Hbase Hmem.
  intros Hs (Ha1 & Ha2 & Ha3) (Hi1 & Hi2 & Hi3) ? ? ? ? ? ?. unfold tegra_ai_blit.
  rewrite Hi1, Hi2. apply both_ai_rows; try done; try lia.
Qed.

Lemma both_sized ww hh a m q x y : shows m q -> sized ww hh a ->
  0 <= ww -> 0 <= hh -> 0 <= x -> x + ww <= W -> 0 <= y -> y + hh <= H ->
  both (copy_rows (Z.to_nat (h a)) T (w a) (w a) m (base + T * y + x) (bits a) 0)
       (copy_rows (Z.to_nat (h a)) W (w a) (w a) q (0 + W * y + x) (bits a) 0).
Proof using HW HH Hbase Hmem.
  intros Hs (Ha1 & Ha2 & Ha3) ? ? ? ? ? ?. rewrite Ha1, Ha2.
  apply both_copy_rows; try done; try lia. intros k Hk.
  assert (ww * (k + 1) <= ww * hh) by (apply Z.mul_le_mono_nonneg_l; lia). lia.
Qed.
End Strides.

(** ** The picture *)

(** The sizes of the pictures as numbers *)
Lemma da_background p : default_art p -> sized 346 390 (battery_charge_background p).
Proof. apply sa_background. Qed.

Lemma da_digits p : default_art p ->
  Forall (fun l => length l = 10%nat /\ Forall (sized 26 39) l) [battery_numbers_a p; battery_numbers_i p].
Proof. apply sa_digits. Qed.

Lemma da_percentage p : default_art p ->
  Forall (sized 18 39) [battery_numbers_percentage_a p; battery_numbers_percentage_i p].
Proof. apply sa_percentage. Qed.

Section Picture.
Context (p : art) (W H T base : Z) (mem0 : list Z).
Context (Hp : default_art p) (HW : 346 <= W <= T) (HH : 448 <= H) (Hbase : 0 <= base).
Context (Hmem : base + T * H <= zlen mem0).

#[local] Abbreviation both := (both W H T base mem0).
#[local] Abbreviation shows := (shows W H T base mem0).

Lemma peek_replicate n x i : peek (replicate n x) i = if decide (0 <= i < Z.of_nat n) then Some x else None.
Proof.
  unfold peek. destruct (Z.leb_spec 0 i); [|by rewrite decide_False by lia].
  case_decide; [apply lookup_replicate_2; lia|]. apply lookup_replicate_None. lia.
Qed.

Lemma both_clear q0 : zlen q0 = W * H ->
  both (put mem0 base (replicate (Z.to_nat (T * H)) 0)) (put q0 0 (replicate (Z.to_nat (W * H)) 0)).
Proof using HW HH Hbase Hmem.
  intros Hq. assert (0 <= W * H) by (apply Z.mul_nonneg_nonneg; lia).
  assert (0 <= T * H) by (apply Z.mul_nonneg_nonneg; lia).
  destruct (put_writes mem0 base (replicate (Z.to_nat (T * H)) 0)) as (m' & Em & Lm);
    [lia|rewrite length_replicate; lia|].
  destruct (put_writes q0 0 (replicate (Z.to_nat (W * H)) 0)) as (q' & Eq & Lq);
    [lia|rewrite length_replicate; lia|].
  exists m', q'. split_and!; try done. split_and!; [done|lia| |].
  - intros x y Hx Hy. pose proof (cell_bound T H x y 1 ltac:(lia) ltac:(lia) ltac:(lia) Hy).
    pose proof (cell_bound W H x y 1 ltac:(lia) ltac:(lia) ltac:(lia) Hy).
    rewrite (put_peek _ _ _ _ _ Em), (put_peek _ _ _ _ _ Eq), !length_replicate.
    rewrite !decide_True by lia. rewrite !peek_replicate. by rewrite !decide_True by lia.
  - intros i Hi. rewrite (put_peek _ _ _ _ _ Em), length_replicate. by rewrite decide_False by lia.
Qed.

Lemma both_fill percent img ani m q : shows m q -> 0 <= percent <= 100 ->
  sized 136 1 img -> sized 136 16 ani ->
  both (tegra_fill p W H T percent img ani m base) (tegra_fill p W H W percent img ani q 0).
Proof using Hp HW HH Hbase Hmem.
  intros Hs Hpc (Hi1 & Hi2 & Hi3) Ha. destruct (da_background p Hp) as (Hb1 & Hb2 & _).
  assert (0 <= tegra_fill_height p H percent <= 247) as Hf
    by (unfold tegra_fill_height, tegra_png_bottom, tegra_png_top; dlia).
  assert (0 <= off_y p H /\ off_y p H + 390 <= H /\ 0 <= off_x p W /\ off_x p W + 346 <= W)
    as Hoff by (unfold off_x, off_y; rewrite Hb1, Hb2; dlia).
  pose proof Ha as (Ha1 & Ha2 & _).
  unfold tegra_fill. cbv zeta. unfold tegra_png_top, tegra_png_bottom, tegra_png_left.
  apply (both_bind W H T base mem0).
  - rewrite Hi1. apply both_copy_rows; try done; try lia.
  - intros m' q' Hs'. destruct (percent <? 100); [|by apply both_ret].
    apply (both_sized W H T base mem0 ltac:(lia) ltac:(lia) Hbase Hmem 136 16); try done; lia.
Qed.

Lemma both_digits l m q x y : shows m q -> Forall (fun d => 0 <= d < 10) l ->
  0 <= x -> x + 28 * zlen l + 18 <= W -> 0 <= y -> y + 39 <= H ->
  both (tegra_digits p T l m base x 28 y) (tegra_digits p W l q 0 x 28 y).
Proof using Hp HW HH Hbase Hmem.
  pose proof (da_digits p Hp) as Hd. rewrite !Forall_cons in Hd.
  destruct Hd as ((Hna & Hfa) & (Hni & Hfi) & _).
  pose proof (da_percentage p Hp) as Hq. rewrite !Forall_cons in Hq. destruct Hq as (Hqa & Hqi & _).
  revert m q x. induction l as [|d l IH]; intros m q x Hs Hds Hx1 Hx2 Hy1 Hy2; cbn [tegra_digits length] in *.
  - apply (both_ai_blit W H T base mem0 ltac:(lia) ltac:(lia) Hbase Hmem 18 39); try done; lia.
  - apply Forall_cons in Hds as [Hd Hds].
    destruct (digit_sized 26 39 d _ Hna Hfa Hd) as (na & -> & Hna').
    destruct (digit_sized 26 39 d _ Hni Hfi Hd) as (ni & -> & Hni'). cbn.
    apply (both_bind W H T base mem0).
    + apply (both_ai_blit W H T base mem0 ltac:(lia) ltac:(lia) Hbase Hmem 26 39); try done; lia.
    + intros m' q' Hs'. apply IH; try done; lia.
Qed.

Lemma both_percentage percent m q : shows m q -> 0 <= percent <= 100 ->
  both (tegra_percentage p W H T percent m base) (tegra_percentage p W H W percent q 0).
Proof using Hp HW HH Hbase Hmem.
  intros Hs Hpc. pose proof (da_digits p Hp) as Hd. rewrite !Forall_cons in Hd.
  destruct Hd as (_ & (Hl & Hf) & _). destruct (da_background p Hp) as (_ & Hb2 & _).
  unfold tegra_percentage. destruct (lookup_lt_is_Some_2 (battery_numbers_i p) 0) as [d0 Hd0]; [lia|].
  rewrite Hd0. cbn. destruct (Forall_lookup_1 _ _ _ _ Hf Hd0) as (Hdw & _). rewrite Hdw, Hb2.
  destruct (percent_digits_range percent Hpc) as [Hrange Hn3].
  change (26 + 2) with 28. apply both_digits; try done; dlia.
Qed.

(** With the same pictures, a page with rows [T] apart and a packed surface get
    the same picture. *)
Lemma both_draw frame percent error q0 : zlen q0 = W * H -> 0 <= percent <= 100 ->
  both (tegra_draw p W H (T * H * 2) T frame percent error mem0 base)
       (tegra_draw p W H (W * H * 2) W frame percent error q0 0).
Proof using Hp HW HH Hbase Hmem.
  intros Hq Hpc. unfold tegra_draw. rewrite !Z.div_mul by done.
  pose proof (battery_pictures_sized assets p percent Hp) as Hbat.
  cbn [assets s_bar s_ani] in Hbat. destruct Hbat as (Himg & Hlen & Hani).
  destruct (battery_pictures p percent) as [img anis]. cbn [fst snd] in *.
  destruct (lookup_lt_is_Some_2 anis (frame `mod` 4)%nat) as [ani Hani'].
  { rewrite Hlen. by apply Nat.mod_upper_bound. }
  rewrite Hani'. cbn. pose proof (Forall_lookup_1 _ _ _ _ Hani Hani') as Hsz.
  pose proof (desired_pane_sized assets p percent error Hp) as Hpane.
  cbn [assets s_pane] in Hpane. destruct Hpane as (Hpa & Hpi).
  destruct (desired_ic_pane p percent error) as [pa pi]. cbn [fst snd] in *.
  pose proof (da_background p Hp) as Hbg. pose proof Hbg as (Hb1 & Hb2 & Hb3).
  pose proof Hpi as (Hi1 & Hi2 & _).
  apply (both_bind W H T base mem0);
    [by apply both_clear|intros m1 q1 H1].
  apply (both_bind W H T base mem0).
  { apply (both_sized W H T base mem0 ltac:(lia) ltac:(lia) Hbase Hmem 346 390); try done; try lia;
      unfold off_x, off_y; rewrite ?Hb1, ?Hb2; dlia. }
  intros m2 q2 H2. apply (both_bind W H T base mem0).
  { destruct error; [by apply both_ret|]. by apply both_fill. }
  intros m3 q3 H3. apply (both_bind W H T base mem0).
  { apply (both_ai_blit W H T base mem0 ltac:(lia) ltac:(lia) Hbase Hmem 136 136); try done; try lia;
      rewrite ?Hi1, ?Hi2; dlia. }
  intros m4 q4 H4. destruct error; [by apply both_ret|]. by apply both_percentage.
Qed.
End Picture.

(** C40.  The stride does not change the picture: on every display of at least 346
    by 448 pixels, however far apart its rows are, [draw] neither writes outside
    the page it is given nor reads outside a picture, and the pixels it shows
    are those of the same drawing with rows that follow each other; everything
    around the page stays as it is. *)
Theorem tegra_stride_equivalent p W H T base mem q frame percent error :
  default_art p -> 346 <= W <= T -> 448 <= H -> 0 <= base -> base + T * H <= zlen mem ->
  zlen q = W * H -> 0 <= percent <= 100 ->
  exists mem' q',
    tegra_draw p W H (T * H * 2) T frame percent error mem base = Some mem' /\
    tegra_draw p W H (W * H * 2) W frame percent error q 0 = Some q' /\
    length mem' = length mem /\ length q' = length q /\
    (forall x y, 0 <= x < W -> 0 <= y < H ->
       peek mem' (base + T * y + x) = peek q' (W * y + x)) /\
    (forall i, i < base \/ base + T * H <= i -> peek mem' i = peek mem i).
Proof.
  intros Hp HW HH Hb Hm Hq Hpc.
  destruct (both_draw p W H T base mem Hp HW HH Hb Hm frame percent error q Hq Hpc)
    as (mem' & q' & E1 & E2 & Hl & Hl' & Hv & Ho).
  exists mem', q'. split_and!; try done. lia.
Qed.

(** The error sign is drawn the way [draw.c] draws it; the fill of the battery
    differs, its place in the background being another. *)
Lemma tegra_error_picture p W H size frame percent q :
  tegra_draw p W H size W frame percent true q 0 = draw p W H size frame percent true q.
Proof. reflexivity. Qed.

(** ** The framebuffer *)

(** A framebuffer with two pages, as [screen_init] leaves it. *)
Record tegra_ok (v : tegra_vars) : Prop := TegraOk {
  tk_line : t_line_length v mod 2 = 0;
  tk_width : 346 <= t_xres v <= t_line_length v / 2;
  tk_height : 448 <= t_yres v;
  tk_pages : tegra_fb_size v <= zlen (t_bits v);
  tk_draw : t_draw_width v = t_xres v /\ t_draw_height v = t_yres v /\
            t_draw_size v = tegra_fb_size v /\ t_draw_stride v = t_line_length v / 2;
  tk_offset : t_yoffset v = 0 \/ t_yoffset v = t_yres v }.

(** The place of the page at row [yoffset], and the values of a whole page. *)
Definition tegra_base (yoffset : Z) (v : tegra_vars) : Z := t_line_length v / 2 * yoffset.
Definition tegra_page (yoffset : Z) (v : tegra_vars) : list (option Z) :=
  peek (t_bits v) <$> seqZ (tegra_base yoffset v) (t_line_length v / 2 * t_yres v).

Lemma tegra_base_half y v : t_line_length v mod 2 = 0 -> y * t_line_length v / 2 = tegra_base y v.
Proof.
  intros Hl. unfold tegra_base. pose proof (Z.div_mod (t_line_length v) 2 ltac:(lia)) as E.
  rewrite Hl in E. replace (y * t_line_length v) with (t_line_length v / 2 * y * 2) by lia.
  by rewrite Z.div_mul.
Qed.

(** The other page of the two, and the variables after a drawing of [mem]. *)
Definition tegra_flipped (v : tegra_vars) : Z := if t_yoffset v =? 0 then t_yres v else 0.
Definition tegra_drawn (mem : list Z) (v : tegra_vars) : tegra_vars :=
  v <| t_yres_virtual := t_yres v * 2 |> <| t_yoffset := tegra_flipped v |>
    <| t_bits_per_pixel := 16 |> <| t_bits := mem |> <| t_frame := S (t_frame v) |>.

(** The page at row [yoffset] of [v] shows the packed picture [q]. *)
Definition tegra_shows (v : tegra_vars) (q : list Z) : Prop :=
  forall x y, 0 <= x < t_xres v -> 0 <= y < t_yres v ->
    peek (t_bits v) (tegra_base (t_yoffset v + y) v + x) = peek q (t_xres v * y + x).

Lemma tegra_drawn_spec p percent error v q :
  default_art p -> tegra_ok v -> 0 <= percent <= 100 -> zlen q = t_xres v * t_yres v ->
  exists mem q',
    tegra_draw p (t_draw_width v) (t_draw_height v) (t_draw_size v) (t_draw_stride v) (t_frame v)
      percent error (t_bits v) (tegra_flipped v * t_line_length v / 2) = Some mem /\
    tegra_draw p (t_xres v) (t_yres v) (t_xres v * t_yres v * 2) (t_xres v) (t_frame v)
      percent error q 0 = Some q' /\
    tegra_ok (tegra_drawn mem v) /\ tegra_shows (tegra_drawn mem v) q' /\
    tegra_page (t_yoffset v) (tegra_drawn mem v) = tegra_page (t_yoffset v) v.
Proof.
  intros Hp [Hl HW HH Hpg Hd Hof] Hpc Hq. pose proof Hd as (-> & -> & -> & ->). set (y1 := tegra_flipped v).
  assert (t_yoffset v = 0 /\ y1 = t_yres v \/ t_yoffset v = t_yres v /\ y1 = 0) as Hdis.
  { unfold y1, tegra_flipped. destruct Hof as [-> | ->]; [by left|]. right.
    by rewrite (proj2 (Z.eqb_neq _ 0)) by lia. }
  rewrite (tegra_base_half y1 v Hl). unfold tegra_base, tegra_fb_size in *.
  set (T := t_line_length v / 2) in *.
  assert (0 <= T * t_yres v) as Hpos by (apply Z.mul_nonneg_nonneg; lia).
  destruct (both_draw p (t_xres v) (t_yres v) T (T * y1) (t_bits v) Hp HW HH
    ltac:(destruct Hdis as [(_ & ->)|(_ & ->)]; lia)
    ltac:(destruct Hdis as [(_ & ->)|(_ & ->)]; lia) (t_frame v) percent error q Hq Hpc) as (mem & q' & E1 & E2 & Hlen & Hl' & Hv & Ho).
  exists mem, q'. split_and!; try done.
  - split; try done.
    + unfold tegra_fb_size. cbn. fold T. by rewrite Hlen.
    + change (y1 = 0 \/ y1 = t_yres v). destruct Hdis as [(_ & ->)|(_ & ->)]; auto.
  - intros x y Hx Hy. cbn in *. unfold tegra_base. cbn. fold T y1.
    rewrite Z.mul_add_distr_l. by apply Hv.
  - unfold tegra_page, tegra_base. cbn. fold T. apply list_fmap_ext. intros k i Hi.
    apply lookup_seqZ in Hi. apply Ho. destruct Hdis as [(E & ->)|(E & ->)]; rewrite E in Hi; lia.
Qed.

(** Double buffering without a copy: [screen_update] draws the picture straight
    to the page that is not displayed and makes it the displayed one; the page
    that was displayed until then keeps its contents, and the page shows what
    the drawing on a packed surface would show.  The kernel is told about the
    new page unless the display is blanked. *)
Theorem tegra_update_flips p percent error e s q :
  default_art p -> tegra_ok (st s) -> 0 <= percent <= 100 ->
  zlen q = t_xres (st s) * t_yres (st s) ->
  let v := st s in
  wp (tegra_screen_update p percent error) e s (fun o s' =>
    o = Some 0 /\ tegra_ok (st s') /\
    t_yoffset (st s') = (if t_yoffset v =? 0 then t_yres v else 0) /\
    tegra_page (t_yoffset v) (st s') = tegra_page (t_yoffset v) v /\
    (exists q', tegra_draw p (t_xres v) (t_yres v) (t_xres v * t_yres v * 2) (t_xres v)
                  (t_frame v) percent error q 0 = Some q' /\ tegra_shows (st s') q') /\
    calls s' = calls s ++
      (if t_blanked v then [] else [T_put_vscreeninfo (t_fd v) (t_yoffset (st s'))])).
Proof.
  intros Hp Hok Hpc Hq v.
  destruct (tegra_drawn_spec p percent error v q Hp Hok Hpc Hq)
    as (mem & q' & E1 & E2 & Hok' & Hsh & Hpage).
  unfold tegra_screen_update.
  apply wp_bind, wp_modify, wp_bind, wp_modify, wp_bind, wp_modify, wp_bind, wp_gets. cbn.
  fold v. fold (tegra_flipped v). rewrite E1. apply wp_bind, wp_modify, wp_bind. cbn [st].
  fold v. fold (tegra_flipped v). fold (tegra_drawn mem v).
  change (t_blanked (st s)) with (t_blanked v). destruct (t_blanked v) eqn:Eb; cbn [negb when].
  - apply wp_ret, wp_ret. rewrite app_nil_r. split_and!; try done. by exists q'.
  - apply wp_bind, wp_call. intros r _. apply wp_ret, wp_ret. rewrite calls_snoc.
    split_and!; try done. by exists q'.
Qed.

(** ** [screen_init] *)

Lemma tegra_unload_spec l e : forall s,
  wp (for_each l tegra_unload_asset) e s (fun _ s' =>
    forall q, q ∈ t_loaded (st s') <-> q ∈ t_loaded (st s) /\ q ∉ l).
Proof.
  induction l as [|p l IH]; intros s; cbn [for_each]; [apply wp_ret; set_solver|].
  apply wp_bind. unfold tegra_unload_asset at 1. repeat wp_step.
  all: intros q; rewrite H; cbn; rewrite list_elem_of_filter, not_elem_of_cons; tauto.
Qed.

(** Loading changes nothing but the list of loaded pictures. *)
Lemma tegra_load_spec l e : forall s,
  wp (tegra_load_pictures l) e s (fun ok s' =>
    (exists k, st s' = (st s) <| t_loaded := t_loaded (st s) ++ take k l |>) /\
    (ok = true -> t_loaded (st s') = t_loaded (st s) ++ l)).
Proof.
  induction l as [|p l IH]; intros s; cbn [tegra_load_pictures].
  { apply wp_ret. split; [exists 0%nat|intros _; by rewrite app_nil_r]. cbn. rewrite app_nil_r.
    by destruct s as [[] ?]. }
  apply wp_bind, wp_call. intros r _. destruct (r_ret r =? 0); cbn [negb].
  - apply wp_bind, wp_modify. eapply wp_wand; [apply IH|]. intros ok s' [[k Hk] H2].
    split.
    + exists (S k). rewrite Hk. cbn. by rewrite <- app_assoc.
    + intros Hok. rewrite (H2 Hok). cbn. by rewrite <- app_assoc.
  - apply wp_ret. split; [|done]. exists 0%nat. cbn. rewrite app_nil_r. by destruct s as [[] ?].
Qed.

(** What [screen_init] promises to [screen_update]: after success every picture is
    loaded and a display of sufficient size with room for two pages is ready;
    after failure no picture is left in memory. *)
Definition tegra_ready (p : art) (v : tegra_vars) : Prop :=
  t_loaded v = pictures p /\ t_draw_initialized v = true /\
  (t_line_length v mod 2 = 0 -> 346 <= t_xres v <= t_line_length v / 2 -> 448 <= t_yres v ->
   2 * tegra_fb_size v <= t_smem_len v -> t_yoffset v = 0 \/ t_yoffset v = t_yres v -> tegra_ok v).

Lemma tegra_draw_init_spec p width height size stride e s :
  t_loaded (st s) = [] -> t_draw_initialized (st s) = false ->
  wp (tegra_draw_init p width height size stride) e s (fun r s' =>
    (r = Some 0 /\ st s' = (st s) <| t_draw_width := width |> <| t_draw_height := height |>
       <| t_draw_size := size |> <| t_draw_stride := stride |> <| t_loaded := pictures p |>
       <| t_draw_initialized := true |>)
    \/ (r = Some (-1) /\ t_loaded (st s') = [] /\ t_draw_initialized (st s') = false)).
Proof.
  intros Hl Hi. unfold tegra_draw_init. apply wp_bind, wp_modify, wp_bind, wp_gets.
  match goal with |- context [if ?b then _ else _] => destruct b eqn:E end;
    [cbn in E; congruence|]. clear E.
  apply wp_bind. eapply wp_wand; [apply tegra_load_spec|].
  intros ok s' [[k Hk] H2]. cbn in Hk, H2. rewrite Hl in Hk, H2. destruct ok.
  - repeat wp_step. left. split; [done|]. specialize (H2 eq_refl). rewrite Hk in *. cbn in *.
    by rewrite H2.
  - apply wp_bind. unfold tegra_draw_uninit. apply wp_bind.
    eapply wp_wand; [apply tegra_unload_spec|]. intros [] s2 H. repeat wp_step. right.
    split_and!; [done| |done]. cbn. rewrite Hk in H. cbn in H.
    destruct (t_loaded (st s2)) as [|x l]; [done|].
    destruct (proj1 (H x) ltac:(left)) as [Hq Hn]. exfalso. apply Hn.
    eapply subseteq_take; done.
Qed.

Lemma tegra_init_ready p e s :
  t_loaded (st s) = [] -> t_draw_initialized (st s) = false ->
  wp (tegra_screen_init p) e s (fun r s' =>
    (r = Some 0 /\ tegra_ready p (st s')) \/
    (r = Some (-1) /\ t_loaded (st s') = [] /\ t_draw_initialized (st s') = false)).
Proof.
  intros Hl Hi. unfold tegra_screen_init. apply wp_bind.
  apply (wp_wand _ _ _ (fun r s' => t_loaded (st s') = [] /\ t_draw_initialized (st s') = false /\
    (r = 0 -> zlen (t_bits (st s')) = Z.max 0 (t_smem_len (st s') / 2)))).
  { unfold tegra_fb_open, tegra_vt_set_mode. wp_go; split_and!; try done; try lia.
    all: intros _; cbn; rewrite length_take, length_app, length_replicate; lia. }
  intros r s1 (H1 & H2 & H3). destruct (Z.eqb_spec r 0) as [Hr|Hr]; cbn [negb]; [|wp_go; auto].
  apply wp_bind, wp_gets, wp_bind. eapply wp_wand; [by apply tegra_draw_init_spec|].
  intros ? s2 [[-> E]|(-> & E1 & E2)]; cbn.
  - apply wp_ret. left. split; [done|]. rewrite E. split_and!; try done. cbn.
    intros A1 A2 A3 A4 A5. specialize (H3 Hr). split; try done. cbn in *.
    unfold tegra_fb_size in *. cbn in *. rewrite H3. dlia.
  - unfold tegra_fb_close. wp_go. right. auto.
Qed.

(** ** The start picture *)

(** Where the rows follow each other, the start picture is decoded the way
    [screen.c] does it. *)
Lemma tegra_rle_packed data v u :
  t_bits v = fb_bits u -> t_xres v = fbm_width u -> t_yres v = yres u ->
  tegra_rle_pages data v = rle_pages data u.
Proof. intros E1 E2 E3. unfold tegra_rle_pages, rle_pages. by rewrite E1, E2, E3. Qed.

(** Where they do not, the rows of the start picture are skewed and the second page
    does not get it: two rows of two pixels on a display whose rows are three
    pixels apart. *)
Definition skewed_screen : tegra_vars :=
  TegraVars (replicate 12 0) 5 6 24 2 2 4 0 16 false 0 2 2 12 3 [] false.

Lemma tegra_start_picture_skewed :
  exists mem, tegra_rle_pages [1; 1; 1; 2; 1; 3; 1; 4] skewed_screen = Some mem /\
    peek mem (tegra_base 1 skewed_screen) = Some 4 /\
    peek mem (tegra_base 2 skewed_screen) = Some 3 /\
    peek mem (tegra_base 3 skewed_screen) = Some 0.
Proof. eexists. vm_compute. split_and!; reflexivity. Qed.

(** ** Witnesses *)

(** A display of 480 by 800 pixels whose rows are 512 pixels apart. *)
Definition demo_tegra : tegra_vars :=
  TegraVars (replicate (Z.to_nat 819200) 0) 5 1024 1638400 480 800 1600 0 16 false 0
    480 800 819200 512 [] true.

Lemma demo_tegra_ok : tegra_ok demo_tegra.
Proof.
  split; unfold tegra_fb_size, demo_tegra;
    cbn [t_bits t_line_length t_xres t_yres t_yoffset t_draw_width t_draw_height t_draw_size
         t_draw_stride].
  - reflexivity.
  - split; vm_compute; discriminate.
  - vm_compute. discriminate.
  - rewrite length_replicate, Z2Nat.id; vm_compute; discriminate.
  - split_and!; reflexivity.
  - by left.
Qed.

Lemma zlen_replicate n (x : Z) : 0 <= n -> zlen (replicate (Z.to_nat n) x) = n.
Proof. intros. rewrite length_replicate. lia. Qed.

Lemma tegra_stride_equivalent_witness :
  exists mem' q',
    tegra_draw demo_art 480 800 (512 * 800 * 2) 512 3 57 false (replicate (Z.to_nat 819200) 0)
      409600 = Some mem' /\
    tegra_draw demo_art 480 800 (480 * 800 * 2) 480 3 57 false (replicate (Z.to_nat 384000) 0) 0
      = Some q' /\
    length mem' = length (replicate (Z.to_nat 819200) 0) /\
    length q' = length (replicate (Z.to_nat 384000) 0) /\
    (forall x y, 0 <= x < 480 -> 0 <= y < 800 ->
       peek mem' (409600 + 512 * y + x) = peek q' (480 * y + x)) /\
    (forall i, i < 409600 \/ 409600 + 512 * 800 <= i ->
       peek mem' i = peek (replicate (Z.to_nat 819200) 0) i).
Proof.
  apply (tegra_stride_equivalent demo_art 480 800 512 409600 (replicate (Z.to_nat 819200) 0)
    (replicate (Z.to_nat 384000) 0) 3 57 false demo_art_default); try lia;
    rewrite zlen_replicate; lia.
Defined.

Lemma tegra_update_flips_witness :
  let v := demo_tegra in
  wp (tegra_screen_update demo_art 57 false) (fun _ _ => answer 0) (Sys _ _ v []) (fun o s' =>
    o = Some 0 /\ tegra_ok (st s') /\
    t_yoffset (st s') = (if t_yoffset v =? 0 then t_yres v else 0) /\
    tegra_page (t_yoffset v) (st s') = tegra_page (t_yoffset v) v /\
    (exists q', tegra_draw demo_art (t_xres v) (t_yres v) (t_xres v * t_yres v * 2) (t_xres v)
                  (t_frame v) 57 false (replicate (Z.to_nat 384000) 0) 0 = Some q' /\
       tegra_shows (st s') q') /\
    calls s' = calls (Sys _ _ v []) ++
      (if t_blanked v then [] else [T_put_vscreeninfo (t_fd v) (t_yoffset (st s'))])).
Proof.
  intros v. exact (tegra_update_flips demo_art 57 false (fun _ _ => answer 0) (Sys _ _ v [])
    (replicate (Z.to_nat 384000) 0) demo_art_default demo_tegra_ok ltac:(lia)
    (zlen_replicate 384000 0 ltac:(lia))).
Defined.
