(* ===== verification/PcmInterval.v ===== *)
(** * alsa-lib: intervals of parameter values
    ([src/alsa-lib/src/pcm/interval.c] and [interval_inline.h])

    An interval stands for the values that a hardware parameter can still have.
    The bounds are unsigned 32-bit integers; an open bound is not a value itself,
    and [integer] says that only integers are.  A function that can run into a
    failing assertion returns [None] there. *)

From S2P Require Import Prelude.
From S2P Require Import CString.

(** ** Unsigned arithmetic *)

Definition UINT_MAX : Z := 4294967295.

Definition E_NOENT : Z := 2.
Definition E_INVAL : Z := 22.

(** Quotient and remainder. *)
Definition div32 (a b : Z) : Z * Z :=
  if b =? 0 then (UINT_MAX, 0) else (a / b, a mod b).

Definition div_down (a b : Z) : Z := if b =? 0 then UINT_MAX else a / b.

Definition div_up (a b : Z) : Z :=
  if b =? 0 then UINT_MAX else
  let '(q, r) := div32 a b in
  if negb (r =? 0) then u32 (q + 1) else q.

(** Multiplication, addition and subtraction that stop at the ends of the type. *)
Definition sat_mul (a b : Z) : Z :=
  if a =? 0 then 0 else
  if div_down UINT_MAX a <? b then UINT_MAX else u32 (a * b).

Definition sat_add (a b : Z) : Z :=
  if u32 (UINT_MAX - b) <=? a then UINT_MAX else u32 (a + b).

Definition sat_sub (a b : Z) : Z := if b <? a then u32 (a - b) else 0.

(** [a * b / c] with its remainder; the product has 64 bits. *)
Definition muldiv32 (a b c : Z) : option (Z * Z) :=
  let n := a * b in
  if c =? 0 then if 0 <? n then Some (UINT_MAX, 0) else None else
  let q := n / c in
  if UINT_MAX <=? q then Some (UINT_MAX, 0) else Some (q, n mod c).

(** ** Intervals *)

Record snd_interval := Interval {
  i_min : Z;
  i_max : Z;
  i_openmin : bool;
  i_openmax : bool;
  i_integer : bool;
  i_empty : bool }.

#[export] Instance eta_snd_interval : Eta snd_interval := fun i =>
  Interval (i_min i) (i_max i) (i_openmin i) (i_openmax i) (i_integer i) (i_empty i).

#[export] Instance snd_interval_eq_dec : EqDecision snd_interval.
Proof. solve_decision. Defined.

Definition snd_interval_any : snd_interval := Interval 0 UINT_MAX false false false false.

Definition snd_interval_none (i : snd_interval) : snd_interval := i <| i_empty := true |>.

Definition snd_interval_checkempty (i : snd_interval) : bool :=
  (i_max i <? i_min i) || ((i_min i =? i_max i) && (i_openmin i || i_openmax i)).

Definition snd_interval_single (i : snd_interval) : option bool :=
  if i_empty i then None else
  Some ((i_min i =? i_max i) || ((u32 (i_min i + 1) =? i_max i) && i_openmax i)).

(** The result has type [int]. *)
Definition snd_interval_value (i : snd_interval) : option Z :=
  match snd_interval_single i with Some true => Some (wrap32 (i_min i)) | _ => None end.

Definition snd_interval_set_value (val : Z) : snd_interval :=
  Interval val val false false false false.

Definition snd_interval_min (i : snd_interval) : option Z :=
  if i_empty i then None else Some (wrap32 (i_min i)).
Definition snd_interval_max (i : snd_interval) : option Z :=
  if i_empty i then None else Some (wrap32 (i_max i)).

Definition snd_interval_set_minmax (min max : Z) : snd_interval :=
  Interval min max false false false false.

Definition snd_interval_test (i : snd_interval) (val : Z) : bool :=
  negb ((val <? i_min i) || ((i_min i =? val) && i_openmin i) ||
        (i_max i <? val) || ((i_max i =? val) && i_openmax i)).

Definition snd_interval_setinteger (i : snd_interval) : Z * snd_interval :=
  if i_integer i then (0, i) else
  if i_openmin i && i_openmax i && (i_min i =? i_max i) then (- E_INVAL, i) else
  (1, i <| i_integer := true |>).

Definition snd_interval_floor (i : snd_interval) : snd_interval :=
  if i_integer i || i_empty i then i else
  let i := i <| i_openmin := false |> in
  let i := if i_openmax i then i <| i_max := u32 (i_max i - 1) |> <| i_openmax := false |> else i in
  i <| i_integer := true |>.

Definition snd_interval_unfloor (i : snd_interval) : snd_interval :=
  if i_empty i then i else
  if i_max i =? UINT_MAX then i else
  if i_openmax i then i else
  i <| i_max := u32 (i_max i + 1) |> <| i_openmax := true |> <| i_integer := false |>.

Definition snd_interval_always_eq (i1 i2 : snd_interval) : option bool :=
  s1 ← snd_interval_single i1;
  if negb s1 then Some false else
  s2 ← snd_interval_single i2;
  if negb s2 then Some false else
  v1 ← snd_interval_value i1; v2 ← snd_interval_value i2; Some (v1 =? v2).

Definition snd_interval_never_eq (i1 i2 : snd_interval) : bool :=
  (i_max i1 <? i_min i2) ||
  ((i_max i1 =? i_min i2) && (i_openmax i1 || i_openmin i1)) ||
  (i_max i2 <? i_min i1) ||
  ((i_min i1 =? i_max i2) && (i_openmin i1 || i_openmax i2)).

(** ** Refinement *)

(** The steps that the refining functions share: a new lower or upper bound... *)
Definition raise_min (min : Z) (openmin : bool) (i : snd_interval) : bool * snd_interval :=
  if i_min i <? min then (true, i <| i_min := min |> <| i_openmin := openmin |>)
  else if (i_min i =? min) && negb (i_openmin i) && openmin then (true, i <| i_openmin := true |>)
  else (false, i).

Definition lower_max (max : Z) (openmax : bool) (i : snd_interval) : bool * snd_interval :=
  if max <? i_max i then (true, i <| i_max := max |> <| i_openmax := openmax |>)
  else if (i_max i =? max) && negb (i_openmax i) && openmax then (true, i <| i_openmax := true |>)
  else (false, i).

(** ... an open bound of integers is moved to the next integer... *)
Definition close_min (i : snd_interval) : snd_interval :=
  if i_openmin i then i <| i_min := u32 (i_min i + 1) |> <| i_openmin := false |> else i.
Definition close_max (i : snd_interval) : snd_interval :=
  if i_openmax i then i <| i_max := u32 (i_max i - 1) |> <| i_openmax := false |> else i.

(** ... and an interval that has become empty is marked. *)
Definition refined (changed : bool) (i : snd_interval) : Z * snd_interval :=
  if snd_interval_checkempty i then (- E_INVAL, snd_interval_none i)
  else (if changed then 1 else 0, i).

(** The fields are one bit wide; the callers pass 0 or 1. *)
Definition snd_interval_refine_min (i : snd_interval) (min : Z) (openmin : bool)
    : Z * snd_interval :=
  if i_empty i then (- E_NOENT, i) else
  let '(changed, i) := raise_min min openmin i in
  let i := if i_integer i then close_min i else i in
  refined changed i.

Definition snd_interval_refine_max (i : snd_interval) (max : Z) (openmax : bool)
    : Z * snd_interval :=
  if i_empty i then (- E_NOENT, i) else
  let '(changed, i) := lower_max max openmax i in
  let i := if i_integer i then close_max i else i in
  refined changed i.

Definition snd_interval_refine (i v : snd_interval) : Z * snd_interval :=
  if i_empty i then (- E_NOENT, i) else
  let '(c1, i) := raise_min (i_min v) (i_openmin v) i in
  let '(c2, i) := lower_max (i_max v) (i_openmax v) i in
  let '(c3, i) := if negb (i_integer i) && i_integer v then (true, i <| i_integer := true |>)
                  else (false, i) in
  let i := if i_integer i then close_max (close_min i)
           else if negb (i_openmin i) && negb (i_openmax i) && (i_min i =? i_max i)
           then i <| i_integer := true |> else i in
  refined (c1 || c2 || c3) i.

(** [None] is the assertion of [snd_interval_single], which the first test excludes. *)
Definition snd_interval_refine_first (i : snd_interval) : option (Z * snd_interval) :=
  if i_empty i then Some (- E_NOENT, i) else
  single ← snd_interval_single i;
  if single : bool then Some (0, i) else
  let i := i <| i_max := i_min i |> <| i_openmax := i_openmin i |> in
  let i := if i_openmax i then i <| i_max := u32 (i_max i + 1) |> else i in
  Some (1, i).

Definition snd_interval_refine_last (i : snd_interval) : option (Z * snd_interval) :=
  if i_empty i then Some (- E_NOENT, i) else
  single ← snd_interval_single i;
  if single : bool then Some (0, i) else
  let i := i <| i_min := i_max i |> <| i_openmin := i_openmax i |> in
  let i := if i_openmin i then i <| i_min := u32 (i_min i - 1) |> else i in
  Some (1, i).

Definition snd_interval_refine_set (i : snd_interval) (val : Z) : Z * snd_interval :=
  snd_interval_refine i (Interval val val false false true false).

(** ** Arithmetic *)

(** [c] is what the result holds before; only [snd_interval_none] leaves fields of
    it as they are. *)
Definition snd_interval_add (a b c : snd_interval) : snd_interval :=
  if i_empty a || i_empty b then snd_interval_none c else
  Interval (sat_add (i_min a) (i_min b)) (sat_add (i_max a) (i_max b))
    (i_openmin a || i_openmin b) (i_openmax a || i_openmax b)
    (i_integer a && i_integer b) false.

Definition snd_interval_sub (a b c : snd_interval) : snd_interval :=
  if i_empty a || i_empty b then snd_interval_none c else
  Interval (sat_sub (i_min a) (i_max b)) (sat_add (i_max a) (i_min b))
    (i_openmin a || i_openmax b) (i_openmax a || i_openmin b)
    (i_integer a && i_integer b) false.

Definition snd_interval_mul (a b c : snd_interval) : snd_interval :=
  if i_empty a || i_empty b then snd_interval_none c else
  Interval (sat_mul (i_min a) (i_min b)) (sat_mul (i_max a) (i_max b))
    (i_openmin a || i_openmin b) (i_openmax a || i_openmax b)
    (i_integer a && i_integer b) false.

(** The upper bound of a quotient: rounded up, and open where it was rounded. *)
Definition round_max (q r : Z) (open : bool) : Z * bool :=
  if negb (r =? 0) then (u32 (q + 1), true) else (q, open).

Definition snd_interval_div (a b c : snd_interval) : snd_interval :=
  if i_empty a || i_empty b then snd_interval_none c else
  let '(qmin, r) := div32 (i_min a) (i_max b) in
  let openmin := negb (r =? 0) || i_openmin a || i_openmax b in
  let '(qmax, openmax) :=
    if 0 <? i_min b then
      let '(q, r) := div32 (i_max a) (i_min b) in round_max q r (i_openmax a || i_openmin b)
    else (UINT_MAX, false) in
  Interval qmin qmax openmin openmax false false.

(** [a * b / c] *)
Definition snd_interval_muldiv (a b c d : snd_interval) : option snd_interval :=
  if i_empty a || i_empty b || i_empty c then Some (snd_interval_none d) else
  '(qmin, r) ← muldiv32 (i_min a) (i_min b) (i_max c);
  let openmin := negb (r =? 0) || i_openmin a || i_openmin b || i_openmax c in
  '(q, r) ← muldiv32 (i_max a) (i_max b) (i_min c);
  let '(qmax, openmax) := round_max q r (i_openmax a || i_openmax b || i_openmin c) in
  Some (Interval qmin qmax openmin openmax false false).

(** [a * b / k] *)
Definition snd_interval_muldivk (a b : snd_interval) (k : Z) (c : snd_interval)
    : option snd_interval :=
  if i_empty a || i_empty b then Some (snd_interval_none c) else
  '(qmin, r) ← muldiv32 (i_min a) (i_min b) k;
  let openmin := negb (r =? 0) || i_openmin a || i_openmin b in
  '(q, r) ← muldiv32 (i_max a) (i_max b) k;
  let '(qmax, openmax) := round_max q r (i_openmax a || i_openmax b) in
  Some (Interval qmin qmax openmin openmax false false).

(** [a * k / b] *)
Definition snd_interval_mulkdiv (a : snd_interval) (k : Z) (b c : snd_interval)
    : option snd_interval :=
  if i_empty a || i_empty b then Some (snd_interval_none c) else
  '(qmin, r) ← muldiv32 (i_min a) k (i_max b);
  let openmin := negb (r =? 0) || i_openmin a || i_openmax b in
  if 0 <? i_min b then
    '(q, r) ← muldiv32 (i_max a) k (i_min b);
    let '(qmax, openmax) := round_max q r (i_openmax a || i_openmin b) in
    Some (Interval qmin qmax openmin openmax false false)
  else Some (Interval qmin UINT_MAX openmin false false false).

(** ** Boundaries: a value and the side of it *)

Definition boundary_sub (a adir b bdir : Z) : option (Z * Z) :=
  let adir := Z.sgn adir in
  let bdir := Z.sgn bdir in
  let c := wrap32 (a - b) in
  let cdir := adir - bdir in
  if cdir =? -2 then if INT_MIN <? c then Some (c - 1, cdir) else None
  else if cdir =? 2 then if c <? INT_MAX then Some (c + 1, cdir) else None
  else Some (c, cdir).

Definition boundary_lt (a adir b bdir : Z) : option bool :=
  if negb ((0 <? a) || (0 <=? adir)) then None else
  if negb ((0 <? b) || (0 <=? bdir)) then None else
  let '(a, adir) := if adir <? 0 then (u32 (a - 1), 1) else if 0 <? adir then (a, 1) else (a, adir) in
  let '(b, bdir) := if bdir <? 0 then (u32 (b - 1), 1) else if 0 <? bdir then (b, 1) else (b, bdir) in
  Some ((a <? b) || ((a =? b) && (adir <? bdir))).

(** 1 if [min] is nearer to [best] than [max]; the differences become unsigned. *)
Definition boundary_nearer (min mindir best bestdir max maxdir : Z) : option bool :=
  '(dmin, dmindir) ← boundary_sub best bestdir min mindir;
  '(dmax, dmaxdir) ← boundary_sub max maxdir best bestdir;
  boundary_lt (u32 dmin) dmindir (u32 dmax) dmaxdir.

(** [snd_interval_print] *)
Definition snd_interval_print (i : snd_interval) : string :=
  if i_empty i then "NONE"
  else if (i_min i =? 0) && negb (i_openmin i) && (i_max i =? UINT_MAX) && negb (i_openmax i)
  then "ALL"
  else if default false (snd_interval_single i) && i_integer i then pretty (i_min i)
  else (if i_openmin i then "(" else "[") +:+ pretty (i_min i) +:+ " " +:+ pretty (i_max i)
       +:+ (if i_openmax i then ")" else "]").
