(* ===== verification/PcmIntervalThms.v ===== *)
(** * alsa-lib: interval refinement is intersection, interval arithmetic is sound

    The meaning of an interval is a set of rational numbers. *)

From Stdlib Require Import QArith Qround Lqa.
From S2P Require Import Prelude.
From S2P Require Import CString.
From S2P Require Import PcmInterval.

Open Scope Z_scope.

(** ** The values of an interval *)

Definition above (m : Z) (open : bool) (q : Q) : Prop :=
  if open then (inject_Z m < q)%Q else (inject_Z m <= q)%Q.
Definition below (m : Z) (open : bool) (q : Q) : Prop :=
  if open then (q < inject_Z m)%Q else (q <= inject_Z m)%Q.
Definition is_int (q : Q) : Prop := exists z, (q == inject_Z z)%Q.

#[export] Instance interval_elem_of : ElemOf Q snd_interval := fun q i =>
  i_empty i = false /\ above (i_min i) (i_openmin i) q /\ below (i_max i) (i_openmax i) q /\
  (i_integer i = true -> is_int q).

(** The bounds are of the type, and an interval that is not marked empty is not
    empty by its bounds. *)
Record interval_ok (i : snd_interval) : Prop := IntervalOk {
  ok_lo : 0 <= i_min i <= UINT_MAX;
  ok_hi : 0 <= i_max i <= UINT_MAX;
  ok_order : i_empty i = false -> snd_interval_checkempty i = false }.

(** An interval of integers has closed bounds. *)
Definition interval_closed (i : snd_interval) : Prop :=
  i_integer i = true -> i_openmin i = false /\ i_openmax i = false.

Lemma zlt_q a b : a < b -> (inject_Z a < inject_Z b)%Q.
Proof. by rewrite Zlt_Qlt. Qed.
Lemma zle_q a b : a <= b -> (inject_Z a <= inject_Z b)%Q.
Proof. by rewrite Zle_Qle. Qed.

(** Comparisons of integers as rationals *)
Ltac zq :=
  repeat match goal with
  | H : (?a < ?b)%Z |- _ =>
      lazymatch goal with H' : (inject_Z a < inject_Z b)%Q |- _ => fail | _ =>
        pose proof (zlt_q a b H) end
  | H : (?a <= ?b)%Z |- _ =>
      lazymatch goal with H' : (inject_Z a <= inject_Z b)%Q |- _ => fail | _ =>
        pose proof (zle_q a b H) end
  end.

Lemma u32_id x : 0 <= x <= UINT_MAX -> u32 x = x.
Proof. intros H. unfold u32, UINT_MAX in *. apply Z.mod_small. lia. Qed.

Lemma checkempty_false i : snd_interval_checkempty i = false <->
  i_min i < i_max i \/ i_min i = i_max i /\ i_openmin i = false /\ i_openmax i = false.
Proof. unfold snd_interval_checkempty. destruct (i_openmin i), (i_openmax i); lia. Qed.

Lemma above_max m o m' o' q :
  above m o q /\ above m' o' q <->
  above (if m <? m' then m' else m) (if m <? m' then o' else if m =? m' then o || o' else o) q.
Proof.
  unfold above. destruct (Z.ltb_spec m m'); [|destruct (Z.eqb_spec m m') as [->|]].
  - zq. destruct o, o'; cbn [orb]; (split; [intros [??]|intros ?; split]); lra.
  - destruct o, o'; cbn [orb]; (split; [intros [??]|intros ?; split]); lra.
  - assert (m' < m) by lia. zq. destruct o, o'; cbn [orb]; (split; [intros [??]|intros ?; split]); lra.
Qed.

Lemma below_min m o m' o' q :
  below m o q /\ below m' o' q <->
  below (if m' <? m then m' else m) (if m' <? m then o' else if m =? m' then o || o' else o) q.
Proof.
  unfold below. destruct (Z.ltb_spec m' m); [|destruct (Z.eqb_spec m m') as [->|]].
  - zq. destruct o, o'; cbn [orb]; (split; [intros [??]|intros ?; split]); lra.
  - destruct o, o'; cbn [orb]; (split; [intros [??]|intros ?; split]); lra.
  - assert (m < m') by lia. zq. destruct o, o'; cbn [orb]; (split; [intros [??]|intros ?; split]); lra.
Qed.

Lemma above_next m q : is_int q -> above m true q <-> above (m + 1) false q.
Proof.
  intros [z Hz]. unfold above. rewrite Hz, <- Zlt_Qlt, <- Zle_Qle. lia.
Qed.

Lemma below_prev m q : is_int q -> below m true q <-> below (m - 1) false q.
Proof.
  intros [z Hz]. unfold below. rewrite Hz, <- Zlt_Qlt, <- Zle_Qle. lia.
Qed.

#[export] Instance above_proper m o : Proper (Qeq ==> iff) (above m o).
Proof. intros q q' E. unfold above. destruct o; by rewrite E. Qed.
#[export] Instance below_proper m o : Proper (Qeq ==> iff) (below m o).
Proof. intros q q' E. unfold below. destruct o; by rewrite E. Qed.
#[export] Instance is_int_proper : Proper (Qeq ==> iff) is_int.
Proof. intros q q' E. unfold is_int. by setoid_rewrite E. Qed.
#[export] Instance interval_elem_proper : Proper (Qeq ==> eq ==> iff) (elem_of (A := Q) (B := snd_interval)).
Proof. intros q q' E i ? <-. unfold elem_of, interval_elem_of. by rewrite E. Qed.

(** An interval that is not empty by its bounds has a value. *)
Lemma interval_inhabited i :
  i_empty i = false -> snd_interval_checkempty i = false -> interval_closed i -> exists q, q ∈ i.
Proof.
  intros He Hc%checkempty_false Hcl.
  destruct (decide (i_openmin i = true)) as [Ho|Ho].
  - exists ((inject_Z (i_min i) + inject_Z (i_max i)) * (1 # 2))%Q.
    destruct Hc as [Hlt|(_ & Hc & _)]; [|congruence]. zq.
    split_and!; [done| | |intros Hi; destruct (Hcl Hi); congruence]; unfold above, below.
    + rewrite Ho. lra.
    + destruct (i_openmax i); lra.
  - exists (inject_Z (i_min i)). apply not_true_is_false in Ho.
    split_and!; [done| | |by exists (i_min i)]; unfold above, below.
    + rewrite Ho. lra.
    + destruct Hc as [Hlt|(-> & _ & Hm)]; [zq; destruct (i_openmax i); lra|]. rewrite Hm. lra.
Qed.

(** ** Refinement *)

Lemma raise_min_spec m o i c i' : raise_min m o i = (c, i') ->
  i' = i <| i_min := i_min i' |> <| i_openmin := i_openmin i' |> /\
  (c = false -> i' = i) /\
  (i_min i' = i_min i /\ i_openmin i' = i_openmin i \/ i_min i' = m /\ i_openmin i' = o) /\
  (forall q, above (i_min i') (i_openmin i') q <-> above (i_min i) (i_openmin i) q /\ above m o q) /\
  (c = true -> 2 * i_min i + Z.b2z (i_openmin i) < 2 * i_min i' + Z.b2z (i_openmin i')).
Proof.
  unfold raise_min. intros E. setoid_rewrite above_max.
  destruct (Z.ltb_spec (i_min i) m).
  { injection E as <- <-. destruct i; cbn in *. split_and!; try done; auto.
    intros _. destruct i_openmin, o; cbn; lia. }
  destruct (Z.eqb_spec (i_min i) m) as [Hm|Hm]; cbn [andb] in E.
  - destruct (i_openmin i) eqn:Eo, o; cbn in E; injection E as <- <-; destruct i; cbn in *; subst;
      split_and!; try done; auto; lia.
  - injection E as <- <-. destruct i; cbn in *. split_and!; try done; auto.
Qed.

Lemma lower_max_spec m o i c i' : lower_max m o i = (c, i') ->
  i' = i <| i_max := i_max i' |> <| i_openmax := i_openmax i' |> /\
  (c = false -> i' = i) /\
  (i_max i' = i_max i /\ i_openmax i' = i_openmax i \/ i_max i' = m /\ i_openmax i' = o) /\
  (forall q, below (i_max i') (i_openmax i') q <-> below (i_max i) (i_openmax i) q /\ below m o q) /\
  (c = true -> 2 * i_max i' - Z.b2z (i_openmax i') < 2 * i_max i - Z.b2z (i_openmax i)).
Proof.
  unfold lower_max. intros E. setoid_rewrite below_min.
  destruct (Z.ltb_spec m (i_max i)).
  { injection E as <- <-. destruct i; cbn in *. split_and!; try done; auto.
    intros _. destruct i_openmax, o; cbn; lia. }
  destruct (Z.eqb_spec (i_max i) m) as [Hm|Hm]; cbn [andb] in E.
  - destruct (i_openmax i) eqn:Eo, o; cbn in E; injection E as <- <-; destruct i; cbn in *; subst;
      split_and!; try done; auto; lia.
  - injection E as <- <-. destruct i; cbn in *. split_and!; try done; auto.
Qed.

Lemma close_min_spec i : 0 <= i_min i <= UINT_MAX -> (i_openmin i = true -> i_min i < UINT_MAX) ->
  let i' := close_min i in
  i' = i <| i_min := i_min i' |> <| i_openmin := false |> /\ i_openmin i' = false /\
  0 <= i_min i' <= UINT_MAX /\
  (forall q, is_int q -> above (i_min i') (i_openmin i') q <-> above (i_min i) (i_openmin i) q) /\
  2 * i_min i + Z.b2z (i_openmin i) <= 2 * i_min i' + Z.b2z (i_openmin i').
Proof.
  intros H1 H2. unfold close_min. destruct i as [lo hi ol oh n e]; destruct ol; cbn in *; [|split_and!; try done; lia].
  rewrite u32_id by lia. split_and!; try done; try lia. intros q Hq. symmetry. by apply above_next.
Qed.

Lemma close_max_spec i : 0 <= i_max i <= UINT_MAX -> (i_openmax i = true -> 0 < i_max i) ->
  let i' := close_max i in
  i' = i <| i_max := i_max i' |> <| i_openmax := false |> /\ i_openmax i' = false /\
  0 <= i_max i' <= UINT_MAX /\
  (forall q, is_int q -> below (i_max i') (i_openmax i') q <-> below (i_max i) (i_openmax i) q) /\
  2 * i_max i' - Z.b2z (i_openmax i') <= 2 * i_max i - Z.b2z (i_openmax i).
Proof.
  intros H1 H2. unfold close_max. destruct i as [lo hi ol oh n e]; destruct oh; cbn in *; [|split_and!; try done; lia].
  rewrite u32_id by lia. split_and!; try done; try lia. intros q Hq. symmetry. by apply below_prev.
Qed.

(** How far an interval is from having a single value: what refining decreases. *)
Definition interval_width (i : snd_interval) : Z :=
  (2 * i_max i - Z.b2z (i_openmax i)) - (2 * i_min i + Z.b2z (i_openmin i))
  + Z.b2z (negb (i_integer i)).

(** The last step of the refining functions, on an interval [i] with the values [V]. *)
Lemma refined_spec c i r i' :
  refined c i = (r, i') -> i_empty i = false ->
  0 <= i_min i <= UINT_MAX -> 0 <= i_max i <= UINT_MAX ->
  interval_ok i' /\ (forall q, q ∈ i' <-> q ∈ i) /\
  ((r = if c then 1 else 0) /\ i' = i \/ r = - E_INVAL /\ i' = snd_interval_none i /\ forall q, ~ q ∈ i).
Proof.
  unfold refined. destruct (snd_interval_checkempty i) eqn:Ec; intros [= <- <-] He H1 H2.
  - assert (forall q, ~ q ∈ i) as Hno.
    { intros q (_ & Ha & Hb & _). apply not_false_iff_true in Ec. apply Ec, checkempty_false.
      unfold above, below in *. destruct (Z.lt_total (i_min i) (i_max i)) as [?|[?|?]]; [by left|..].
      - right. split; [done|]. rewrite H in *.
        destruct (i_openmin i), (i_openmax i); split; try done; lra.
      - exfalso. zq. destruct (i_openmin i), (i_openmax i); lra. }
    split_and!; [done| |by right]. intros q. split; [|intros ?%Hno; done]. by intros [? _].
  - split_and!; [done|done|by left].
Qed.

(** The interval before it is normalised: the tighter bounds of the two. *)
Definition meet (i v : snd_interval) : bool * snd_interval :=
  let '(c1, i) := raise_min (i_min v) (i_openmin v) i in
  let '(c2, i) := lower_max (i_max v) (i_openmax v) i in
  let '(c3, i) := if negb (i_integer i) && i_integer v then (true, i <| i_integer := true |>)
                  else (false, i) in
  (c1 || c2 || c3, i).

Definition normalise (i : snd_interval) : snd_interval :=
  if i_integer i then close_max (close_min i)
  else if negb (i_openmin i) && negb (i_openmax i) && (i_min i =? i_max i)
  then i <| i_integer := true |> else i.

Lemma refine_meet i v : i_empty i = false ->
  snd_interval_refine i v = let '(c, i) := meet i v in refined c (normalise i).
Proof.
  intros He. unfold snd_interval_refine, meet, normalise. rewrite He.
  destruct (raise_min _ _ _) as [c1 i1]. destruct (lower_max _ _ _) as [c2 i2].
  by destruct (negb (i_integer i2) && i_integer v).
Qed.

(** An open bound can be moved by one. *)
Lemma ok_open i : interval_ok i -> i_empty i = false ->
  (i_openmin i = true -> i_min i < UINT_MAX) /\ (i_openmax i = true -> 0 < i_max i).
Proof.
  intros [H1 H2 H3] He. specialize (H3 He). apply checkempty_false in H3.
  destruct H3 as [?|(? & -> & ->)]; [|done]. split; lia.
Qed.

Lemma meet_spec i v c i' : meet i v = (c, i') -> interval_ok i -> interval_ok v ->
  i_empty i = false -> i_empty v = false ->
  (forall q, q ∈ i' <-> q ∈ i /\ q ∈ v) /\ i_empty i' = false /\
  (c = false -> i' = i) /\ interval_width i' <= interval_width i /\
  (c = true -> interval_width i' < interval_width i) /\
  0 <= i_min i' <= UINT_MAX /\ 0 <= i_max i' <= UINT_MAX /\
  (i_openmin i' = true -> i_min i' < UINT_MAX) /\ (i_openmax i' = true -> 0 < i_max i').
Proof.
  intros E Hi Hv Hei Hev. destruct (ok_open i Hi Hei) as [Ho1 Ho2].
  destruct (ok_open v Hv Hev) as [Ho3 Ho4]. destruct Hi as [Hi1 Hi2 _], Hv as [Hv1 Hv2 _].
  unfold meet in E. destruct (raise_min (i_min v) (i_openmin v) i) as [c1 i1] eqn:E1.
  destruct (raise_min_spec _ _ _ _ _ E1) as (A1 & A2 & A3 & A4 & A5).
  destruct (lower_max (i_max v) (i_openmax v) i1) as [c2 i2] eqn:E2.
  destruct (lower_max_spec _ _ _ _ _ E2) as (B1 & B2 & B3 & B4 & B5). clear E1 E2.
  destruct i as [lo hi ol oh n e], v as [lo' hi' ol' oh' n' e'], i1 as [lo1 hi1 ol1 oh1 n1 e1],
    i2 as [lo2 hi2 ol2 oh2 n2 e2]. cbn in *. injection A1 as -> -> -> ->.
  injection B1 as -> -> -> ->. subst e e'.
  assert ((c1 = true -> 2 * lo + Z.b2z ol < 2 * lo1 + Z.b2z ol1) /\
    (c1 = false -> lo1 = lo /\ ol1 = ol)) as [Hc1 Hc1'].
  { split; [done|]. intros H. by injection (A2 H) as -> ->. }
  assert ((c2 = true -> 2 * hi2 - Z.b2z oh2 < 2 * hi - Z.b2z oh) /\
    (c2 = false -> hi2 = hi /\ oh2 = oh)) as [Hc2 Hc2'].
  { split; [done|]. intros H. by injection (B2 H) as -> ->. }
  assert (exists n2, i' = Interval lo1 hi2 ol1 oh2 n2 false /\ n2 = n || n' /\
    c = c1 || c2 || (negb n && n')) as (m & -> & Hm & Hc).
  { destruct n, n'; cbn in E; injection E as <- <-; eexists; split_and!; try done;
      by rewrite ?orb_false_r, ?orb_true_r. }
  assert (0 <= lo1 <= UINT_MAX /\ (ol1 = true -> lo1 < UINT_MAX)) as [Hlo1 Hol1]
    by (clear - A3 Hi1 Hv1 Ho1 Ho3; by destruct A3 as [[-> ->]|[-> ->]]).
  assert (0 <= hi2 <= UINT_MAX /\ (oh2 = true -> 0 < hi2)) as [Hhi2 Hoh2]
    by (clear - B3 Hi2 Hv2 Ho2 Ho4; by destruct B3 as [[-> ->]|[-> ->]]).
  assert (2 * lo + Z.b2z ol <= 2 * lo1 + Z.b2z ol1) as Hle1.
  { destruct c1; [apply Z.lt_le_incl; auto|]. destruct (Hc1' eq_refl) as [-> ->]. lia. }
  assert (2 * hi2 - Z.b2z oh2 <= 2 * hi - Z.b2z oh) as Hle2.
  { destruct c2; [apply Z.lt_le_incl; auto|]. destruct (Hc2' eq_refl) as [-> ->]. lia. }
  clear E A2 A3 A5 B2 B3 B5 Ho1 Ho2 Ho3 Ho4 Hi1 Hi2 Hv1 Hv2.
  split; [|split; [done|split; [|split; [|split; [|done]]]]].
  - intros q. unfold elem_of, interval_elem_of. cbn. rewrite A4, B4. subst m.
    destruct n, n'; cbn; naive_solver.
  - intros ->. destruct c1, c2; cbn in Hc; try done. destruct (Hc1' eq_refl) as [-> ->].
    destruct (Hc2' eq_refl) as [-> ->]. subst m. by destruct n, n'.
  - unfold interval_width. cbn. subst m. clear - Hle1 Hle2. destruct n, n'; cbn; lia.
  - unfold interval_width. cbn. subst m c. clear - Hle1 Hle2 Hc1 Hc2. intros E.
    destruct c1; [specialize (Hc1 eq_refl); destruct n, n'; cbn; lia|].
    destruct c2; [specialize (Hc2 eq_refl); destruct n, n'; cbn; lia|].
    destruct n, n'; cbn in *; (done || lia).
Qed.

Lemma normalise_spec i : 0 <= i_min i <= UINT_MAX -> 0 <= i_max i <= UINT_MAX ->
  (i_openmin i = true -> i_min i < UINT_MAX) -> (i_openmax i = true -> 0 < i_max i) ->
  let i' := normalise i in
  i_empty i' = i_empty i /\ (forall q, q ∈ i' <-> q ∈ i) /\ interval_closed i' /\
  interval_width i' <= interval_width i /\ 0 <= i_min i' <= UINT_MAX /\ 0 <= i_max i' <= UINT_MAX.
Proof.
  intros H1 H2 H3 H4. unfold normalise. destruct (i_integer i) eqn:Ei.
  - destruct (close_min_spec i H1 H3) as (A1 & A2 & A3 & A4 & A5).
    destruct (close_max_spec (close_min i)) as (B1 & B2 & B3 & B4 & B5);
      [by rewrite A1|by rewrite A1|].
    remember (close_min i) as j eqn:Ej. remember (close_max j) as k eqn:Ek. clear Ej Ek.
    destruct i, j as [lo1 hi1 ol1 oh1 n1 e1], k as [lo2 hi2 ol2 oh2 n2 e2]. cbn in *.
    injection A1 as -> -> -> ->. injection B1 as -> -> -> ->. subst.
    split_and!; try done; try lia.
    + intros q. unfold elem_of, interval_elem_of. cbn.
      split; intros (? & Ha & Hb & Hn); specialize (Hn eq_refl);
        (split_and!; [done|by apply A4|by apply B4|done]).
    + unfold interval_width. cbn. lia.
  - destruct (negb (i_openmin i) && negb (i_openmax i) && (i_min i =? i_max i)) eqn:E;
      [|split_and!; try done; try lia; intros ?; congruence].
    destruct i as [lo hi ol oh n e]. cbn in *. destruct ol, oh; cbn in E; try done.
    apply Z.eqb_eq in E as ->. split_and!; try done; try lia.
    + intros q. unfold elem_of, interval_elem_of. cbn. split; intros (? & Ha & Hb & Hn); [by subst|].
      split_and!; try done. intros _. exists hi. lra.
    + unfold interval_width. cbn. subst. lia.
Qed.

Lemma refine_facts i v r i' : snd_interval_refine i v = (r, i') ->
  interval_ok i -> interval_ok v -> i_empty v = false ->
  interval_ok i' /\ (forall q, q ∈ i' <-> q ∈ i /\ q ∈ v) /\
  (r < 0 <-> forall q, ~ q ∈ i') /\ (r = 0 -> forall q, q ∈ i' <-> q ∈ i) /\
  (0 <= r -> i_empty i' = false /\ interval_closed i' /\
     interval_width i' <= interval_width i - r).
Proof.
  intros E Hi Hv Hev. destruct (i_empty i) eqn:Hei.
  { unfold snd_interval_refine in E. rewrite Hei in E. injection E as <- <-.
    assert (forall q, ~ q ∈ i) as Hno by (intros q [? _]; congruence).
    split_and!; try done. intros q. split; [by intros ?%Hno|naive_solver]. }
  rewrite (refine_meet i v Hei) in E. destruct (meet i v) as [c j] eqn:Em.
  destruct (meet_spec _ _ _ _ Em Hi Hv Hei Hev) as (M1 & M2 & M3 & M4 & M5 & M6 & M7 & M8 & M9).
  destruct (normalise_spec j M6 M7 M8 M9) as (N1 & N2 & N3 & N4 & N5 & N6).
  destruct (refined_spec _ _ _ _ E) as (R1 & R2 & R3); [congruence|done..|].
  split_and!; [done| | | |].
  - intros q. by rewrite R2, N2, M1.
  - destruct R3 as [[-> ->]|(-> & -> & Hno)]; [|split; [|done]; intros _ q; by rewrite R2].
    split; [destruct c; lia|]. intros Hno.
    destruct (interval_inhabited (normalise j)) as [q Hq]; [congruence| |done|by destruct (Hno q)].
    apply R1. congruence.
  - destruct R3 as [[-> ->]|(-> & _)]; [|done]. intros Hr q. rewrite N2.
    destruct c; [done|]. by rewrite (M3 eq_refl).
  - destruct R3 as [[-> ->]|(-> & _)]; [|done]. intros _. split_and!; [congruence|done|].
    destruct c; [specialize (M5 eq_refl)|]; lia.
Qed.

(** C36.  Refining is intersecting: the values that remain are exactly those of both
    intervals, as rational numbers with open and closed bounds; the function
    fails exactly when none remain, and 0 means that no value was lost.  The
    bounds stay within their type: the steps to the next integer never wrap. *)
Theorem interval_refine_intersects i v :
  interval_ok i -> interval_ok v -> i_empty v = false ->
  let '(r, i') := snd_interval_refine i v in
  interval_ok i' /\ (forall q, q ∈ i' <-> q ∈ i /\ q ∈ v) /\
  (r < 0 <-> forall q, ~ q ∈ i') /\ (r = 0 -> forall q, q ∈ i' <-> q ∈ i).
Proof.
  intros Hi Hv He. destruct (snd_interval_refine i v) as [r i'] eqn:E.
  destruct (refine_facts _ _ _ _ E Hi Hv He) as (? & ? & ? & ? & _). done.
Qed.

(** ** Arithmetic *)

Lemma inject_mul a b : (inject_Z (a * b) == inject_Z a * inject_Z b)%Q.
Proof. by rewrite inject_Z_mult. Qed.

Lemma sat_mul_spec a b : 0 <= a <= UINT_MAX -> 0 <= b <= UINT_MAX ->
  sat_mul a b = Z.min (a * b) UINT_MAX.
Proof.
  intros Ha Hb. unfold sat_mul, div_down. destruct (Z.eqb_spec a 0) as [->|Hne]; [unfold UINT_MAX; lia|].
  destruct (Z.ltb_spec (UINT_MAX / a) b).
  - rewrite Z.min_r; [done|]. pose proof (Z.div_mod UINT_MAX a ltac:(lia)).
    pose proof (Z.mod_pos_bound UINT_MAX a ltac:(lia)). nia.
  - assert (a * b <= UINT_MAX) by (pose proof (Z.mul_div_le UINT_MAX a ltac:(lia)); nia).
    rewrite Z.min_l by done. apply u32_id. split; [apply Z.mul_nonneg_nonneg; lia|done].
Qed.

Lemma sat_add_spec a b : 0 <= a <= UINT_MAX -> 0 <= b <= UINT_MAX ->
  sat_add a b = Z.min (a + b) UINT_MAX.
Proof.
  intros Ha Hb. unfold sat_add. rewrite (u32_id (UINT_MAX - b)) by lia.
  destruct (Z.leb_spec (UINT_MAX - b) a); [lia|]. rewrite u32_id; lia.
Qed.

Lemma sat_sub_spec a b : 0 <= a <= UINT_MAX -> 0 <= b <= UINT_MAX ->
  sat_sub a b = Z.max (a - b) 0.
Proof.
  intros Ha Hb. unfold sat_sub. destruct (Z.ltb_spec b a); [rewrite u32_id; lia|lia].
Qed.

(** Products of bounds. *)
Lemma above_mul m o x m' o' y : above m o x -> above m' o' y -> 0 <= m -> 0 <= m' ->
  (0 < x -> 0 < y -> above (m * m') (o || o') (x * y))%Q.
Proof.
  unfold above. intros H1 H2 Hm Hm' Hx Hy.
  apply zle_q in Hm, Hm'. change (inject_Z 0) with 0%Q in *. destruct o, o'; cbn [orb]; rewrite inject_mul; nra.
Qed.

Lemma below_mul m o x m' o' y : below m o x -> below m' o' y ->
  (0 < x -> 0 < y -> below (m * m') (o || o') (x * y))%Q.
Proof.
  unfold below. intros H1 H2 Hx Hy. destruct o, o'; cbn [orb]; rewrite inject_mul; nra.
Qed.

(** A quotient [z] of [n] and [c], rounded: [q] and [r] are quotient and
    remainder. *)
Lemma above_quot n c z o q r : 0 < c -> n = c * q + r -> 0 <= r < c ->
  above n o (z * inject_Z c) -> above q (negb (r =? 0) || o) z.
Proof.
  unfold above. intros Hc -> Hr Ha.
  assert (0 < inject_Z c)%Q by (apply (zlt_q 0 c); lia).
  assert (inject_Z (c * q + r) == inject_Z c * inject_Z q + inject_Z r)%Q as E
    by by rewrite inject_Z_plus, inject_Z_mult.
  destruct (Z.eqb_spec r 0) as [->|Hne]; cbn [negb orb].
  - change (inject_Z 0) with 0%Q in *. destruct o; rewrite E in Ha; nra.
  - assert (0 < inject_Z r)%Q by (apply (zlt_q 0 r); lia). destruct o; rewrite E in Ha; nra.
Qed.

Lemma below_quot n c z o q r q' o' : 0 < c -> n = c * q + r -> 0 <= r < c -> 0 <= q < UINT_MAX ->
  below n o (z * inject_Z c) -> round_max q r o = (q', o') -> below q' o' z.
Proof.
  unfold below, round_max. intros Hc -> Hr Hq Hb.
  assert (0 < inject_Z c)%Q by (apply (zlt_q 0 c); lia).
  assert (inject_Z (c * q + r) == inject_Z c * inject_Z q + inject_Z r)%Q as E
    by by rewrite inject_Z_plus, inject_Z_mult.
  destruct (Z.eqb_spec r 0) as [->|Hne]; cbn [negb]; intros [= <- <-].
  - change (inject_Z 0) with 0%Q in *. destruct o; rewrite E in Hb; nra.
  - rewrite u32_id by lia. assert (inject_Z r < inject_Z c)%Q by (apply zlt_q; lia).
    rewrite inject_Z_plus. change (inject_Z 1) with 1%Q. destruct o; rewrite E in Hb; nra.
Qed.

Lemma elem_checkempty i q : q ∈ i -> snd_interval_checkempty i = false.
Proof.
  intros (_ & Ha & Hb & _). apply checkempty_false. unfold above, below in *.
  destruct (Z.lt_total (i_min i) (i_max i)) as [?|[E|?]]; [by left|..].
  - right. split; [done|]. rewrite E in *. destruct (i_openmin i), (i_openmax i); split; try done; lra.
  - exfalso. zq. destruct (i_openmin i), (i_openmax i); lra.
Qed.

(** [i] is an interval of the program that has the value [q]. *)
Definition has (i : snd_interval) (q : Q) : Prop := interval_ok i /\ q ∈ i.

Lemma has_intro i q : 0 <= i_min i <= UINT_MAX -> 0 <= i_max i <= UINT_MAX -> q ∈ i -> has i q.
Proof. intros ?? Hq. split; [|done]. split; try done. intros _. by apply (elem_checkempty i q). Qed.

Lemma has_bounds i q : has i q -> 0 <= i_min i <= UINT_MAX /\ 0 <= i_max i <= UINT_MAX /\
  i_empty i = false /\ above (i_min i) (i_openmin i) q /\ below (i_max i) (i_openmax i) q /\
  (i_integer i = true -> is_int q).
Proof. by intros [[] (? & ? & ? & ?)]. Qed.

(** A value that is positive has a positive bound above it. *)
Lemma below_pos m o q : below m o q -> (0 < q)%Q -> 0 < m.
Proof.
  unfold below. intros Hb Hq. apply Z.nle_gt. intros Hm. apply zle_q in Hm.
  change (inject_Z 0) with 0%Q in Hm. destruct o; lra.
Qed.

Definition in_type (q : Q) : Prop := (0 < q)%Q /\ (q < inject_Z UINT_MAX)%Q.

Lemma mod_quot n c : 0 < c -> n = c * (n / c) + n mod c /\ 0 <= n mod c < c.
Proof. intros. split; [by apply Z.div_mod; lia|by apply Z.mod_pos_bound]. Qed.

Lemma muldiv32_pos a b c : 0 <= a -> 0 <= b -> 0 < c -> exists q r, muldiv32 a b c = Some (q, r) /\
  (q < UINT_MAX /\ a * b = c * q + r /\ 0 <= r < c \/ q = UINT_MAX /\ r = 0 /\ UINT_MAX <= a * b / c)
  /\ 0 <= q <= UINT_MAX.
Proof.
  intros Ha Hb Hc. unfold muldiv32. rewrite (proj2 (Z.eqb_neq c 0)) by lia.
  assert (0 <= a * b) by (by apply Z.mul_nonneg_nonneg).
  pose proof (Z.div_pos (a * b) c ltac:(done) Hc). pose proof (mod_quot (a * b) c Hc) as [? ?].
  destruct (Z.leb_spec UINT_MAX (a * b / c)); do 2 eexists; (split; [done|]); split; auto; unfold UINT_MAX in *; lia.
Qed.

Lemma muldiv32_above a b c z o : 0 <= a -> 0 <= b -> 0 < c -> above (a * b) o (z * inject_Z c) ->
  in_type z -> exists q r, muldiv32 a b c = Some (q, r) /\ 0 <= q <= UINT_MAX /\
    above q (negb (r =? 0) || o) z.
Proof.
  intros Ha Hb Hc Hz [_ Hu]. destruct (muldiv32_pos a b c Ha Hb Hc) as (q & r & E & Hq & Hr).
  exists q, r. split_and!; [done|lia..|]. destruct Hq as [(? & ? & ?)|(-> & -> & Hsat)].
  { by apply (above_quot (a * b) c). }
  exfalso. destruct (mod_quot (a * b) c Hc) as [E1 E2].
  pose proof (above_quot _ c z o _ _ Hc E1 E2 Hz) as Habove. unfold above in Habove.
  apply zle_q in Hsat. destruct (_ || o); lra.
Qed.

Lemma muldiv32_below a b c z o : 0 <= a -> 0 <= b -> 0 < c -> below (a * b) o (z * inject_Z c) ->
  in_type z -> exists q r q' o', muldiv32 a b c = Some (q, r) /\ round_max q r o = (q', o') /\
    0 <= q' <= UINT_MAX /\ below q' o' z.
Proof.
  intros Ha Hb Hc Hz [_ Hu]. destruct (muldiv32_pos a b c Ha Hb Hc) as (q & r & E & Hq & Hr).
  destruct (round_max q r o) as [q' o'] eqn:Er. exists q, r, q', o'. split_and!; try done.
  - unfold round_max in Er. destruct (negb (r =? 0)); injection Er as <- <-; [apply Z.mod_pos_bound|]; lia.
  - unfold round_max in Er. destruct Hq as [(? & _)|(-> & -> & _)]; [|by injection Er as <- <-].
    destruct (negb (r =? 0)); injection Er as <- <-; rewrite ?u32_id; lia.
  - destruct Hq as [(? & ? & ?)|(-> & -> & _)].
    + apply (below_quot (a * b) c z o q r); (done || lia).
    + injection Er as <- <-. unfold below. destruct o; lra.
Qed.

Lemma muldiv32_one a c : 0 <= a <= UINT_MAX -> 0 < c -> muldiv32 a 1 c = Some (div32 a c).
Proof.
  intros Ha Hc. unfold muldiv32, div32. rewrite (proj2 (Z.eqb_neq c 0)) by lia.
  rewrite Z.mul_1_r. destruct (Z.leb_spec UINT_MAX (a / c)) as [Hle|]; [|done].
  destruct (mod_quot a c Hc) as [E1 E2].
  assert (c = 1 /\ a = UINT_MAX) as [-> ->] by (unfold UINT_MAX in *; nia).
  by rewrite Z.div_1_r, Z.mod_1_r.
Qed.

Section Sound.
(** Two intervals with the values [x] and [y]. *)
Context (a b c : snd_interval) (x y z : Q).
Context (Ha : has a x) (Hb : has b y) (Hx : (0 < x)%Q) (Hy : (0 < y)%Q) (Hz : in_type z).

#[local] Ltac bounds :=
  destruct (has_bounds a x Ha) as (Ha1 & Ha2 & Ha3 & Ha4 & Ha5 & Ha6);
  destruct (has_bounds b y Hb) as (Hb1 & Hb2 & Hb3 & Hb4 & Hb5 & Hb6).

(** The product of two values is a value of the product of the intervals. *)
Lemma interval_mul_sound : (z == x * y)%Q -> has (snd_interval_mul a b c) z.
Proof using Ha Hb Hx Hy Hz.
  intros Ez. bounds. unfold snd_interval_mul. rewrite Ha3, Hb3. cbn [orb].
  rewrite !sat_mul_spec by done.
  assert (0 <= i_min a * i_min b) by (apply Z.mul_nonneg_nonneg; lia).
  assert (0 <= i_max a * i_max b) by (apply Z.mul_nonneg_nonneg; lia).
  pose proof (above_mul _ _ _ _ _ _ Ha4 Hb4 ltac:(lia) ltac:(lia) Hx Hy) as Hlo.
  pose proof (below_mul _ _ _ _ _ _ Ha5 Hb5 Hx Hy) as Hhi. rewrite <- Ez in Hlo, Hhi.
  destruct Hz as [_ Hu]. apply has_intro; cbn; [unfold UINT_MAX in *; lia..|].
  split_and!; cbn; [done| | |].
  - rewrite Z.min_l; [done|]. apply Z.nlt_ge. intros Hlt. apply zlt_q in Hlt.
    unfold above in Hlo. destruct (i_openmin a || i_openmin b); lra.
  - destruct (Z.min_spec (i_max a * i_max b) UINT_MAX) as [[_ ->]|[_ ->]]; [done|].
    unfold below. destruct (i_openmax a || i_openmax b); lra.
  - intros [Hn1 Hn2]%andb_true_iff. destruct (Ha6 Hn1) as [n En], (Hb6 Hn2) as [m Em].
    exists (n * m). by rewrite Ez, En, Em, inject_mul.
Qed.

(** A sum. *)
Lemma interval_add_sound : (z == x + y)%Q -> has (snd_interval_add a b c) z.
Proof using Ha Hb Hx Hy Hz.
  intros Ez. bounds. unfold snd_interval_add. rewrite Ha3, Hb3. cbn [orb].
  rewrite !sat_add_spec by done. destruct Hz as [_ Hu].
  assert (above (i_min a + i_min b) (i_openmin a || i_openmin b) z) as Hlo.
  { unfold above in *. rewrite inject_Z_plus. destruct (i_openmin a), (i_openmin b); cbn [orb]; lra. }
  assert (below (i_max a + i_max b) (i_openmax a || i_openmax b) z) as Hhi.
  { unfold below in *. rewrite inject_Z_plus. destruct (i_openmax a), (i_openmax b); cbn [orb]; lra. }
  apply has_intro; cbn; [unfold UINT_MAX in *; lia..|]. split_and!; cbn; [done| | |].
  - rewrite Z.min_l; [done|]. apply Z.nlt_ge. intros Hlt. apply zlt_q in Hlt.
    unfold above in Hlo. destruct (i_openmin a || i_openmin b); lra.
  - destruct (Z.min_spec (i_max a + i_max b) UINT_MAX) as [[_ ->]|[_ ->]]; [done|].
    unfold below. destruct (i_openmax a || i_openmax b); lra.
  - intros [Hn1 Hn2]%andb_true_iff. destruct (Ha6 Hn1) as [n En], (Hb6 Hn2) as [m Em].
    exists (n + m). by rewrite Ez, En, Em, inject_Z_plus.
Qed.

(** [a * k / b] *)
Lemma interval_mulkdiv_sound k : 0 < k -> (z * y == x * inject_Z k)%Q ->
  exists t, snd_interval_mulkdiv a k b c = Some t /\ has t z.
Proof using Ha Hb Hx Hy Hz.
  intros Hk Ez. bounds. unfold snd_interval_mulkdiv. rewrite Ha3, Hb3. cbn [orb].
  pose proof (below_pos _ _ _ Hb5 Hy) as Hbm. destruct Hz as [Hz0 Hzu].
  assert (0 < inject_Z k)%Q as Hk' by (by apply (zlt_q 0 k)).
  assert (0 < inject_Z (i_max b))%Q by (by apply (zlt_q 0 (i_max b))).
  destruct (muldiv32_above (i_min a) k (i_max b) z (i_openmin a || i_openmax b))
    as (q & r & -> & Hq & Hlo); [lia..| |done|].
  { unfold above, below in *. destruct (i_openmin a), (i_openmax b); cbn [orb]; rewrite inject_mul; nra. }
  rewrite orb_assoc in Hlo. cbn. destruct (Z.ltb_spec 0 (i_min b)) as [Hm|Hm].
  - assert (0 < inject_Z (i_min b))%Q by (by apply (zlt_q 0 (i_min b))).
    destruct (muldiv32_below (i_max a) k (i_min b) z (i_openmax a || i_openmin b))
      as (q1 & r1 & q2 & o2 & -> & Hrm & Hq2 & Hhi); [lia..| |done|].
    { unfold above, below in *. destruct (i_openmax a), (i_openmin b); cbn [orb]; rewrite inject_mul; nra. }
    cbn. rewrite Hrm. eexists. split; [done|]. by apply has_intro.
  - eexists. split; [done|]. apply has_intro; cbn; [done|unfold UINT_MAX; lia|].
    split_and!; try done. cbn. lra.
Qed.

(** [a / b] *)
Lemma interval_div_sound : (z * y == x)%Q -> has (snd_interval_div a b c) z.
Proof using Ha Hb Hx Hy Hz.
  intros Ez. destruct (interval_mulkdiv_sound 1) as (t & E & Ht);
    [done|change (inject_Z 1) with 1%Q; lra|]. replace (snd_interval_div a b c) with t; [done|].
  bounds. pose proof (below_pos _ _ _ Hb5 Hy) as Hbm. revert E.
  unfold snd_interval_mulkdiv, snd_interval_div. rewrite Ha3, Hb3. cbn [orb].
  rewrite (muldiv32_one (i_min a)) by done. cbn. destruct (div32 _ _) as [q r].
  destruct (Z.ltb_spec 0 (i_min b)); [|by intros [= <-]].
  rewrite muldiv32_one by done. cbn. destruct (div32 _ _) as [q1 r1].
  destruct (round_max _ _ _). by intros [= <-].
Qed.

(** [a * b / k] *)
Lemma interval_muldivk_sound k : 0 < k -> (z * inject_Z k == x * y)%Q ->
  exists t, snd_interval_muldivk a b k c = Some t /\ has t z.
Proof using Ha Hb Hx Hy Hz.
  intros Hk Ez. bounds. unfold snd_interval_muldivk. rewrite Ha3, Hb3. cbn [orb].
  pose proof (above_mul _ _ _ _ _ _ Ha4 Hb4 ltac:(lia) ltac:(lia) Hx Hy) as Hlo.
  pose proof (below_mul _ _ _ _ _ _ Ha5 Hb5 Hx Hy) as Hhi. rewrite <- Ez in Hlo, Hhi.
  destruct (muldiv32_above _ _ k z _ (proj1 Ha1) (proj1 Hb1) Hk Hlo Hz) as (q & r & -> & Hq & Hlo').
  destruct (muldiv32_below _ _ k z _ (proj1 Ha2) (proj1 Hb2) Hk Hhi Hz)
    as (q1 & r1 & q2 & o2 & -> & Hrm & Hq2 & Hhi').
  rewrite orb_assoc in Hlo'. cbn. rewrite Hrm. eexists. split; [done|]. by apply has_intro.
Qed.
End Sound.

(** ** One-sided refinement *)

Lemma refine_min_facts i m o r i' : snd_interval_refine_min i m o = (r, i') ->
  interval_ok i -> i_empty i = false -> 0 <= m <= UINT_MAX -> (o = true -> m < UINT_MAX) ->
  interval_ok i' /\ (forall q, q ∈ i' <-> q ∈ i /\ above m o q) /\
  (r < 0 -> forall q, ~ q ∈ i') /\
  (0 <= r -> i_empty i' = false /\ interval_width i' <= interval_width i - r).
Proof.
  intros E Hi He Hm Ho. destruct (ok_open i Hi He) as [Ho1 _]. destruct Hi as [Hi1 Hi2 _].
  unfold snd_interval_refine_min in E. rewrite He in E.
  destruct (raise_min m o i) as [c j] eqn:Er.
  destruct (raise_min_spec _ _ _ _ _ Er) as (A1 & A2 & A3 & A4 & A5). clear Er.
  assert (0 <= i_min j <= UINT_MAX /\ (i_openmin j = true -> i_min j < UINT_MAX)) as [Hj Hjo]
    by (destruct A3 as [[-> ->]|[-> ->]]; done).
  destruct (close_min_spec j Hj Hjo) as (B1 & B2 & B3 & B4 & B5).
  remember (if i_integer j then close_min j else j) as k eqn:Hk.
  assert (k = j <| i_min := i_min k |> <| i_openmin := i_openmin k |> /\ 0 <= i_min k <= UINT_MAX /\
    (i_integer j = true -> i_openmin k = false) /\
    (forall q, q ∈ k <-> q ∈ j) /\ interval_width k <= interval_width j) as (K1 & K2 & K3 & K4 & K5).
  { subst k. destruct (i_integer j) eqn:Ei; [|by destruct j].
    remember (close_min j) as l eqn:El. clear El E. destruct j, l. unfold interval_width, elem_of, interval_elem_of.
    cbn in *. injection B1 as -> -> -> ->. subst. split_and!; try done; try lia. intros q.
    split; intros (? & ? & ? & Hn); specialize (Hn eq_refl); split_and!; try done; by apply B4. }
  assert (forall q, q ∈ j <-> q ∈ i /\ above m o q) as Hset.
  { intros q. unfold elem_of, interval_elem_of. rewrite (A4 q), A1. cbn. naive_solver. }
  assert (interval_width j <= interval_width i - Z.b2z c) as Hw.
  { destruct c; [specialize (A5 eq_refl)|rewrite (A2 eq_refl); cbn; lia].
    unfold interval_width. rewrite A1. cbn. lia. }
  destruct (refined_spec _ _ _ _ E) as (R1 & R2 & R3); [by rewrite K1, A1|done|by rewrite K1, A1|].
  split_and!; [done| | |].
  - intros q. by rewrite R2, K4, Hset.
  - destruct R3 as [[-> _]|(_ & _ & Hno)]; [destruct c; lia|]. intros _ q. by rewrite R2.
  - destruct R3 as [[-> ->]|(-> & _)]; [|done]. intros _. split; [by rewrite K1, A1|].
    destruct c; cbn in *; lia.
Qed.

Lemma refine_max_facts i m o r i' : snd_interval_refine_max i m o = (r, i') ->
  interval_ok i -> i_empty i = false -> 0 <= m <= UINT_MAX -> (o = true -> 0 < m) ->
  interval_ok i' /\ (forall q, q ∈ i' <-> q ∈ i /\ below m o q) /\
  (r < 0 -> forall q, ~ q ∈ i') /\
  (0 <= r -> i_empty i' = false /\ interval_width i' <= interval_width i - r).
Proof.
  intros E Hi He Hm Ho. destruct (ok_open i Hi He) as [_ Ho1]. destruct Hi as [Hi1 Hi2 _].
  unfold snd_interval_refine_max in E. rewrite He in E.
  destruct (lower_max m o i) as [c j] eqn:Er.
  destruct (lower_max_spec _ _ _ _ _ Er) as (A1 & A2 & A3 & A4 & A5). clear Er.
  assert (0 <= i_max j <= UINT_MAX /\ (i_openmax j = true -> 0 < i_max j)) as [Hj Hjo]
    by (destruct A3 as [[-> ->]|[-> ->]]; done).
  destruct (close_max_spec j Hj Hjo) as (B1 & B2 & B3 & B4 & B5).
  remember (if i_integer j then close_max j else j) as k eqn:Hk.
  assert (k = j <| i_max := i_max k |> <| i_openmax := i_openmax k |> /\ 0 <= i_max k <= UINT_MAX /\
    (i_integer j = true -> i_openmax k = false) /\
    (forall q, q ∈ k <-> q ∈ j) /\ interval_width k <= interval_width j) as (K1 & K2 & K3 & K4 & K5).
  { subst k. destruct (i_integer j) eqn:Ei; [|by destruct j].
    remember (close_max j) as l eqn:El. clear El E. destruct j, l. unfold interval_width, elem_of, interval_elem_of.
    cbn in *. injection B1 as -> -> -> ->. subst. split_and!; try done; try lia. intros q.
    split; intros (? & ? & ? & Hn); specialize (Hn eq_refl); split_and!; try done; by apply B4. }
  assert (forall q, q ∈ j <-> q ∈ i /\ below m o q) as Hset.
  { intros q. unfold elem_of, interval_elem_of. rewrite (A4 q), A1. cbn. naive_solver. }
  assert (interval_width j <= interval_width i - Z.b2z c) as Hw.
  { destruct c; [specialize (A5 eq_refl)|rewrite (A2 eq_refl); cbn; lia].
    unfold interval_width. rewrite A1. cbn. lia. }
  destruct (refined_spec _ _ _ _ E) as (R1 & R2 & R3); [by rewrite K1, A1|by rewrite K1, A1|done|].
  split_and!; [done| | |].
  - intros q. by rewrite R2, K4, Hset.
  - destruct R3 as [[-> _]|(_ & _ & Hno)]; [destruct c; lia|]. intros _ q. by rewrite R2.
  - destruct R3 as [[-> ->]|(-> & _)]; [|done]. intros _. split; [by rewrite K1, A1|].
    destruct c; cbn in *; lia.
Qed.

(** ** Floor *)

(** The values of the floor of an interval are the floors of its values. *)
Lemma interval_floor_spec i n : interval_ok i -> i_empty i = false -> i_integer i = false ->
  (inject_Z n ∈ snd_interval_floor i <-> exists q, q ∈ i /\ Qfloor q = n).
Proof.
  intros Hok He Hn. destruct (ok_open i Hok He) as [_ Ho]. destruct Hok as [H1 H2 H3].
  specialize (H3 He). apply checkempty_false in H3. unfold snd_interval_floor. rewrite Hn, He.
  destruct i as [lo hi ol oh m e]. cbn in *. subst m e.
  assert (forall q, (inject_Z (Qfloor q) <= q < inject_Z (Qfloor q + 1))%Q) as Hfl
    by (intros q; split; [apply Qfloor_le|apply Qlt_floor]).
  assert (forall q z, (inject_Z z <= q)%Q -> (q < inject_Z (z + 1))%Q -> Qfloor q = z) as Huniq.
  { intros q z A B. destruct (Hfl q) as [C D].
    assert (z < Qfloor q + 1) by (rewrite Zlt_Qlt; lra).
    assert (Qfloor q < z + 1) by (rewrite Zlt_Qlt; lra). lia. }
  transitivity (lo <= n /\ (if oh then n < hi else n <= hi)).
  - destruct oh; unfold elem_of, interval_elem_of, above, below; cbn;
      rewrite ?u32_id by (specialize (Ho eq_refl); lia); rewrite <- !Zle_Qle;
      (split; [naive_solver lia|intros [??]; split_and!; [done|lia|lia|by exists n]]).
  - split.
    + intros [Hlo Hhi]. assert (inject_Z (n + 1) == inject_Z n + 1)%Q as E1 by by rewrite inject_Z_plus.
      destruct (decide (n = hi)) as [->|Hne].
      * exists (inject_Z hi). destruct oh; [lia|]. split; [|by rewrite Qfloor_Z].
        split_and!; try done; cbn; [|lra]. destruct H3 as [?|(-> & -> & _)]; [|cbn; lra].
        zq. unfold above. destruct ol; lra.
      * exists (inject_Z n + (1 # 2))%Q. assert (n + 1 <= hi) by (destruct oh; lia). zq.
        split; [|apply Huniq; rewrite ?E1; lra]. rewrite E1 in *.
        split_and!; try done; cbn; unfold above, below; [destruct ol|destruct oh]; lra.
    + intros (q & (_ & Ha & Hb & _) & <-). destruct (Hfl q) as [A B]. unfold above, below in *. cbn in *.
      split; [|destruct oh].
      * assert (lo < Qfloor q + 1); [|lia]. rewrite Zlt_Qlt. destruct ol; lra.
      * rewrite Zlt_Qlt. lra.
      * rewrite Zle_Qle. lra.
Qed.

(** ** Boundaries *)

(** [boundary_lt] orders values and the sides of them: half a unit below, at, or
    half a unit above. *)
Lemma boundary_lt_spec a adir b bdir : 0 <= a <= UINT_MAX -> 0 <= b <= UINT_MAX ->
  (0 < a \/ 0 <= adir) -> (0 < b \/ 0 <= bdir) ->
  boundary_lt a adir b bdir = Some (2 * a + Z.sgn adir <? 2 * b + Z.sgn bdir).
Proof.
  intros Ha Hb H1 H2. unfold boundary_lt.
  rewrite (proj2 (negb_false_iff _)) by lia. rewrite (proj2 (negb_false_iff _)) by lia.
  destruct (Z.ltb_spec adir 0), (Z.ltb_spec bdir 0); rewrite ?u32_id by lia;
    [|destruct (Z.ltb_spec 0 bdir)|destruct (Z.ltb_spec 0 adir)|
      destruct (Z.ltb_spec 0 adir), (Z.ltb_spec 0 bdir)]; f_equal; lia.
Qed.

(** [boundary_sub] counts opposite sides twice, in the value and in the side: the
    lower side of 2 is three units away from the upper side of 4, and 8 is three
    and a half away, but the first is not found to be nearer. *)
Lemma boundary_nearer_misses :
  boundary_sub 4 1 2 (-1) = Some (3, 2) /\ boundary_nearer 2 (-1) 4 1 8 0 = Some false.
Proof. vm_compute. done. Qed.

(** ** Where the functions differ from their meaning *)

(** A product loses the value 0 where one bound is open and the other is 0. *)
Lemma interval_mul_loses_zero :
  let a := Interval 0 5 true false false false in
  let b := Interval 0 5 false false false false in
  1%Q ∈ a /\ 0%Q ∈ b /\ ~ (1 * 0)%Q ∈ snd_interval_mul a b a.
Proof.
  intros a b. split_and!; try done. intros (_ & H & _). vm_compute in H. done.
Qed.

(** The difference of 5 and 3 is an interval from 2 to 8. *)
Lemma interval_sub_too_wide :
  snd_interval_sub (snd_interval_set_value 5) (snd_interval_set_value 3) snd_interval_any
  = Interval 2 8 false false false false.
Proof. reflexivity. Qed.

(** Two intervals with a common value are said to have none. *)
Lemma interval_never_eq_wrong :
  let a := Interval 1 2 true false false false in
  let b := Interval 2 3 false false false false in
  snd_interval_never_eq a b = true /\ 2%Q ∈ a /\ 2%Q ∈ b.
Proof. intros a b. split_and!; done. Qed.

(** An open bound at the end of the type: the step to the next integer wraps and
    the interval grows instead of becoming empty. *)
Lemma interval_refine_wraps :
  snd_interval_refine (Interval 1 UINT_MAX false false true false)
    (Interval UINT_MAX UINT_MAX true false false false)
  = (1, Interval 0 UINT_MAX false false true false).
Proof. reflexivity. Qed.

Lemma interval_refine_intersects_witness :
  let i := Interval 8000 48000 false true false false in
  let v := Interval 44100 UINT_MAX true false true false in
  let '(r, i') := snd_interval_refine i v in
  interval_ok i' /\ (forall q, q ∈ i' <-> q ∈ i /\ q ∈ v) /\
  (r < 0 <-> forall q, ~ q ∈ i') /\ (r = 0 -> forall q, q ∈ i' <-> q ∈ i).
Proof.
  intros i v. apply (interval_refine_intersects i v); [..|reflexivity].
  all: split; vm_compute; try done; split; discriminate.
Defined.
