(* ===== verification/PcmMask.v ===== *)
(** * alsa-lib: masks of parameter values
    ([src/alsa-lib/src/pcm/mask_inline.h])

    A mask is the first eight words of a list; the list goes on with the memory
    behind the mask, since a bit number is not checked against the end of the
    mask.  A function that can run into a failing assertion, or leave the
    memory, returns [None] there. *)

From S2P Require Import Prelude.
From S2P Require Import CString.
From S2P Require Import PcmInterval.

Definition SND_MASK_MAX : Z := 256.
Definition MASK_SIZE : nat := 8.

Definition MASK_OFS (i : Z) : nat := Z.to_nat (Z.shiftr i 5).
Definition MASK_BIT (i : Z) : Z := Z.shiftl 1 (Z.land i 31).

(** The position of the highest bit. *)
Definition ld2 (v : Z) : Z :=
  let r := 0 in
  let '(v, r) := if 0x10000 <=? v then (Z.shiftr v 16, r + 16) else (v, r) in
  let '(v, r) := if 0x100 <=? v then (Z.shiftr v 8, r + 8) else (v, r) in
  let '(v, r) := if 0x10 <=? v then (Z.shiftr v 4, r + 4) else (v, r) in
  let '(v, r) := if 4 <=? v then (Z.shiftr v 2, r + 2) else (v, r) in
  if 2 <=? v then r + 1 else r.

(** The number of bits. *)
Definition hweight32 (v : Z) : Z :=
  let v := u32 (Z.land v 0x55555555 + Z.land (Z.shiftr v 1) 0x55555555) in
  let v := u32 (Z.land v 0x33333333 + Z.land (Z.shiftr v 2) 0x33333333) in
  let v := u32 (Z.land v 0x0F0F0F0F + Z.land (Z.shiftr v 4) 0x0F0F0F0F) in
  let v := u32 (Z.land v 0x00FF00FF + Z.land (Z.shiftr v 8) 0x00FF00FF) in
  Z.land v 0x0000FFFF + Z.land (Z.shiftr v 16) 0x0000FFFF.

(** [ffs]: the lowest bit, counted from 1; the 32 bits are tried in turn. *)
Fixpoint ffs_from (n : nat) (v i : Z) : Z :=
  match n with
  | O => 0
  | S n => if Z.testbit v i then i + 1 else ffs_from n v (i + 1)
  end.
Definition ffs (v : Z) : Z := ffs_from 32 v 0.

Abbreviation mask := (list Z).

(** The words of the mask itself. *)
Definition mask_words (m : mask) : list Z := take MASK_SIZE m.

Definition snd_mask_none (m : mask) : mask := replicate MASK_SIZE 0 ++ drop MASK_SIZE m.
Definition snd_mask_any (m : mask) : mask := replicate MASK_SIZE 0xffffffff ++ drop MASK_SIZE m.

Definition snd_mask_empty (m : mask) : bool := forallb (fun w => w =? 0) (mask_words m).
Definition snd_mask_full (m : mask) : bool := forallb (fun w => w =? 0xffffffff) (mask_words m).

Definition snd_mask_count (m : mask) : Z := foldr (fun w n => hweight32 w + n) 0 (mask_words m).

(** The first of the words that is not 0, at index [i] or later. *)
Fixpoint first_word (l : list Z) (i : Z) : option (Z * Z) :=
  match l with
  | [] => None
  | w :: l => if negb (w =? 0) then Some (i, w) else first_word l (i + 1)
  end.
Fixpoint last_word (l : list Z) (i : Z) : option (Z * Z) :=
  match l with
  | [] => None
  | w :: l =>
      match last_word l (i + 1) with
      | Some p => Some p
      | None => if negb (w =? 0) then Some (i, w) else None
      end
  end.

Definition snd_mask_min (m : mask) : option Z :=
  if snd_mask_empty m then None else
  match first_word (mask_words m) 0 with
  | Some (i, w) => Some (ffs w - 1 + Z.shiftl i 5)
  | None => Some 0
  end.

Definition snd_mask_max (m : mask) : option Z :=
  if snd_mask_empty m then None else
  match last_word (mask_words m) 0 with
  | Some (i, w) => Some (ld2 w + Z.shiftl i 5)
  | None => Some 0
  end.

(** [val] is unsigned; the assertion lets [SND_MASK_MAX] itself pass. *)
Definition snd_mask_set (m : mask) (val : Z) : option mask :=
  if SND_MASK_MAX <? val then None else
  w ← m !! MASK_OFS val; Some (<[MASK_OFS val := Z.lor w (MASK_BIT val)]> m).

Definition snd_mask_reset (m : mask) (val : Z) : option mask :=
  if SND_MASK_MAX <? val then None else
  w ← m !! MASK_OFS val; Some (<[MASK_OFS val := Z.ldiff w (MASK_BIT val)]> m).

(** [n] bits from [i] on. *)
Fixpoint set_bits (n : nat) (i : Z) (m : mask) : option mask :=
  match n with
  | O => Some m
  | S n => w ← m !! MASK_OFS i; set_bits n (i + 1) (<[MASK_OFS i := Z.lor w (MASK_BIT i)]> m)
  end.
Fixpoint reset_bits (n : nat) (i : Z) (m : mask) : option mask :=
  match n with
  | O => Some m
  | S n => w ← m !! MASK_OFS i; reset_bits n (i + 1) (<[MASK_OFS i := Z.ldiff w (MASK_BIT i)]> m)
  end.

Definition snd_mask_set_range (m : mask) (from to : Z) : option mask :=
  if negb ((to <=? SND_MASK_MAX) && (from <=? to)) then None else
  set_bits (Z.to_nat (to - from + 1)) from m.

Definition snd_mask_reset_range (m : mask) (from to : Z) : option mask :=
  if negb ((to <=? SND_MASK_MAX) && (from <=? to)) then None else
  reset_bits (Z.to_nat (to - from + 1)) from m.

Definition snd_mask_leave (m : mask) (val : Z) : option mask :=
  if SND_MASK_MAX <? val then None else
  w ← m !! MASK_OFS val;
  Some (<[MASK_OFS val := Z.land w (MASK_BIT val)]> (snd_mask_none m)).

Definition snd_mask_intersect (m v : mask) : mask :=
  zip_with Z.land (mask_words m) (mask_words v) ++ drop MASK_SIZE m.
Definition snd_mask_union (m v : mask) : mask :=
  zip_with Z.lor (mask_words m) (mask_words v) ++ drop MASK_SIZE m.

Definition snd_mask_eq (m v : mask) : bool := bool_decide (mask_words m = mask_words v).

Definition snd_mask_copy (m v : mask) : mask := mask_words v ++ drop MASK_SIZE m.

Definition snd_mask_test (m : mask) (val : Z) : option bool :=
  if SND_MASK_MAX <? val then None else
  w ← m !! MASK_OFS val; Some (negb (Z.land w (MASK_BIT val) =? 0)).

(** [c] says that a word with a bit has been seen. *)
Fixpoint single_loop (l : list Z) (c : bool) : bool :=
  match l with
  | [] => true
  | w :: l =>
      if w =? 0 then single_loop l c
      else if negb (Z.land w (u32 (w - 1)) =? 0) then false
      else if c then false else single_loop l true
  end.

Definition snd_mask_single (m : mask) : option bool :=
  if snd_mask_empty m then None else Some (single_loop (mask_words m) false).

Definition snd_mask_value (m : mask) : option Z :=
  if snd_mask_empty m then None else snd_mask_min m.

(** ** Refinement *)

Definition snd_mask_refine (m v : mask) : Z * mask :=
  if snd_mask_empty m then (- E_NOENT, m) else
  let m' := snd_mask_intersect m v in
  if snd_mask_empty m' then (- E_INVAL, m') else
  (if snd_mask_eq m' m then 0 else 1, m').

Definition snd_mask_refine_first (m : mask) : option (Z * mask) :=
  if snd_mask_empty m then Some (- E_NOENT, m) else
  single ← snd_mask_single m;
  if single : bool then Some (0, m) else
  v ← snd_mask_min m; m ← snd_mask_leave m v; Some (1, m).

Definition snd_mask_refine_last (m : mask) : option (Z * mask) :=
  if snd_mask_empty m then Some (- E_NOENT, m) else
  single ← snd_mask_single m;
  if single : bool then Some (0, m) else
  v ← snd_mask_max m; m ← snd_mask_leave m v; Some (1, m).

Definition snd_mask_refine_min (m : mask) (val : Z) : option (Z * mask) :=
  if snd_mask_empty m then Some (- E_NOENT, m) else
  lo ← snd_mask_min m;
  if val <=? lo then Some (0, m) else
  m ← snd_mask_reset_range m 0 (u32 (val - 1));
  Some (if snd_mask_empty m then - E_INVAL else 1, m).

Definition snd_mask_refine_max (m : mask) (val : Z) : option (Z * mask) :=
  if snd_mask_empty m then Some (- E_NOENT, m) else
  hi ← snd_mask_max m;
  if hi <=? val then Some (0, m) else
  m ← snd_mask_reset_range m (u32 (val + 1)) SND_MASK_MAX;
  Some (if snd_mask_empty m then - E_INVAL else 1, m).

Definition snd_mask_refine_set (m : mask) (val : Z) : option (Z * mask) :=
  if snd_mask_empty m then Some (- E_NOENT, m) else
  single ← snd_mask_single m;
  m ← snd_mask_leave m val;
  Some (if snd_mask_empty m then - E_INVAL else if single : bool then 0 else 1, m).

Definition snd_mask_always_eq (m1 m2 : mask) : option bool :=
  s1 ← snd_mask_single m1;
  if negb s1 then Some false else
  s2 ← snd_mask_single m2;
  if negb s2 then Some false else
  v1 ← snd_mask_value m1; v2 ← snd_mask_value m2; Some (v1 =? v2).

Definition snd_mask_never_eq (m1 m2 : mask) : bool :=
  forallb (fun w => w =? 0) (zip_with Z.land (mask_words m1) (mask_words m2)).
