(* ===== verification/PcmMaskThms.v ===== *)
(** * alsa-lib: masks are sets of bit numbers *)

From S2P Require Import Prelude.
From S2P Require Import CString.
From S2P Require Import PcmInterval.
From S2P Require Import PcmMask.

(** Bit [k] of a mask. *)
Definition mbit (m : mask) (k : Z) : bool :=
  match m !! MASK_OFS k with Some w => Z.testbit w (Z.land k 31) | None => false end.

Definition mword_ok (w : Z) : Prop := 0 <= w < 4294967296.

(** Eight words, and the memory behind them. *)
Record mask_ok (m : mask) : Prop := MaskOk {
  mk_size : (MASK_SIZE <= length m)%nat;
  mk_words : Forall mword_ok m }.

Lemma ofs_bit k : MASK_OFS k = Z.to_nat (k / 32) /\ Z.land k 31 = k mod 32.
Proof.
  unfold MASK_OFS. rewrite Z.shiftr_div_pow2 by lia. split; [done|].
  change 31 with (Z.ones 5). by rewrite Z.land_ones by lia.
Qed.

Lemma ofs_lt k : 0 <= k < 256 -> (MASK_OFS k < MASK_SIZE)%nat.
Proof. intros H. rewrite (proj1 (ofs_bit k)). unfold MASK_SIZE. dlia. Qed.

Lemma bit_inj k k' : 0 <= k -> 0 <= k' -> MASK_OFS k = MASK_OFS k' -> Z.land k 31 = Z.land k' 31 ->
  k = k'.
Proof.
  rewrite !(proj1 (ofs_bit _)), !(proj2 (ofs_bit _)). intros ?? H1 H2.
  apply Z2Nat.inj in H1; dlia.
Qed.

Lemma land_bit w j : 0 <= j -> negb (Z.land w (Z.shiftl 1 j) =? 0) = Z.testbit w j.
Proof.
  intros Hj. rewrite Z.shiftl_1_l. destruct (Z.testbit w j) eqn:E.
  - apply negb_true_iff, Z.eqb_neq. intros H.
    assert (Z.testbit (Z.land w (2 ^ j)) j = false) as Hb by (by rewrite H, Z.bits_0).
    rewrite Z.land_spec, E, Z.pow2_bits_true in Hb by done. done.
  - apply negb_false_iff, Z.eqb_eq, Z.bits_inj'. intros n Hn.
    rewrite Z.land_spec, Z.bits_0. destruct (decide (n = j)) as [->|Hne]; [by rewrite E|].
    rewrite Z.pow2_bits_false by done. apply andb_false_r.
Qed.

Lemma bits_le a b : 0 <= b -> (forall n, Z.testbit a n = true -> Z.testbit b n = true) -> a <= b.
Proof.
  intros Hb H. apply Z.ldiff_le; [done|]. apply Z.bits_inj'. intros n _.
  rewrite Z.ldiff_spec, Z.bits_0. destruct (Z.testbit a n) eqn:E; [|done]. by rewrite (H n E).
Qed.

Lemma mask_lookup m k : mask_ok m -> 0 <= k < 256 -> exists w, m !! MASK_OFS k = Some w.
Proof.
  intros [Hs _] Hk. apply lookup_lt_is_Some_2. pose proof (ofs_lt k Hk). lia.
Qed.

Lemma mask_test_spec m k : mask_ok m -> 0 <= k < 256 -> snd_mask_test m k = Some (mbit m k).
Proof.
  intros Hm Hk. unfold snd_mask_test, SND_MASK_MAX, mbit.
  rewrite (proj2 (Z.ltb_ge 256 k)) by lia. destruct (mask_lookup m k Hm Hk) as [w ->]. cbn.
  unfold MASK_BIT. rewrite land_bit; [done|]. rewrite (proj2 (ofs_bit k)). dlia.
Qed.

Lemma mask_reset_spec m k : mask_ok m -> 0 <= k < 256 ->
  exists m', snd_mask_reset m k = Some m' /\ mask_ok m' /\ drop MASK_SIZE m' = drop MASK_SIZE m /\
    forall k', 0 <= k' < 256 -> mbit m' k' = mbit m k' && negb (k' =? k).
Proof.
  intros Hm Hk. unfold snd_mask_reset, SND_MASK_MAX. rewrite (proj2 (Z.ltb_ge 256 k)) by lia.
  destruct (mask_lookup m k Hm Hk) as [w Hw]. rewrite Hw. cbn. eexists. split; [done|].
  assert (0 <= Z.land k 31 < 32) as Hj by (rewrite (proj2 (ofs_bit k)); dlia).
  assert (MASK_OFS k < length m)%nat as Hlt by (by eapply lookup_lt_Some).
  split_and!.
  - destruct Hm as [Hs Hf]. split; [by rewrite length_insert|]. apply Forall_insert; [done|].
    pose proof (Forall_lookup_1 _ _ _ _ Hf Hw) as [Hw0 Hw1]. split; [apply Z.ldiff_nonneg; lia|].
    assert (Z.ldiff w (MASK_BIT k) <= w); [|lia]. apply bits_le; [done|].
    intros n. rewrite Z.ldiff_spec. by intros [? _]%andb_true_iff.
  - apply drop_insert_lt. by apply ofs_lt.
  - intros k' Hk'. unfold mbit. destruct (decide (MASK_OFS k' = MASK_OFS k)) as [E|E].
    + rewrite E, list_lookup_insert_eq, Hw by done. unfold MASK_BIT.
      rewrite Z.ldiff_spec, Z.shiftl_1_l, Z.pow2_bits_eqb by lia. f_equal. f_equal.
      destruct (Z.eqb_spec k' k) as [->|Hne]; [apply Z.eqb_refl|].
      apply Z.eqb_neq. intros H. apply Hne, bit_inj; try done; lia.
    + rewrite list_lookup_insert_ne by done. destruct (Z.eqb_spec k' k) as [->|]; [done|].
      by rewrite andb_true_r.
Qed.

Lemma words_lookup m k : 0 <= k < 256 -> mask_words m !! MASK_OFS k = m !! MASK_OFS k.
Proof. intros H. apply lookup_take_lt. by apply ofs_lt. Qed.

Lemma mbit_word m i w n : m !! i = Some w -> 0 <= n < 32 ->
  mbit m (32 * Z.of_nat i + n) = Z.testbit w n.
Proof.
  intros Hi Hn. unfold mbit. rewrite (proj1 (ofs_bit _)), (proj2 (ofs_bit _)).
  replace ((32 * Z.of_nat i + n) / 32) with (Z.of_nat i) by dlia.
  replace ((32 * Z.of_nat i + n) mod 32) with n by dlia. by rewrite Nat2Z.id, Hi.
Qed.

Lemma word_ext w w' : mword_ok w -> mword_ok w' ->
  (forall n, 0 <= n < 32 -> Z.testbit w n = Z.testbit w' n) -> w = w'.
Proof.
  assert (forall w n, mword_ok w -> 32 <= n -> Z.testbit w n = false) as Hhigh.
  { intros u n [H0 H1] Hn. apply Z.testbit_false; [lia|]. rewrite Z.div_small; [done|].
    assert (2 ^ 32 <= 2 ^ n) by (apply Z.pow_le_mono_r; lia). lia. }
  intros Hw Hw' H. apply Z.bits_inj'. intros n Hn. destruct (decide (n < 32)); [by apply H|].
  rewrite !Hhigh; done || lia.
Qed.

(** A mask is determined by its bits. *)
Lemma mask_ext m v : mask_ok m -> mask_ok v ->
  (forall k, 0 <= k < 256 -> mbit m k = mbit v k) -> mask_words m = mask_words v.
Proof.
  intros [Hs Hf] [Hs' Hf'] H. apply list_eq. intros i. unfold mask_words.
  destruct (decide (i < MASK_SIZE)%nat) as [Hi|Hi]; [|by rewrite !lookup_take_ge by lia].
  rewrite !lookup_take_lt by done.
  destruct (lookup_lt_is_Some_2 m i) as [w Hw]; [lia|].
  destruct (lookup_lt_is_Some_2 v i) as [w' Hw']; [lia|]. rewrite Hw, Hw'. f_equal.
  apply word_ext; [by apply (Forall_lookup_1 mword_ok m i)|by apply (Forall_lookup_1 mword_ok v i)|].
  intros n Hn.
  rewrite <- (mbit_word m i w n Hw Hn), <- (mbit_word v i w' n Hw' Hn). apply H.
  unfold MASK_SIZE in Hi. lia.
Qed.

Lemma mask_empty_spec m : mask_ok m ->
  snd_mask_empty m = true <-> forall k, 0 <= k < 256 -> mbit m k = false.
Proof.
  intros Hm. unfold snd_mask_empty. rewrite forallb_forall. split.
  - intros H k Hk. unfold mbit. destruct (mask_lookup m k Hm Hk) as [w Hw]. rewrite Hw.
    assert (w = 0) as ->; [|by rewrite Z.bits_0].
    apply Z.eqb_eq, H, list_elem_of_In, (list_elem_of_lookup_2 _ (MASK_OFS k)).
    by rewrite words_lookup.
  - intros H w Hin%list_elem_of_In. apply Z.eqb_eq.
    apply list_elem_of_lookup_1 in Hin as [i Hi]. unfold mask_words in Hi.
    apply lookup_take_Some in Hi as [Hi Hlt]. unfold MASK_SIZE in Hlt. destruct Hm as [_ Hf].
    apply word_ext; [by apply (Forall_lookup_1 mword_ok m i)|done|]. intros n Hn. rewrite Z.bits_0.
    rewrite <- (mbit_word m i w n Hi Hn). apply H. lia.
Qed.

Lemma intersect_spec m v : mask_ok m -> mask_ok v ->
  mask_ok (snd_mask_intersect m v) /\
  drop MASK_SIZE (snd_mask_intersect m v) = drop MASK_SIZE m /\
  forall k, 0 <= k < 256 -> mbit (snd_mask_intersect m v) k = mbit m k && mbit v k.
Proof.
  intros Hm Hv. pose proof Hm as [Hs Hf]. pose proof Hv as [Hs' Hf']. unfold snd_mask_intersect.
  assert (length (zip_with Z.land (mask_words m) (mask_words v)) = MASK_SIZE) as Hl.
  { unfold mask_words. rewrite length_zip_with, !length_take. lia. }
  assert (length (zip_with Z.land (mask_words m) (mask_words v) ++ drop MASK_SIZE m) = length m) as Hlen
    by (rewrite length_app, Hl, length_drop; lia).
  split_and!; [split|by rewrite <- Hl, drop_app_length|].
  - by rewrite Hlen.
  - apply Forall_app. split; [|by apply Forall_drop].
    apply Forall_lookup. intros i w Hi. apply lookup_zip_with_Some in Hi as (a & b & -> & Ha & Hb).
    apply lookup_take_Some in Ha as [Ha _]. pose proof (Forall_lookup_1 _ _ _ _ Hf Ha) as [A B].
    split; [apply Z.land_nonneg; lia|]. assert (Z.land a b <= a); [|lia].
    apply bits_le; [done|]. intros n. rewrite Z.land_spec. by intros [? _]%andb_true_iff.
  - intros k Hk. unfold mbit. pose proof (ofs_lt k Hk) as Ho.
    rewrite lookup_app_l by lia. rewrite lookup_zip_with, !words_lookup by done.
    destruct (mask_lookup m k Hm Hk) as [a ->], (mask_lookup v k Hv Hk) as [b ->]. cbn.
    apply Z.land_spec.
Qed.

(** Leaving one value *)
Lemma mask_leave_spec m v : mask_ok m -> 0 <= v < 256 ->
  exists m', snd_mask_leave m v = Some m' /\ mask_ok m' /\ drop MASK_SIZE m' = drop MASK_SIZE m /\
    forall k, 0 <= k < 256 -> mbit m' k = mbit m k && (k =? v).
Proof.
  intros Hm Hv. unfold snd_mask_leave, SND_MASK_MAX. rewrite (proj2 (Z.ltb_ge 256 v)) by lia.
  destruct (mask_lookup m v Hm Hv) as [w Hw]. rewrite Hw. cbn [mbind option_bind].
  eexists. split; [done|].
  assert (0 <= Z.land v 31 < 32) as Hj by (rewrite (proj2 (ofs_bit v)); dlia).
  pose proof (ofs_lt v Hv) as Ho. pose proof Hm as [Hs Hf].
  assert (MASK_SIZE <= length (snd_mask_none m))%nat as Hn
    by (unfold snd_mask_none; rewrite length_app, length_replicate; lia).
  split_and!.
  - split; [by rewrite length_insert|]. apply Forall_insert.
    + apply Forall_app. split; [by apply Forall_replicate|by apply Forall_drop].
    + pose proof (Forall_lookup_1 _ _ _ _ Hf Hw) as [Hw0 Hw1].
      split; [apply Z.land_nonneg; lia|]. assert (Z.land w (MASK_BIT v) <= w); [|lia].
      apply bits_le; [done|]. intros n. rewrite Z.land_spec. by intros [? _]%andb_true_iff.
  - rewrite drop_insert_lt by done. unfold snd_mask_none. by rewrite drop_app_length'.
  - intros k Hk. unfold mbit. pose proof (ofs_lt k Hk) as Hok.
    destruct (decide (MASK_OFS k = MASK_OFS v)) as [E|E].
    + rewrite E, list_lookup_insert_eq, Hw by lia. unfold MASK_BIT.
      rewrite Z.land_spec, Z.shiftl_1_l, Z.pow2_bits_eqb by lia. f_equal.
      destruct (Z.eqb_spec k v) as [->|Hne]; [apply Z.eqb_refl|].
      apply Z.eqb_neq. intros H. apply Hne, bit_inj; try done; lia.
    + rewrite list_lookup_insert_ne by done. unfold snd_mask_none.
      rewrite lookup_app_l by (rewrite length_replicate; lia). rewrite lookup_replicate_2 by done.
      rewrite Z.bits_0. destruct (Z.eqb_spec k v) as [->|]; [done|]. by rewrite andb_false_r.
Qed.

(** Setting a mask to one of its values *)
Lemma mask_refine_set_has m v : mask_ok m -> 0 <= v < 256 -> mbit m v = true ->
  exists c m', snd_mask_refine_set m v = Some (c, m') /\ 0 <= c /\ mask_ok m' /\
    drop MASK_SIZE m' = drop MASK_SIZE m /\
    forall k, 0 <= k < 256 -> mbit m' k = mbit m k && (k =? v).
Proof.
  intros Hm Hv Hb. destruct (mask_leave_spec m v Hm Hv) as (m' & E & Hm' & Hd & Hbits).
  assert (forall x, mask_ok x -> mbit x v = true -> snd_mask_empty x = false) as Hne.
  { intros x Hx Hbx. apply not_true_is_false. intros He. rewrite (mask_empty_spec x Hx) in He.
    by rewrite He in Hbx. }
  assert (mbit m' v = true) as Hb' by by rewrite Hbits, Hb, Z.eqb_refl.
  unfold snd_mask_refine_set, snd_mask_single. rewrite (Hne m) by done. cbn [mbind option_bind].
  rewrite E. cbn [mbind option_bind]. rewrite (Hne m') by done.
  eexists _, m'. split; [done|]. split_and!; try done. case_match; lia.
Qed.

(** The number of values of a mask. *)
Definition mask_count (m : mask) : Z :=
  Z.of_nat (length (filter (fun k => mbit m k = true) (seqZ 0 256))).

Lemma mask_count_le m m' : (forall k, 0 <= k < 256 -> mbit m' k = true -> mbit m k = true) ->
  mask_count m' <= mask_count m.
Proof.
  intros H. unfold mask_count. apply inj_le. apply submseteq_length.
  assert (forall l, (forall k, k ∈ l -> 0 <= k < 256) ->
    filter (fun k => mbit m' k = true) l ⊆+ filter (fun k => mbit m k = true) l) as G.
  { induction l as [|k l IH]; intros Hl; [done|]. rewrite !filter_cons.
    specialize (IH ltac:(set_solver)). specialize (H k (Hl k ltac:(left))).
    repeat case_decide; try done; [by apply submseteq_skip|tauto|by apply submseteq_cons]. }
  apply G. intros k. rewrite elem_of_seqZ. lia.
Qed.

Lemma mask_count_lt m m' k0 : (forall k, 0 <= k < 256 -> mbit m' k = true -> mbit m k = true) ->
  0 <= k0 < 256 -> mbit m k0 = true -> mbit m' k0 = false -> mask_count m' < mask_count m.
Proof.
  intros H Hk H1 H2. unfold mask_count. apply inj_lt.
  assert (forall l, (forall k, k ∈ l -> 0 <= k < 256) ->
    (length (filter (fun k => mbit m' k = true) l) <= length (filter (fun k => mbit m k = true) l))%nat /\
    (k0 ∈ l -> (length (filter (fun k => mbit m' k = true) l)
               < length (filter (fun k => mbit m k = true) l))%nat)) as G.
  { induction l as [|k l IH]; intros Hl; [split; [done|set_solver]|]. rewrite !filter_cons.
    destruct (IH ltac:(set_solver)) as [IH1 IH2]. specialize (H k (Hl k ltac:(left))).
    repeat case_decide; cbn; (split; [lia || tauto|]); rewrite elem_of_cons; intros [<-|?];
      try congruence; try tauto; try (specialize (IH2 ltac:(done))); lia. }
  apply G; intros; rewrite ?elem_of_seqZ in *; lia.
Qed.

Lemma mask_refine_facts m v r m' : snd_mask_refine m v = (r, m') -> mask_ok m -> mask_ok v ->
  snd_mask_empty m = false ->
  mask_ok m' /\ drop MASK_SIZE m' = drop MASK_SIZE m /\
  (forall k, 0 <= k < 256 -> mbit m' k = mbit m k && mbit v k) /\
  (r < 0 <-> forall k, 0 <= k < 256 -> mbit m' k = false) /\ r <= 1 /\
  (0 <= r -> mask_count m' <= mask_count m - r).
Proof.
  intros E Hm Hv He. unfold snd_mask_refine in E. rewrite He in E.
  destruct (intersect_spec m v Hm Hv) as (I1 & I2 & I3).
  assert (forall k, 0 <= k < 256 -> mbit (snd_mask_intersect m v) k = true -> mbit m k = true) as Hsub.
  { intros k Hk. rewrite I3 by done. by intros [? _]%andb_true_iff. }
  pose proof (mask_empty_spec _ I1) as Hempty.
  destruct (snd_mask_empty (snd_mask_intersect m v)) eqn:E1; injection E as <- <-.
  - split_and!; try done. split; [|done]. intros _. by apply Hempty.
  - split_and!; try done; [|case_match; lia|].
    + split; [case_match; lia|]. intros H%Hempty. done.
    + intros _. pose proof (mask_count_le _ _ Hsub) as Hle. unfold snd_mask_eq.
      case_bool_decide as Heq; [lia|].
      assert (exists k0, 0 <= k0 < 256 /\ mbit m k0 = true /\ mbit (snd_mask_intersect m v) k0 = false)
        as (k0 & Hk0 & T1 & T2); [|pose proof (mask_count_lt _ _ k0 Hsub Hk0 T1 T2); lia].
      destruct (decide (Forall (fun k => mbit m k = true -> mbit (snd_mask_intersect m v) k = true)
        (seqZ 0 256))) as [Hall|Hno].
      * exfalso. apply Heq, mask_ext; [done..|]. intros k Hk. rewrite Forall_forall in Hall.
        specialize (Hall k ltac:(apply elem_of_seqZ; lia)). specialize (Hsub k Hk).
        destruct (mbit m k), (mbit (snd_mask_intersect m v) k); naive_solver.
      * apply not_Forall_Exists in Hno; [|intros k; solve_decision].
        apply Exists_exists in Hno as (k & Hk%elem_of_seqZ & Hn). exists k. split; [lia|].
        destruct (mbit m k) eqn:B1, (mbit (snd_mask_intersect m v) k) eqn:B2; try done; destruct Hn; congruence.
Qed.

(** ** The ends of a mask *)

Lemma ld2_step v k : 0 < k -> 2 ^ k <= v -> Z.log2 v = Z.log2 (Z.shiftr v k) + k.
Proof.
  intros Hk Hv. rewrite Z.log2_shiftr by lia.
  assert (k <= Z.log2 v) by (apply Z.log2_le_pow2; lia). lia.
Qed.

(** [ld2] is the logarithm. *)
Lemma ld2_log2 v : 0 < v < 4294967296 -> ld2 v = Z.log2 v.
Proof.
  intros Hv. unfold ld2.
  assert (forall v, 0 < v < 4 -> (if 2 <=? v then 1 else 0) = Z.log2 v) as H2.
  { intros u Hu. assert (u = 1 \/ u = 2 \/ u = 3) as [-> |[-> | ->]] by lia; done. }
  assert (forall v k, 0 < k -> 2 ^ k <= v -> 0 < Z.shiftr v k) as Hpos.
  { intros u k Hk Hu. rewrite Z.shiftr_div_pow2 by lia. apply Z.div_str_pos.
    split; [apply Z.pow_pos_nonneg; lia|done]. }
  assert (forall v k m, 0 < k -> 0 < v < 2 ^ (k + m) -> 0 <= m -> Z.shiftr v k < 2 ^ m) as Hlt.
  { intros u k m Hk Hu Hm. rewrite Z.shiftr_div_pow2 by lia.
    apply Z.div_lt_upper_bound; [apply Z.pow_pos_nonneg; lia|]. rewrite <- Z.pow_add_r by lia. lia. }
  assert (forall v r, 0 < v < 16 ->
    (let '(v, r) := if 4 <=? v then (Z.shiftr v 2, r + 2) else (v, r) in if 2 <=? v then r + 1 else r)
    = r + Z.log2 v) as H4.
  { intros u r Hu. destruct (Z.leb_spec 4 u).
    - rewrite (ld2_step u 2) by lia. rewrite <- H2; [case_match; lia|].
      pose proof (Hpos u 2 ltac:(lia) ltac:(lia)). pose proof (Hlt u 2 2 ltac:(lia) ltac:(lia) ltac:(lia)).
      change (2 ^ 2) with 4 in *. lia.
    - rewrite <- H2 by lia. case_match; lia. }
  assert (forall v r, 0 < v < 256 ->
    (let '(v, r) := if 0x10 <=? v then (Z.shiftr v 4, r + 4) else (v, r) in
     let '(v, r) := if 4 <=? v then (Z.shiftr v 2, r + 2) else (v, r) in if 2 <=? v then r + 1 else r)
    = r + Z.log2 v) as H8.
  { intros u r Hu. destruct (Z.leb_spec 0x10 u); [|apply H4; lia].
    rewrite (ld2_step u 4) by lia. rewrite H4; [lia|].
    pose proof (Hpos u 4 ltac:(lia) ltac:(lia)). pose proof (Hlt u 4 4 ltac:(lia) ltac:(lia) ltac:(lia)).
    change (2 ^ 4) with 16 in *. lia. }
  assert (forall v r, 0 < v < 65536 ->
    (let '(v, r) := if 0x100 <=? v then (Z.shiftr v 8, r + 8) else (v, r) in
     let '(v, r) := if 0x10 <=? v then (Z.shiftr v 4, r + 4) else (v, r) in
     let '(v, r) := if 4 <=? v then (Z.shiftr v 2, r + 2) else (v, r) in if 2 <=? v then r + 1 else r)
    = r + Z.log2 v) as H16.
  { intros u r Hu. destruct (Z.leb_spec 0x100 u); [|apply H8; lia].
    rewrite (ld2_step u 8) by lia. rewrite H8; [lia|].
    pose proof (Hpos u 8 ltac:(lia) ltac:(lia)). pose proof (Hlt u 8 8 ltac:(lia) ltac:(lia) ltac:(lia)).
    change (2 ^ 8) with 256 in *. lia. }
  cbv zeta. destruct (Z.leb_spec 0x10000 v); [|rewrite H16; lia].
  rewrite (ld2_step v 16) by lia. rewrite H16; [lia|].
  pose proof (Hpos v 16 ltac:(lia) ltac:(lia)). pose proof (Hlt v 16 16 ltac:(lia) ltac:(lia) ltac:(lia)).
  change (2 ^ 16) with 65536 in *. lia.
Qed.

(** [snd_mask_refine_max] clears bit 256, which is the first bit of the memory
    behind the mask: of the next mask. *)
Lemma mask_refine_max_clears_next :
  snd_mask_refine_max ([0x1f; 0; 0; 0; 0; 0; 0; 0] ++ [0xff; 0; 0; 0; 0; 0; 0; 0]) 2
  = Some (1, [0x7; 0; 0; 0; 0; 0; 0; 0] ++ [0xfe; 0; 0; 0; 0; 0; 0; 0]).
Proof. vm_compute. done. Qed.
