(* ===== verification/PcmParams.v ===== *)
(** * alsa-lib: the configuration space of a PCM device
    ([src/alsa-lib/src/pcm/pcm_params.c], with the format widths of [pcm_misc.c])

    [snd_pcm_hw_params_t] holds, for each parameter, the values that it can still
    have; [snd_pcm_hw_refine_soft] removes the values that the relations between
    the parameters exclude. *)

From S2P Require Import Prelude.
From S2P Require Import CString.
From S2P Require Import PcmInterval.
From S2P Require Import PcmMask.

(** ** Parameters *)

Definition ACCESS : Z := 0.
Definition FORMAT : Z := 1.
Definition SUBFORMAT : Z := 2.
Definition SAMPLE_BITS : Z := 8.
Definition FRAME_BITS : Z := 9.
Definition CHANNELS : Z := 10.
Definition RATE : Z := 11.
Definition PERIOD_TIME : Z := 12.
Definition PERIOD_SIZE : Z := 13.
Definition PERIOD_BYTES : Z := 14.
Definition PERIODS : Z := 15.
Definition BUFFER_TIME : Z := 16.
Definition BUFFER_SIZE : Z := 17.
Definition BUFFER_BYTES : Z := 18.
Definition TICK_TIME : Z := 19.

Definition hw_is_mask (var : Z) : bool := var <=? SUBFORMAT.
Definition hw_is_interval (var : Z) : bool := (SAMPLE_BITS <=? var) && (var <=? TICK_TIME).

Definition mask_vars : list Z := [ACCESS; FORMAT; SUBFORMAT].
Definition interval_vars : list Z :=
  [SAMPLE_BITS; FRAME_BITS; CHANNELS; RATE; PERIOD_TIME; PERIOD_SIZE; PERIOD_BYTES; PERIODS;
   BUFFER_TIME; BUFFER_SIZE; BUFFER_BYTES; TICK_TIME].

(** [struct snd_pcm_hw_params]; [p_masks] is the memory of the three masks and of
    the five reserved ones behind them. *)
Record hw_params := HwParams {
  p_flags : Z;
  p_masks : list Z;
  p_intervals : list snd_interval;
  p_rmask : Z;
  p_cmask : Z;
  p_info : Z;
  p_msbits : Z;
  p_rate_num : Z;
  p_rate_den : Z;
  p_fifo_size : Z }.

#[export] Instance eta_hw_params : Eta hw_params := fun p =>
  HwParams (p_flags p) (p_masks p) (p_intervals p) (p_rmask p) (p_cmask p) (p_info p)
    (p_msbits p) (p_rate_num p) (p_rate_den p) (p_fifo_size p).

(** The macros: the memory from the mask of a parameter on, and its interval. *)
Definition hw_param_mask (p : hw_params) (var : Z) : mask :=
  drop (MASK_SIZE * Z.to_nat var) (p_masks p).
Definition set_mask (var : Z) (m : mask) (p : hw_params) : hw_params :=
  p <| p_masks := take (MASK_SIZE * Z.to_nat var) (p_masks p) ++ m |>.

Definition hw_param_interval (p : hw_params) (var : Z) : snd_interval :=
  nth (Z.to_nat (var - SAMPLE_BITS)) (p_intervals p) snd_interval_any.
Definition set_interval (var : Z) (i : snd_interval) (p : hw_params) : hw_params :=
  p <| p_intervals := <[Z.to_nat (var - SAMPLE_BITS) := i]> (p_intervals p) |>.

Definition bit_of (var : Z) : Z := Z.shiftl 1 var.
Definition mark_changed (var : Z) (p : hw_params) : hw_params :=
  p <| p_cmask := Z.lor (p_cmask p) (bit_of var) |>.
Definition mark_both (var : Z) (p : hw_params) : hw_params :=
  p <| p_cmask := Z.lor (p_cmask p) (bit_of var) |> <| p_rmask := Z.lor (p_rmask p) (bit_of var) |>.

(** ** Formats *)

Definition SND_PCM_FORMAT_LAST : Z := 49.

(** The cases of the switch by number: S8, U8; 16 bits; 24 bits in 4 bytes; 32 bits;
    float; float64; IEC958; mu-law and A-law; ADPCM; three bytes. *)
Definition snd_pcm_format_physical_width (format : Z) : Z :=
  if (format =? 0) || (format =? 1) then 8
  else if (2 <=? format) && (format <=? 5) then 16
  else if (32 <=? format) && (format <=? 43) then 24
  else if (6 <=? format) && (format <=? 15) then 32
  else if (18 <=? format) && (format <=? 19) then 32
  else if (16 <=? format) && (format <=? 17) then 64
  else if (20 <=? format) && (format <=? 21) then 8
  else if format =? 22 then 4
  else - E_INVAL.

(** ** The rules *)

Inductive rule_func := Rule_mul | Rule_div | Rule_muldivk | Rule_mulkdiv | Rule_format | Rule_sample_bits.

Record hw_rule := Rule { ru_var : Z; ru_func : rule_func; ru_deps : list Z; ru_private : Z }.

Definition refine_rules : list hw_rule :=
  [ Rule FORMAT Rule_format [SAMPLE_BITS] 0;
    Rule SAMPLE_BITS Rule_sample_bits [FORMAT; SAMPLE_BITS] 0;
    Rule SAMPLE_BITS Rule_div [FRAME_BITS; CHANNELS] 0;
    Rule FRAME_BITS Rule_mul [SAMPLE_BITS; CHANNELS] 0;
    Rule FRAME_BITS Rule_mulkdiv [PERIOD_BYTES; PERIOD_SIZE] 8;
    Rule FRAME_BITS Rule_mulkdiv [BUFFER_BYTES; BUFFER_SIZE] 8;
    Rule CHANNELS Rule_div [FRAME_BITS; SAMPLE_BITS] 0;
    Rule RATE Rule_mulkdiv [PERIOD_SIZE; PERIOD_TIME] 1000000;
    Rule RATE Rule_mulkdiv [BUFFER_SIZE; BUFFER_TIME] 1000000;
    Rule PERIODS Rule_div [BUFFER_SIZE; PERIOD_SIZE] 0;
    Rule PERIOD_SIZE Rule_div [BUFFER_SIZE; PERIODS] 0;
    Rule PERIOD_SIZE Rule_mulkdiv [PERIOD_BYTES; FRAME_BITS] 8;
    Rule PERIOD_SIZE Rule_muldivk [PERIOD_TIME; RATE] 1000000;
    Rule BUFFER_SIZE Rule_mul [PERIOD_SIZE; PERIODS] 0;
    Rule BUFFER_SIZE Rule_mulkdiv [BUFFER_BYTES; FRAME_BITS] 8;
    Rule BUFFER_SIZE Rule_muldivk [BUFFER_TIME; RATE] 1000000;
    Rule PERIOD_BYTES Rule_muldivk [PERIOD_SIZE; FRAME_BITS] 8;
    Rule BUFFER_BYTES Rule_muldivk [BUFFER_SIZE; FRAME_BITS] 8;
    Rule PERIOD_TIME Rule_mulkdiv [PERIOD_SIZE; RATE] 1000000;
    Rule BUFFER_TIME Rule_mulkdiv [BUFFER_SIZE; RATE] 1000000 ].

(** The formats from [k] on, [n] of them: those whose width is excluded are removed.
    The result is the code and the mask. *)
Fixpoint format_loop (n : nat) (k : Z) (i : snd_interval) (m : mask) (changed : bool)
    : option (Z * mask) :=
  match n with
  | O => Some (if changed then 1 else 0, m)
  | S n =>
      test ← snd_mask_test m k;
      let bits := snd_pcm_format_physical_width k in
      if negb test || (bits <? 0) || snd_interval_test i bits then format_loop n (k + 1) i m changed
      else
        m ← snd_mask_reset m k;
        if snd_mask_empty m then Some (- E_INVAL, m) else format_loop n (k + 1) i m true
  end.

(** The least and the greatest width of the formats of a mask. *)
Fixpoint widths_loop (n : nat) (k : Z) (m : mask) (min max : Z) : option (Z * Z) :=
  match n with
  | O => Some (min, max)
  | S n =>
      test ← snd_mask_test m k;
      let bits := snd_pcm_format_physical_width k in
      if negb test || (bits <? 0) then widths_loop n (k + 1) m min max
      else widths_loop n (k + 1) m (if bits <? min then bits else min) (if max <? bits then bits else max)
  end.

Section Refine.
(** What the stack holds where a rule declares its interval [t]. *)
Context (t0 : snd_interval).

Definition dep (r : hw_rule) (k : nat) : Z := nth k (ru_deps r) (-1).

(** A rule that computes an interval from two others. *)
Definition rule_interval (r : hw_rule) (t : snd_interval) (p : hw_params) : Z * hw_params :=
  let '(c, i) := snd_interval_refine (hw_param_interval p (ru_var r)) t in
  (c, set_interval (ru_var r) i p).

Definition snd_pcm_hw_rule_mul (r : hw_rule) (p : hw_params) : option (Z * hw_params) :=
  Some (rule_interval r (snd_interval_mul (hw_param_interval p (dep r 0))
                           (hw_param_interval p (dep r 1)) t0) p).

Definition snd_pcm_hw_rule_div (r : hw_rule) (p : hw_params) : option (Z * hw_params) :=
  Some (rule_interval r (snd_interval_div (hw_param_interval p (dep r 0))
                           (hw_param_interval p (dep r 1)) t0) p).

Definition snd_pcm_hw_rule_muldivk (r : hw_rule) (p : hw_params) : option (Z * hw_params) :=
  t ← snd_interval_muldivk (hw_param_interval p (dep r 0)) (hw_param_interval p (dep r 1))
        (ru_private r) t0;
  Some (rule_interval r t p).

Definition snd_pcm_hw_rule_mulkdiv (r : hw_rule) (p : hw_params) : option (Z * hw_params) :=
  t ← snd_interval_mulkdiv (hw_param_interval p (dep r 0)) (ru_private r)
        (hw_param_interval p (dep r 1)) t0;
  Some (rule_interval r t p).

Definition snd_pcm_hw_rule_format (r : hw_rule) (p : hw_params) : option (Z * hw_params) :=
  '(c, m) ← format_loop (Z.to_nat (SND_PCM_FORMAT_LAST + 1)) 0 (hw_param_interval p (dep r 0))
              (hw_param_mask p (ru_var r)) false;
  Some (c, set_mask (ru_var r) m p).

Definition snd_pcm_hw_rule_sample_bits (r : hw_rule) (p : hw_params) : option (Z * hw_params) :=
  '(min, max) ← widths_loop (Z.to_nat (SND_PCM_FORMAT_LAST + 1)) 0 (hw_param_mask p (dep r 0))
                  UINT_MAX 0;
  let '(c1, i) := snd_interval_refine_min (hw_param_interval p (ru_var r)) min false in
  let p := set_interval (ru_var r) i p in
  if c1 <? 0 then Some (c1, p) else
  let '(c2, i) := snd_interval_refine_max i max false in
  let p := set_interval (ru_var r) i p in
  if c2 <? 0 then Some (c2, p) else
  Some (if negb (c1 =? 0) || negb (c2 =? 0) then 1 else 0, p).

(** [r->func(params, r)] *)
Definition run_rule (r : hw_rule) : hw_params -> option (Z * hw_params) :=
  match ru_func r with
  | Rule_mul => snd_pcm_hw_rule_mul r
  | Rule_div => snd_pcm_hw_rule_div r
  | Rule_muldivk => snd_pcm_hw_rule_muldivk r
  | Rule_mulkdiv => snd_pcm_hw_rule_mulkdiv r
  | Rule_format => snd_pcm_hw_rule_format r
  | Rule_sample_bits => snd_pcm_hw_rule_sample_bits r
  end.

(** ** [snd_pcm_hw_refine_soft] *)

(** The values that a parameter can have at all. *)
Definition refine_masks (var : Z) : mask :=
  if var =? ACCESS then [0x1f; 0; 0; 0; 0; 0; 0; 0]
  else if var =? FORMAT then [0x81ffffff; 0xfff; 0; 0; 0; 0; 0; 0]
  else [0x1; 0; 0; 0; 0; 0; 0; 0].

Definition refine_intervals (var : Z) : snd_interval :=
  if (var =? SAMPLE_BITS) || (var =? FRAME_BITS) || (var =? CHANNELS) ||
     (var =? BUFFER_SIZE) || (var =? BUFFER_BYTES)
  then Interval 1 UINT_MAX false false true false
  else if (var =? RATE) || (var =? BUFFER_TIME)
  then Interval 1 UINT_MAX false false false false
  else Interval 0 UINT_MAX false false false false.

Definition var_requested (p : hw_params) (var : Z) : bool :=
  negb (Z.land (p_rmask p) (bit_of var) =? 0).

(** The two loops before the rules; a negative code ends them. *)
Fixpoint base_masks (l : list Z) (p : hw_params) : Z * hw_params :=
  match l with
  | [] => (0, p)
  | k :: l =>
      if negb (var_requested p k) then base_masks l p else
      let '(c, m) := snd_mask_refine (hw_param_mask p k) (refine_masks k) in
      let p := set_mask k m p in
      let p := if negb (c =? 0) then mark_changed k p else p in
      if c <? 0 then (c, p) else base_masks l p
  end.

Fixpoint base_intervals (l : list Z) (p : hw_params) : Z * hw_params :=
  match l with
  | [] => (0, p)
  | k :: l =>
      if negb (var_requested p k) then base_intervals l p else
      let '(c, i) := snd_interval_refine (hw_param_interval p k) (refine_intervals k) in
      let p := set_interval k i p in
      let p := if negb (c =? 0) then mark_changed k p else p in
      if c <? 0 then (c, p) else base_intervals l p
  end.

(** The variables of the rule loop. *)
Record soft := Soft {
  s_params : hw_params;
  s_rstamps : list Z;
  s_vstamps : list Z;
  s_stamp : Z }.

#[local] Instance eta_soft : Eta soft := fun s =>
  Soft (s_params s) (s_rstamps s) (s_vstamps s) (s_stamp s).

Definition stamp_at (l : list Z) (k : Z) : Z := nth (Z.to_nat k) l 0.

(** One turn of the do loop from rule number [k] on: the code, whether to go on,
    and the variables. *)
Fixpoint rule_pass (l : list hw_rule) (k : nat) (again : bool) (s : soft)
    : option (Z * bool * soft) :=
  match l with
  | [] => Some (0, again, s)
  | r :: l =>
      let doit := existsb (fun d => stamp_at (s_rstamps s) (Z.of_nat k) <? stamp_at (s_vstamps s) d)
                    (ru_deps r) in
      if negb doit then rule_pass l (S k) again s else
      '(changed, p) ← run_rule r (s_params s);
      let s := s <| s_params := p |> <| s_rstamps := <[k := s_stamp s]> (s_rstamps s) |> in
      let '(again, s) :=
        if negb (changed =? 0) then
          (true, s <| s_params := mark_changed (ru_var r) p |>
                   <| s_vstamps := <[Z.to_nat (ru_var r) := s_stamp s]> (s_vstamps s) |>)
        else (again, s) in
      if changed <? 0 then Some (changed, again, s) else
      rule_pass l (S k) again (s <| s_stamp := u32 (s_stamp s + 1) |>)
  end.

Inductive soft_outcome :=
  | Done (code : Z) (p : hw_params)
  | Aborted                         (* a failing assertion *)
  | OutOfFuel.

(** What follows the loop. *)
Definition soft_finish (p : hw_params) : soft_outcome :=
  match
    (p ← (if p_msbits p =? 0 then
            single ← snd_interval_single (hw_param_interval p SAMPLE_BITS);
            if single : bool then
              v ← snd_interval_value (hw_param_interval p SAMPLE_BITS);
              Some (p <| p_msbits := u32 v |>)
            else Some p
          else Some p);
     p ← (if p_rate_den p =? 0 then
            single ← snd_interval_single (hw_param_interval p RATE);
            if single : bool then
              v ← snd_interval_value (hw_param_interval p RATE);
              Some (p <| p_rate_num := u32 v |> <| p_rate_den := 1 |>)
            else Some p
          else Some p);
     Some (p <| p_rmask := 0 |>))
  with
  | Some p => Done 0 p
  | None => Aborted
  end.

Fixpoint soft_loop (fuel : nat) (s : soft) : soft_outcome :=
  match fuel with
  | O => OutOfFuel
  | S fuel =>
      match rule_pass refine_rules 0 false s with
      | None => Aborted
      | Some (code, again, s) =>
          if code <? 0 then Done code (s_params s)
          else if again then soft_loop fuel s
          else soft_finish (s_params s)
      end
  end.

Definition soft_start (p : hw_params) : soft :=
  Soft p (replicate (length refine_rules) 0)
    ((fun k => if var_requested p k then 1 else 0) <$> seqZ 0 (TICK_TIME + 1)) 2.

Definition snd_pcm_hw_refine_soft (fuel : nat) (p : hw_params) : soft_outcome :=
  let '(c, p) := base_masks mask_vars p in
  if c <? 0 then Done c p else
  let '(c, p) := base_intervals interval_vars p in
  if c <? 0 then Done c p else
  soft_loop fuel (soft_start p).
End Refine.

(** ** The whole space *)

Definition snd_pcm_hw_params_any : hw_params :=
  HwParams 0 (replicate (3 * MASK_SIZE) 0xffffffff ++ replicate (5 * MASK_SIZE) 0)
    (replicate 12 snd_interval_any) 0xffffffff 0 0xffffffff 0 0 0 0.
