(* ===== verification/PcmParamsThms.v ===== *)
(** * alsa-lib: refining keeps every configuration

    A configuration is a value for each parameter that satisfies the relations
    between them.  Refining a space that has the configuration ends, succeeds
    and keeps it. *)

From Stdlib Require Import QArith Lqa.
From S2P Require Import Prelude.
From S2P Require Import CString.
From S2P Require Import PcmInterval.
From S2P Require Import PcmIntervalThms.
From S2P Require Import PcmMask.
From S2P Require Import PcmMaskThms.
From S2P Require Import PcmParams.

Open Scope Z_scope.

(** ** Configurations *)

Record configuration := Config { c_access : Z; c_format : Z; c_subformat : Z; c_val : Z -> Q }.

Definition c_mask (g : configuration) (var : Z) : Z :=
  if var =? ACCESS then c_access g else if var =? FORMAT then c_format g else c_subformat g.

Record admissible (g : configuration) : Prop := Admissible {
  ad_masks : forall var, var ∈ mask_vars ->
    0 <= c_mask g var < 256 /\ mbit (refine_masks var) (c_mask g var) = true;
  ad_intervals : forall var, var ∈ interval_vars -> c_val g var ∈ refine_intervals var;
  ad_type : forall var, var ∈ interval_vars -> var <> TICK_TIME -> in_type (c_val g var);
  ad_format : 0 <= c_format g <= SND_PCM_FORMAT_LAST /\ 0 <= snd_pcm_format_physical_width (c_format g);
  ad_width : (c_val g SAMPLE_BITS == inject_Z (snd_pcm_format_physical_width (c_format g)))%Q;
  ad_frame : (c_val g FRAME_BITS == c_val g SAMPLE_BITS * c_val g CHANNELS)%Q;
  ad_pbytes : (c_val g PERIOD_BYTES * inject_Z 8 == c_val g PERIOD_SIZE * c_val g FRAME_BITS)%Q;
  ad_bbytes : (c_val g BUFFER_BYTES * inject_Z 8 == c_val g BUFFER_SIZE * c_val g FRAME_BITS)%Q;
  ad_ptime : (c_val g PERIOD_SIZE * inject_Z 1000000 == c_val g PERIOD_TIME * c_val g RATE)%Q;
  ad_btime : (c_val g BUFFER_SIZE * inject_Z 1000000 == c_val g BUFFER_TIME * c_val g RATE)%Q;
  ad_periods : (c_val g BUFFER_SIZE == c_val g PERIOD_SIZE * c_val g PERIODS)%Q }.

(** The space [p] has the configuration. *)
Record admits (p : hw_params) (g : configuration) : Prop := Contains {
  ct_memory : length (p_masks p) = 64%nat;
  ct_words : Forall mword_ok (p_masks p);
  ct_masks : forall var, var ∈ mask_vars -> mbit (hw_param_mask p var) (c_mask g var) = true;
  ct_number : length (p_intervals p) = 12%nat;
  ct_intervals : forall var, var ∈ interval_vars -> has (hw_param_interval p var) (c_val g var) }.

(** [p'] has no value that [p] has not. *)
Record shrinks (p' p : hw_params) : Prop := Shrinks {
  sh_masks : forall var k, var ∈ mask_vars -> 0 <= k < 256 ->
    mbit (hw_param_mask p' var) k = true -> mbit (hw_param_mask p var) k = true;
  sh_intervals : forall var q, var ∈ interval_vars ->
    q ∈ hw_param_interval p' var -> q ∈ hw_param_interval p var }.

#[export] Instance shrinks_preorder : PreOrder shrinks.
Proof.
  split; [by split|]. intros p q r [A1 A2] [B1 B2]. split; [|by auto].
  intros var k Hv Hk H. by apply B1, A1.
Qed.

Lemma mask_var_range var : var ∈ mask_vars -> 0 <= var <= 2.
Proof. unfold mask_vars, ACCESS, FORMAT, SUBFORMAT. rewrite !elem_of_cons, elem_of_nil. lia. Qed.

Lemma interval_var_range var : var ∈ interval_vars <-> 8 <= var <= 19.
Proof.
  change interval_vars with [8; 9; 10; 11; 12; 13; 14; 15; 16; 17; 18; 19].
  rewrite !elem_of_cons, elem_of_nil. lia.
Qed.

(** *** Changing one interval *)

Lemma get_set_interval var var' i p :
  length (p_intervals p) = 12%nat -> var ∈ interval_vars -> var' ∈ interval_vars ->
  hw_param_interval (set_interval var i p) var' =
  if decide (var' = var) then i else hw_param_interval p var'.
Proof.
  rewrite !interval_var_range. intros Hl Hv Hv'. unfold hw_param_interval, set_interval, SAMPLE_BITS.
  cbn. rewrite !nth_lookup. case_decide as E.
  - subst. rewrite list_lookup_insert_eq; [done|lia].
  - rewrite list_lookup_insert_ne; [done|lia].
Qed.

(** *** Changing one mask *)

Lemma mbit_drop n mem k : mbit (drop n mem) k =
  match mem !! (n + MASK_OFS k)%nat with Some w => Z.testbit w (Z.land k 31) | None => false end.
Proof. unfold mbit. by rewrite lookup_drop. Qed.

Lemma get_set_mask var var' m p k :
  length (p_masks p) = 64%nat -> var ∈ mask_vars -> var' ∈ mask_vars -> 0 <= k < 256 ->
  drop MASK_SIZE m = drop MASK_SIZE (hw_param_mask p var) ->
  mbit (hw_param_mask (set_mask var m p) var') k =
  if decide (var' = var) then mbit m k else mbit (hw_param_mask p var') k.
Proof.
  intros Hl Hv%mask_var_range Hv'%mask_var_range Hk Hd.
  set (a := (MASK_SIZE * Z.to_nat var)%nat). set (b := (MASK_SIZE * Z.to_nat var')%nat).
  change (drop MASK_SIZE m = drop MASK_SIZE (drop a (p_masks p))) in Hd.
  change (hw_param_mask (set_mask var m p) var') with (drop b (take a (p_masks p) ++ m)).
  change (hw_param_mask p var') with (drop b (p_masks p)).
  pose proof (ofs_lt k Hk) as Ho. rewrite !mbit_drop.
  assert (length (take a (p_masks p)) = a) as Ha by (rewrite length_take; unfold a, MASK_SIZE; lia).
  case_decide as E.
  - assert (b = a) as -> by (unfold a, b; by rewrite E). rewrite lookup_app_r by (rewrite Ha; lia).
    unfold mbit. by rewrite Ha, Nat.add_comm, Nat.add_sub.
  - destruct (decide (var' < var)) as [Hlt|Hlt].
    + rewrite lookup_app_l by (rewrite Ha; unfold a, b, MASK_SIZE in *; lia).
      rewrite lookup_take_lt by (unfold a, b, MASK_SIZE in *; lia). done.
    + rewrite lookup_app_r by (rewrite Ha; unfold a, b, MASK_SIZE in *; lia). rewrite Ha.
      assert (b + MASK_OFS k - a = MASK_SIZE + (b + MASK_OFS k - a - MASK_SIZE))%nat as ->
        by (unfold a, b, MASK_SIZE in *; lia).
      rewrite <- lookup_drop, Hd, !lookup_drop.
      replace (a + (MASK_SIZE + (b + MASK_OFS k - a - MASK_SIZE)))%nat with (b + MASK_OFS k)%nat;
        [done|unfold a, b, MASK_SIZE in *; lia].
Qed.

Lemma contains_mask_ok p g var : admits p g -> var ∈ mask_vars -> mask_ok (hw_param_mask p var).
Proof.
  intros [Hl Hw _ _ _] Hv%mask_var_range. unfold hw_param_mask. split.
  - rewrite length_drop. unfold MASK_SIZE. lia.
  - by apply Forall_drop.
Qed.

(** *** The measure *)

Definition zsum (l : list Z) : Z := foldr Z.add 0 l.

Lemma zsum_insert l k x : (k < length l)%nat -> zsum (<[k := x]> l) = zsum l - nth k l 0 + x.
Proof.
  revert k. unfold zsum. induction l as [|y l IH]; intros k Hk; cbn in *; [lia|].
  destruct k as [|k]; cbn; [lia|]. rewrite IH by lia. lia.
Qed.

(** What is left to remove by the rules: from the intervals and the formats. *)
Definition space (p : hw_params) : Z :=
  zsum (interval_width <$> p_intervals p) + mask_count (hw_param_mask p FORMAT).

Lemma width_nonneg i q : has i q -> 0 <= interval_width i.
Proof.
  intros [Hok Hq]. pose proof (elem_checkempty i q Hq) as Hc%checkempty_false.
  unfold interval_width. destruct Hc as [?|(-> & -> & ->)]; [|destruct (i_integer i); cbn; lia].
  destruct (i_openmin i), (i_openmax i), (i_integer i); cbn; lia.
Qed.

Lemma space_nonneg p g : admits p g -> 0 <= space p.
Proof.
  intros [_ _ _ Hn Hi]. unfold space, mask_count.
  assert (0 <= zsum (interval_width <$> p_intervals p)); [|lia].
  assert (Forall (fun i => 0 <= interval_width i) (p_intervals p)) as Hf.
  { apply Forall_lookup. intros k i Hk. pose proof (lookup_lt_Some _ _ _ Hk) as Hlt.
    specialize (Hi (Z.of_nat k + 8) ltac:(apply interval_var_range; lia)).
    unfold hw_param_interval, SAMPLE_BITS in Hi. rewrite nth_lookup in Hi.
    replace (Z.to_nat (Z.of_nat k + 8 - 8)) with k in Hi by lia. rewrite Hk in Hi.
    by eapply width_nonneg. }
  clear -Hf. unfold zsum. induction Hf; cbn in *; lia.
Qed.

(** ** One step *)

(** What a step of refining does to a space that has the configuration: it keeps
    the configuration, removes values, and a changed space is smaller. *)
Definition good_step (g : configuration) (p : hw_params) (c : Z) (p' : hw_params) : Prop :=
  0 <= c /\ admits p' g /\ shrinks p' p /\ space p' <= space p - c /\ p_rmask p' = p_rmask p.

Lemma mask_untouched p i var k : hw_param_mask (set_interval var i p) k = hw_param_mask p k.
Proof. done. Qed.

Lemma set_interval_step g p var i c :
  admits p g -> var ∈ interval_vars -> 0 <= c -> has i (c_val g var) ->
  (forall q, q ∈ i -> q ∈ hw_param_interval p var) ->
  interval_width i <= interval_width (hw_param_interval p var) - c ->
  good_step g p c (set_interval var i p).
Proof.
  intros Hct Hv Hc Hi Hsub Hw. pose proof Hct as [H1 H2 H3 H4 H5]. split_and!; try done.
  - split; try done.
    + unfold set_interval. cbn. by rewrite length_insert.
    + intros var' Hv'. rewrite get_set_interval by done. case_decide as E; [by subst|by apply H5].
  - split; [done|]. intros var' q Hv'. rewrite get_set_interval by done.
    case_decide as E; [subst; apply Hsub|done].
  - unfold space. rewrite mask_untouched. unfold set_interval. cbn [p_intervals].
    pose proof Hv as Hr%interval_var_range. cbn. rewrite list_fmap_insert, zsum_insert.
    + assert (nth (Z.to_nat (var - SAMPLE_BITS)) (interval_width <$> p_intervals p) 0
        = interval_width (hw_param_interval p var)) as ->; [|lia].
      unfold hw_param_interval. rewrite !nth_lookup, list_lookup_fmap.
      destruct (lookup_lt_is_Some_2 (p_intervals p) (Z.to_nat (var - SAMPLE_BITS))) as [j ->];
        [unfold SAMPLE_BITS; lia|done].
    + rewrite length_fmap. unfold SAMPLE_BITS. lia.
Qed.

Lemma set_mask_step g p var m c :
  admits p g -> var ∈ mask_vars -> 0 <= c -> mask_ok m ->
  drop MASK_SIZE m = drop MASK_SIZE (hw_param_mask p var) ->
  mbit m (c_mask g var) = true -> 0 <= c_mask g var < 256 ->
  (forall var', var' ∈ mask_vars -> 0 <= c_mask g var' < 256) ->
  (forall k, 0 <= k < 256 -> mbit m k = true -> mbit (hw_param_mask p var) k = true) ->
  (var = FORMAT -> mask_count m <= mask_count (hw_param_mask p var) - c) ->
  good_step g p (if var =? FORMAT then c else 0) (set_mask var m p).
Proof.
  intros Hct Hv Hc Hm Hd Hb Hr Hrs Hsub Hw. pose proof Hct as [H1 H2 H3 H4 H5].
  pose proof (mask_var_range var Hv) as Hvr.
  assert (length (take (MASK_SIZE * Z.to_nat var) (p_masks p)) = MASK_SIZE * Z.to_nat var)%nat as Ht
    by (rewrite length_take; unfold MASK_SIZE; lia).
  assert (length m = length (hw_param_mask p var)) as Hlm.
  { pose proof (f_equal length Hd) as E. rewrite !length_drop in E.
    destruct Hm as [Hm _], (contains_mask_ok p g var Hct Hv) as [Hm' _]. lia. }
  assert (length (p_masks (set_mask var m p)) = 64%nat) as Hlen.
  { change (p_masks (set_mask var m p)) with (take (MASK_SIZE * Z.to_nat var) (p_masks p) ++ m).
    rewrite length_app, Ht, Hlm. unfold hw_param_mask. rewrite length_drop. unfold MASK_SIZE. lia. }
  split_and!; try done; [case_match; lia| | |].
  - split; try done.
    + change (p_masks (set_mask var m p)) with (take (MASK_SIZE * Z.to_nat var) (p_masks p) ++ m).
      apply Forall_app. split; [by apply Forall_take|apply Hm].
    + intros var' Hv'. rewrite get_set_mask by auto. case_decide as E; [by subst|by apply H3].
  - split; [|done]. intros var' k Hv' Hk. rewrite get_set_mask by done.
    case_decide as E; [subst; by apply Hsub|done].
  - unfold space. change (p_intervals (set_mask var m p)) with (p_intervals p).
    assert (mask_count (hw_param_mask (set_mask var m p) FORMAT)
      <= mask_count (hw_param_mask p FORMAT) - if var =? FORMAT then c else 0); [|lia].
    assert (FORMAT ∈ mask_vars) as Hf by set_solver. destruct (Z.eqb_spec var FORMAT) as [->|Hne].
    + transitivity (mask_count m); [|auto]. apply mask_count_le. intros k Hk.
      rewrite get_set_mask by done. by rewrite decide_True.
    + rewrite Z.sub_0_r. apply mask_count_le. intros k Hk. rewrite get_set_mask by done.
      by rewrite decide_False.
Qed.

(** Refining with an interval that has the value. *)
Lemma refine_has i v q r i' : snd_interval_refine i v = (r, i') -> has i q -> has v q ->
  0 <= r /\ has i' q /\ (forall q, q ∈ i' -> q ∈ i) /\ interval_width i' <= interval_width i - r.
Proof.
  intros E [Hi Hq] [Hv Hq']. pose proof Hq' as (He & _).
  destruct (refine_facts _ _ _ _ E Hi Hv He) as (R1 & R2 & R3 & R4 & R5).
  assert (q ∈ i') as Hq'' by (by apply R2).
  assert (0 <= r) as Hr by (apply Z.nlt_ge; intros Hlt; by apply (proj1 R3 Hlt q)).
  split_and!; [done|done| |by apply R5]. intros q0 H. by apply (proj1 (R2 q0)) in H as [? _].
Qed.

Lemma rule_interval_step g p r t :
  admits p g -> ru_var r ∈ interval_vars -> has t (c_val g (ru_var r)) ->
  let '(c, p') := rule_interval r t p in good_step g p c p'.
Proof.
  intros Hct Hv Ht. unfold rule_interval.
  destruct (snd_interval_refine (hw_param_interval p (ru_var r)) t) as [c i] eqn:E.
  destruct (refine_has _ _ _ _ _ E (ct_intervals p g Hct _ Hv) Ht) as (H1 & H2 & H3 & H4).
  by apply set_interval_step.
Qed.

(** ** The rules *)

(** What a rule relies on. *)
Definition rule_meaning (g : configuration) (r : hw_rule) : Prop :=
  let v := c_val g (ru_var r) in
  let a := c_val g (dep r 0) in
  let b := c_val g (dep r 1) in
  let typed := ru_var r ∈ interval_vars /\ dep r 0 ∈ interval_vars /\ dep r 1 ∈ interval_vars /\
    in_type v /\ (0 < a)%Q /\ (0 < b)%Q in
  match ru_func r with
  | Rule_mul => typed /\ (v == a * b)%Q
  | Rule_div => typed /\ (v * b == a)%Q
  | Rule_muldivk => typed /\ 0 < ru_private r /\ (v * inject_Z (ru_private r) == a * b)%Q
  | Rule_mulkdiv => typed /\ 0 < ru_private r /\ (v * b == a * inject_Z (ru_private r))%Q
  | Rule_format => ru_var r = FORMAT /\ dep r 0 = SAMPLE_BITS
  | Rule_sample_bits => ru_var r = SAMPLE_BITS /\ dep r 0 = FORMAT
  end.

Lemma rules_meaning g : admissible g -> Forall (rule_meaning g) refine_rules.
Proof.
  intros [_ _ Ht _ _ E1 E2 E3 E4 E5 E6].
  assert (forall var, 8 <= var <= 18 -> var ∈ interval_vars /\ in_type (c_val g var)) as Hty.
  { intros var Hvar. assert (var ∈ interval_vars) as Hv by (apply interval_var_range; lia).
    split; [done|]. apply Ht; [done|unfold TICK_TIME; lia]. }
  assert (forall v a b, 8 <= v <= 18 -> 8 <= a <= 18 -> 8 <= b <= 18 ->
    v ∈ interval_vars /\ a ∈ interval_vars /\ b ∈ interval_vars /\
    in_type (c_val g v) /\ (0 < c_val g a)%Q /\ (0 < c_val g b)%Q) as Htyped.
  { intros v a b Hv Ha Hb. destruct (Hty v Hv), (Hty a Ha) as [? [? _]], (Hty b Hb) as [? [? _]]. done. }
  repeat (apply Forall_cons; split); [..|by apply Forall_nil];
    unfold rule_meaning; cbn [ru_func ru_var ru_private dep ru_deps nth];
    first [ by split
          | split; [apply Htyped; vm_compute; split; discriminate|]; try split; [done..|];
            nra ].
Qed.

(** A value of the interval passes the test. *)
Lemma interval_test_has i n : has i (inject_Z n) -> snd_interval_test i n = true.
Proof.
  intros (_ & _ & Ha & Hb & _). unfold snd_interval_test. apply negb_true_iff.
  unfold above, below in *. destruct (i_openmin i), (i_openmax i);
    rewrite <- ?Zlt_Qlt, <- ?Zle_Qle in *; lia.
Qed.

#[local] Arguments snd_mask_empty : simpl never.

(** The loop over the formats keeps a format whose width is possible. *)
Lemma format_loop_keeps f i : 0 <= f < 256 ->
  snd_interval_test i (snd_pcm_format_physical_width f) = true ->
  forall n k m changed, 0 <= k -> k + Z.of_nat n <= 256 -> mask_ok m -> mbit m f = true ->
  exists c m', format_loop n k i m changed = Some (c, m') /\ 0 <= c <= 1 /\ mask_ok m' /\
    mbit m' f = true /\ drop MASK_SIZE m' = drop MASK_SIZE m /\
    (forall j, 0 <= j < 256 -> mbit m' j = true -> mbit m j = true) /\
    mask_count m' <= mask_count m - (if changed then 0 else c) /\ (changed = true -> c = 1).
Proof.
  intros Hf Ht. induction n as [|n IH]; intros k m changed Hk Hn Hm Hb; cbn [format_loop].
  { eexists _, m. split; [done|]. destruct changed; split_and!; try done; lia. }
  rewrite mask_test_spec by (done || lia). cbn.
  destruct (negb (mbit m k) || (snd_pcm_format_physical_width k <? 0)
    || snd_interval_test i (snd_pcm_format_physical_width k)) eqn:E; [apply IH; done || lia|].
  destruct (mask_reset_spec m k Hm ltac:(lia)) as (m1 & -> & Hm1 & Hd1 & Hbits). cbn.
  apply orb_false_iff in E as [[E1%negb_false_iff _]%orb_false_iff E3].
  assert (f <> k) as Hfk by (intros ->; congruence).
  assert (mbit m1 f = true) as Hb1 by (rewrite Hbits by done; by rewrite Hb, (proj2 (Z.eqb_neq f k))).
  assert (snd_mask_empty m1 = false) as ->.
  { apply not_true_is_false. intros He. rewrite (mask_empty_spec m1 Hm1) in He. rewrite He in Hb1; done. }
  assert (forall j, 0 <= j < 256 -> mbit m1 j = true -> mbit m j = true) as Hsub.
  { intros j Hj. rewrite Hbits by done. by intros [? _]%andb_true_iff. }
  assert (mask_count m1 < mask_count m) as Hlt.
  { apply (mask_count_lt _ _ k); try done; [lia|]. rewrite Hbits by lia. by rewrite Z.eqb_refl, andb_false_r. }
  destruct (IH (k + 1) m1 true) as (c & m' & -> & Hc & Hm' & Hb' & Hd' & Hs' & Hcount & Hc1); try done; try lia.
  rewrite (Hc1 eq_refl) in *. eexists _, m'. split; [done|]. split_and!; [lia|lia|done|done|by etrans; [exact Hd'|exact Hd1]| | |done].
  - intros j Hj H. by apply Hsub, Hs'.
  - destruct changed; lia.
Qed.

Lemma widths_loop_bounds f m : mask_ok m -> mbit m f = true -> 0 <= snd_pcm_format_physical_width f ->
  forall n k lo hi, 0 <= k -> k + Z.of_nat n <= 256 -> 0 <= lo <= UINT_MAX -> 0 <= hi <= UINT_MAX ->
  exists lo' hi', widths_loop n k m lo hi = Some (lo', hi') /\ 0 <= lo' <= lo /\
    hi <= hi' <= UINT_MAX /\
    (k <= f < k + Z.of_nat n -> lo' <= snd_pcm_format_physical_width f <= hi').
Proof.
  intros Hm Hb Hw. assert (forall k, snd_pcm_format_physical_width k <= 64) as Hmax.
  { intros k. unfold snd_pcm_format_physical_width, E_INVAL. repeat case_match; lia. }
  induction n as [|n IH]; intros k lo hi Hk Hn Hlo Hhi; cbn [widths_loop].
  { exists lo, hi. split_and!; try done; lia. }
  rewrite mask_test_spec by (done || lia). cbn. specialize (Hmax k) as Hk64.
  destruct (negb (mbit m k) || (snd_pcm_format_physical_width k <? 0)) eqn:E.
  - destruct (IH (k + 1) lo hi) as (lo' & hi' & -> & H1 & H2 & H3); [lia..|].
    exists lo', hi'. split_and!; try done; try lia; intros Hf;
      (destruct (decide (f = k)) as [->|]; [rewrite Hb in E; cbn in E; lia|apply H3; lia]).
  - set (w := snd_pcm_format_physical_width k) in *. apply orb_false_iff in E as [_ E%Z.ltb_ge].
    destruct (IH (k + 1) (if w <? lo then w else lo) (if hi <? w then w else hi))
      as (lo' & hi' & -> & H1 & H2 & H3); [lia..|case_match; lia|case_match; unfold UINT_MAX in *; lia|].
    exists lo', hi'. split_and!; try done; try (repeat case_match; lia).
    all: intros Hf; destruct (decide (f = k)) as [->|]; [fold w; repeat case_match; lia|apply H3; lia].
Qed.

Section Rules.
Context (t0 : snd_interval) (g : configuration) (Hg : admissible g).

Lemma format_value_has p : admits p g ->
  has (hw_param_interval p SAMPLE_BITS) (inject_Z (snd_pcm_format_physical_width (c_format g))).
Proof using Hg.
  intros Hct. destruct (ct_intervals p g Hct SAMPLE_BITS ltac:(set_solver)) as [H1 H2].
  split; [done|]. by rewrite <- (ad_width g Hg).
Qed.

Lemma mask_ranges var : var ∈ mask_vars -> 0 <= c_mask g var < 256.
Proof using Hg. intros H. apply (ad_masks g Hg var H). Qed.

Lemma rule_format_step r p : admits p g -> ru_var r = FORMAT -> dep r 0 = SAMPLE_BITS ->
  exists c p', snd_pcm_hw_rule_format r p = Some (c, p') /\ good_step g p c p'.
Proof using Hg.
  intros Hct Hv Hd. unfold snd_pcm_hw_rule_format. rewrite Hv, Hd.
  assert (FORMAT ∈ mask_vars) as Hin by set_solver.
  destruct (ad_format g Hg) as [[Hf0 Hf1] _]. unfold SND_PCM_FORMAT_LAST in Hf1.
  pose proof (ct_masks p g Hct FORMAT Hin) as Hbit. change (c_mask g FORMAT) with (c_format g) in Hbit.
  destruct (format_loop_keeps (c_format g) (hw_param_interval p SAMPLE_BITS) ltac:(lia)
    (interval_test_has _ _ (format_value_has p Hct)) 50 0 (hw_param_mask p FORMAT) false)
    as (c & m & E & Hc & Hm & Hb & Hdr & Hs & Hcount & _); [lia|lia|by eapply contains_mask_ok|done|].
  change (Z.to_nat (SND_PCM_FORMAT_LAST + 1)) with 50%nat. rewrite E. cbn. do 2 eexists. split; [done|].
  apply (set_mask_step g p FORMAT m c); try done; try lia; by apply mask_ranges.
Qed.

Lemma rule_sample_bits_step r p : admits p g -> ru_var r = SAMPLE_BITS -> dep r 0 = FORMAT ->
  exists c p', snd_pcm_hw_rule_sample_bits r p = Some (c, p') /\ good_step g p c p'.
Proof using Hg.
  intros Hct Hv Hd. unfold snd_pcm_hw_rule_sample_bits. rewrite Hv, Hd.
  assert (FORMAT ∈ mask_vars) as Hin by set_solver.
  assert (SAMPLE_BITS ∈ interval_vars) as Hsb by set_solver.
  destruct (ad_format g Hg) as [[Hf0 Hf1] Hw]. unfold SND_PCM_FORMAT_LAST in Hf1.
  pose proof (ct_masks p g Hct FORMAT Hin) as Hbit. change (c_mask g FORMAT) with (c_format g) in Hbit.
  destruct (widths_loop_bounds (c_format g) (hw_param_mask p FORMAT)
    (contains_mask_ok p g FORMAT Hct Hin) Hbit Hw 50 0 UINT_MAX 0)
    as (lo & hi & E & H1 & H2 & H3); [lia..|unfold UINT_MAX; lia|unfold UINT_MAX; lia|].
  specialize (H3 ltac:(lia)). change (Z.to_nat (SND_PCM_FORMAT_LAST + 1)) with 50%nat.
  rewrite E. cbn [mbind option_bind].
  pose proof (ct_intervals p g Hct SAMPLE_BITS Hsb) as [Hok Hq]. pose proof Hq as (He & _).
  set (q := c_val g SAMPLE_BITS) in *. pose proof (ad_width g Hg) as Eq. fold q in Eq.
  destruct (snd_interval_refine_min (hw_param_interval p SAMPLE_BITS) lo false) as [c1 i1] eqn:E1.
  destruct (refine_min_facts _ _ _ _ _ E1 Hok He ltac:(lia) ltac:(done)) as (A1 & A2 & A3 & A4).
  assert (q ∈ i1) as Hq1.
  { apply A2. split; [done|]. unfold above. rewrite Eq, <- Zle_Qle. lia. }
  assert (0 <= c1) as Hc1 by (apply Z.nlt_ge; intros Hlt; by apply (A3 Hlt q)).
  rewrite (proj2 (Z.ltb_ge c1 0)) by done. destruct (A4 Hc1) as [He1 Hw1].
  destruct (snd_interval_refine_max i1 hi false) as [c2 i2] eqn:E2.
  destruct (refine_max_facts _ _ _ _ _ E2 A1 He1 ltac:(lia) ltac:(done)) as (B1 & B2 & B3 & B4).
  assert (q ∈ i2) as Hq2.
  { apply B2. split; [done|]. unfold below. rewrite Eq, <- Zle_Qle. lia. }
  assert (0 <= c2) as Hc2 by (apply Z.nlt_ge; intros Hlt; by apply (B3 Hlt q)).
  rewrite (proj2 (Z.ltb_ge c2 0)) by done. destruct (B4 Hc2) as [He2 Hw2].
  do 2 eexists. split; [done|].
  replace (set_interval SAMPLE_BITS i2 (set_interval SAMPLE_BITS i1 p)) with (set_interval SAMPLE_BITS i2 p)
    by (unfold set_interval; cbn; by rewrite list_insert_insert_eq).
  apply set_interval_step; try done; [case_match; lia| |].
  - intros q' Hq'. by apply (B2 q') in Hq' as [[? _]%A2 _].
  - destruct (Z.eqb_spec c1 0), (Z.eqb_spec c2 0); cbn; lia.
Qed.

Lemma run_rule_step r p : rule_meaning g r -> admits p g ->
  exists c p', run_rule t0 r p = Some (c, p') /\ good_step g p c p'.
Proof using Hg.
  intros Hm Hct. unfold run_rule, rule_meaning in *. destruct (ru_func r).
  1-4: pose proof (ct_intervals p g Hct) as Hi.
  - destruct Hm as ((Hv & Ha & Hb & Hz & Ha0 & Hb0) & E).
    pose proof (rule_interval_step g p r _ Hct Hv (interval_mul_sound _ _ t0 _ _ _
      (Hi _ Ha) (Hi _ Hb) Ha0 Hb0 Hz E)) as Hstep. unfold snd_pcm_hw_rule_mul.
    destruct (rule_interval _ _ _) as [c p']. eauto.
  - destruct Hm as ((Hv & Ha & Hb & Hz & Ha0 & Hb0) & E).
    pose proof (rule_interval_step g p r _ Hct Hv (interval_div_sound _ _ t0 _ _ _
      (Hi _ Ha) (Hi _ Hb) Ha0 Hb0 Hz E)) as Hstep. unfold snd_pcm_hw_rule_div.
    destruct (rule_interval _ _ _) as [c p']. eauto.
  - destruct Hm as ((Hv & Ha & Hb & Hz & Ha0 & Hb0) & Hk & E).
    destruct (interval_muldivk_sound _ _ t0 _ _ _ (Hi _ Ha) (Hi _ Hb) Ha0 Hb0 Hz _ Hk E) as (t & Et & Ht).
    unfold snd_pcm_hw_rule_muldivk. rewrite Et. cbn.
    pose proof (rule_interval_step g p r t Hct Hv Ht) as Hstep.
    destruct (rule_interval _ _ _) as [c p']. eauto.
  - destruct Hm as ((Hv & Ha & Hb & Hz & Ha0 & Hb0) & Hk & E).
    destruct (interval_mulkdiv_sound _ _ t0 _ _ _ (Hi _ Ha) (Hi _ Hb) Ha0 Hb0 Hz _ Hk E) as (t & Et & Ht).
    unfold snd_pcm_hw_rule_mulkdiv. rewrite Et. cbn.
    pose proof (rule_interval_step g p r t Hct Hv Ht) as Hstep.
    destruct (rule_interval _ _ _) as [c p']. eauto.
  - destruct Hm. by apply rule_format_step.
  - destruct Hm. by apply rule_sample_bits_step.
Qed.
End Rules.

(** ** The loop *)

Lemma good_step_refl g p : admits p g -> good_step g p 0 p.
Proof. intros H. split_and!; try done; lia. Qed.

Lemma good_step_trans g p c1 p1 c2 p2 :
  good_step g p c1 p1 -> good_step g p1 c2 p2 -> good_step g p (c1 + c2) p2.
Proof.
  intros (A1 & A2 & A3 & A4 & A5) (B1 & B2 & B3 & B4 & B5).
  split_and!; [lia|done|by transitivity p1|lia|congruence].
Qed.

Lemma good_step_less g p c c' p' : good_step g p c p' -> 0 <= c' <= c -> good_step g p c' p'.
Proof. intros (A1 & A2 & A3 & A4 & A5) Hc. split_and!; try done; lia. Qed.

(** [cmask] does not matter. *)
Lemma mark_changed_step g p c p' var : good_step g p c p' -> good_step g p c (mark_changed var p').
Proof. by intros (A1 & [] & [] & A4 & A5). Qed.

Lemma mark_if_step g p c p' var (b : bool) :
  good_step g p c p' -> good_step g p c (if b then mark_changed var p' else p').
Proof. destruct b; [apply mark_changed_step|done]. Qed.

Section Loop.
Context (t0 : snd_interval) (g : configuration) (Hg : admissible g).

Lemma rule_pass_step l : Forall (rule_meaning g) l -> forall k again s, admits (s_params s) g ->
  exists again' s', rule_pass t0 l k again s = Some (0, again', s') /\
    good_step g (s_params s) (if again' && negb again then 1 else 0) (s_params s').
Proof using Hg.
  induction 1 as [|r l Hr _ IH]; intros k again s Hct; cbn [rule_pass].
  { exists again, s. split; [done|]. rewrite andb_negb_r. by apply good_step_refl. }
  destruct (negb _); [by apply IH|].
  destruct (run_rule_step t0 g Hg r (s_params s) Hr Hct) as (c & p' & -> & Hstep). cbn [mbind option_bind].
  pose proof Hstep as (Hc & Hct' & _). destruct (Z.eqb_spec c 0) as [->|Hne]; cbn [negb].
  - cbn [Z.ltb Z.compare]. destruct (IH (S k) again (Soft p' (<[k:=s_stamp s]> (s_rstamps s)) (s_vstamps s)
      (u32 (s_stamp s + 1))) Hct') as (again' & s' & E & Hs). exists again', s'.
    split; [exact E|]. apply (good_step_trans _ _ _ _ _ _ Hstep Hs).
  - rewrite (proj2 (Z.ltb_ge c 0)) by done.
    pose proof (mark_changed_step _ _ _ _ (ru_var r) Hstep) as Hmark. pose proof Hmark as (_ & Hct'' & _).
    destruct (IH (S k) true (Soft (mark_changed (ru_var r) p') (<[k:=s_stamp s]> (s_rstamps s))
      (<[Z.to_nat (ru_var r):=s_stamp s]> (s_vstamps s)) (u32 (s_stamp s + 1))) Hct'')
      as (again' & s' & E & Hs). exists again', s'. split; [exact E|].
    eapply good_step_less; [apply (good_step_trans _ _ _ _ _ _ Hmark Hs)|]. repeat case_match; lia.
Qed.

(** What the end of the function changes is not part of the space. *)
Lemma single_of i q : has i q -> exists b, snd_interval_single i = Some b /\
  (b = true -> exists v, snd_interval_value i = Some v).
Proof.
  intros (_ & He & _). unfold snd_interval_value, snd_interval_single. rewrite He.
  eexists. split; [done|]. intros ->. by eexists.
Qed.

Lemma soft_finish_done p : admits p g ->
  exists p', soft_finish p = Done 0 p' /\ admits p' g /\ shrinks p' p /\ p_rmask p' = 0.
Proof using Hg.
  intros Hct. unfold soft_finish.
  destruct (single_of _ _ (ct_intervals p g Hct SAMPLE_BITS ltac:(set_solver))) as (b1 & E1 & V1).
  destruct (single_of _ _ (ct_intervals p g Hct RATE ltac:(set_solver))) as (b2 & E2 & V2).
  assert (exists p1, (if p_msbits p =? 0 then
      single ← snd_interval_single (hw_param_interval p SAMPLE_BITS);
      if single : bool then
        v ← snd_interval_value (hw_param_interval p SAMPLE_BITS); Some (p <| p_msbits := u32 v |>)
      else Some p else Some p) = Some p1 /\ p_masks p1 = p_masks p /\ p_intervals p1 = p_intervals p)
    as (p1 & -> & M1 & I1).
  { destruct (p_msbits p =? 0); [|by eexists]. rewrite E1. cbn. destruct b1; [|by eexists].
    destruct (V1 eq_refl) as [v ->]. cbn. by eexists. }
  cbn [mbind option_bind].
  assert (hw_param_interval p1 RATE = hw_param_interval p RATE) as HR
    by (unfold hw_param_interval; by rewrite I1).
  assert (exists p2, (if p_rate_den p1 =? 0 then
      single ← snd_interval_single (hw_param_interval p1 RATE);
      if single : bool then
        v ← snd_interval_value (hw_param_interval p1 RATE);
        Some (p1 <| p_rate_num := u32 v |> <| p_rate_den := 1 |>)
      else Some p1 else Some p1) = Some p2 /\ p_masks p2 = p_masks p /\ p_intervals p2 = p_intervals p)
    as (p2 & -> & M2 & I2).
  { rewrite HR. destruct (p_rate_den p1 =? 0); [|by eexists]. rewrite E2. cbn. destruct b2; [|by eexists].
    destruct (V2 eq_refl) as [v ->]. cbn. by eexists. }
  cbn [mbind option_bind]. eexists. split; [done|].
  assert (forall var, hw_param_mask (p2 <| p_rmask := 0 |>) var = hw_param_mask p var) as HM
    by (intros var; unfold hw_param_mask; change (p_masks (p2 <| p_rmask := 0 |>)) with (p_masks p2); by rewrite M2).
  assert (forall var, hw_param_interval (p2 <| p_rmask := 0 |>) var = hw_param_interval p var) as HI
    by (intros var; unfold hw_param_interval; change (p_intervals (p2 <| p_rmask := 0 |>)) with (p_intervals p2); by rewrite I2).
  destruct Hct as [C1 C2 C3 C4 C5]. split_and!; [split|split|done].
  - cbn. by rewrite M2.
  - cbn. by rewrite M2.
  - intros var. rewrite HM. apply C3.
  - cbn. by rewrite I2.
  - intros var. rewrite HI. apply C5.
  - intros var k. by rewrite HM.
  - intros var q. by rewrite HI.
Qed.

Lemma soft_loop_done fuel : forall s, admits (s_params s) g -> space (s_params s) < Z.of_nat fuel ->
  exists p', soft_loop t0 fuel s = Done 0 p' /\ admits p' g /\ shrinks p' (s_params s) /\ p_rmask p' = 0.
Proof using Hg.
  induction fuel as [|fuel IH]; intros s Hct Hf; [pose proof (space_nonneg _ _ Hct); lia|].
  cbn [soft_loop].
  destruct (rule_pass_step refine_rules (rules_meaning g Hg) 0 false s Hct) as (again & s' & -> & Hstep).
  destruct Hstep as (_ & Hct' & Hsh & Hsp & _). destruct again; cbn [andb negb Z.ltb Z.compare] in *.
  - destruct (IH s' Hct' ltac:(lia)) as (p' & -> & H1 & H2 & H3). exists p'. split_and!; try done.
    by transitivity (s_params s').
  - destruct (soft_finish_done _ Hct') as (p' & -> & H1 & H2 & H3). exists p'. split_and!; try done.
    by transitivity (s_params s').
Qed.

(** Refining a mask with one that has the value too *)
Lemma refine_mask_step p v var c m : admits p g -> var ∈ mask_vars ->
  snd_mask_refine (hw_param_mask p var) v = (c, m) -> mask_ok v -> mbit v (c_mask g var) = true ->
  0 <= c /\ good_step g p 0 (set_mask var m p).
Proof using Hg.
  intros Hct Hv E Hok Hb. destruct (ad_masks g Hg var Hv) as [Hr _].
  pose proof (ct_masks p g Hct var Hv) as Hb'.
  assert (snd_mask_empty (hw_param_mask p var) = false) as He.
  { apply not_true_is_false. intros H. rewrite (mask_empty_spec _ (contains_mask_ok p g var Hct Hv)) in H.
    rewrite H in Hb'; done. }
  destruct (mask_refine_facts _ _ _ _ E (contains_mask_ok p g var Hct Hv) Hok He)
    as (M1 & M2 & M3 & M4 & M5 & M6).
  assert (0 <= c) as Hc.
  { apply Z.nlt_ge. intros Hlt. specialize (M3 _ Hr). rewrite Hb, Hb', (proj1 M4 Hlt _ Hr) in M3. done. }
  split; [done|]. apply (good_step_less g p (if var =? FORMAT then c else 0)); [|case_match; lia].
  apply set_mask_step; try done.
  - by rewrite M3, Hb', Hb.
  - intros v' Hv'. apply (ad_masks g Hg v' Hv').
  - intros k Hk. rewrite M3 by done. by intros [? _]%andb_true_iff.
  - intros _. by apply M6.
Qed.

Lemma base_masks_step l : (forall var, var ∈ l -> var ∈ mask_vars) -> forall p, admits p g ->
  exists p', base_masks l p = (0, p') /\ good_step g p 0 p'.
Proof using Hg.
  induction l as [|var l IH]; intros Hl p Hct; cbn [base_masks]; [eexists; split; [done|by apply good_step_refl]|].
  assert (var ∈ mask_vars) as Hv by (apply Hl; left). assert (forall v, v ∈ l -> v ∈ mask_vars) as Hl' by set_solver.
  destruct (negb (var_requested p var)); [by apply IH|].
  destruct (snd_mask_refine (hw_param_mask p var) (refine_masks var)) as [c m] eqn:E.
  assert (mask_ok (refine_masks var)) as Hok.
  { unfold refine_masks. repeat case_match; (split; [vm_compute; lia|repeat constructor; done]). }
  destruct (refine_mask_step p _ var c m Hct Hv E Hok) as [Hc Hm]; [apply (ad_masks g Hg var Hv)|].
  assert (good_step g p 0 (if negb (c =? 0) then mark_changed var (set_mask var m p) else set_mask var m p))
    as Hstep by by apply mark_if_step.
  rewrite (proj2 (Z.ltb_ge c 0)) by done. pose proof Hstep as (_ & Hct' & _).
  destruct (IH Hl' _ Hct') as (p' & E' & Hs). exists p'. split; [exact E'|].
  apply (good_step_trans g p 0 _ 0 _ Hstep Hs).
Qed.

Lemma refine_intervals_has var : var ∈ interval_vars -> has (refine_intervals var) (c_val g var).
Proof using Hg.
  intros Hv. split; [|by apply (ad_intervals g Hg)]. unfold refine_intervals.
  repeat case_match; (split; cbn; [unfold UINT_MAX; lia..|done]).
Qed.

Lemma base_intervals_step l : (forall var, var ∈ l -> var ∈ interval_vars) -> forall p, admits p g ->
  exists p', base_intervals l p = (0, p') /\ good_step g p 0 p'.
Proof using Hg.
  induction l as [|var l IH]; intros Hl p Hct; cbn [base_intervals]; [eexists; split; [done|by apply good_step_refl]|].
  assert (var ∈ interval_vars) as Hv by (apply Hl; left).
  assert (forall v, v ∈ l -> v ∈ interval_vars) as Hl' by (intros v Hv'; apply Hl; by right).
  destruct (negb (var_requested p var)); [by apply IH|].
  destruct (snd_interval_refine (hw_param_interval p var) (refine_intervals var)) as [c i] eqn:E.
  destruct (refine_has _ _ _ _ _ E (ct_intervals p g Hct _ Hv) (refine_intervals_has var Hv))
    as (H1 & H2 & H3 & H4).
  assert (good_step g p 0 (if negb (c =? 0) then mark_changed var (set_interval var i p)
    else set_interval var i p)) as Hstep.
  { apply mark_if_step. apply (good_step_less g p c); [by apply set_interval_step|lia]. }
  rewrite (proj2 (Z.ltb_ge c 0)) by done. pose proof Hstep as (_ & Hct' & _).
  destruct (IH Hl' _ Hct') as (p' & E' & Hs). exists p'. split; [exact E'|].
  apply (good_step_trans g p 0 _ 0 _ Hstep Hs).
Qed.
End Loop.

Lemma refine_soft_end t0 g p fuel : admissible g -> admits p g -> space p < Z.of_nat fuel ->
  exists p', snd_pcm_hw_refine_soft t0 fuel p = Done 0 p' /\ admits p' g /\ shrinks p' p /\
    p_rmask p' = 0.
Proof.
  intros Hg Hct Hf. unfold snd_pcm_hw_refine_soft.
  destruct (base_masks_step g Hg mask_vars ltac:(done) p Hct) as (p1 & -> & _ & Hct1 & Hs1 & Hsp1 & _).
  cbn [Z.ltb Z.compare].
  destruct (base_intervals_step g Hg interval_vars ltac:(done) p1 Hct1)
    as (p2 & -> & _ & Hct2 & Hs2 & Hsp2 & _). cbn [Z.ltb Z.compare].
  destruct (soft_loop_done t0 g Hg fuel (soft_start p2) Hct2 ltac:(cbn; lia)) as (p' & -> & H1 & H2 & H3).
  exists p'. split_and!; try done. etransitivity; [exact H2|]. by transitivity p1.
Qed.

(** C35.  Refining keeps every configuration and ends: when the space has a
    configuration that satisfies the relations between the parameters, the loop
    over the rules ends, within as many turns as there are values to remove, no
    assertion fails, the function succeeds, and the smaller space that it leaves
    still has the configuration. *)
Theorem refine_soft_keeps t0 g p fuel :
  admissible g -> admits p g -> space p < Z.of_nat fuel ->
  exists p', snd_pcm_hw_refine_soft t0 fuel p = Done 0 p' /\
    admits p' g /\ shrinks p' p /\ p_rmask p' = 0.
Proof. apply refine_soft_end. Qed.

(** A period time of 0 makes an assertion fail: the rate is a size divided by it. *)
Lemma refine_soft_aborts :
  snd_pcm_hw_refine_soft snd_interval_any 10
    (set_interval PERIOD_TIME (snd_interval_set_value 0) snd_pcm_hw_params_any) = Aborted.
Proof. vm_compute. done. Qed.

(** ** Witness *)

(** 16-bit stereo at 44.1 kHz, four periods of 1024 frames. *)
Definition cd_config : configuration := Config 3 2 0 (fun var =>
  if var =? SAMPLE_BITS then 16 else if var =? FRAME_BITS then 32 else if var =? CHANNELS then 2
  else if var =? RATE then 44100 else if var =? PERIOD_TIME then (10240000 # 441)
  else if var =? PERIOD_SIZE then 1024 else if var =? PERIOD_BYTES then 4096
  else if var =? PERIODS then 4 else if var =? BUFFER_TIME then (40960000 # 441)
  else if var =? BUFFER_SIZE then 4096 else if var =? BUFFER_BYTES then 16384 else 0)%Q.

Lemma in_list_forall (P : Z -> Prop) l : Forall P l -> forall x, x ∈ l -> P x.
Proof. by rewrite Forall_forall. Qed.

Lemma cd_admissible : admissible cd_config.
Proof.
  split; try (vm_compute; done).
  - apply (in_list_forall (fun var => 0 <= c_mask cd_config var < 256 /\
      mbit (refine_masks var) (c_mask cd_config var) = true)).
    repeat constructor; vm_compute; done.
  - apply (in_list_forall (fun var => c_val cd_config var ∈ refine_intervals var)).
    repeat (apply Forall_cons; split); try apply Forall_nil_2;
      (split_and!; [done|vm_compute; done|vm_compute; done|]);
      intros H; vm_compute in H; try discriminate; by eexists.
  - assert (Forall (fun var => var <> TICK_TIME -> in_type (c_val cd_config var)) interval_vars) as H.
    { repeat (apply Forall_cons; split); try apply Forall_nil_2; intros Hne;
        try (exfalso; apply Hne; reflexivity); split; vm_compute; reflexivity. }
    intros var Hv. by apply (in_list_forall _ _ H var Hv).
Qed.

Lemma any_contains : admits snd_pcm_hw_params_any cd_config.
Proof.
  split.
  - reflexivity.
  - repeat (apply Forall_cons; split); try apply Forall_nil_2; split; done.
  - apply (in_list_forall (fun var => mbit (hw_param_mask snd_pcm_hw_params_any var)
      (c_mask cd_config var) = true)). repeat constructor.
  - reflexivity.
  - apply (in_list_forall (fun var => has (hw_param_interval snd_pcm_hw_params_any var)
      (c_val cd_config var))).
    repeat (apply Forall_cons; split); try apply Forall_nil_2; apply has_intro;
      try (split_and!; done); vm_compute; done.
Qed.

Lemma refine_soft_keeps_witness :
  exists p', snd_pcm_hw_refine_soft snd_interval_any (Z.to_nat 200000000000) snd_pcm_hw_params_any
      = Done 0 p' /\
    admits p' cd_config /\ shrinks p' snd_pcm_hw_params_any /\ p_rmask p' = 0.
Proof.
  apply (refine_soft_keeps snd_interval_any cd_config snd_pcm_hw_params_any (Z.to_nat 200000000000)
    cd_admissible any_contains). rewrite Z2Nat.id by lia. vm_compute. reflexivity.
Defined.
