(* ===== verification/PcmSet.v ===== *)
(** * alsa-lib: choosing parameters
    ([src/alsa-lib/src/pcm/pcm_params.c])

    The functions with which a client narrows the configuration space.  The
    refinement that the device itself does, [pcm->ops->hw_refine], is a parameter;
    a failing assertion is [None]. *)

From S2P Require Import Prelude.
From S2P Require Import CString.
From S2P Require Import PcmInterval.
From S2P Require Import PcmMask.
From S2P Require Import PcmParams.

(** ** The whole space *)

Definition hw_param_any (var : Z) (p : hw_params) : option hw_params :=
  if hw_is_mask var then Some (mark_both var (set_mask var (snd_mask_any (hw_param_mask p var)) p))
  else if hw_is_interval var then Some (mark_both var (set_interval var snd_interval_any p))
  else None.

Fixpoint any_loop (l : list Z) (p : hw_params) : option hw_params :=
  match l with [] => Some p | k :: l => p ← hw_param_any k p; any_loop l p end.

Definition hw_params_zero : hw_params :=
  HwParams 0 (replicate (8 * MASK_SIZE) 0) (replicate 12 (Interval 0 0 false false false false))
    0 0 0 0 0 0 0.

Definition hw_params_any : option hw_params :=
  p ← any_loop (mask_vars ++ interval_vars) hw_params_zero;
  Some (p <| p_rmask := 0xffffffff |> <| p_cmask := 0 |> <| p_info := 0xffffffff |>).

(** ** Reading *)

(** The code and what is written through the pointers: a value and a side. *)
Definition snd_pcm_hw_param_get (p : hw_params) (var : Z) : option (Z * option (Z * Z)) :=
  if hw_is_mask var then
    let m := hw_param_mask p var in
    if snd_mask_empty m then Some (- E_INVAL, None) else
    single ← snd_mask_single m;
    if negb single then Some (- E_INVAL, None) else
    v ← snd_mask_value m; Some (0, Some (v, 0))
  else if hw_is_interval var then
    let i := hw_param_interval p var in
    if i_empty i then Some (- E_INVAL, None) else
    single ← snd_interval_single i;
    if negb single then Some (- E_INVAL, None) else
    v ← snd_interval_value i; Some (0, Some (u32 v, Z.b2z (i_openmin i)))
  else None.

Definition snd_pcm_hw_param_get_min (p : hw_params) (var : Z) : option (Z * Z) :=
  if hw_is_mask var then v ← snd_mask_min (hw_param_mask p var); Some (v, 0)
  else if hw_is_interval var then
    v ← snd_interval_min (hw_param_interval p var);
    Some (u32 v, Z.b2z (i_openmin (hw_param_interval p var)))
  else None.

Definition snd_pcm_hw_param_get_max (p : hw_params) (var : Z) : option (Z * Z) :=
  if hw_is_mask var then v ← snd_mask_max (hw_param_mask p var); Some (v, 0)
  else if hw_is_interval var then
    v ← snd_interval_max (hw_param_interval p var);
    Some (u32 v, - Z.b2z (i_openmax (hw_param_interval p var)))
  else None.

Definition snd_pcm_hw_param_empty (p : hw_params) (var : Z) : option bool :=
  if hw_is_mask var then Some (snd_mask_empty (hw_param_mask p var))
  else if hw_is_interval var then Some (i_empty (hw_param_interval p var))
  else None.

Definition snd_pcm_hw_param_always_eq (p : hw_params) (var : Z) (p1 : hw_params) : option bool :=
  if hw_is_mask var then snd_mask_always_eq (hw_param_mask p var) (hw_param_mask p1 var)
  else if hw_is_interval var then
    snd_interval_always_eq (hw_param_interval p var) (hw_param_interval p1 var)
  else None.

Definition snd_pcm_hw_param_never_eq (p : hw_params) (var : Z) (p1 : hw_params) : option bool :=
  if hw_is_mask var then Some (snd_mask_never_eq (hw_param_mask p var) (hw_param_mask p1 var))
  else if hw_is_interval var then
    Some (snd_interval_never_eq (hw_param_interval p var) (hw_param_interval p1 var))
  else None.

(** ** Narrowing one parameter *)

(** A mask or an interval is replaced and, when the code is not 0, both sets of
    changed parameters get it. *)
Definition store_mask (var : Z) (r : Z * mask) (p : hw_params) : Z * hw_params :=
  let p' := set_mask var r.2 p in (r.1, if negb (r.1 =? 0) then mark_both var p' else p').
Definition store_interval (var : Z) (r : Z * snd_interval) (p : hw_params) : Z * hw_params :=
  let p' := set_interval var r.2 p in (r.1, if negb (r.1 =? 0) then mark_both var p' else p').

(** [set_first] and [set_last] mark only what a positive code has changed. *)
Definition store_mask_pos (var : Z) (r : Z * mask) (p : hw_params) : Z * hw_params :=
  let p' := set_mask var r.2 p in (r.1, if 0 <? r.1 then mark_both var p' else p').
Definition store_interval_pos (var : Z) (r : Z * snd_interval) (p : hw_params) : Z * hw_params :=
  let p' := set_interval var r.2 p in (r.1, if 0 <? r.1 then mark_both var p' else p').

Definition hw_param_set_interval (var : Z) (val : snd_interval) (p : hw_params)
    : option (Z * hw_params) :=
  if negb (hw_is_interval var) then None else
  Some (store_interval var (snd_interval_refine (hw_param_interval p var) val) p).

Definition hw_param_set_empty (var : Z) (p : hw_params) : option hw_params :=
  if hw_is_mask var then Some (mark_both var (set_mask var (snd_mask_none (hw_param_mask p var)) p))
  else if hw_is_interval var then
    Some (mark_both var (set_interval var (snd_interval_none (hw_param_interval p var)) p))
  else None.

Definition hw_param_set_integer (var : Z) (p : hw_params) : option (Z * hw_params) :=
  if negb (hw_is_interval var) then None else
  Some (store_interval var (snd_interval_setinteger (hw_param_interval p var)) p).

Definition hw_param_set_first (var : Z) (p : hw_params) : option (Z * hw_params) :=
  if hw_is_mask var then
    r ← snd_mask_refine_first (hw_param_mask p var); Some (store_mask_pos var r p)
  else if hw_is_interval var then
    r ← snd_interval_refine_first (hw_param_interval p var); Some (store_interval_pos var r p)
  else None.

Definition hw_param_set_last (var : Z) (p : hw_params) : option (Z * hw_params) :=
  if hw_is_mask var then
    r ← snd_mask_refine_last (hw_param_mask p var); Some (store_mask_pos var r p)
  else if hw_is_interval var then
    r ← snd_interval_refine_last (hw_param_interval p var); Some (store_interval_pos var r p)
  else None.

(** The bound that a value and a side stand for. *)
Definition open_min (val dir : Z) : Z * bool :=
  if 0 <? dir then (val, true)
  else if (dir <? 0) && (0 <? val) then (val - 1, true)
  else (val, false).
Definition open_max (val dir : Z) : Z * bool :=
  if dir <? 0 then (val, true)
  else if 0 <? dir then (u32 (val + 1), true)
  else (val, false).

Definition hw_param_set_min (var val dir : Z) (p : hw_params) : option (Z * hw_params) :=
  let '(val, openmin) := open_min val dir in
  if hw_is_mask var then
    r ← snd_mask_refine_min (hw_param_mask p var) (u32 (val + Z.b2z openmin));
    Some (store_mask var r p)
  else if hw_is_interval var then
    Some (store_interval var (snd_interval_refine_min (hw_param_interval p var) val openmin) p)
  else None.

Definition hw_param_set_max (var val dir : Z) (p : hw_params) : option (Z * hw_params) :=
  let '(val, openmax) := open_max val dir in
  if hw_is_mask var then
    r ← (if (val =? 0) && openmax then Some (- E_INVAL, snd_mask_none (hw_param_mask p var))
         else snd_mask_refine_max (hw_param_mask p var) (u32 (val - Z.b2z openmax)));
    Some (store_mask var r p)
  else if hw_is_interval var then
    Some (store_interval var (snd_interval_refine_max (hw_param_interval p var) val openmax) p)
  else None.

(** Two refinements one after the other. *)
Definition both_codes (c1 c2 : Z) : Z :=
  if c2 <? 0 then c2 else if negb (c1 =? 0) || negb (c2 =? 0) then 1 else 0.

Definition hw_param_set_minmax (var min mindir max maxdir : Z) (p : hw_params)
    : option (Z * hw_params) :=
  let '(min, openmin) := open_min min mindir in
  let '(max, openmax) := open_max max maxdir in
  if hw_is_mask var then
    let m := hw_param_mask p var in
    if (max =? 0) && openmax then Some (store_mask var (- E_INVAL, snd_mask_none m) p) else
    '(c1, m) ← snd_mask_refine_min m (u32 (min + Z.b2z openmin));
    if c1 <? 0 then Some (store_mask var (c1, m) p) else
    '(c2, m) ← snd_mask_refine_max m (u32 (max - Z.b2z openmax));
    Some (store_mask var (both_codes c1 c2, m) p)
  else if hw_is_interval var then
    let '(c1, i) := snd_interval_refine_min (hw_param_interval p var) min openmin in
    if c1 <? 0 then Some (store_interval var (c1, i) p) else
    let '(c2, i) := snd_interval_refine_max i max openmax in
    Some (store_interval var (both_codes c1 c2, i) p)
  else None.

Definition hw_param_set (var val dir : Z) (p : hw_params) : option (Z * hw_params) :=
  if hw_is_mask var then
    let m := hw_param_mask p var in
    if (val =? 0) && (dir <? 0) then Some (store_mask var (- E_INVAL, snd_mask_none m) p) else
    let val := if 0 <? dir then u32 (val + 1) else if dir <? 0 then val - 1 else val in
    r ← snd_mask_refine_set m val; Some (store_mask var r p)
  else if hw_is_interval var then
    let i := hw_param_interval p var in
    if (val =? 0) && (dir <? 0) then Some (store_interval var (- E_INVAL, snd_interval_none i) p)
    else if dir =? 0 then Some (store_interval var (snd_interval_refine_set i val) p)
    else
      let t := if dir <? 0 then Interval (u32 (val - 1)) val true true false false
               else Interval val (u32 (val + 1)) true true false false in
      Some (store_interval var (snd_interval_refine i t) p)
  else None.

Definition hw_param_set_mask (var : Z) (val : mask) (p : hw_params) : option (Z * hw_params) :=
  if negb (hw_is_mask var) then None else
  Some (store_mask var (snd_mask_refine (hw_param_mask p var) val) p).

(** [_snd_pcm_hw_param_refine]: a parameter that is neither is left alone. *)
Definition hw_param_refine (var : Z) (src p : hw_params) : Z * hw_params :=
  if hw_is_mask var then
    store_mask var (snd_mask_refine (hw_param_mask p var) (hw_param_mask src var)) p
  else if hw_is_interval var then
    store_interval var (snd_interval_refine (hw_param_interval p var) (hw_param_interval src var)) p
  else (0, p).

(** The last error is the result; the others are still refined. *)
Fixpoint params_refine_loop (l : list Z) (vars : Z) (src p : hw_params) (err : Z) : Z * hw_params :=
  match l with
  | [] => (err, p)
  | k :: l =>
      if Z.land vars (bit_of k) =? 0 then params_refine_loop l vars src p err else
      let '(c, p) := hw_param_refine k src p in
      params_refine_loop l vars src p (if c <? 0 then c else err)
  end.

Definition hw_params_refine (vars : Z) (src p : hw_params) : Z * hw_params :=
  let '(err, p) := params_refine_loop (seqZ 0 (TICK_TIME + 1)) vars src p 0 in
  (err, p <| p_info := Z.land (p_info p) (p_info src) |> <| p_flags := p_flags src |>).

(** ** The functions of the interface *)

Inductive snd_set_mode := SND_CHANGE | SND_TRY | SND_TEST.

Section Device.
(** [snd_pcm_hw_refine] of the device. *)
Context (hw_refine : hw_params -> option (Z * hw_params)).

(** The space of the caller: a test works on a copy, a try restores it after an error. *)
Definition after_ok (mode : snd_set_mode) (p q : hw_params) : hw_params :=
  match mode with SND_TEST => p | _ => q end.
Definition after_error (mode : snd_set_mode) (p q : hw_params) : hw_params :=
  match mode with SND_CHANGE => q | _ => p end.

Definition is_test (mode : snd_set_mode) : bool := match mode with SND_TEST => true | _ => false end.

(** [set_integer], [set] and [set_mask] differ in when a test refines. *)
Definition narrow (mode : snd_set_mode) (refine_too : bool) (step : option (Z * hw_params))
    (p : hw_params) : option (Z * hw_params) :=
  '(err, q) ← step;
  if err <? 0 then Some (err, after_error mode p q) else
  if refine_too && negb (p_rmask q =? 0) then
    '(err, q) ← hw_refine q;
    if err <? 0 then Some (err, after_error mode p q) else Some (0, after_ok mode p q)
  else Some (0, after_ok mode p q).

Definition snd_pcm_hw_param_set_integer (mode : snd_set_mode) (var : Z) (p : hw_params)
    : option (Z * hw_params) :=
  narrow mode true (hw_param_set_integer var p) p.

Definition snd_pcm_hw_param_set (mode : snd_set_mode) (var val dir : Z) (p : hw_params)
    : option (Z * hw_params) :=
  narrow mode (negb (is_test mode) || hw_is_interval var) (hw_param_set var val dir p) p.

Definition snd_pcm_hw_param_set_mask (mode : snd_set_mode) (var : Z) (val : mask) (p : hw_params)
    : option (Z * hw_params) :=
  narrow mode (negb (is_test mode)) (hw_param_set_mask var val p) p.

(** [set_min] and [set_max] return the new bound; [get] reads it. *)
Definition narrow_bound (mode : snd_set_mode) (var : Z) (step : option (Z * hw_params))
    (get : hw_params -> Z -> option (Z * Z)) (val dir : Z) (p : hw_params)
    : option (Z * hw_params * (Z * Z)) :=
  '(err, q) ← step;
  if err <? 0 then Some (err, after_error mode p q, (val, dir)) else
  if (negb (is_test mode) || hw_is_interval var) && negb (p_rmask q =? 0) then
    '(err, q) ← hw_refine q;
    if err <? 0 then Some (err, after_error mode p q, (val, dir)) else
    empty ← snd_pcm_hw_param_empty q var;
    if empty : bool then Some (- E_NOENT, after_error mode p q, (val, dir)) else
    v ← get q var; Some (0, after_ok mode p q, v)
  else v ← get q var; Some (0, after_ok mode p q, v).

Definition snd_pcm_hw_param_set_min (mode : snd_set_mode) (var val dir : Z) (p : hw_params)
    : option (Z * hw_params * (Z * Z)) :=
  narrow_bound mode var (hw_param_set_min var val dir p) snd_pcm_hw_param_get_min val dir p.

Definition snd_pcm_hw_param_set_max (mode : snd_set_mode) (var val dir : Z) (p : hw_params)
    : option (Z * hw_params * (Z * Z)) :=
  narrow_bound mode var (hw_param_set_max var val dir p) snd_pcm_hw_param_get_max val dir p.

Definition snd_pcm_hw_param_set_minmax (mode : snd_set_mode) (var min mindir max maxdir : Z)
    (p : hw_params) : option (Z * hw_params * (Z * Z) * (Z * Z)) :=
  '(err, q) ← hw_param_set_minmax var min mindir max maxdir p;
  if err <? 0 then Some (err, after_error mode p q, (min, mindir), (max, maxdir)) else
  '(err, q) ← (if (negb (is_test mode) || hw_is_interval var) && negb (p_rmask q =? 0)
               then hw_refine q else Some (0, q));
  if err <? 0 then Some (err, after_error mode p q, (min, mindir), (max, maxdir)) else
  lo ← snd_pcm_hw_param_get_min q var; hi ← snd_pcm_hw_param_get_max q var;
  Some (0, after_ok mode p q, lo, hi).

(** [set_first] and [set_last], with the value that remains. *)
Definition narrow_end (step : option (Z * hw_params)) (var : Z)
    : option (Z * hw_params * option (Z * Z)) :=
  '(err, q) ← step;
  if err <? 0 then Some (err, q, None) else
  '(err, q) ← (if negb (p_rmask q =? 0) then hw_refine q else Some (0, q));
  if err <? 0 then Some (err, q, None) else
  '(err, v) ← snd_pcm_hw_param_get q var; Some (err, q, v).

Definition snd_pcm_hw_param_set_first (var : Z) (p : hw_params) : option (Z * hw_params * option (Z * Z)) :=
  narrow_end (hw_param_set_first var p) var.
Definition snd_pcm_hw_param_set_last (var : Z) (p : hw_params) : option (Z * hw_params * option (Z * Z)) :=
  narrow_end (hw_param_set_last var p) var.

(** The last step of [set_near]. *)
Definition near_end (last : bool) (var : Z) (p : hw_params) : option (Z * hw_params * option (Z * Z)) :=
  if last then snd_pcm_hw_param_set_last var p else snd_pcm_hw_param_set_first var p.

(** The value nearest to [val]: the space from [val] on and the space below are tried. *)
Definition snd_pcm_hw_param_set_near (var val valdir : Z) (p : hw_params)
    : option (Z * hw_params * option (Z * Z)) :=
  let best := if INT_MAX <? val then INT_MAX else val in
  let '(max, maxdir) :=
    if 0 <? valdir then (best, 0) else if valdir =? 0 then (best, -1) else (u32 (best - 1), 1) in
  '(err, q, (min, mindir)) ← snd_pcm_hw_param_set_min SND_CHANGE var best valdir p;
  let i := hw_param_interval q var in
  single ← (if i_empty i then Some false else snd_interval_single i);
  if single : bool then v ← snd_pcm_hw_param_get_min q var; Some (0, q, Some v)
  else if 0 <=? err then
    if (min =? best) && (mindir =? valdir) then near_end false var q else
    '(err, q1, (max, maxdir)) ← snd_pcm_hw_param_set_max SND_CHANGE var max maxdir p;
    if err <? 0 then near_end false var q else
    nearer ← boundary_nearer (wrap32 max) maxdir best valdir (wrap32 min) mindir;
    if nearer : bool then near_end true var q1 else near_end false var q
  else
    '(err, q1, _) ← snd_pcm_hw_param_set_max SND_CHANGE var max maxdir p;
    if err <? 0 then Some (err, q1, None) else near_end true var q1.
End Device.
