(* ===== verification/PcmSetThms.v ===== *)
(** * alsa-lib: setting a parameter keeps the configurations that have the value *)

From Stdlib Require Import QArith Lqa.
From S2P Require Import Prelude.
From S2P Require Import CString.
From S2P Require Import PcmInterval.
From S2P Require Import PcmIntervalThms.
From S2P Require Import PcmMask.
From S2P Require Import PcmMaskThms.
From S2P Require Import PcmParams.
From S2P Require Import PcmParamsThms.
From S2P Require Import PcmSet.

Open Scope Z_scope.

(** The loops over the parameters give the whole space. *)
Lemma hw_params_any_is : hw_params_any = Some snd_pcm_hw_params_any.
Proof. vm_compute. done. Qed.

(** ** Modes *)

Section Modes.
Context (hw_refine : hw_params -> option (Z * hw_params)).

(** A test never changes the space of the caller, and a try does not after an error. *)
Definition transactional (mode : snd_set_mode) (code : Z) (p p' : hw_params) : Prop :=
  (mode = SND_TEST -> p' = p) /\ (mode = SND_TRY -> code < 0 -> p' = p).

Lemma after_ok_transactional mode p q : transactional mode 0 p (after_ok mode p q).
Proof. destruct mode; split; try done; lia. Qed.
Lemma after_error_transactional mode c p q : transactional mode c p (after_error mode p q).
Proof. by destruct mode. Qed.

#[local] Hint Resolve after_ok_transactional after_error_transactional : core.

Lemma narrow_transactional mode b step p c p' :
  narrow hw_refine mode b step p = Some (c, p') -> transactional mode c p p'.
Proof.
  unfold narrow. destruct step as [[err q]|]; [|done]. cbn.
  destruct (err <? 0); [intros [= <- <-]; auto|].
  destruct (b && negb (p_rmask q =? 0)); [|intros [= <- <-]; auto].
  destruct (hw_refine q) as [[err1 q1]|]; [|done]. cbn.
  destruct (err1 <? 0); intros [= <- <-]; auto.
Qed.

Lemma narrow_bound_transactional mode var step get val dir p c p' v :
  narrow_bound hw_refine mode var step get val dir p = Some (c, p', v) -> transactional mode c p p'.
Proof.
  unfold narrow_bound. destruct step as [[err q]|]; [|done]. cbn.
  destruct (err <? 0); [intros [= <- <- <-]; auto|].
  destruct (_ && negb (p_rmask q =? 0)).
  - destruct (hw_refine q) as [[err1 q1]|]; [|done]. cbn.
    destruct (err1 <? 0); [intros [= <- <- <-]; auto|].
    destruct (snd_pcm_hw_param_empty q1 var) as [[]|]; cbn; [intros [= <- <- <-]; auto| |done].
    destruct (get q1 var); cbn; [|done]. intros [= <- <- <-]; auto.
  - destruct (get q var); cbn; [|done]. intros [= <- <- <-]; auto.
Qed.
End Modes.

(** ** Setting *)

(** What the functions rely on of [snd_pcm_hw_refine] of the device: it answers a space
    that has the configuration [g] with a smaller one that has it too, where fewer than [n]
    values can be removed from it. *)
Class KeepsConfig (g : configuration) (n : Z) (hw_refine : hw_params -> option (Z * hw_params)) : Prop :=
  device_keeps : forall p, admits p g -> space p < n ->
    exists c p', hw_refine p = Some (c, p') /\ 0 <= c /\ admits p' g /\ shrinks p' p.

(** What a step of narrowing does to a space that has the configuration *)
Definition kept (g : configuration) (p p' : hw_params) : Prop :=
  admits p' g /\ shrinks p' p /\ space p' <= space p.

Lemma kept_refl g p : admits p g -> kept g p p.
Proof. intros H. by split_and!. Qed.

Lemma kept_trans g p p1 p2 : kept g p p1 -> kept g p1 p2 -> kept g p p2.
Proof. intros (A1 & A2 & A3) (B1 & B2 & B3). split_and!; [done|by transitivity p1|lia]. Qed.

Lemma good_step_kept g p c p' (b : bool) var :
  good_step g p c p' -> kept g p (if b then mark_both var p' else p').
Proof.
  intros (Hc & Hct & Hsh & Hsp & _). destruct b; [|split_and!; try done; lia].
  split_and!; [by destruct Hct|by destruct Hsh|change (space p' <= space p); lia].
Qed.

(** *** Devices *)

(** A device without restrictions of its own *)
Definition soft_device (t0 : snd_interval) (fuel : nat) (p : hw_params) : option (Z * hw_params) :=
  match snd_pcm_hw_refine_soft t0 fuel p with Done c p => Some (c, p) | _ => None end.

#[export] Instance soft_device_keeps t0 g fuel :
  admissible g -> KeepsConfig g (Z.of_nat fuel) (soft_device t0 fuel).
Proof.
  intros Hg p Hct Hsp. unfold soft_device.
  destruct (refine_soft_end t0 g p fuel Hg Hct Hsp) as (p' & -> & H1 & H2 & _). by exists 0, p'.
Qed.

(** A device that can do the configurations of the space [own] and no others *)
Definition limited_device (own : hw_params) (t0 : snd_interval) (fuel : nat) (p : hw_params)
    : option (Z * hw_params) :=
  let '(c, p) := hw_params_refine (Z.ones 20) own p in
  if c <? 0 then Some (c, p) else soft_device t0 fuel p.

Lemma hw_param_refine_keeps g src p k : admissible g -> admits src g -> admits p g -> 0 <= k <= 19 ->
  let '(c, p') := hw_param_refine k src p in 0 <= c /\ kept g p p'.
Proof.
  intros Hg Hsrc Hct Hk. unfold hw_param_refine.
  destruct (hw_is_mask k) eqn:Em; [|destruct (hw_is_interval k) eqn:Ei].
  - assert (k ∈ mask_vars) as Hv.
    { unfold hw_is_mask, SUBFORMAT in Em. unfold mask_vars, ACCESS, FORMAT, SUBFORMAT.
      rewrite !elem_of_cons, elem_of_nil. lia. }
    destruct (snd_mask_refine (hw_param_mask p k) (hw_param_mask src k)) as [c m] eqn:E.
    destruct (refine_mask_step g Hg p _ k c m Hct Hv E) as [Hc Hs];
      [by eapply contains_mask_ok|by apply (ct_masks src g Hsrc)|].
    split; [done|]. by eapply good_step_kept.
  - assert (k ∈ interval_vars) as Hv.
    { apply interval_var_range. unfold hw_is_interval, SAMPLE_BITS, TICK_TIME in Ei. lia. }
    destruct (snd_interval_refine (hw_param_interval p k) (hw_param_interval src k)) as [c i] eqn:E.
    destruct (refine_has _ _ _ _ _ E (ct_intervals p g Hct k Hv) (ct_intervals src g Hsrc k Hv))
      as (H1 & H2 & H3 & H4).
    split; [done|]. eapply good_step_kept. by eapply set_interval_step.
  - split; [done|]. by apply kept_refl.
Qed.

Lemma params_refine_keeps g src vars l : admissible g -> admits src g ->
  Forall (fun k => 0 <= k <= 19) l -> forall p, admits p g ->
  let '(c, p') := params_refine_loop l vars src p 0 in c = 0 /\ kept g p p'.
Proof.
  intros Hg Hsrc Hl. induction Hl as [|k l Hk _ IH]; intros p Hct; cbn [params_refine_loop].
  { split; [done|]. by apply kept_refl. }
  destruct (Z.land vars (bit_of k) =? 0); [by apply IH|].
  pose proof (hw_param_refine_keeps g src p k Hg Hsrc Hct Hk) as Hstep.
  destruct (hw_param_refine k src p) as [c p1]. destruct Hstep as [Hc H1].
  rewrite (proj2 (Z.ltb_ge c 0)) by done. pose proof (IH p1 (proj1 H1)) as H2.
  destruct (params_refine_loop l vars src p1 0) as [c' p2]. destruct H2 as [-> H2].
  split; [done|]. by eapply kept_trans.
Qed.

#[export] Instance limited_device_keeps own t0 g fuel :
  admissible g -> admits own g -> KeepsConfig g (Z.of_nat fuel) (limited_device own t0 fuel).
Proof.
  intros Hg Hown p Hct Hsp. unfold limited_device, hw_params_refine.
  pose proof (params_refine_keeps g own (Z.ones 20) (seqZ 0 (TICK_TIME + 1)) Hg Hown) as Hloop.
  assert (Forall (fun k => 0 <= k <= 19) (seqZ 0 (TICK_TIME + 1))) as Hrange.
  { apply Forall_forall. intros k Hk%elem_of_seqZ. unfold TICK_TIME in Hk. lia. }
  specialize (Hloop Hrange p Hct). destruct (params_refine_loop _ _ own p 0) as [c p1].
  destruct Hloop as [-> (H1 & H2 & H3)]. cbn [Z.ltb Z.compare].
  match goal with |- context [soft_device _ _ ?q] => set (p2 := q) end.
  assert (admits p2 g /\ shrinks p2 p /\ space p2 <= space p) as (A1 & A2 & A3)
    by (split_and!; [by destruct H1|by destruct H2|exact H3]).
  destruct (soft_device_keeps t0 g fuel Hg p2 A1 ltac:(lia)) as (c' & p' & E & Hc & B1 & B2).
  exists c', p'. split_and!; try done. by transitivity p2.
Qed.

(** *** One value *)

Lemma single_value_has val q : 0 <= val <= UINT_MAX -> (q == inject_Z val)%Q ->
  has (Interval val val false false true false) q.
Proof.
  intros Hv Hq. apply has_intro; [done..|]. split_and!; [done| | |]; unfold above, below; cbn.
  - rewrite Hq. apply Qle_refl.
  - rewrite Hq. apply Qle_refl.
  - intros _. by exists val.
Qed.

(** The parameter has the value in the configuration, ... *)
Definition value_in (g : configuration) (var val : Z) : Prop :=
  (var ∈ interval_vars /\ 0 <= val <= UINT_MAX /\ (c_val g var == inject_Z val)%Q)
  \/ (var ∈ mask_vars /\ c_mask g var = val).

(** ... and no other in the space. *)
Definition only_value (p : hw_params) (var val : Z) : Prop :=
  (var ∈ interval_vars -> forall q, q ∈ hw_param_interval p var -> (q == inject_Z val)%Q)
  /\ (var ∈ mask_vars -> forall k, 0 <= k < 256 -> mbit (hw_param_mask p var) k = true -> k = val).

Lemma only_value_shrinks p p' var val : shrinks p' p -> only_value p var val -> only_value p' var val.
Proof.
  intros [H1 H2] [A B]. split.
  - intros Hv q Hq. apply A, H2; done.
  - intros Hv k Hk Hb. apply B, H1; done.
Qed.

Lemma vars_disjoint var : var ∈ interval_vars -> var ∈ mask_vars -> False.
Proof. intros H1%interval_var_range H2%mask_var_range. lia. Qed.

(** [_snd_pcm_hw_param_set] with one of the values of an interval or of a mask *)
Lemma set_value_kept g p var val : admissible g -> admits p g -> value_in g var val ->
  exists c p1, hw_param_set var val 0 p = Some (c, p1) /\ 0 <= c /\ kept g p p1 /\
    only_value p1 var val.
Proof.
  intros Hg Hct Hval. unfold hw_param_set.
  destruct Hval as [(Hv & Hrange & Hq)|(Hv & Hm)].
  - pose proof Hv as Hr%interval_var_range.
    assert (hw_is_mask var = false) as -> by (unfold hw_is_mask, SUBFORMAT; lia).
    assert (hw_is_interval var = true) as -> by (unfold hw_is_interval, SAMPLE_BITS, TICK_TIME; lia).
    rewrite andb_false_r. cbn [Z.eqb].
    destruct (snd_interval_refine_set (hw_param_interval p var) val) as [c i] eqn:E.
    unfold snd_interval_refine_set in E.
    pose proof (single_value_has val (c_val g var) Hrange Hq) as Hsingle.
    destruct (refine_has _ _ _ _ _ E (ct_intervals p g Hct var Hv) Hsingle) as (Hc & Hi & Hsub & Hw).
    destruct (refine_facts _ _ _ _ E (proj1 (ct_intervals p g Hct var Hv)) (proj1 Hsingle) eq_refl)
      as (_ & Hset & _).
    eexists _, _. split; [reflexivity|]. split; [done|]. split.
    { eapply good_step_kept. by eapply set_interval_step. }
    split; [|intros Hv'; by destruct (vars_disjoint var)]. intros _ q. cbn [fst snd].
    assert (hw_param_interval (set_interval var i p) var = i) as Hget
      by (rewrite get_set_interval; [by rewrite decide_True|apply Hct|done|done]).
    assert (hw_param_interval (if negb (c =? 0) then mark_both var (set_interval var i p)
      else set_interval var i p) var = i) as -> by by case_match.
    intros [_ (_ & Ha & Hb & _)]%Hset. cbn in *. lra.
  - pose proof (mask_var_range var Hv) as Hr. destruct (ad_masks g Hg var Hv) as [Hval _].
    assert (hw_is_mask var = true) as -> by (unfold hw_is_mask, SUBFORMAT; lia).
    rewrite andb_false_r. cbn [Z.ltb Z.compare]. rewrite Hm in Hval.
    pose proof (ct_masks p g Hct var Hv) as Hbit. rewrite Hm in Hbit.
    destruct (mask_refine_set_has _ val (contains_mask_ok p g var Hct Hv) Hval Hbit)
      as (c & m & -> & Hc & Hok & Hd & Hbits). cbn [mbind option_bind].
    assert (forall k, 0 <= k < 256 -> mbit m k = true -> mbit (hw_param_mask p var) k = true) as Hsub
      by (intros k Hk; rewrite Hbits by done; by intros [? _]%andb_true_iff).
    eexists _, _. split; [reflexivity|]. split; [done|]. split.
    { eapply (good_step_kept g p (if var =? FORMAT then 0 else 0)).
      apply set_mask_step; try done; rewrite ?Hm; try done; try lia.
      - by rewrite Hbits, Hbit, Z.eqb_refl.
      - intros v Hv'. apply (ad_masks g Hg v Hv').
      - intros _. rewrite Z.sub_0_r. by apply mask_count_le. }
    split; [intros Hv'; by destruct (vars_disjoint var)|]. intros _ k Hk. cbn [fst snd].
    assert (mbit (hw_param_mask (if negb (c =? 0) then mark_both var (set_mask var m p)
      else set_mask var m p) var) k = mbit m k) as ->.
    { transitivity (mbit (hw_param_mask (set_mask var m p) var) k); [by case_match|].
      rewrite get_set_mask; [by rewrite decide_True|apply Hct|done..]. }
    rewrite Hbits by done. intros [_ H]%andb_true_iff. by apply Z.eqb_eq.
Qed.

(** C37.  Setting a parameter: on every device that keeps a configuration, giving a
    parameter exactly the value that it has in that configuration (an interval, or the
    access, the format or the subformat) succeeds, whatever the mode: the space still has
    the configuration, no value was added, and no other value of the parameter is left.
    A test leaves the caller's space alone. *)
Theorem hw_param_set_keeps g n hw_refine `{!KeepsConfig g n hw_refine} p mode var val :
  admissible g -> admits p g -> space p < n -> value_in g var val ->
  exists p', snd_pcm_hw_param_set hw_refine mode var val 0 p = Some (0, p') /\
    admits p' g /\ shrinks p' p /\
    (mode = SND_TEST -> p' = p) /\ (mode <> SND_TEST -> only_value p' var val).
Proof.
  intros Hg Hct Hn Hval.
  destruct (set_value_kept g p var val Hg Hct Hval) as (c & p1 & E & Hc & (H1 & H2 & H3) & Ho).
  unfold snd_pcm_hw_param_set, narrow. rewrite E. cbn [mbind option_bind].
  rewrite (proj2 (Z.ltb_ge c 0)) by done.
  assert (forall p2, admits p2 g -> shrinks p2 p1 -> exists p', Some (0, after_ok mode p p2) = Some (0, p') /\
    admits p' g /\ shrinks p' p /\ (mode = SND_TEST -> p' = p) /\
    (mode <> SND_TEST -> only_value p' var val)) as Hend.
  { intros p2 A1 A2. exists (after_ok mode p p2). split; [done|].
    destruct mode; cbn; split_and!; try done; try (by transitivity p1);
      intros _; by eapply only_value_shrinks. }
  destruct (_ && negb (p_rmask p1 =? 0)); [|by apply Hend].
  destruct (device_keeps (g := g) (n := n) p1 H1 ltac:(lia)) as (c' & p2 & -> & Hc' & A1 & A2). cbn [mbind option_bind].
  rewrite (proj2 (Z.ltb_ge c' 0)) by done. by apply Hend.
Qed.

(** ** A device with limits *)

(** Rates from 8000 to 48000 only *)
Definition narrow_rate : snd_interval := Interval 8000 48000 false false false false.
Definition modest : hw_params := set_interval RATE narrow_rate snd_pcm_hw_params_any.

Lemma modest_admits : admits modest cd_config.
Proof.
  assert (good_step cd_config snd_pcm_hw_params_any 0 modest) as (_ & H & _); [|exact H].
  apply set_interval_step; [apply any_contains|apply interval_var_range; unfold RATE; lia|done| | |done].
  - apply has_intro; try (split_and!; done); vm_compute; done.
  - assert (hw_param_interval snd_pcm_hw_params_any RATE = snd_interval_any) as -> by reflexivity.
    intros q (He & Ha & Hb & Hi). unfold above, below in *.
    split_and!; cbn in *; try done; unfold inject_Z, UINT_MAX in *; lra.
Qed.

#[export] Instance modest_keeps : KeepsConfig cd_config (Z.of_nat (Z.to_nat 200000000000))
    (limited_device modest snd_interval_any (Z.to_nat 200000000000)) :=
  limited_device_keeps _ _ _ _ cd_admissible modest_admits.

Lemma hw_param_set_keeps_witness :
  exists p', snd_pcm_hw_param_set (limited_device modest snd_interval_any (Z.to_nat 200000000000))
      SND_TRY FORMAT (c_format cd_config) 0 snd_pcm_hw_params_any = Some (0, p') /\
    admits p' cd_config /\ shrinks p' snd_pcm_hw_params_any /\
    (SND_TRY = SND_TEST -> p' = snd_pcm_hw_params_any) /\
    (SND_TRY <> SND_TEST -> only_value p' FORMAT (c_format cd_config)).
Proof.
  apply (hw_param_set_keeps cd_config _ _ snd_pcm_hw_params_any SND_TRY FORMAT _
    cd_admissible any_contains).
  - rewrite Z2Nat.id by lia. vm_compute. reflexivity.
  - right. split; [right; left|reflexivity].
Defined.
