(* ===== verification/PcmCodec.v ===== *)
(** * alsa-lib: the sample codecs
    ([src/alsa-lib/src/pcm/pcm_mulaw.c], [pcm_alaw.c] and [pcm_adpcm.c])

    The functions that convert one sample. *)

From S2P Require Import Prelude.
From S2P Require Import CString.

(** A value of type [short], and one of type [unsigned char]. *)
Definition short (x : Z) : Z := (x + 32768) mod 65536 - 32768.
Definition uchar (x : Z) : Z := x mod 256.

(** [val & bits] as a condition. *)
Definition anyof (val bits : Z) : bool := negb (Z.land val bits =? 0).

(** ** mu-law *)

(** The common part of the two [val_seg]. *)
Definition seg_from (r val : Z) : Z :=
  let '(val, r) := if anyof val 0xf0 then (Z.shiftr val 4, r + 4) else (val, r) in
  let '(val, r) := if anyof val 0x0c then (Z.shiftr val 2, r + 2) else (val, r) in
  if anyof val 0x02 then r + 1 else r.

Definition ulaw_val_seg (val : Z) : Z := seg_from 0 (Z.shiftr val 7).

Definition s16_to_ulaw (pcm_val : Z) : Z :=
  let '(pcm_val, mask) :=
    if pcm_val <? 0 then (0x84 - pcm_val, 0x7f) else (pcm_val + 0x84, 0xff) in
  let pcm_val := if 0x7fff <? pcm_val then 0x7fff else pcm_val in
  let seg := ulaw_val_seg pcm_val in
  let uval := uchar (Z.lor (Z.shiftl seg 4) (Z.land (Z.shiftr pcm_val (seg + 3)) 0x0f)) in
  uchar (Z.lxor uval mask).

Definition ulaw_to_s16 (u_val : Z) : Z :=
  let u_val := uchar (Z.lnot u_val) in
  let t := Z.shiftl (Z.land u_val 0x0f) 3 + 0x84 in
  let t := Z.shiftl t (Z.shiftr (Z.land u_val 0x70) 4) in
  if anyof u_val 0x80 then 0x84 - t else t - 0x84.

(** ** A-law *)

Definition alaw_val_seg (val : Z) : Z := seg_from 1 (Z.shiftr val 8).

Definition s16_to_alaw (pcm_val : Z) : Z :=
  let '(pcm_val, mask) :=
    if 0 <=? pcm_val then (pcm_val, 0xD5)
    else (if 0x7fff <? - pcm_val then 0x7fff else - pcm_val, 0x55) in
  let aval :=
    if pcm_val <? 256 then uchar (Z.shiftr pcm_val 4)
    else
      let seg := alaw_val_seg pcm_val in
      uchar (Z.lor (Z.shiftl seg 4) (Z.land (Z.shiftr pcm_val (seg + 3)) 0x0f)) in
  uchar (Z.lxor aval mask).

Definition alaw_to_s16 (a_val : Z) : Z :=
  let a_val := Z.lxor a_val 0x55 in
  let t := Z.land a_val 0x7f in
  let t :=
    if t <? 16 then Z.shiftl t 4 + 8
    else
      let seg := Z.land (Z.shiftr t 4) 0x07 in
      Z.shiftl (Z.shiftl (Z.land t 0x0f) 4 + 0x108) (seg - 1) in
  if anyof a_val 0x80 then t else - t.

(** ** IMA ADPCM *)

Record adpcm_state := AdpcmState { pred_val : Z; step_idx : Z }.

Definition IndexAdjust : list Z := [-1; -1; -1; -1; 2; 4; 6; 8].

Definition StepSize : list Z :=
  [7; 8; 9; 10; 11; 12; 13; 14; 16; 17;
   19; 21; 23; 25; 28; 31; 34; 37; 41; 45;
   50; 55; 60; 66; 73; 80; 88; 97; 107; 118;
   130; 143; 157; 173; 190; 209; 230; 253; 279; 307;
   337; 371; 408; 449; 494; 544; 598; 658; 724; 796;
   876; 963; 1060; 1166; 1282; 1411; 1552; 1707; 1878; 2066;
   2272; 2499; 2749; 3024; 3327; 3660; 4026; 4428; 4871; 5358;
   5894; 6484; 7132; 7845; 8630; 9493; 10442; 11487; 12635; 13899;
   15289; 16818; 18500; 20350; 22385; 24623; 27086; 29794; 32767].

(** A table outside of which there is nothing. *)
Definition adpcm_table (l : list Z) (i : Z) : option Z := if 0 <=? i then l !! Z.to_nat i else None.

(** Both functions move and clamp the prediction and the index the same way. *)
Definition adpcm_update (state : adpcm_state) (sign : bool) (pred_diff idx : Z) : option adpcm_state :=
  let pred := pred_val state + (if sign then - pred_diff else pred_diff) in
  let pred := if 32767 <? pred then 32767 else if pred <? -32768 then -32768 else pred in
  adjust ← adpcm_table IndexAdjust idx;
  let i := step_idx state + adjust in
  let i := if i <? 0 then 0 else if 88 <? i then 88 else i in
  Some (AdpcmState pred i).

(** "Divide and clamp": the bits [i] of the index from 4 down. *)
Fixpoint encode_bits (bits : list Z) (step diff pred_diff adjust_idx : Z) : Z * Z :=
  match bits with
  | [] => (pred_diff, adjust_idx)
  | i :: bits =>
      if step <=? diff then
        encode_bits bits (Z.shiftr step 1) (short (diff - step)) (short (pred_diff + step))
          (Z.lor adjust_idx i)
      else encode_bits bits (Z.shiftr step 1) diff pred_diff adjust_idx
  end.

Definition adpcm_encoder (sl : Z) (state : adpcm_state) : option (Z * adpcm_state) :=
  let diff := short (sl - pred_val state) in
  let sign := diff <? 0 in
  let diff := if sign then short (- diff) else diff in
  step ← adpcm_table StepSize (step_idx state);
  let '(pred_diff, adjust_idx) := encode_bits [4; 2; 1] step diff (Z.shiftr step 3) 0 in
  state ← adpcm_update state sign pred_diff adjust_idx;
  Some (Z.lor (if sign then 8 else 0) adjust_idx, state).

Fixpoint decode_bits (bits : list Z) (code step pred_diff : Z) : Z :=
  match bits with
  | [] => pred_diff
  | i :: bits =>
      decode_bits bits code (Z.shiftr step 1)
        (if anyof code i then short (pred_diff + step) else pred_diff)
  end.

(** The result is the prediction. *)
Definition adpcm_decoder (code : Z) (state : adpcm_state) : option (Z * adpcm_state) :=
  let sign := anyof code 8 in
  let code := Z.land code 7 in
  step ← adpcm_table StepSize (step_idx state);
  let pred_diff := decode_bits [4; 2; 1] code step (Z.shiftr step 3) in
  state ← adpcm_update state sign pred_diff code;
  Some (pred_val state, state).
