(* ===== verification/PcmCodecThms.v ===== *)
(** * alsa-lib: the codecs lose nothing but precision *)

From S2P Require Import Prelude.
From S2P Require Import CString.
From S2P Require Import DrawThms.
From S2P Require Import PcmCodec.

(** ** mu-law and A-law *)

(** [f] holds of all bytes, or of all 16-bit samples. *)
Lemma all_bytes (f : Z -> bool) c : all_from 256 0 f = true -> 0 <= c < 256 -> f c = true.
Proof. intros H Hc. apply (all_from_spec 256 0 f c H). lia. Qed.

Lemma all_samples (f : Z -> bool) x :
  all_from (Z.to_nat 65536) (-32768) f = true -> -32768 <= x < 32768 -> f x = true.
Proof. intros H Hx. apply (all_from_spec (Z.to_nat 65536) (-32768) f x H). lia. Qed.

(** How far a sample may be moved: half a step of its segment. *)
Definition close_to (x y floor bias : Z) : bool := Z.abs (y - x) <=? Z.max floor ((Z.abs x + bias) / 32).

(** C38.  The telephone codecs: decoding a code word and encoding it again gives it
    back (mu-law has two words for 0, of which one comes back); encoding and
    decoding a sample moves it by at most a 32nd of its size, or 8 for small
    samples, and keeps the order of samples. *)
Theorem g711_round_trip :
  (forall c, 0 <= c < 256 -> s16_to_alaw (alaw_to_s16 c) = c) /\
  (forall c, 0 <= c < 256 -> s16_to_ulaw (ulaw_to_s16 c) = if c =? 0x7f then 0xff else c) /\
  (forall x, -32768 <= x < 32768 ->
     close_to x (alaw_to_s16 (s16_to_alaw x)) 8 0 = true /\
     close_to x (ulaw_to_s16 (s16_to_ulaw x)) 8 0x84 = true) /\
  (forall x, -32768 <= x < 32767 ->
     alaw_to_s16 (s16_to_alaw x) <= alaw_to_s16 (s16_to_alaw (x + 1)) /\
     ulaw_to_s16 (s16_to_ulaw x) <= ulaw_to_s16 (s16_to_ulaw (x + 1))).
Proof.
  split_and!.
  - intros c Hc. apply Z.eqb_eq. by apply (all_bytes (fun c => s16_to_alaw (alaw_to_s16 c) =? c)).
  - intros c Hc. apply Z.eqb_eq.
    by apply (all_bytes (fun c => s16_to_ulaw (ulaw_to_s16 c) =? if c =? 0x7f then 0xff else c)).
  - intros x Hx. apply andb_true_iff.
    apply (all_samples (fun x => close_to x (alaw_to_s16 (s16_to_alaw x)) 8 0
      && close_to x (ulaw_to_s16 (s16_to_ulaw x)) 8 0x84)); [by vm_compute|done].
  - intros x Hx. assert ((x =? 32767) || ((alaw_to_s16 (s16_to_alaw x) <=? alaw_to_s16 (s16_to_alaw (x + 1)))
      && (ulaw_to_s16 (s16_to_ulaw x) <=? ulaw_to_s16 (s16_to_ulaw (x + 1)))) = true) as H; [|lia].
    apply (all_samples (fun x => (x =? 32767) ||
      ((alaw_to_s16 (s16_to_alaw x) <=? alaw_to_s16 (s16_to_alaw (x + 1)))
       && (ulaw_to_s16 (s16_to_ulaw x) <=? ulaw_to_s16 (s16_to_ulaw (x + 1)))))); [by vm_compute|lia].
Qed.

(** ** ADPCM *)

Record adpcm_ok (s : adpcm_state) : Prop := AdpcmOk {
  ao_pred : -32768 <= pred_val s <= 32767;
  ao_idx : 0 <= step_idx s <= 88 }.

Lemma table_some l i : 0 <= i < Z.of_nat (length l) -> exists x, adpcm_table l i = Some x.
Proof.
  intros H. unfold adpcm_table. rewrite (proj2 (Z.leb_le 0 i)) by lia. apply lookup_lt_is_Some_2. lia.
Qed.

Lemma update_ok s sign d i : 0 <= i <= 7 -> adpcm_ok s ->
  exists s', adpcm_update s sign d i = Some s' /\ adpcm_ok s'.
Proof.
  intros Hi Hs. unfold adpcm_update.
  destruct (table_some IndexAdjust i) as [x ->]; [cbn; lia|]. cbn. eexists. split; [done|].
  split; cbn; repeat case_match; lia.
Qed.

(** The decoder's bits are those that the encoder has set. *)
Lemma bits_agree step diff d : exists k, 0 <= k <= 7 /\
  encode_bits [4; 2; 1] step diff d 0 = (decode_bits [4; 2; 1] k step d, k).
Proof.
  cbn [encode_bits]. repeat case_match;
    match goal with |- exists k, _ /\ (_, ?a) = _ => exists a end;
    (split; [vm_compute; split; discriminate|reflexivity]).
Qed.

Lemma code_split (b : bool) k : 0 <= k <= 7 ->
  anyof (Z.lor (if b then 8 else 0) k) 8 = b /\ Z.land (Z.lor (if b then 8 else 0) k) 7 = k.
Proof.
  intros Hk. assert (k = 0 \/ k = 1 \/ k = 2 \/ k = 3 \/ k = 4 \/ k = 5 \/ k = 6 \/ k = 7) as H by lia.
  destruct b; repeat destruct H as [-> |H]; subst; done.
Qed.

(** One sample: the decoder gets to the encoder's state. *)
Lemma adpcm_one sl s : adpcm_ok s -> exists code s', adpcm_encoder sl s = Some (code, s') /\
  adpcm_decoder code s = Some (pred_val s', s') /\ adpcm_ok s' /\ 0 <= code < 16.
Proof.
  intros Hs. unfold adpcm_encoder, adpcm_decoder.
  destruct (table_some StepSize (step_idx s)) as [step ->]; [destruct Hs; cbn; lia|]. cbn [mbind option_bind].
  set (sign := short (sl - pred_val s) <? 0).
  destruct (bits_agree step (if sign then short (- short (sl - pred_val s)) else short (sl - pred_val s))
    (Z.shiftr step 3)) as (k & Hk & ->).
  destruct (update_ok s sign (decode_bits [4; 2; 1] k step (Z.shiftr step 3)) k Hk Hs) as (s' & E & Hs').
  rewrite E. cbn [mbind option_bind]. do 2 eexists. split; [done|].
  destruct (code_split sign k Hk) as [-> ->]. rewrite E. cbn. split_and!; try done.
  - destruct sign; apply Z.lor_nonneg; lia.
  - assert (k = 0 \/ k = 1 \/ k = 2 \/ k = 3 \/ k = 4 \/ k = 5 \/ k = 6 \/ k = 7) as H by lia.
    destruct sign; repeat destruct H as [-> |H]; subst; done.
Qed.

(** Streams of samples, one state per channel. *)
Fixpoint encode_all (l : list Z) (s : adpcm_state) : option (list Z * adpcm_state) :=
  match l with
  | [] => Some ([], s)
  | x :: l => '(c, s) ← adpcm_encoder x s; '(cs, s) ← encode_all l s; Some (c :: cs, s)
  end.
Fixpoint decode_all (l : list Z) (s : adpcm_state) : option (list Z * adpcm_state) :=
  match l with
  | [] => Some ([], s)
  | c :: l => '(x, s) ← adpcm_decoder c s; '(xs, s) ← decode_all l s; Some (x :: xs, s)
  end.

(** C39.  The ADPCM decoder follows the encoder: whatever the samples, encoding never
    leaves the tables, every code is a nibble, and the decoder that starts in
    the encoder's state ends in its state: the two never drift apart. *)
Theorem adpcm_lockstep l s : adpcm_ok s ->
  exists codes s', encode_all l s = Some (codes, s') /\ adpcm_ok s' /\
    Forall (fun c => 0 <= c < 16) codes /\
    exists samples, decode_all codes s = Some (samples, s') /\ length samples = length l.
Proof.
  revert s. induction l as [|x l IH]; intros s Hs; cbn [encode_all].
  { exists [], s. split_and!; try done. by exists []. }
  destruct (adpcm_one x s Hs) as (c & s1 & -> & Hdec & Hs1 & Hc). cbn.
  destruct (IH s1 Hs1) as (cs & s' & -> & Hs' & Hf & xs & Hx & Hl). cbn.
  do 2 eexists. split; [done|]. split_and!; [done|by constructor|].
  cbn [decode_all]. rewrite Hdec. cbn. rewrite Hx. cbn. eexists. split; [done|]. cbn. by rewrite Hl.
Qed.

(** The difference of two samples does not fit a [short]: the step up from the lowest
    to the highest sample is encoded as a step down. *)
Lemma adpcm_diff_wraps :
  adpcm_encoder 32767 (AdpcmState (-32768) 40) = Some (8, AdpcmState (-32768) 39).
Proof. vm_compute. done. Qed.

(** Nor does a large prediction difference: the largest step up goes down. *)
Lemma adpcm_pred_wraps :
  adpcm_decoder 7 (AdpcmState 0 82) = Some (-30849, AdpcmState (-30849) 88).
Proof. vm_compute. done. Qed.

Lemma adpcm_lockstep_witness :
  exists codes s', encode_all [0; 100; 200; -300; 32767; -32768] (AdpcmState 0 0) = Some (codes, s') /\
    adpcm_ok s' /\ Forall (fun c => 0 <= c < 16) codes /\
    exists samples, decode_all codes (AdpcmState 0 0) = Some (samples, s') /\
      length samples = length [0; 100; 200; -300; 32767; -32768].
Proof.
  apply (adpcm_lockstep [0; 100; 200; -300; 32767; -32768] (AdpcmState 0 0)). split; cbn; lia.
Defined.
